(* ===== verification/_CoqProject ===== *)
-Q . S2P
Prelude.v
Bits.v
HpackTables.v
HpackHuffman.v
HpackCodec.v
HpackBlocks.v
HpackPieces.v
Frame.v
FrameRead.v
FrameTyped.v
FlowControl.v
Lists.v
ControlBuf.v
Loopy.v
LoopyRun.v
BufWriter.v
Timeout.v
Metadata.v
FrameText.v
FrameUtil.v
Events.v
Messages.v
Bdp.v
Transport.v
TransportInv.v
TransportServer.v
TransportSpec.v
TransportFaults.v
Items.v
Endpoint.v
Keepalive.v
StreamApi.v
Serve.v
Handshake.v
Ugate.v
EndToEnd.v
HeaderPath.v
RequestPath.v
ResponsePath.v
