(* ===== verification/Prelude.v ===== *)
(** * Verification of hbone's HTTP/2 stack

    hbone carries byte streams over HTTP/2.  Its core, under src/h2, is an HTTP/2
    endpoint, client and server, derived from the transport of grpc-go and the
    http2 package of golang.org/x/net.  This development models that core and
    proves what its callers and its peers rely on, and some things they had
    better know.

    ** The program

    Bytes arrive on a connection and are cut into frames ([Framer.ReadFrame]); a
    header block is decoded by HPACK.  A reader goroutine hands each frame to a
    handler of the connection ([H2Transport]), which changes the streams, answers
    through the control buffer, and delivers data to the receive buffers of the
    streams.  Callers open streams, write and close them; what they send goes into
    the control buffer as well.  One goroutine, loopy, takes the items out of it,
    keeps the streams that have data in a round robin, respects the windows of the
    peer and writes frames into a buffered writer.  Estimators and timers sit
    beside it: flow-control windows of both directions, the bandwidth-delay
    estimator, keepalive.  The gateway (src/ugate) dials and accepts such
    connections and turns their streams into tunnels.

    ** The files

    - Prelude: machine integers, [outcome] (result, error, panic), byte strings,
      shared lemmas, the hint database [gow].  Bits: bit strings, big-endian
      numbers.
    - HpackTables, HpackHuffman, HpackCodec, HpackBlocks, HpackPieces: h2/hpack
      (tables.go, huffman.go, encode.go, hpack.go).  The tables with their index
      maps, the Huffman coder with its tree and its shift register, encoder and
      decoder, whole header blocks, and blocks in pieces.
    - Frame, FrameRead, FrameTyped: h2/frame (frame.go, errors.go, http2.go).  A
      parser and a writer for each frame type; [ReadFrame] with the order of frames
      and header blocks over CONTINUATION frames; the ranges of what it returns.
      FrameText: names, error messages and log lines of the package, with the
      framer that reads the output back.  FrameUtil: the helpers of http2.go.
    - FlowControl: h2/flowcontrol.go.  Inbound windows; the write quota as an
      interleaving of two goroutines.
    - Lists, ControlBuf, Loopy, LoopyRun: h2/controlbuf.go.  The linked lists with
      their pointers behind the class [Queue]; the control buffer over any
      [Queue]; the handler of every item and the turns of the round robin; runs of
      the writer.
    - BufWriter, Timeout, Metadata: h2/http_util.go and h2/grpcutil.  The write
      buffer, durations, status messages and binary metadata in headers.
    - Events: h2/events.go.  Bdp: h2/bdp_estimator.go.  Messages: requests and
      responses as header lists (h2_connection.go, h2_connection_server.go,
      http_util.go).
    - Transport: h2_connection.go, h2_connection_server.go, stream.go, hbone.go,
      as operations on one state record.  TransportInv and TransportServer:
      invariants of every run of a connection.  TransportSpec: what the handlers
      do, totally.  TransportFaults: where they stop or panic.  Items: what the
      operations put into the control buffer, in every run.  Endpoint: the
      connection and its writer together, with [run] of h2/controlbuf.go as a machine
      that is interleaved with the operations.  Keepalive: the two
      keepalive goroutines over the same state.  StreamApi: requests, reading with
      the window given back, contexts and codes (stream.go, hbone.go), over nio's
      receive buffer behind the class [Receiver].
    - Serve: the loops of the reading goroutines on the bytes of the connection,
      with what loopy does meanwhile.  Handshake: how a connection starts, on both
      sides.
    - Ugate: ugate/h2transport.go.  Choosing and dialing connections, the channel
      between the dial and its event handlers as a step relation, accepted
      connections and the handler of their streams.
    - EndToEnd: the components composed along the path of the data, from the
      control buffer of one endpoint to the receive buffers of the other.
      HeaderPath, RequestPath, ResponsePath: the same along the path of the
      headers, from the request of a client to the handler of the server and from
      its response to the stream of the client.

    Definitions keep the names of the source; where two functions share a name the
    component is a prefix ([trInFlow_onData], [inFlow_onData]) or the side a suffix
    ([handlePingClient], [handlePingServer]).  Pointers are addresses into a store;
    a nil pointer, slice or function is [None] or an address that is not there.  A
    panic is [None], [Panic] or [Crashes], never silently avoided.  Callbacks are
    names; calling one is logged, and in Transport [runCallback] says what the call
    does.  What is not in the repository is a parameter: the writer under loopy, the
    connection under the write buffer, the capacity of nio's chunks and its receive
    buffer, the ugate module, TLS and the network, the printable runes of strconv,
    the order in which Go ranges over a map.

    ** What is shown

    - Wire formats.  Header blocks, Huffman strings, frames, settings, durations,
      status messages, metadata, requests and responses are read back as they were
      sent ([hpack_roundtrip], [huffman_roundtrip], [frame_roundtrip],
      [timeout_roundtrip], ...); a block may be cut anywhere ([Write_split]); the
      order of header frames is accepted exactly as RFC 7540 has it
      ([order_correct]).
    - Hostile input.  [ReadFrame] and the decoders return on every input, without a
      panic ([ReadFrame_total], [Write_safe], [huffmanDecode_total]), in bounded
      memory, and what they return is well typed ([ReadFrame_typed],
      [ReadFrame_fields]).  The goroutines that read a connection end on every
      input, and a connection that opened no stream is always shut down
      ([readers_end]).  Nothing a peer sends puts a control character into a log or
      an error message ([frame_text]).
    - Sending.  In every run loopy stays within the connection's window, loses no
      stream, serves all in turn, and sends each stream's bytes in order
      ([loopy_flow], [loopy_delivery], [loopy_scheduled], [loopy_round_robin],
      [processData_turn]).  In every run of an endpoint, whatever order its
      goroutines run in, the items the connection puts are those the writer can
      handle, so it does not panic ([endpoint_safe]) unless trailers are sent
      ([trailers_panic]) or a client answers on a stream of the server; it writes no
      more DATA than the window updates that were read allow ([endpoint_flow]),
      carries the bytes of every stream from the application to the wire in order,
      none lost or sent twice ([endpoint_delivery]), and sleeps only when there is
      nothing it could send ([endpoint_sleeps]).  No wake-up is lost ([writeQuota_wakeup], [controlBuffer_fifo]).
    - Receiving.  Inbound windows are exact ([inFlow_exact],
      [trInFlow_accounting]); DATA reaches its stream complete and in order
      ([data_in_order]); a reader gets the bytes that were sent and keeps the window
      of its stream open ([stream_receives]).
    - End to end.  Client and server agree on their limits when they connect, for
      all legal configurations ([handshake_agrees]).  The request of a client,
      written as header frames of any size, is the request the server's handler
      gets ([request_end_to_end]), and its response, headers and trailers, is the
      response the stream of the client gets ([response_end_to_end]).  The bytes
      that callers give one endpoint for a stream are those the stream of the other
      receives, followed by those still queued ([end_to_end]).
    - Connections.  In every run of a client the stream quota accounts for every
      stream ([client_stream_quota]); in every run of a server the client's active
      streams stay within the limit ([server_stream_limit]); GOAWAY closes the
      streams it should ([client_goAway]); a dead peer is noticed in time
      ([keepalive_detects]).
    - Faults.  Closing a connection can deadlock ([Close_deadlock]), closing an
      accepted stream twice hangs ([server_Close_hang]), a failed connection can
      make the write buffer spin ([bufWriter_hang]), trailers panic
      ([trailers_panic]), a dial of the gateway returns or hangs according to what
      its handlers send ([gateway_dial]), and every connection it dialed hangs when
      it ends ([gateway_reader_hang]); others are lemmas of TransportFaults,
      Endpoint, HpackBlocks, FlowControl, Messages, Events, Bdp, Keepalive,
      StreamApi and Ugate.

    ** Bounds and fuel

    Integers are [Z] with the wrap-around of their width written out ([u8], [u32],
    [i32], ...), except counters of 64 bits that only count operations, and times.
    Loops over data are structural.  Fuel is used in few places: [ReadFrameN] has
    depth 2 because a header block is never inside another; the loop over
    CONTINUATION frames has the length of the input, of which each frame takes nine
    bytes, and so have the loops of Serve, where [readers_end] says that it is
    enough; the loops of HPACK have the length of their input; for each the theorem
    that enough fuel is given is part of the totality theorems, in which running
    out counts as a panic.

    ** Not modelled

    An operation of Transport is atomic from one wait to the next: races inside an
    operation, which the source guards with locks and atomic accesses, are not
    modelled, apart from the write quota and the control buffer, which have step
    relations, and the dial of the gateway.  In Endpoint the writer is interleaved
    with the operations between its own steps: taking an item, handling it, a turn.
    In Serve loopy's work is interleaved with the loop of the reading goroutine only
    for what it does to the connection.  The composition of two endpoints is for the
    handshake, for DATA frames and for header blocks, each by itself.
    Left out are: deadlines and contexts except for what they make the code do,
    TLS, sizes of buffers, statistics, what is written to a log beyond the text of
    a frame, types of the frame package that nothing uses (gate, httpError),
    ugate/setup.go, which stores two handlers in a map of a module that is not in
    the repository, and tests. *)
From stdpp Require Export base gmap list strings.
From Stdlib Require Export ZArith Lia.
From Stdlib Require Ascii.

#[export] Set Default Goal Selector "!".
Global Open Scope Z_scope.

(** ** Machine integers

    Go's fixed-width integers are [Z] values; every operation that may leave
    the range is followed by one of these conversions. *)
Definition u8 (z : Z) : Z := z mod 2 ^ 8.
Definition u16 (z : Z) : Z := z mod 2 ^ 16.
Definition u32 (z : Z) : Z := z mod 2 ^ 32.
Definition u64 (z : Z) : Z := z mod 2 ^ 64.
Definition i32 (z : Z) : Z := (z + 2 ^ 31) mod 2 ^ 32 - 2 ^ 31.
Definition i64 (z : Z) : Z := (z + 2 ^ 63) mod 2 ^ 64 - 2 ^ 63.

Definition is_u8 (z : Z) : Prop := 0 <= z < 2 ^ 8.
Definition is_u32 (z : Z) : Prop := 0 <= z < 2 ^ 32.
Definition is_u64 (z : Z) : Prop := 0 <= z < 2 ^ 64.
Definition is_i32 (z : Z) : Prop := - 2 ^ 31 <= z < 2 ^ 31.

Definition uint32Max : Z := 2 ^ 32 - 1.
Definition MaxInt32 : Z := 2 ^ 31 - 1.
Definition MaxInt64 : Z := 2 ^ 63 - 1.

Create HintDb gow discriminated.

Lemma u8_range z : is_u8 (u8 z).
Proof. unfold is_u8, u8. by apply Z.mod_pos_bound. Qed.
Lemma u32_range z : is_u32 (u32 z).
Proof. unfold is_u32, u32. by apply Z.mod_pos_bound. Qed.
Lemma u64_range z : is_u64 (u64 z).
Proof. unfold is_u64, u64. by apply Z.mod_pos_bound. Qed.
Lemma i32_range z : is_i32 (i32 z).
Proof.
  unfold is_i32, i32. pose proof (Z.mod_pos_bound (z + 2 ^ 31) (2 ^ 32)). lia.
Qed.
#[export] Hint Resolve u8_range u32_range u64_range i32_range : gow.

Lemma u8_small z : 0 <= z < 2 ^ 8 -> u8 z = z.
Proof. intros. by apply Z.mod_small. Qed.
Lemma u16_small z : 0 <= z < 2 ^ 16 -> u16 z = z.
Proof. intros. by apply Z.mod_small. Qed.
Lemma u32_small z : 0 <= z < 2 ^ 32 -> u32 z = z.
Proof. intros. by apply Z.mod_small. Qed.
Lemma u64_small z : 0 <= z < 2 ^ 64 -> u64 z = z.
Proof. intros. by apply Z.mod_small. Qed.
Lemma i32_small z : is_i32 z -> i32 z = z.
Proof. unfold is_i32, i32. intros. rewrite Z.mod_small; lia. Qed.
Lemma i64_small z : - 2 ^ 63 <= z < 2 ^ 63 -> i64 z = z.
Proof. unfold i64. intros. rewrite Z.mod_small; lia. Qed.

(** [gosmall] removes the conversions whose argument [lia] bounds. *)
Ltac gosmall :=
  repeat match goal with
    | |- context [u64 ?x] => rewrite (u64_small x) by lia
    | |- context [u32 ?x] => rewrite (u32_small x) by lia
    | |- context [u16 ?x] => rewrite (u16_small x) by lia
    | |- context [u8 ?x] => rewrite (u8_small x) by lia
    | |- context [i32 ?x] => rewrite (i32_small x) by (unfold is_i32; lia)
    | |- context [i64 ?x] => rewrite (i64_small x) by lia
    end.

(** ** Bytes, strings and slices

    A Go [byte] slice or [string] is a list of integers in [0, 256). *)
Definition len {A} (l : list A) : Z := Z.of_nat (length l).

Definition bytes_ok (l : list Z) : Prop := Forall is_u8 l.

(** The bytes of a string literal. *)
Fixpoint str (s : string) : list Z :=
  match s with
  | String.EmptyString => []
  | String.String a s => Z.of_N (Ascii.N_of_ascii a) :: str s
  end.

Lemma len_nonneg {A} (l : list A) : 0 <= len l.
Proof. unfold len. lia. Qed.
Lemma len_app {A} (l k : list A) : len (l ++ k) = len l + len k.
Proof. unfold len. rewrite length_app. lia. Qed.
Lemma len_cons {A} (x : A) l : len (x :: l) = len l + 1.
Proof. unfold len. simpl. lia. Qed.
Lemma len_nil {A} : len (@nil A) = 0.
Proof. done. Qed.
Create Rewrite HintDb len.
#[export] Hint Rewrite @len_app @len_cons @len_nil : len.

Lemma bytes_ok_app a b : bytes_ok (a ++ b) <-> bytes_ok a /\ bytes_ok b.
Proof. apply Forall_app. Qed.
Lemma bytes_ok_snoc l b : bytes_ok l -> is_u8 b -> bytes_ok (l ++ [b]).
Proof. intros. apply bytes_ok_app. split; [done|]. by apply Forall_singleton. Qed.
#[export] Hint Resolve bytes_ok_snoc : gow.

Lemma str_bytes_ok s : bytes_ok (str s).
Proof.
  induction s as [|a s IH]; constructor; [|done].
  unfold is_u8. pose proof (Ascii.N_ascii_bounded a). lia.
Qed.
#[export] Hint Resolve str_bytes_ok : gow.

(** ** Outcomes

    A Go call returns a value, returns an error, or panics. *)
Inductive outcome (E A : Type) : Type :=
| Ret (a : A)
| Fail (e : E)
| Panic.
Arguments Ret {E A} a.
Arguments Fail {E A} e.
Arguments Panic {E A}.

Definition obind {E A B} (m : outcome E A) (k : A -> outcome E B) : outcome E B :=
  match m with Ret a => k a | Fail e => Fail e | Panic => Panic end.

Declare Scope go_scope.
Delimit Scope go_scope with go.
Notation "'let*' x ':=' m 'in' k" := (obind m (fun x => k))
  (at level 10, x name, m at level 100, k at level 200) : go_scope.
Notation "'let*' ' p ':=' m 'in' k" := (obind m (fun p => k))
  (at level 10, p strict pattern, m at level 100, k at level 200) : go_scope.

(** [case_if] splits on the first [if] of the goal. *)
Ltac case_if :=
  match goal with
  | |- context [if ?b then _ else _] => destruct b eqn:?
  end.

Arguments str s%_string.

(** ** Newest match in a list

    The index of the last element that satisfies a test: the reference meaning
    of a map from keys to the most recent occurrence. *)
Fixpoint newest {A} (p : A -> bool) (l : list A) : option nat :=
  match l with
  | [] => None
  | x :: l =>
      match newest p l with
      | Some k => Some (S k)
      | None => if p x then Some O else None
      end
  end.

Lemma newest_Some {A} (p : A -> bool) l k :
  newest p l = Some k ->
  exists x, l !! k = Some x /\ p x = true /\
    forall j y, (k < j)%nat -> l !! j = Some y -> p y = false.
Proof.
  revert k. induction l as [|a l IH]; intros k; simpl; [done|].
  destruct (newest p l) as [k'|] eqn:E.
  - intros [= <-]. destruct (IH _ eq_refl) as (x & Hx & Hp & Hlater).
    exists x. split_and!; [done|done|]. intros [|j] y Hj Hy; [lia|].
    apply (Hlater j y); [lia|done].
  - destruct (p a) eqn:Ha; [|done]. intros [= <-]. exists a. split_and!; [done|done|].
    clear IH. intros [|j] y Hj Hy; [lia|]. simpl in Hy. clear Hj.
    revert j Hy E. induction l as [|b l IHl]; intros j Hy E; [done|].
    simpl in E. destruct (newest p l); [done|]. destruct (p b) eqn:Hb; [done|].
    destruct j as [|j]; [by simplify_eq/=|]. by apply (IHl j).
Qed.

Lemma newest_None {A} (p : A -> bool) l x :
  newest p l = None -> x ∈ l -> p x = false.
Proof.
  induction l as [|a l IH]; simpl; [set_solver|].
  destruct (newest p l); [done|]. destruct (p a) eqn:Ha; [done|].
  intros _ [->|Hx]%elem_of_cons; [done|auto].
Qed.

Lemma newest_snoc {A} (p : A -> bool) l x :
  newest p (l ++ [x]) = if p x then Some (length l) else newest p l.
Proof.
  induction l as [|a l IH]; simpl; [done|].
  rewrite IH. destruct (p x); [done|]. done.
Qed.

Lemma newest_lt {A} (p : A -> bool) l k : newest p l = Some k -> (k < length l)%nat.
Proof. intros (x & Hx & _)%newest_Some. by eapply lookup_lt_Some. Qed.
