(* ===== verification/Bits.v ===== *)
(** * Bit strings and big-endian numbers

    [Zbits n z] is the list of the [n] low bits of [z], most significant first;
    the Huffman coder is specified on such lists.  The big-endian encodings of
    encoding/binary that the framing layer uses are here too, with their
    inverses. *)
From S2P Require Import Prelude.

Fixpoint Zbits (n : nat) (z : Z) : list bool :=
  match n with
  | O => []
  | S n => Z.testbit z (Z.of_nat n) :: Zbits n z
  end.

Definition bits_val (l : list bool) : Z := foldl (fun n b => 2 * n + Z.b2z b) 0 l.

Definition bytes_bits (l : list Z) : list bool := l ≫= Zbits 8.

Lemma Zbits_length n z : length (Zbits n z) = n.
Proof. induction n; simpl; auto. Qed.
#[export] Hint Rewrite Zbits_length : len.

Lemma Zbits_ext n a b :
  (forall i, 0 <= i < Z.of_nat n -> Z.testbit a i = Z.testbit b i) -> Zbits n a = Zbits n b.
Proof.
  induction n as [|n IH]; intros H; simpl; [done|]. f_equal; [apply H; lia|].
  apply IH. intros. apply H. lia.
Qed.

Lemma Zbits_app n m z : Zbits (n + m) z = Zbits n (Z.shiftr z (Z.of_nat m)) ++ Zbits m z.
Proof.
  induction n as [|n IH]; simpl; [done|]. rewrite IH. f_equal.
  rewrite Z.shiftr_spec by lia. f_equal. lia.
Qed.

Lemma Zbits_mod n k z : Z.of_nat n <= k -> Zbits n (z mod 2 ^ k) = Zbits n z.
Proof. intros. apply Zbits_ext. intros. apply Z.mod_pow2_bits_low. lia. Qed.

Lemma testbit_above n z i : 0 <= z < 2 ^ n -> 0 <= n <= i -> Z.testbit z i = false.
Proof.
  intros Hz Hi. rewrite <- (Z.mod_small z (2 ^ n)) by done. apply Z.mod_pow2_bits_high. lia.
Qed.

(** Shifting [m] new low bits in appends them to the bit string. *)
Lemma Zbits_shift_in n m z b :
  0 <= b < 2 ^ Z.of_nat m ->
  Zbits (n + m) (Z.lor (Z.shiftl z (Z.of_nat m)) b) = Zbits n z ++ Zbits m b.
Proof.
  intros Hb. rewrite Zbits_app. f_equal; apply Zbits_ext; intros i Hi.
  - rewrite Z.shiftr_spec, Z.lor_spec, Z.shiftl_spec by lia.
    rewrite (testbit_above (Z.of_nat m) b) by lia. rewrite orb_false_r. f_equal. lia.
  - rewrite Z.lor_spec, Z.shiftl_spec by lia. rewrite Z.testbit_neg_r by lia. done.
Qed.

Lemma Zbits_lor n a b : Zbits n (Z.lor a b) = zip_with orb (Zbits n a) (Zbits n b).
Proof. induction n as [|n IH]; simpl; [done|]. by rewrite Z.lor_spec, IH. Qed.

Lemma Zbits_0 n : Zbits n 0 = replicate n false.
Proof. induction n as [|n IH]; simpl; [done|]. by rewrite Z.testbit_0_l, IH. Qed.

Lemma Zbits_ones n k : Z.of_nat n <= k -> Zbits n (2 ^ k - 1) = replicate n true.
Proof.
  intros. induction n as [|n IH]; simpl; [done|]. rewrite IH by lia. f_equal.
  replace (2 ^ k - 1) with (Z.ones k) by (rewrite Z.ones_equiv; lia).
  apply Z.ones_spec_low. lia.
Qed.

Lemma zip_with_orb_false n l : length l = n -> zip_with orb (replicate n false) l = l.
Proof.
  revert l. induction n as [|n IH]; intros [|b l]; simpl; try done.
  intros [= Hl]. by rewrite IH.
Qed.

(** Writing [r] bits over the [r] clear low bits of a byte. *)
Lemma Zbits_or_low n r b t X :
  0 <= t < 2 ^ Z.of_nat r -> Zbits (n + r) b = X ++ replicate r false ->
  Zbits (n + r) (Z.lor b t) = X ++ Zbits r t.
Proof.
  intros Ht Hb. rewrite Zbits_app in Hb. apply app_inj_2 in Hb as [HX Hr].
  2: by rewrite Zbits_length, length_replicate.
  assert (Hs : Z.shiftr t (Z.of_nat r) = 0)
    by (rewrite Z.shiftr_div_pow2 by lia; by apply Z.div_small).
  rewrite Zbits_app, Z.shiftr_lor, Hs.
  rewrite Z.lor_0_r, HX, Zbits_lor, Hr, zip_with_orb_false; [done|]. by rewrite Zbits_length.
Qed.

Lemma bits_val_acc n l :
  foldl (fun n b => 2 * n + Z.b2z b) n l = n * 2 ^ len l + bits_val l.
Proof.
  unfold bits_val. revert n. induction l as [|b l IH]; intros n; cbn [foldl].
  - rewrite len_nil. lia.
  - rewrite IH, (IH (2 * 0 + Z.b2z b)), len_cons, Z.pow_add_r by (pose proof (len_nonneg l); lia).
    lia.
Qed.

Lemma bits_val_Zbits n z : bits_val (Zbits n z) = z mod 2 ^ Z.of_nat n.
Proof.
  induction n as [|n IH]; [by rewrite Z.mod_1_r|].
  unfold bits_val. cbn [Zbits foldl]. rewrite bits_val_acc, IH.
  unfold len. rewrite Zbits_length.
  replace (Z.of_nat (S n)) with (Z.of_nat n + 1) by lia.
  rewrite Z.pow_add_r, Z.rem_mul_r by lia. rewrite <- Z.testbit_spec' by lia.
  change (2 ^ 1) with 2. lia.
Qed.

Lemma bits_val_app a b : bits_val (a ++ b) = bits_val a * 2 ^ len b + bits_val b.
Proof. unfold bits_val at 1. rewrite foldl_app. apply bits_val_acc. Qed.

Lemma bits_val_range l : 0 <= bits_val l < 2 ^ len l.
Proof.
  induction l as [|b l IH] using rev_ind; [by vm_compute|].
  rewrite bits_val_app, len_app, Z.pow_add_r by apply len_nonneg.
  change (len [b]) with 1. destruct b; unfold bits_val in *; simpl foldl in *; lia.
Qed.

Lemma bytes_bits_app a b : bytes_bits (a ++ b) = bytes_bits a ++ bytes_bits b.
Proof. apply bind_app. Qed.
Lemma bytes_bits_cons b l : bytes_bits (b :: l) = Zbits 8 b ++ bytes_bits l.
Proof. done. Qed.
Lemma bytes_bits_one b : bytes_bits [b] = Zbits 8 b.
Proof. by rewrite bytes_bits_cons, app_nil_r. Qed.

Lemma Zbits_inj n a b :
  0 <= a < 2 ^ Z.of_nat n -> 0 <= b < 2 ^ Z.of_nat n -> Zbits n a = Zbits n b -> a = b.
Proof.
  intros Ha Hb H%(f_equal bits_val). rewrite !bits_val_Zbits in H.
  by rewrite !Z.mod_small in H.
Qed.

(** A byte string is determined by its bits, prefix by prefix. *)
Lemma bytes_bits_prefix d a X :
  bytes_ok d -> bytes_ok a -> bytes_bits a = bytes_bits d ++ X ->
  exists v, a = d ++ v /\ bytes_bits v = X.
Proof.
  intros Hd. revert a. induction Hd as [|b d Hb Hd IH]; intros a Ha Heq; [by exists a|].
  destruct Ha as [|c a Hc Ha]; [done|]. rewrite !bytes_bits_cons, <- app_assoc in Heq.
  apply app_inj_1 in Heq as [H1 H2]; [|by rewrite !Zbits_length].
  apply Zbits_inj in H1; [|done..]. subst c. destruct (IH a Ha H2) as (v & -> & Hv). by exists v.
Qed.

Lemma bytes_bits_length l : length (bytes_bits l) = (8 * length l)%nat.
Proof.
  induction l as [|b l IH]; [done|]. change (b :: l) with ([b] ++ l).
  rewrite bytes_bits_app, !length_app, IH. simpl. lia.
Qed.

(** All bit strings of a given length. *)
Fixpoint all_bits (n : nat) : list (list bool) :=
  match n with
  | O => [[]]
  | S n => ((cons true) <$> all_bits n) ++ ((cons false) <$> all_bits n)
  end.

Lemma all_bits_complete n l : length l = n -> l ∈ all_bits n.
Proof.
  revert l. induction n as [|n IH]; intros [|b l] Hl; simpl in *; simplify_eq; [set_solver|].
  apply elem_of_app. destruct b; [left|right]; apply list_elem_of_fmap; eauto.
Qed.

Lemma lor_range n a b : 0 <= n -> 0 <= a < 2 ^ n -> 0 <= b < 2 ^ n -> 0 <= Z.lor a b < 2 ^ n.
Proof.
  intros Hn Ha Hb. split; [apply Z.lor_nonneg; lia|].
  replace (Z.lor a b) with (Z.lor a b mod 2 ^ n); [apply Z.mod_pos_bound; lia|].
  apply Z.bits_inj'. intros i Hi. destruct (Z.lt_ge_cases i n).
  - by rewrite Z.mod_pow2_bits_low.
  - rewrite Z.mod_pow2_bits_high, Z.lor_spec by lia. by rewrite !(testbit_above n) by lia.
Qed.

(** Bits put side by side. *)
Lemma lor_add a b k : 0 <= a < 2 ^ k -> 0 <= k -> Z.lor a (Z.shiftl b k) = a + b * 2 ^ k.
Proof.
  intros Ha Hk. rewrite <- Z.add_nocarry_lor.
  - by rewrite Z.shiftl_mul_pow2.
  - apply Z.bits_inj'. intros i Hi. rewrite Z.land_spec, Z.shiftl_spec, Z.testbit_0_l by done.
    destruct (Z.lt_ge_cases i k).
    + by rewrite (Z.testbit_neg_r b), andb_false_r by lia.
    + by rewrite (testbit_above k a) by lia.
Qed.

Lemma add_lor a b k : 0 <= k -> 0 <= b < 2 ^ k -> Z.lor (Z.shiftl a k) b = a * 2 ^ k + b.
Proof. intros. rewrite Z.lor_comm, lor_add by done. lia. Qed.

(** A test over the integers below a bound, decided by computation. *)
Definition forall_below (k : nat) (p : Z -> bool) : bool := forallb p (Z.of_nat <$> seq 0 k).

Lemma forall_below_spec k p :
  forall_below k p = true -> forall c, 0 <= c < Z.of_nat k -> p c = true.
Proof.
  unfold forall_below. rewrite forallb_forall. intros H c Hc. apply H.
  apply list_elem_of_In, list_elem_of_fmap. exists (Z.to_nat c).
  rewrite Z2Nat.id by lia. split; [done|]. apply elem_of_seq. lia.
Qed.

(** A test over all bytes. *)
Definition forall_bytes (p : Z -> bool) : bool := forall_below 256 p.

Lemma forall_bytes_spec p : forall_bytes p = true -> forall c, is_u8 c -> p c = true.
Proof. intros H c Hc. by apply (forall_below_spec 256). Qed.
