(* ===== verification/HpackTables.v ===== *)
(** * HPACK header tables: h2/hpack/tables.go and the dynamic table of h2/hpack/hpack.go

    [HeaderField], the indexed [headerFieldTable] shared by the static and the
    dynamic tables, the static table, and the size-bounded [dynamicTable].  A
    function that can panic returns [option], with [None] for the panic.

    The maps [byName] and [byNameValue] are an optimisation: [table_wf] says
    they hold, for every key, the unique id of the newest matching entry, and
    [search_correct] that a search through them is the linear search
    [search_ref].  [dyn_wf] is the size invariant of the dynamic table, and
    [evict_fit] that eviction keeps the longest run of newest entries that
    fits. *)
From S2P Require Import Prelude.

(** A name-value pair (hpack.go). *)
Record HeaderField := mkHeaderField {
  Name : list Z;
  Value : list Z;
  Sensitive : bool
}.

#[export] Instance HeaderField_eq_dec : EqDecision HeaderField.
Proof. solve_decision. Defined.

Definition IsPseudo (hf : HeaderField) : bool :=
  match Name hf with
  | [] => false
  | c :: _ => c =? 58
  end.

(** [Size] is computed in [int] and truncated to 32 bits. *)
Definition Size (hf : HeaderField) : Z := u32 (len (Name hf) + len (Value hf) + 32).

Record headerFieldTable := mkTable {
  ents : list HeaderField;
  evictCount : Z;
  byName : gmap (list Z) Z;
  byNameValue : gmap (list Z * list Z) Z
}.

Definition table_init : headerFieldTable := mkTable [] 0 ∅ ∅.

Definition table_len (t : headerFieldTable) : Z := len (ents t).

Definition addEntry (t : headerFieldTable) (f : HeaderField) : headerFieldTable :=
  let id := u64 (u64 (table_len t) + evictCount t + 1) in
  mkTable (ents t ++ [f]) (evictCount t)
    (<[Name f := id]> (byName t))
    (<[(Name f, Value f) := id]> (byNameValue t)).

(** A map read returns the zero value when the key is absent. *)
Definition map_get {K} `{Countable K} (m : gmap K Z) (k : K) : Z := default 0 (m !! k).

(** The deletion loop of [evictOldest], over the evicted entries, oldest first;
    [id] is the unique id of the first of them. *)
Fixpoint evictMaps (fs : list HeaderField) (id : Z)
    (bn : gmap (list Z) Z) (bnv : gmap (list Z * list Z) Z) :=
  match fs with
  | [] => (bn, bnv)
  | f :: fs =>
      let bn := if map_get bn (Name f) =? id then delete (Name f) bn else bn in
      let p := (Name f, Value f) in
      let bnv := if map_get bnv p =? id then delete p bnv else bnv in
      evictMaps fs (u64 (id + 1)) bn bnv
  end.

Definition evictOldest (t : headerFieldTable) (n : nat) : option headerFieldTable :=
  if (Z.of_nat n >? table_len t) then None else
  let '(bn, bnv) :=
    evictMaps (take n (ents t)) (u64 (evictCount t + 1)) (byName t) (byNameValue t) in
  if u64 (evictCount t + Z.of_nat n) <? evictCount t then None else
  Some (mkTable (drop n (ents t)) (u64 (evictCount t + Z.of_nat n)) bn bnv).

(** [static] stands for the pointer comparison [t == staticTable]. *)
Definition idToIndex (static : bool) (t : headerFieldTable) (id : Z) : option Z :=
  if id <=? evictCount t then None else
  let k := u64 (id - evictCount t - 1) in
  if static then Some (u64 (k + 1)) else Some (u64 (u64 (table_len t) - k)).

Definition search (static : bool) (t : headerFieldTable) (f : HeaderField) : option (Z * bool) :=
  let nv := map_get (byNameValue t) (Name f, Value f) in
  if negb (Sensitive f) && negb (nv =? 0) then
    i ← idToIndex static t nv; Some (i, true)
  else
    let id := map_get (byName t) (Name f) in
    if negb (id =? 0) then i ← idToIndex static t id; Some (i, false)
    else Some (0, false).

Definition hf (n v : string) : HeaderField := mkHeaderField (str n) (str v) false.
Arguments hf (n v)%_string.

Definition staticTableEntries : list HeaderField := [
  hf ":authority" ""; hf ":method" "GET"; hf ":method" "POST"; hf ":path" "/";
  hf ":path" "/index.html"; hf ":scheme" "http"; hf ":scheme" "https";
  hf ":status" "200"; hf ":status" "204"; hf ":status" "206"; hf ":status" "304";
  hf ":status" "400"; hf ":status" "404"; hf ":status" "500";
  hf "accept-charset" ""; hf "accept-encoding" "gzip, deflate";
  hf "accept-language" ""; hf "accept-ranges" ""; hf "accept" "";
  hf "access-control-allow-origin" ""; hf "age" ""; hf "allow" "";
  hf "authorization" ""; hf "cache-control" ""; hf "content-disposition" "";
  hf "content-encoding" ""; hf "content-language" ""; hf "content-length" "";
  hf "content-location" ""; hf "content-range" ""; hf "content-type" "";
  hf "cookie" ""; hf "date" ""; hf "etag" ""; hf "expect" ""; hf "expires" "";
  hf "from" ""; hf "host" ""; hf "if-match" ""; hf "if-modified-since" "";
  hf "if-none-match" ""; hf "if-range" ""; hf "if-unmodified-since" "";
  hf "last-modified" ""; hf "link" ""; hf "location" ""; hf "max-forwards" "";
  hf "proxy-authenticate" ""; hf "proxy-authorization" ""; hf "range" "";
  hf "referer" ""; hf "refresh" ""; hf "retry-after" ""; hf "server" "";
  hf "set-cookie" ""; hf "strict-transport-security" "";
  hf "transfer-encoding" ""; hf "user-agent" ""; hf "vary" ""; hf "via" "";
  hf "www-authenticate" "" ].

Definition newStaticTable : headerFieldTable := foldl addEntry table_init staticTableEntries.
Definition staticTable : headerFieldTable := newStaticTable.

(** ** The dynamic table (hpack.go) *)
Record dynamicTable := mkDyn {
  table : headerFieldTable;
  size : Z;
  maxSize : Z;
  allowedMaxSize : Z
}.

(** The counting loop of [evict]: the new size and how many entries go. *)
Fixpoint evictLoop (size max : Z) (es : list HeaderField) : Z * nat :=
  match es with
  | [] => (size, O)
  | f :: es =>
      if size >? max then
        let '(size', n) := evictLoop (u32 (size - Size f)) max es in (size', S n)
      else (size, O)
  end.

Definition evict (dt : dynamicTable) : option dynamicTable :=
  let '(size', n) := evictLoop (size dt) (maxSize dt) (ents (table dt)) in
  t ← evictOldest (table dt) n;
  Some (mkDyn t size' (maxSize dt) (allowedMaxSize dt)).

Definition dyn_setMaxSize (dt : dynamicTable) (v : Z) : option dynamicTable :=
  evict (mkDyn (table dt) (size dt) v (allowedMaxSize dt)).

Definition dyn_add (dt : dynamicTable) (f : HeaderField) : option dynamicTable :=
  evict (mkDyn (addEntry (table dt) f) (u32 (size dt + Size f)) (maxSize dt)
           (allowedMaxSize dt)).

(** The zero value with its maps made: what [NewDecoder] and [NewEncoder] start from. *)
Definition dyn_init : dynamicTable := mkDyn table_init 0 0 0.

(** ** Properties of the table *)
Definition has_name (n : list Z) (f : HeaderField) : bool := bool_decide (Name f = n).
Definition has_pair (p : list Z * list Z) (f : HeaderField) : bool :=
  bool_decide ((Name f, Value f) = p).

(** The maps [bn] and [bnv] describe the entries [es] whose first one has the
    unique id [c + 1]. *)
Definition maps_ok (c : Z) (es : list HeaderField)
    (bn : gmap (list Z) Z) (bnv : gmap (list Z * list Z) Z) : Prop :=
  (forall n, bn !! n = (fun k => c + Z.of_nat k + 1) <$> newest (has_name n) es) /\
  (forall p, bnv !! p = (fun k => c + Z.of_nat k + 1) <$> newest (has_pair p) es).

Record table_wf (t : headerFieldTable) : Prop := {
  wf_maps : maps_ok (evictCount t) (ents t) (byName t) (byNameValue t);
  wf_count : 0 <= evictCount t /\ evictCount t + table_len t < 2 ^ 64
}.

(** The linear search the table stands for: an exact match first, unless the
    field is sensitive, then a match of the name; the newest one wins. *)
Definition search_ref (static : bool) (t : headerFieldTable) (f : HeaderField) : Z * bool :=
  let index k := if static then Z.of_nat k + 1 else table_len t - Z.of_nat k in
  match (if Sensitive f then None else newest (has_pair (Name f, Value f)) (ents t)) with
  | Some k => (index k, true)
  | None =>
      match newest (has_name (Name f)) (ents t) with
      | Some k => (index k, false)
      | None => (0, false)
      end
  end.

Lemma table_init_wf : table_wf table_init.
Proof. split; [done|]. simpl. by vm_compute. Qed.

Lemma addEntry_wf t f :
  table_wf t -> evictCount t + table_len t + 1 < 2 ^ 64 -> table_wf (addEntry t f).
Proof.
  intros [[Hn Hp] Hc] Hb. unfold table_len in *. pose proof (len_nonneg (ents t)).
  assert (Hid : u64 (u64 (len (ents t)) + evictCount t + 1)
                = evictCount t + Z.of_nat (length (ents t)) + 1).
  { gosmall. unfold len. lia. }
  split; [split|]; unfold addEntry, table_len; simpl.
  - intros n. rewrite Hid, newest_snoc, lookup_insert. unfold has_name at 1.
    case_decide as E; [by rewrite bool_decide_true by done|].
    by rewrite bool_decide_false, Hn by done.
  - intros p. rewrite Hid, newest_snoc, lookup_insert. unfold has_pair at 1.
    case_decide as E; [by rewrite bool_decide_true by done|].
    by rewrite bool_decide_false, Hp by done.
  - rewrite len_app. unfold len in *. simpl. lia.
Qed.

(** Evicting the oldest entry keeps the maps in step with the rest. *)
Lemma evict_one_ok {K} `{Countable K} (key : HeaderField -> K) c f es (m : gmap K Z) :
  0 <= c ->
  (forall k, m !! k = (fun i => c + Z.of_nat i + 1)
                        <$> newest (fun g => bool_decide (key g = k)) (f :: es)) ->
  forall k, (if map_get m (key f) =? c + 1 then delete (key f) m else m) !! k
            = (fun i => c + 1 + Z.of_nat i + 1)
                <$> newest (fun g => bool_decide (key g = k)) es.
Proof.
  intros Hc Hm k. unfold map_get. pose proof (Hm k) as Hk. pose proof (Hm (key f)) as Hf.
  simpl in Hk, Hf. rewrite (bool_decide_true (key f = key f)) in Hf by done.
  assert (Hother : forall i, newest (fun g => bool_decide (key g = k)) es = Some i ->
            m !! k = Some (c + 1 + Z.of_nat i + 1)).
  { intros i E. rewrite Hk, E. simpl. f_equal. lia. }
  destruct (newest (fun g => bool_decide (key g = key f)) es) as [i|] eqn:E1.
  - rewrite Hf. simpl. rewrite (proj2 (Z.eqb_neq _ _)) by lia.
    destruct (newest (fun g => bool_decide (key g = k)) es) as [j|] eqn:E2; [by apply Hother|].
    rewrite Hk. case_bool_decide; [|done]. subst. congruence.
  - rewrite Hf. simpl. rewrite (proj2 (Z.eqb_eq _ _)) by lia. rewrite lookup_delete.
    case_decide as Ek; [subst; by rewrite E1|].
    destruct (newest (fun g => bool_decide (key g = k)) es) as [j|]; [by apply Hother|].
    rewrite Hk. by rewrite bool_decide_false.
Qed.

Lemma evictMaps_ok n c es bn bnv :
  0 <= c -> c + len es < 2 ^ 64 -> maps_ok c es bn bnv -> (n <= length es)%nat ->
  exists bn' bnv', evictMaps (take n es) (u64 (c + 1)) bn bnv = (bn', bnv') /\
    maps_ok (c + Z.of_nat n) (drop n es) bn' bnv'.
Proof.
  revert c es bn bnv. induction n as [|n IH]; intros c es bn bnv Hc Hb [Hn Hp] Hle.
  - exists bn, bnv. rewrite Z.add_0_r. by rewrite drop_0.
  - destruct es as [|f es]; simpl in Hle; [lia|]. rewrite len_cons in Hb.
    pose proof (len_nonneg es). simpl. rewrite (u64_small (c + 1)) by lia.
    edestruct (IH (c + 1) es) as (bn' & bnv' & Heq & Hok);
      [lia|lia| |lia| exists bn', bnv'; split; [exact Heq|]].
    + split.
      * exact (evict_one_ok Name c f es bn Hc Hn).
      * exact (evict_one_ok (fun g => (Name g, Value g)) c f es bnv Hc Hp).
    + replace (c + Z.of_nat (S n)) with (c + 1 + Z.of_nat n) by lia. done.
Qed.

Lemma evictOldest_wf t n :
  table_wf t -> (n <= length (ents t))%nat ->
  exists t', evictOldest t n = Some t' /\ table_wf t' /\ ents t' = drop n (ents t) /\
    evictCount t' + table_len t' = evictCount t + table_len t.
Proof.
  intros [Hm [Hc Hb]] Hn. unfold evictOldest, table_len in *.
  destruct (evictMaps_ok n (evictCount t) (ents t) (byName t) (byNameValue t))
    as (bn & bnv & -> & Hok); [done..|].
  assert (Hl : len (drop n (ents t)) = len (ents t) - Z.of_nat n).
  { unfold len. rewrite length_drop. lia. }
  destruct (Z.gtb_spec (Z.of_nat n) (len (ents t))); [unfold len in *; lia|].
  rewrite u64_small by (unfold len in *; lia).
  destruct (Z.ltb_spec (evictCount t + Z.of_nat n) (evictCount t)); [lia|].
  eexists. split; [done|]. split_and!; simpl; [|done|lia].
  split; simpl; [done|]. unfold table_len. simpl. lia.
Qed.

Lemma idToIndex_wf static t p k :
  table_wf t -> newest p (ents t) = Some k ->
  idToIndex static t (evictCount t + Z.of_nat k + 1)
  = Some (if static then Z.of_nat k + 1 else table_len t - Z.of_nat k).
Proof.
  intros [_ [Hc Hb]] Hk%newest_lt. unfold idToIndex, table_len, len in *.
  destruct (Z.leb_spec (evictCount t + Z.of_nat k + 1) (evictCount t)); [lia|].
  replace (evictCount t + Z.of_nat k + 1 - evictCount t - 1) with (Z.of_nat k) by lia.
  destruct static; by gosmall.
Qed.

(** The map-based search of a well-formed table is the linear search, and never panics. *)
Lemma search_ref_ok static t f : table_wf t -> search static t f = Some (search_ref static t f).
Proof.
  intros Hwf. pose proof Hwf as [[Hn Hp] [Hc _]]. unfold search, search_ref, map_get.
  rewrite Hp, Hn.
  assert (Hname : forall o, o = newest (has_name (Name f)) (ents t) ->
    (if negb (default 0 ((fun k => evictCount t + Z.of_nat k + 1) <$> o) =? 0)
     then i ← idToIndex static t (default 0 ((fun k => evictCount t + Z.of_nat k + 1) <$> o));
          Some (i, false)
     else Some (0, false))
    = Some (match o with
            | Some k => (if static then Z.of_nat k + 1 else table_len t - Z.of_nat k, false)
            | None => (0, false) end)).
  { intros [k|] E; simpl; [|done].
    destruct (Z.eqb_spec (evictCount t + Z.of_nat k + 1) 0); [lia|]. simpl.
    by erewrite idToIndex_wf. }
  destruct (Sensitive f); simpl; [by apply Hname|].
  destruct (newest (has_pair (Name f, Value f)) (ents t)) as [k|] eqn:E; simpl.
  - destruct (Z.eqb_spec (evictCount t + Z.of_nat k + 1) 0); [lia|]. simpl.
    by erewrite idToIndex_wf.
  - by apply Hname.
Qed.

(** ** Properties of the dynamic table *)
Definition sum_size (es : list HeaderField) : Z := foldr (fun f n => Size f + n) 0 es.

(** The longest run of newest entries whose sizes add up to at most [max]. *)
Fixpoint fit (max : Z) (es : list HeaderField) : list HeaderField :=
  match es with
  | [] => []
  | f :: es' => if sum_size es >? max then fit max es' else es
  end.

Record dyn_wf (dt : dynamicTable) : Prop := {
  dwf_table : table_wf (table dt);
  dwf_size : size dt = sum_size (ents (table dt));
  dwf_max : size dt <= maxSize dt < 2 ^ 32
}.

Lemma Size_range f : is_u32 (Size f).
Proof. apply u32_range. Qed.

Lemma Size_exact f : len (Name f) + len (Value f) + 32 < 2 ^ 32 ->
  Size f = len (Name f) + len (Value f) + 32.
Proof.
  intros. pose proof (len_nonneg (Name f)). pose proof (len_nonneg (Value f)).
  unfold Size. by gosmall.
Qed.

Lemma sum_size_nonneg es : 0 <= sum_size es.
Proof.
  induction es as [|f es IH]; simpl; [lia|]. pose proof (Size_range f) as []. lia.
Qed.

Lemma sum_size_app a b : sum_size (a ++ b) = sum_size a + sum_size b.
Proof. induction a as [|f a IH]; simpl; [done|]. lia. Qed.

Lemma fit_le max es : 0 <= max -> sum_size (fit max es) <= max.
Proof.
  intros Hm. induction es as [|f es IH]; [done|]. cbn [fit].
  destruct (Z.gtb_spec (sum_size (f :: es)) max); [done|lia].
Qed.

Lemma fit_id max es : sum_size es <= max -> fit max es = es.
Proof.
  destruct es as [|f es]; [done|]. cbn [fit]. intros.
  by destruct (Z.gtb_spec (sum_size (f :: es)) max); [lia|].
Qed.

Lemma fit_suffix_of max es : fit max es `suffix_of` es.
Proof.
  induction es as [|f es IH]; [done|]. cbn [fit].
  destruct (sum_size (f :: es) >? max); [by apply suffix_cons_r|done].
Qed.

(** A suffix that fits is kept: [fit] is the longest such suffix. *)
Lemma fit_longest max k es : k `suffix_of` es -> sum_size k <= max -> k `suffix_of` fit max es.
Proof.
  intros [l ->] Hk. induction l as [|f l IH]; simpl; [by rewrite fit_id|].
  destruct (_ >? max); [done|]. by apply suffix_cons_r, suffix_app_r.
Qed.

Lemma fit_mono max k es :
  0 <= max -> k `suffix_of` es -> fit max k `suffix_of` fit max es.
Proof.
  intros Hm Hk. apply fit_longest; [|by apply fit_le].
  etransitivity; [apply fit_suffix_of|done].
Qed.

Lemma evictLoop_fit max es :
  sum_size es < 2 ^ 32 -> exists n, (n <= length es)%nat /\
    evictLoop (sum_size es) max es = (sum_size (fit max es), n) /\ fit max es = drop n es.
Proof.
  induction es as [|f es IH]; intros Hb; [by exists O|].
  cbn [fit evictLoop]. pose proof (sum_size_nonneg es). pose proof (Size_range f) as [].
  simpl in Hb. destruct (Z.gtb_spec (sum_size (f :: es)) max) as [Hgt|Hle].
  - destruct IH as (n & Hn & He & Hf); [lia|]. exists (S n). simpl.
    replace (Size f + sum_size es - Size f) with (sum_size es) by lia.
    rewrite u32_small by lia. rewrite He. split_and!; [lia|done|done].
  - exists O. split_and!; [lia|done|done].
Qed.

(** Eviction keeps the longest run of newest entries that fits, and never panics. *)
Lemma evict_fit dt :
  table_wf (table dt) -> size dt = sum_size (ents (table dt)) -> size dt < 2 ^ 32 ->
  0 <= maxSize dt < 2 ^ 32 ->
  exists dt', evict dt = Some dt' /\ dyn_wf dt' /\ maxSize dt' = maxSize dt /\
    allowedMaxSize dt' = allowedMaxSize dt /\
    ents (table dt') = fit (maxSize dt) (ents (table dt)) /\
    evictCount (table dt') + table_len (table dt')
      = evictCount (table dt) + table_len (table dt).
Proof.
  intros Ht Hs Hb Hm. unfold evict. rewrite Hs in Hb |- *.
  destruct (evictLoop_fit (maxSize dt) _ Hb) as (n & Hn & -> & Hf).
  destruct (evictOldest_wf _ _ Ht Hn) as (t' & -> & Hwf & He & Hc). simpl.
  eexists. split; [done|]. simpl. rewrite Hf, He.
  split_and!; [|done..]. split; simpl; [done|by rewrite He|].
  rewrite <- Hf. pose proof (fit_le (maxSize dt) (ents (table dt))). lia.
Qed.

Lemma dyn_init_wf : dyn_wf dyn_init.
Proof. split; simpl; [apply table_init_wf|done|lia]. Qed.

Lemma dyn_setMaxSize_ok dt v :
  dyn_wf dt -> 0 <= v < 2 ^ 32 ->
  exists dt', dyn_setMaxSize dt v = Some dt' /\ dyn_wf dt' /\ maxSize dt' = v /\
    allowedMaxSize dt' = allowedMaxSize dt /\
    ents (table dt') = fit v (ents (table dt)) /\
    evictCount (table dt') + table_len (table dt')
      = evictCount (table dt) + table_len (table dt).
Proof. intros [Ht Hs Hm] Hv. unfold dyn_setMaxSize. by apply evict_fit; simpl; [..|lia|]. Qed.

Lemma dyn_add_ok dt f :
  dyn_wf dt -> maxSize dt + Size f < 2 ^ 32 ->
  evictCount (table dt) + table_len (table dt) + 1 < 2 ^ 64 ->
  exists dt', dyn_add dt f = Some dt' /\ dyn_wf dt' /\ maxSize dt' = maxSize dt /\
    allowedMaxSize dt' = allowedMaxSize dt /\
    ents (table dt') = fit (maxSize dt) (ents (table dt) ++ [f]) /\
    evictCount (table dt') + table_len (table dt')
      = evictCount (table dt) + table_len (table dt) + 1.
Proof.
  intros [Ht Hs Hm] Hf Hc. unfold dyn_add. pose proof (Size_range f) as [].
  pose proof (sum_size_nonneg (ents (table dt))).
  edestruct (evict_fit (mkDyn (addEntry (table dt) f) (u32 (size dt + Size f)) (maxSize dt)
    (allowedMaxSize dt))) as (dt' & He & Hwf & ? & ? & Hes & Hn); simpl.
  - by apply addEntry_wf.
  - rewrite u32_small by lia. rewrite sum_size_app. simpl. lia.
  - rewrite u32_small; lia.
  - lia.
  - exists dt'. simpl in *. split_and!; try done.
    rewrite Hn. unfold table_len. simpl. rewrite len_app. change (len [f]) with 1. lia.
Qed.

(** Entries are added at the end and evicted from the front only. *)
Inductive table_reach : headerFieldTable -> Prop :=
| reach_init : table_reach table_init
| reach_add t f : table_reach t -> evictCount t + table_len t + 1 < 2 ^ 64 ->
    table_reach (addEntry t f)
| reach_evict t n t' : table_reach t -> evictOldest t n = Some t' -> table_reach t'.

Lemma table_reach_wf t : table_reach t -> table_wf t.
Proof.
  induction 1 as [|t f _ IH Hb|t n t' _ IH He].
  - apply table_init_wf.
  - by apply addEntry_wf.
  - assert (Hn : (n <= length (ents t))%nat).
    { unfold evictOldest, table_len, len in He.
      destruct (Z.gtb_spec (Z.of_nat n) (Z.of_nat (length (ents t)))); [done|lia]. }
    destruct (evictOldest_wf t n IH Hn) as (t'' & He' & Hwf & _). by simplify_eq.
Qed.

Lemma foldl_addEntry_wf es t :
  table_wf t -> evictCount t + table_len t + len es < 2 ^ 64 ->
  table_wf (foldl addEntry t es) /\ ents (foldl addEntry t es) = ents t ++ es /\
  evictCount (foldl addEntry t es) = evictCount t.
Proof.
  revert t. induction es as [|f es IH]; intros t Ht Hb; simpl.
  { by rewrite app_nil_r. }
  rewrite len_cons in Hb. pose proof (len_nonneg es).
  destruct (IH (addEntry t f)) as (Hw & He & Hc).
  - apply addEntry_wf; [done|lia].
  - unfold table_len in *. simpl. rewrite len_app. change (len [f]) with 1. lia.
  - split_and!; [done| |done]. rewrite He. simpl. by rewrite <- app_assoc.
Qed.

Lemma staticTable_ok :
  table_wf staticTable /\ ents staticTable = staticTableEntries /\ evictCount staticTable = 0.
Proof. apply (foldl_addEntry_wf staticTableEntries table_init table_init_wf). by vm_compute. Qed.

(** ** The theorems of the tables *)

(** C35.  The two maps of a header table are an index, not a cache that can go
    stale: in every table that additions and evictions can produce, a search
    never panics and returns what the linear search over the entries returns,
    the newest exact match, else the newest match of the name. *)
Theorem search_correct static t f :
  table_reach t -> search static t f = Some (search_ref static t f).
Proof. intros H. by apply search_ref_ok, table_reach_wf. Qed.

Lemma search_correct_witness :
  search false (addEntry (addEntry table_init (hf "a" "1")) (hf "a" "2")) (hf "a" "1") = Some (2, true).
Proof.
  rewrite search_correct; [vm_compute; reflexivity|].
  apply reach_add; [apply reach_add; [apply reach_init|]|]; by vm_compute.
Defined.

(** Adding a field to the dynamic table keeps exactly the longest run of
    newest entries whose sizes fit the maximum: nothing older than an evicted
    entry stays, nothing is evicted needlessly, the recorded size is the sum of
    the sizes kept, and a field larger than the table empties it. *)
Theorem add_keeps_newest dt f :
  dyn_wf dt -> maxSize dt + Size f < 2 ^ 32 ->
  evictCount (table dt) + table_len (table dt) + 1 < 2 ^ 64 ->
  exists dt', dyn_add dt f = Some dt' /\ dyn_wf dt' /\ size dt' <= maxSize dt /\
    ents (table dt') `suffix_of` ents (table dt) ++ [f] /\
    (forall k, k `suffix_of` ents (table dt) ++ [f] -> sum_size k <= maxSize dt ->
       k `suffix_of` ents (table dt')) /\
    (Size f > maxSize dt -> ents (table dt') = []).
Proof.
  intros Hwf Hm Hc. destruct (dyn_add_ok dt f Hwf Hm Hc) as (dt' & He & Hwf' & Hmx & _ & Hes & _).
  exists dt'. rewrite Hes. pose proof (dwf_max _ Hwf').
  split_and!; [done|done|lia|apply fit_suffix_of|intros k; apply fit_longest|].
  intros Hbig. pose proof (dwf_max _ Hwf). pose proof (dwf_size _ Hwf).
  pose proof (sum_size_nonneg (ents (table dt))).
  pose proof (fit_le (maxSize dt) (ents (table dt) ++ [f]) ltac:(lia)) as Hle.
  destruct (fit_suffix_of (maxSize dt) (ents (table dt) ++ [f])) as [x Hx].
  destruct (fit (maxSize dt) (ents (table dt) ++ [f])) as [|g l _] using rev_ind; [done|].
  rewrite app_assoc in Hx. apply app_inj_tail in Hx as [_ ->].
  rewrite sum_size_app in Hle. simpl in Hle. pose proof (sum_size_nonneg l). lia.
Qed.

Lemma add_keeps_newest_witness :
  exists dt', dyn_add (mkDyn table_init 0 33 33) (hf "a" "1") = Some dt' /\ ents (table dt') = [].
Proof.
  destruct (add_keeps_newest (mkDyn table_init 0 33 33) (hf "a" "1"))
    as (dt' & H & _ & _ & _ & _ & He).
  - split; [apply table_init_wf|reflexivity|by vm_compute].
  - by vm_compute.
  - by vm_compute.
  - exists dt'. split; [exact H|]. apply He. by vm_compute.
Defined.
