(* ===== verification/HpackHuffman.v ===== *)
(** * HPACK Huffman coding: h2/hpack/huffman.go and its tables of h2/hpack/tables.go

    The encoder packs the canonical code of each byte into the output buffer
    and pads with ones; the decoder walks a 256-ary tree built once from the
    code table, feeding it eight bits at a time.

    Three layers carry the round trip.  [AppendHuffmanString_bits] says which
    bit string the encoder writes.  [adec] is the decoder on bit strings, which
    [huffmanDecode_adec] shows the byte-at-a-time loop with its shift register
    to compute.  [adec_codes] decodes the bit string of the encoder, from facts
    about the tree that are checked by computation over all 256 symbols. *)
From S2P Require Import Prelude Bits.

Inductive decodingErr :=
| truncatedHeaders
| invalidEncoding
| InvalidIndexError (i : Z)
| sizeUpdateNotFirst
| sizeUpdateTooLarge
| varintOverflow.

(** The errors of package hpack. *)
Inductive hpackErr :=
| errNeedMore
| ErrStringLength
| ErrInvalidHuffman
| DecodingError (e : decodingErr).

#[export] Instance decodingErr_eq_dec : EqDecision decodingErr.
Proof. solve_decision. Defined.
#[export] Instance hpackErr_eq_dec : EqDecision hpackErr.
Proof. solve_decision. Defined.

Definition huffmanCodes : list Z := [
  0x1ff8; 0x7fffd8; 0xfffffe2; 0xfffffe3; 0xfffffe4; 0xfffffe5; 0xfffffe6; 0xfffffe7;
  0xfffffe8; 0xffffea; 0x3ffffffc; 0xfffffe9; 0xfffffea; 0x3ffffffd; 0xfffffeb; 0xfffffec;
  0xfffffed; 0xfffffee; 0xfffffef; 0xffffff0; 0xffffff1; 0xffffff2; 0x3ffffffe; 0xffffff3;
  0xffffff4; 0xffffff5; 0xffffff6; 0xffffff7; 0xffffff8; 0xffffff9; 0xffffffa; 0xffffffb;
  0x14; 0x3f8; 0x3f9; 0xffa; 0x1ff9; 0x15; 0xf8; 0x7fa;
  0x3fa; 0x3fb; 0xf9; 0x7fb; 0xfa; 0x16; 0x17; 0x18;
  0x0; 0x1; 0x2; 0x19; 0x1a; 0x1b; 0x1c; 0x1d;
  0x1e; 0x1f; 0x5c; 0xfb; 0x7ffc; 0x20; 0xffb; 0x3fc;
  0x1ffa; 0x21; 0x5d; 0x5e; 0x5f; 0x60; 0x61; 0x62;
  0x63; 0x64; 0x65; 0x66; 0x67; 0x68; 0x69; 0x6a;
  0x6b; 0x6c; 0x6d; 0x6e; 0x6f; 0x70; 0x71; 0x72;
  0xfc; 0x73; 0xfd; 0x1ffb; 0x7fff0; 0x1ffc; 0x3ffc; 0x22;
  0x7ffd; 0x3; 0x23; 0x4; 0x24; 0x5; 0x25; 0x26;
  0x27; 0x6; 0x74; 0x75; 0x28; 0x29; 0x2a; 0x7;
  0x2b; 0x76; 0x2c; 0x8; 0x9; 0x2d; 0x77; 0x78;
  0x79; 0x7a; 0x7b; 0x7ffe; 0x7fc; 0x3ffd; 0x1ffd; 0xffffffc;
  0xfffe6; 0x3fffd2; 0xfffe7; 0xfffe8; 0x3fffd3; 0x3fffd4; 0x3fffd5; 0x7fffd9;
  0x3fffd6; 0x7fffda; 0x7fffdb; 0x7fffdc; 0x7fffdd; 0x7fffde; 0xffffeb; 0x7fffdf;
  0xffffec; 0xffffed; 0x3fffd7; 0x7fffe0; 0xffffee; 0x7fffe1; 0x7fffe2; 0x7fffe3;
  0x7fffe4; 0x1fffdc; 0x3fffd8; 0x7fffe5; 0x3fffd9; 0x7fffe6; 0x7fffe7; 0xffffef;
  0x3fffda; 0x1fffdd; 0xfffe9; 0x3fffdb; 0x3fffdc; 0x7fffe8; 0x7fffe9; 0x1fffde;
  0x7fffea; 0x3fffdd; 0x3fffde; 0xfffff0; 0x1fffdf; 0x3fffdf; 0x7fffeb; 0x7fffec;
  0x1fffe0; 0x1fffe1; 0x3fffe0; 0x1fffe2; 0x7fffed; 0x3fffe1; 0x7fffee; 0x7fffef;
  0xfffea; 0x3fffe2; 0x3fffe3; 0x3fffe4; 0x7ffff0; 0x3fffe5; 0x3fffe6; 0x7ffff1;
  0x3ffffe0; 0x3ffffe1; 0xfffeb; 0x7fff1; 0x3fffe7; 0x7ffff2; 0x3fffe8; 0x1ffffec;
  0x3ffffe2; 0x3ffffe3; 0x3ffffe4; 0x7ffffde; 0x7ffffdf; 0x3ffffe5; 0xfffff1; 0x1ffffed;
  0x7fff2; 0x1fffe3; 0x3ffffe6; 0x7ffffe0; 0x7ffffe1; 0x3ffffe7; 0x7ffffe2; 0xfffff2;
  0x1fffe4; 0x1fffe5; 0x3ffffe8; 0x3ffffe9; 0xffffffd; 0x7ffffe3; 0x7ffffe4; 0x7ffffe5;
  0xfffec; 0xfffff3; 0xfffed; 0x1fffe6; 0x3fffe9; 0x1fffe7; 0x1fffe8; 0x7ffff3;
  0x3fffea; 0x3fffeb; 0x1ffffee; 0x1ffffef; 0xfffff4; 0xfffff5; 0x3ffffea; 0x7ffff4;
  0x3ffffeb; 0x7ffffe6; 0x3ffffec; 0x3ffffed; 0x7ffffe7; 0x7ffffe8; 0x7ffffe9; 0x7ffffea;
  0x7ffffeb; 0xffffffe; 0x7ffffec; 0x7ffffed; 0x7ffffee; 0x7ffffef; 0x7fffff0; 0x3ffffee ].

Definition huffmanCodeLen : list Z := [
  13; 23; 28; 28; 28; 28; 28; 28; 28; 24; 30; 28; 28; 30; 28; 28;
  28; 28; 28; 28; 28; 28; 30; 28; 28; 28; 28; 28; 28; 28; 28; 28;
  6; 10; 10; 12; 13; 6; 8; 11; 10; 10; 8; 11; 8; 6; 6; 6;
  5; 5; 5; 6; 6; 6; 6; 6; 6; 6; 7; 8; 15; 6; 12; 10;
  13; 6; 7; 7; 7; 7; 7; 7; 7; 7; 7; 7; 7; 7; 7; 7;
  7; 7; 7; 7; 7; 7; 7; 7; 8; 7; 8; 13; 19; 13; 14; 6;
  15; 5; 6; 5; 6; 5; 6; 6; 6; 5; 7; 7; 6; 6; 6; 5;
  6; 7; 6; 5; 5; 6; 7; 7; 7; 7; 7; 15; 11; 14; 13; 28;
  20; 22; 20; 20; 22; 22; 22; 23; 22; 23; 23; 23; 23; 23; 24; 23;
  24; 24; 22; 23; 24; 23; 23; 23; 23; 21; 22; 23; 22; 23; 23; 24;
  22; 21; 20; 22; 22; 23; 23; 21; 23; 22; 22; 24; 21; 22; 23; 23;
  21; 21; 22; 21; 23; 22; 23; 23; 20; 22; 22; 22; 23; 22; 22; 23;
  26; 26; 20; 19; 22; 23; 22; 25; 26; 26; 26; 27; 27; 26; 24; 25;
  19; 21; 26; 27; 27; 26; 27; 24; 21; 21; 26; 26; 28; 27; 27; 27;
  20; 24; 20; 21; 22; 21; 21; 23; 22; 22; 25; 25; 24; 24; 26; 23;
  26; 27; 26; 26; 27; 27; 27; 27; 27; 28; 27; 27; 27; 27; 27; 26 ].

Definition huffCode (c : Z) : Z := huffmanCodes !!! Z.to_nat c.
Definition huffLen (c : Z) : Z := huffmanCodeLen !!! Z.to_nat c.

(** ** The decoding tree *)
#[warnings="-register-all"]
Inductive node :=
| Leaf (codeLen sym : Z)
| Internal (children : list (option node)).

Definition newInternalNode : node := Internal (replicate 256 None).

(** [children[i] = leaf] for [n] indices from [i]; an index past the array panics. *)
Fixpoint fillLeaves (n : nat) (i : nat) (leaf : node) (ch : list (option node))
    : option (list (option node)) :=
  match n with
  | O => Some ch
  | S n =>
      if (i <? 256)%nat then fillLeaves n (S i) leaf (<[i := Some leaf]> ch) else None
  end.

(** One iteration of the loop over [huffmanCodes]: walk down eight bits at a
    time, making internal nodes, then fill in the leaf.  [fuel] bounds the
    number of levels. *)
Fixpoint insertCode (fuel : nat) (cur : node) (code codeLen sym : Z) : option node :=
  match cur with
  | Leaf _ _ => None
  | Internal ch =>
      if codeLen >? 8 then
        match fuel with
        | O => None
        | S fuel =>
            let codeLen := u8 (codeLen - 8) in
            let i := Z.to_nat (u8 (Z.shiftr code codeLen)) in
            child ← ch !! i;
            c' ← insertCode fuel (default newInternalNode child) code codeLen sym;
            Some (Internal (<[i := Some c']> ch))
        end
      else
        let shift := u8 (8 - codeLen) in
        let start := Z.to_nat (u8 (u32 (Z.shiftl code shift))) in
        let n := Z.to_nat (Z.shiftl 1 shift) in
        Internal <$> fillLeaves n start (Leaf codeLen (u8 sym)) ch
  end.

Fixpoint insertAll (sym : Z) (codes lens : list Z) (root : node) : option node :=
  match codes, lens with
  | code :: codes, codeLen :: lens =>
      root ← insertCode 4 root code codeLen sym; insertAll (sym + 1) codes lens root
  | _, _ => Some root
  end.

Definition buildRootHuffmanNode : option node :=
  if negb (len huffmanCodes =? 256) then None
  else insertAll 0 huffmanCodes huffmanCodeLen newInternalNode.

Definition getRootHuffmanNode : option node := buildRootHuffmanNode.

(** ** Decoding *)
Record hstate := mkH {
  hnode : node;
  hcur : Z;
  hcbits : Z;
  hsbits : Z;
  hout : list Z
}.

Section Decode.
Context (root : node) (maxLen : Z).

Definition buffer_full (out : list Z) : bool := negb (maxLen =? 0) && (len out =? maxLen).

(** [for cbits >= 8].  Every iteration lowers [cbits], so [fuel] above it is enough. *)
Fixpoint huffDrain (fuel : nat) (s : hstate) : outcome hpackErr hstate :=
  if hcbits s >=? 8 then
    match fuel, hnode s with
    | S fuel, Internal ch =>
        let idx := u8 (Z.shiftr (hcur s) (hcbits s - 8)) in
        match ch !! Z.to_nat idx with
        | None => Panic
        | Some None => Fail ErrInvalidHuffman
        | Some (Some (Leaf cl sym)) =>
            if buffer_full (hout s) then Fail ErrStringLength else
            let cbits := u8 (hcbits s - cl) in
            huffDrain fuel (mkH root (hcur s) cbits cbits (hout s ++ [sym]))
        | Some (Some n) =>
            huffDrain fuel (mkH n (hcur s) (u8 (hcbits s - 8)) (hsbits s) (hout s))
        end
    | _, _ => Panic
    end
  else Ret s.

(** [for _, b := range v] *)
Fixpoint huffFeed (v : list Z) (s : hstate) : outcome hpackErr hstate :=
  match v with
  | [] => Ret s
  | b :: v =>
      let cur := Z.lor (u64 (Z.shiftl (hcur s) 8)) b in
      let s := mkH (hnode s) cur (u8 (hcbits s + 8)) (u8 (hsbits s + 8)) (hout s) in
      obind (huffDrain 16 s) (huffFeed v)
  end.

(** [for cbits > 0] *)
Fixpoint huffTail (fuel : nat) (s : hstate) : outcome hpackErr hstate :=
  if hcbits s >? 0 then
    match fuel, hnode s with
    | S fuel, Internal ch =>
        match ch !! Z.to_nat (u8 (u64 (Z.shiftl (hcur s) (8 - hcbits s)))) with
        | None => Panic
        | Some None => Fail ErrInvalidHuffman
        | Some (Some (Internal ch')) => Ret s
        | Some (Some (Leaf cl sym)) =>
            if cl >? hcbits s then Ret s else
            if buffer_full (hout s) then Fail ErrStringLength else
            let cbits := u8 (hcbits s - cl) in
            huffTail fuel (mkH root (hcur s) cbits cbits (hout s ++ [sym]))
        end
    | _, _ => Panic
    end
  else Ret s.

Definition huffCheck (s : hstate) : outcome hpackErr (list Z) :=
  if hsbits s >? 7 then Fail ErrInvalidHuffman else
  let mask := Z.shiftl 1 (hcbits s) - 1 in
  if negb (Z.land (hcur s) mask =? mask) then Fail ErrInvalidHuffman else Ret (hout s).

Definition huffmanDecodeFrom (v : list Z) : outcome hpackErr (list Z) :=
  obind (huffFeed v (mkH root 0 0 0 [])) (fun s => obind (huffTail 8 s) huffCheck).

End Decode.

(** [huffmanDecode] on an empty buffer, as all its callers use it. *)
Definition huffmanDecode (maxLen : Z) (v : list Z) : outcome hpackErr (list Z) :=
  from_option (fun root => huffmanDecodeFrom root maxLen v) Panic getRootHuffmanNode.

Definition HuffmanDecodeToString (v : list Z) : outcome hpackErr (list Z) := huffmanDecode 0 v.

(** [HuffmanDecode]: the decoded bytes go to the writer in one call; on an
    error nothing is written. [wr] is what the writer's [Write] returns. *)
Definition HuffmanDecode {R} (wr : list Z -> R) (v : list Z) : outcome hpackErr R :=
  obind (huffmanDecode 0 v) (fun b => Ret (wr b)).

(** ** Encoding *)
(** [dst[len(dst)-1] |= t] *)
Definition or_last (dst : list Z) (t : Z) : option (list Z) :=
  match last dst with
  | None => None
  | Some b => Some (<[pred (length dst) := Z.lor b t]> dst)
  end.

(** The loop of [appendByteToHuffmanCode]; every iteration but the last
    lowers [nbits]. *)
Fixpoint appendBits (fuel : nat) (dst : list Z) (rembits code nbits : Z) : option (list Z * Z) :=
  match fuel with
  | O => None
  | S fuel =>
      if rembits >? nbits then
        dst ← or_last dst (u8 (u32 (Z.shiftl code (rembits - nbits))));
        Some (dst, u8 (rembits - nbits))
      else
        dst ← or_last dst (u8 (Z.shiftr code (nbits - rembits)));
        let nbits := u8 (nbits - rembits) in
        if nbits =? 0 then Some (dst, 8)
        else appendBits fuel (dst ++ [0]) 8 code nbits
  end.

Definition appendByteToHuffmanCode (dst : list Z) (rembits : Z) (c : Z) : option (list Z * Z) :=
  appendBits 6 dst rembits (huffCode c) (huffLen c).

(** The loop of [AppendHuffmanString], over the call it makes for each byte. *)
Section AppendLoop.
Context (appendByte : list Z -> Z -> Z -> option (list Z * Z)).

Fixpoint appendHuffmanLoop (dst : list Z) (rembits : Z) (s : list Z) : option (list Z * Z) :=
  match s with
  | [] => Some (dst, rembits)
  | c :: s =>
      let dst := if rembits =? 8 then dst ++ [0] else dst in
      match appendByte dst rembits c with
      | Some (dst, rembits) => appendHuffmanLoop dst rembits s
      | None => None
      end
  end.

End AppendLoop.

Definition AppendHuffmanString (dst : list Z) (s : list Z) : option (list Z) :=
  '(dst, rembits) ← appendHuffmanLoop appendByteToHuffmanCode dst 8 s;
  if rembits <? 8 then
    or_last dst (u8 (Z.shiftr 0x3fffffff (30 - rembits)))
  else Some dst.

Definition HuffmanEncodeLength (s : list Z) : Z :=
  u64 (foldl (fun n c => u64 (n + huffLen c)) 0 s + 7) / 8.

Example huff_www :
  AppendHuffmanString [] (str "www.example.com")
  = Some [0xf1; 0xe3; 0xc2; 0xe5; 0xf2; 0x3a; 0x6b; 0xa0; 0xab; 0x90; 0xf4; 0xff].
Proof. vm_compute. reflexivity. Qed.
Example huff_dec_www :
  huffmanDecode 0 [0xf1; 0xe3; 0xc2; 0xe5; 0xf2; 0x3a; 0x6b; 0xa0; 0xab; 0x90; 0xf4; 0xff]
  = Ret (str "www.example.com").
Proof. vm_compute. reflexivity. Qed.

(** ** The bit string the encoder writes *)
Definition code_bits (c : Z) : list bool := Zbits (Z.to_nat (huffLen c)) (huffCode c).
Definition codes_bits (s : list Z) : list bool := s ≫= code_bits.

Lemma huff_table_ok c :
  is_u8 c -> 5 <= huffLen c <= 30 /\ 0 <= huffCode c < 2 ^ huffLen c.
Proof.
  intros Hc.
  assert (H : (5 <=? huffLen c) && (huffLen c <=? 30) && (0 <=? huffCode c)
              && (huffCode c <? 2 ^ huffLen c) = true); [|lia].
  revert c Hc. refine (forall_bytes_spec (fun c => (5 <=? huffLen c) && (huffLen c <=? 30)
    && (0 <=? huffCode c) && (huffCode c <? 2 ^ huffLen c)) _). vm_compute. reflexivity.
Qed.

(** [dst] holds the bits [B] followed by [rem] clear bits of its last byte. *)
Definition partial (B : list bool) (dst : list Z) (rem : nat) : Prop :=
  bytes_ok dst /\ exists dst' b X, dst = dst' ++ [b] /\ B = bytes_bits dst' ++ X /\
    Zbits 8 b = X ++ replicate rem false.

(** [dst] after the code of a symbol: a partial last byte, or none. *)
Definition packed (B : list bool) (dst : list Z) (rem : nat) : Prop :=
  ((0 < rem < 8)%nat /\ partial B dst rem) \/
  (rem = 8%nat /\ bytes_ok dst /\ bytes_bits dst = B).

Lemma or_last_snoc dst b t : or_last (dst ++ [b]) t = Some (dst ++ [Z.lor b t]).
Proof.
  unfold or_last. rewrite last_snoc. f_equal. rewrite length_app. simpl length.
  replace (pred (length dst + 1)) with (length dst + 0)%nat by lia.
  by rewrite insert_app_r.
Qed.

Lemma or_last_partial B dst rem t :
  (rem <= 8)%nat -> 0 <= t < 2 ^ Z.of_nat rem -> partial B dst rem ->
  exists dst' b X, or_last dst t = Some (dst' ++ [b]) /\ bytes_ok (dst' ++ [b]) /\
    B = bytes_bits dst' ++ X /\ Zbits 8 b = X ++ Zbits rem t.
Proof.
  intros Hr Ht (Hok & dst' & b & X & -> & HB & Hb).
  exists dst', (Z.lor b t), X. rewrite or_last_snoc. split_and!; try done.
  - apply Forall_app in Hok as [H1 H2]. apply Forall_app. split; [done|].
    constructor; [|done]. apply Forall_inv in H2. unfold is_u8 in *.
    apply lor_range; [lia|done|].
    pose proof (Z.pow_le_mono_r 2 (Z.of_nat rem) 8). lia.
  - replace 8%nat with (8 - rem + rem)%nat in Hb |- * by lia. by apply Zbits_or_low.
Qed.

Lemma partial_fresh B dst : bytes_ok dst -> bytes_bits dst = B -> partial B (dst ++ [0]) 8.
Proof.
  intros Hok <-. split.
  - apply Forall_app. split; [done|]. constructor; [|done]. by vm_compute.
  - exists dst, 0, []. rewrite app_nil_r. by rewrite Zbits_0.
Qed.

(** The [rem] high bits of what is left of a code, and the rest when it is
    shorter than [rem]: what one iteration adds to the last byte. *)
Lemma low_part rem code nbits :
  (nbits < rem <= 8)%nat -> 0 <= code < 2 ^ 32 ->
  code < 2 ^ Z.of_nat nbits \/ rem = 8%nat ->
  let t := u8 (u32 (Z.shiftl code (Z.of_nat rem - Z.of_nat nbits))) in
  0 <= t < 2 ^ Z.of_nat rem /\
  Zbits rem t = Zbits nbits code ++ replicate (rem - nbits) false.
Proof.
  intros Hr Hcode Hhi t. unfold t, u8, u32. split.
  - split; [apply Z.mod_pos_bound; lia|].
    destruct Hhi as [Hhi| ->]; [|apply Z.mod_pos_bound; lia].
    rewrite Z.shiftl_mul_pow2 by lia.
    assert (0 <= code * 2 ^ (Z.of_nat rem - Z.of_nat nbits) < 2 ^ Z.of_nat rem).
    { assert (Hpow : 2 ^ Z.of_nat rem = 2 ^ Z.of_nat nbits * 2 ^ (Z.of_nat rem - Z.of_nat nbits))
        by (rewrite <- Z.pow_add_r by lia; f_equal; lia).
      rewrite Hpow. split; [apply Z.mul_nonneg_nonneg; lia|]. apply Z.mul_lt_mono_pos_r; lia. }
    pose proof (Z.pow_le_mono_r 2 (Z.of_nat rem) 8).
    rewrite (Z.mod_small _ (2 ^ 32)), Z.mod_small; lia.
  - rewrite !Zbits_mod by lia. replace rem with (nbits + (rem - nbits))%nat at 1 by lia.
    replace (Z.of_nat rem - Z.of_nat nbits) with (Z.of_nat (rem - nbits)) by lia.
    rewrite <- (Z.lor_0_r (Z.shiftl code _)), Zbits_shift_in, Zbits_0 by lia. done.
Qed.

Lemma high_part rem code nbits :
  (0 < rem <= 8)%nat -> (rem <= nbits)%nat -> 0 <= code ->
  code < 2 ^ Z.of_nat nbits \/ rem = 8%nat ->
  let t := u8 (Z.shiftr code (Z.of_nat nbits - Z.of_nat rem)) in
  0 <= t < 2 ^ Z.of_nat rem /\
  Zbits nbits code = Zbits rem t ++ Zbits (nbits - rem) code.
Proof.
  intros Hr Hle Hcode Hhi t. unfold t, u8. split.
  - split; [apply Z.mod_pos_bound; lia|].
    destruct Hhi as [Hhi| ->]; [|apply Z.mod_pos_bound; lia].
    rewrite Z.shiftr_div_pow2 by lia. pose proof (Z.pow_le_mono_r 2 (Z.of_nat rem) 8).
    assert (0 <= code / 2 ^ (Z.of_nat nbits - Z.of_nat rem) < 2 ^ Z.of_nat rem).
    { split; [apply Z.div_pos; lia|].
      apply Z.div_lt_upper_bound; [lia|]. rewrite <- Z.pow_add_r by lia.
      replace (Z.of_nat nbits - Z.of_nat rem + Z.of_nat rem) with (Z.of_nat nbits) by lia. lia. }
    rewrite Z.mod_small; lia.
  - rewrite Zbits_mod, <- Nat2Z.inj_sub, <- Zbits_app by lia. f_equal. lia.
Qed.

Lemma appendBits_ok fuel dst rem code nbits B :
  (0 < rem <= 8)%nat -> (0 < nbits <= 30)%nat -> 0 <= code < 2 ^ 32 ->
  code < 2 ^ Z.of_nat nbits \/ rem = 8%nat ->
  (nbits + (8 - rem) < 8 * fuel)%nat -> partial B dst rem ->
  exists dst' rem', appendBits fuel dst (Z.of_nat rem) code (Z.of_nat nbits)
                    = Some (dst', Z.of_nat rem') /\ packed (B ++ Zbits nbits code) dst' rem'.
Proof.
  revert dst rem nbits B.
  induction fuel as [|fuel IH]; intros dst rem nbits B Hrem Hn Hcode Hhi Hfuel HP; [lia|].
  cbn [appendBits]. destruct (Z.gtb_spec (Z.of_nat rem) (Z.of_nat nbits)) as [Hgt|Hle].
  - destruct (low_part rem code nbits) as [Ht Hbits]; [lia..|].
    destruct (or_last_partial B dst rem _ ltac:(lia) Ht HP)
      as (dst' & b & X & -> & Hok & HB & Hb).
    exists (dst' ++ [b]), (rem - nbits)%nat. simpl. split.
    { rewrite u8_small by lia. do 2 f_equal. lia. }
    left. split; [lia|]. split; [done|]. exists dst', b, (X ++ Zbits nbits code).
    split_and!; [done|by rewrite HB, app_assoc|by rewrite Hb, Hbits, app_assoc].
  - destruct (high_part rem code nbits) as [Ht Hsplit]; [lia..|].
    destruct (or_last_partial B dst rem _ ltac:(lia) Ht HP)
      as (dst' & b & X & -> & Hok & HB & Hb).
    simpl. rewrite u8_small by lia.
    assert (Hfull : bytes_bits (dst' ++ [b])
              = B ++ Zbits rem (u8 (Z.shiftr code (Z.of_nat nbits - Z.of_nat rem)))).
    { rewrite bytes_bits_app, bytes_bits_one, Hb, HB. by rewrite app_assoc. }
    destruct (Z.eqb_spec (Z.of_nat nbits - Z.of_nat rem) 0) as [E|E].
    + exists (dst' ++ [b]), 8%nat. split; [done|]. right. split_and!; [done|done|].
      rewrite Hfull, Hsplit. replace (nbits - rem)%nat with O by lia. by rewrite app_nil_r.
    + edestruct (IH ((dst' ++ [b]) ++ [0]) 8%nat (nbits - rem)%nat) as (d & r & Heq & Hp);
        [lia|lia|done|by right|lia|by apply partial_fresh|].
      exists d, r. rewrite Nat2Z.inj_sub in Heq by lia. split; [exact Heq|].
      by rewrite Hsplit, app_assoc.
Qed.

Lemma appendHuffmanLoop_ok s dst rem B :
  bytes_ok s -> packed B dst rem ->
  exists dst' rem', appendHuffmanLoop appendByteToHuffmanCode dst (Z.of_nat rem) s
    = Some (dst', Z.of_nat rem') /\ packed (B ++ codes_bits s) dst' rem'.
Proof.
  intros Hs. revert dst rem B. induction Hs as [|c s Hc Hs IH]; intros dst rem B HP; simpl.
  { exists dst, rem. by rewrite app_nil_r. }
  destruct (huff_table_ok c Hc) as [Hlen Hcode].
  assert (Hcall : exists dst' rem', appendByteToHuffmanCode
      (if Z.of_nat rem =? 8 then dst ++ [0] else dst) (Z.of_nat rem) c
      = Some (dst', Z.of_nat rem') /\ packed (B ++ code_bits c) dst' rem').
  { unfold appendByteToHuffmanCode, code_bits.
    assert (huffCode c < 2 ^ 32) by (pose proof (Z.pow_le_mono_r 2 (huffLen c) 32); lia).
    destruct (Z_of_nat_complete (huffLen c)) as [k Hk]; [lia|].
    rewrite Hk in Hlen, Hcode |- *. rewrite Nat2Z.id.
    destruct HP as [[Hr HP]|(-> & Hok & HB)].
    - rewrite (proj2 (Z.eqb_neq (Z.of_nat rem) 8)) by lia.
      apply appendBits_ok; [lia|lia|lia|left; lia|lia|done].
    - apply (appendBits_ok 6 (dst ++ [0]) 8); [lia|lia|lia|by right|lia|].
      by apply partial_fresh. }
  destruct Hcall as (dst' & rem' & -> & HP').
  destruct (IH _ _ _ HP') as (d & r & He & HP''). exists d, r. split; [done|].
  by rewrite <- app_assoc in HP''.
Qed.

(** The encoder appends the codes of the bytes, then ones up to the byte boundary. *)
Lemma AppendHuffmanString_bits dst s :
  bytes_ok dst -> bytes_ok s ->
  exists v pad, AppendHuffmanString dst s = Some (dst ++ v) /\ bytes_ok v /\
    (pad < 8)%nat /\ bytes_bits v = codes_bits s ++ replicate pad true.
Proof.
  intros Hd Hs.
  assert (Hout : exists out pad, AppendHuffmanString dst s = Some out /\ bytes_ok out /\
    (pad < 8)%nat /\ bytes_bits out = bytes_bits dst ++ codes_bits s ++ replicate pad true).
  { unfold AppendHuffmanString.
    destruct (appendHuffmanLoop_ok s dst 8 (bytes_bits dst) Hs) as (out & rem & Hloop & HP).
    { right. done. }
    change (Z.of_nat 8) with 8 in Hloop. rewrite Hloop.
    cbn [mbind option_bind]. destruct HP as [[Hr HP]|(-> & Hok & HB)].
    - rewrite (proj2 (Z.ltb_lt (Z.of_nat rem) 8)) by lia.
      assert (Ht : u8 (Z.shiftr 0x3fffffff (30 - Z.of_nat rem)) = 2 ^ Z.of_nat rem - 1).
      { assert (Hc : rem ∈ seq 1 7) by (apply elem_of_seq; lia).
        repeat (apply elem_of_cons in Hc as [->|Hc]; [by vm_compute|]). set_solver. }
      rewrite Ht.
      destruct (or_last_partial _ out rem (2 ^ Z.of_nat rem - 1) ltac:(lia) ltac:(lia) HP)
        as (d & b & X & -> & Hok & HB & Hb).
      exists (d ++ [b]), rem. split_and!; [done|done|lia|].
      rewrite bytes_bits_app, bytes_bits_one, Hb, Zbits_ones by lia.
      by rewrite app_assoc, <- HB, app_assoc.
    - exists out, O. split_and!; [done|done|lia|]. by rewrite HB, app_nil_r. }
  destruct Hout as (out & pad & -> & Hok & Hpad & HB).
  destruct (bytes_bits_prefix dst out _ Hd Hok HB) as (v & -> & Hv).
  exists v, pad. split_and!; [done| |done|done]. by apply Forall_app in Hok as [].
Qed.

(** ** Facts about the tree, checked by computation *)
Definition child_at (ch : list (option node)) (bs : list bool) : option (option node) :=
  ch !! Z.to_nat (bits_val bs).

(** From [n], the bits [C] lead to the leaf of [c], whatever bits follow. *)
Fixpoint path_ok (fuel : nat) (n : node) (C : list bool) (c : Z) : bool :=
  match n, fuel with
  | Internal ch, S fuel =>
      if (8 <? length C)%nat then
        match child_at ch (take 8 C) with
        | Some (Some (Internal ch')) => path_ok fuel (Internal ch') (drop 8 C) c
        | _ => false
        end
      else
        forallb (fun X => match child_at ch (C ++ X) with
                          | Some (Some (Leaf cl sym)) => (cl =? len C) && (sym =? c)
                          | _ => false
                          end) (all_bits (8 - length C))
  | _, _ => false
  end.

(** Fewer than eight ones, padded with zeros, are not the code of a symbol. *)
Definition pad_ok (root : node) (k : nat) : bool :=
  match root with
  | Leaf _ _ => false
  | Internal ch =>
      match child_at ch (replicate k true ++ replicate (8 - k) false) with
      | Some (Some (Internal _)) => true
      | Some (Some (Leaf cl _)) => cl >? Z.of_nat k
      | _ => false
      end
  end.

(** Every internal node has 256 children, leaves consume one to eight bits,
    and the tree has at most [k] levels of internal nodes. *)
Fixpoint tree_ok (k : nat) (n : node) : bool :=
  match n, k with
  | Internal ch, S k =>
      (length ch =? 256)%nat &&
      forallb (fun o => match o with
                        | None => true
                        | Some (Leaf cl sym) => (1 <=? cl) && (cl <=? 8) && (0 <=? sym) && (sym <? 256)
                        | Some n => tree_ok k n
                        end) ch
  | _, _ => false
  end.

Record root_spec (root : node) : Prop := {
  rs_path : forall c, is_u8 c -> path_ok 4 root (code_bits c) c = true;
  rs_pad : forall k, (0 < k < 8)%nat -> pad_ok root k = true;
  rs_tree : tree_ok 4 root = true
}.

Lemma getRoot_spec : exists root, getRootHuffmanNode = Some root /\ root_spec root.
Proof.
  assert (H : from_option (fun root =>
      forall_bytes (fun c => path_ok 4 root (code_bits c) c)
      && forallb (pad_ok root) (seq 1 7) && tree_ok 4 root) false getRootHuffmanNode = true).
  { vm_compute. reflexivity. }
  destruct getRootHuffmanNode as [root|]; [|done]. exists root. split; [done|].
  cbn [from_option] in H. apply andb_prop in H as [[Hp Hq]%andb_prop Ht]. split; [|intros k Hk|done].
  - by apply forall_bytes_spec.
  - rewrite forallb_forall in Hq. apply Hq, list_elem_of_In, elem_of_seq. lia.
Qed.

(** ** Decoding what the encoder wrote *)
Lemma codes_bits_cons c s : codes_bits (c :: s) = code_bits c ++ codes_bits s.
Proof. done. Qed.

Lemma code_bits_length c : is_u8 c -> length (code_bits c) = Z.to_nat (huffLen c).
Proof. intros. apply Zbits_length. Qed.

Lemma code_bits_nonempty c : is_u8 c -> (0 < length (code_bits c))%nat.
Proof. intros Hc. rewrite code_bits_length by done. pose proof (huff_table_ok c Hc). lia. Qed.

Section RoundTrip.
Context (root : node) (Hroot : root_spec root) (maxLen : Z).

(** What is left to decode is [w], and the bits not yet consumed are [R]: the
    rest of the code of the first symbol, from the node [n], the codes of the
    others, and the padding. *)
Definition pending (n : node) (fresh : bool) (w : list Z) (R : list bool) : Prop :=
  exists pad, (pad < 8)%nat /\
  match w with
  | [] => n = root /\ fresh = true /\ R = replicate pad true
  | c :: w => exists f C, path_ok f n C c = true /\ (0 < length C)%nat /\
      R = C ++ codes_bits w ++ replicate pad true
  end.

Lemma pending_root w pad fresh :
  bytes_ok w -> (pad < 8)%nat -> fresh = true ->
  pending root fresh w (codes_bits w ++ replicate pad true).
Proof.
  intros Hw Hpad ->. exists pad. split; [done|]. destruct Hw as [|c w Hc Hw]; [done|].
  exists 4%nat, (code_bits c). split_and!.
  - by apply (rs_path _ Hroot).
  - by apply code_bits_nonempty.
  - by rewrite codes_bits_cons, <- app_assoc.
Qed.

(** The eight bits at the head of the register, and what the register holds after them. *)
Lemma register_split cur cb k R v :
  (k <= cb)%nat -> Zbits cb cur ++ v = R ->
  take k R = Zbits k (Z.shiftr cur (Z.of_nat (cb - k))) /\ Zbits (cb - k) cur ++ v = drop k R.
Proof.
  intros Hk <-.
  assert (Hs : Zbits cb cur = Zbits k (Z.shiftr cur (Z.of_nat (cb - k))) ++ Zbits (cb - k) cur)
    by (rewrite <- Zbits_app; f_equal; lia).
  rewrite Hs, <- app_assoc, take_app_length', drop_app_length' by (rewrite Zbits_length; lia).
  done.
Qed.

Definition regs (s : hstate) (v : list Z) (R : list bool) : Prop :=
  exists cb, hcbits s = Z.of_nat cb /\ (cb < 16)%nat /\ Zbits cb (hcur s) ++ bytes_bits v = R.

(** The step the decoder takes on the first eight unconsumed bits. *)
Lemma pending_step n fresh w R :
  bytes_ok w -> pending n fresh w R -> (8 <= length R)%nat ->
  exists ch, n = Internal ch /\
   ((exists n', child_at ch (take 8 R) = Some (Some (Internal n')) /\
       forall b, pending (Internal n') b w (drop 8 R)) \/
    (exists c w' k, child_at ch (take 8 R) = Some (Some (Leaf (Z.of_nat k) c)) /\
       w = c :: w' /\ (0 < k <= 8)%nat /\ pending root true w' (drop k R))).
Proof.
  intros Hw (pad & Hpad & Hp) HR. destruct w as [|c w].
  { destruct Hp as (_ & _ & ->). rewrite length_replicate in HR. lia. }
  destruct Hp as (f & C & Hpath & HC & ->).
  destruct f as [|f]; [by destruct n|]. destruct n as [cl sym|ch]; [done|]. exists ch. split; [done|].
  cbn [path_ok] in Hpath. destruct (Nat.ltb_spec 8 (length C)).
  - left. rewrite take_app_le, drop_app_le by lia.
    destruct (child_at ch (take 8 C)) as [[[cl sym|ch']|]|]; try done.
    exists ch'. split; [done|]. intros b. exists pad. split; [done|].
    exists f, (drop 8 C). rewrite length_drop. split_and!; [done|lia|done].
  - right. exists c, w, (length C). rewrite forallb_forall in Hpath.
    rewrite take_app_ge, drop_app_length by lia.
    rewrite length_app in HR.
    assert (Hx : length (take (8 - length C) (codes_bits w ++ replicate pad true))
                 = (8 - length C)%nat) by (rewrite length_take; lia).
    specialize (Hpath _ (proj1 (list_elem_of_In _ _) (all_bits_complete _ _ Hx))).
    destruct (child_at ch _) as [[[cl sym|]|]|]; try done.
    apply andb_prop in Hpath as [->%Z.eqb_eq ->%Z.eqb_eq].
    split_and!; [done|done|lia|lia|]. inversion Hw; subst.
    by apply pending_root.
Qed.

Lemma buffer_not_full s (c : Z) (w : list Z) :
  maxLen = 0 \/ len (hout s) + len (c :: w) <= maxLen -> buffer_full maxLen (hout s) = false.
Proof.
  intros Hmax. unfold buffer_full. rewrite len_cons in Hmax. pose proof (len_nonneg w).
  destruct (Z.eqb_spec maxLen 0); [done|]. simpl. apply Z.eqb_neq. lia.
Qed.

Lemma huffDrain_ok fuel s v w R :
  bytes_ok w -> regs s v R -> pending (hnode s) (hsbits s =? hcbits s) w R ->
  (Z.to_nat (hcbits s) < fuel)%nat -> (maxLen = 0 \/ len (hout s) + len w <= maxLen) ->
  exists s' w' R', huffDrain root maxLen fuel s = Ret s' /\ regs s' v R' /\ hcbits s' < 8 /\
    bytes_ok w' /\ pending (hnode s') (hsbits s' =? hcbits s') w' R' /\
    hout s' ++ w' = hout s ++ w.
Proof.
  revert s w R. induction fuel as [|fuel IH]; intros s w R Hw HR HP Hf Hmax; [lia|].
  cbn [huffDrain]. destruct (Z.geb_spec (hcbits s) 8) as [Hge|Hlt].
  2: { exists s, w, R. split_and!; try done. }
  destruct HR as (cb & Hcb & Hb & HR).
  destruct (register_split (hcur s) cb 8 R (bytes_bits v)) as [Htake Hdrop]; [lia|done|].
  assert (Hlen : (8 <= length R)%nat).
  { rewrite <- HR, length_app, Zbits_length. lia. }
  assert (Hidx : u8 (Z.shiftr (hcur s) (hcbits s - 8)) = bits_val (take 8 R)).
  { rewrite Htake, bits_val_Zbits, Hcb. unfold u8. do 2 f_equal. lia. }
  destruct (pending_step _ _ _ _ Hw HP Hlen) as (ch & -> & Hcase).
  rewrite Hidx. change (ch !! Z.to_nat (bits_val (take 8 R))) with (child_at ch (take 8 R)).
  destruct Hcase as [(n' & -> & HP')|(c & w' & k & -> & -> & Hk & HP')].
  - apply (IH (mkH (Internal n') (hcur s) (u8 (hcbits s - 8)) (hsbits s) (hout s)) w (drop 8 R));
      simpl; [done| |apply HP'|rewrite u8_small; lia|done].
    exists (cb - 8)%nat. simpl. rewrite u8_small by lia. split_and!; [lia|lia|done].
  - rewrite (buffer_not_full s c w') by done.
    destruct (register_split (hcur s) cb k R (bytes_bits v)) as [_ Hdrop']; [lia|done|].
    edestruct (IH (mkH root (hcur s) (u8 (hcbits s - Z.of_nat k)) (u8 (hcbits s - Z.of_nat k))
      (hout s ++ [c])) w' (drop k R)) as (s' & w'' & R' & He & ? & ? & ? & ? & Hout); simpl.
    + by inversion Hw.
    + exists (cb - k)%nat. simpl. rewrite u8_small by lia. split_and!; [lia|lia|done].
    + by rewrite Z.eqb_refl.
    + rewrite u8_small; lia.
    + rewrite len_cons in Hmax. rewrite len_app. change (len [c]) with 1. lia.
    + exists s', w'', R'. split_and!; try done. rewrite Hout. simpl. by rewrite <- app_assoc.
Qed.

Lemma huffFeed_ok v s w R :
  bytes_ok v -> bytes_ok w -> regs s v R -> hcbits s < 8 ->
  pending (hnode s) (hsbits s =? hcbits s) w R ->
  (maxLen = 0 \/ len (hout s) + len w <= maxLen) ->
  exists s' w' R', huffFeed root maxLen v s = Ret s' /\ regs s' [] R' /\ hcbits s' < 8 /\
    bytes_ok w' /\ pending (hnode s') (hsbits s' =? hcbits s') w' R' /\
    hout s' ++ w' = hout s ++ w.
Proof.
  intros Hv. revert s w R. induction Hv as [|b v Hb Hv IH]; intros s w R Hw HR Hc HP Hmax.
  { by exists s, w, R. }
  cbn [huffFeed]. destruct HR as (cb & Hcb & Hcb' & HR).
  set (s1 := mkH _ _ _ _ _).
  assert (HR1 : regs s1 v R).
  { exists (cb + 8)%nat. simpl. rewrite u8_small by lia. split_and!; [lia|lia|].
    rewrite <- HR, bytes_bits_cons, app_assoc. f_equal.
    rewrite <- (Zbits_shift_in cb 8) by done. unfold u64.
    rewrite !Zbits_lor, Zbits_mod by lia. done. }
  assert (HP1 : pending (hnode s1) (hsbits s1 =? hcbits s1) w R).
  { destruct HP as (pad & Hpad & HP). exists pad. split; [done|]. destruct w; [|done].
    destruct HP as (_ & _ & HP). apply (f_equal length) in HP.
    rewrite <- HR, bytes_bits_cons, !length_app, !Zbits_length, length_replicate in HP. lia. }
  destruct (huffDrain_ok 16 s1 v w R) as (s2 & w2 & R2 & -> & ? & ? & ? & ? & Hout); try done.
  { simpl. rewrite u8_small; lia. }
  cbn [obind]. assert (Hl : len (hout s2) + len w2 = len (hout s) + len w).
  { rewrite <- !len_app, Hout. done. }
  destruct (IH s2 w2 R2) as (s3 & w3 & R3 & ? & ? & ? & ? & ? & Hout3); try done; [lia|].
  exists s3, w3, R3. split_and!; try done. by rewrite Hout3, Hout.
Qed.

(** The final index: the remaining bits, with zeros for those that are missing. *)
Lemma tail_index cur cb :
  (cb < 8)%nat ->
  u8 (u64 (Z.shiftl cur (8 - Z.of_nat cb))) = bits_val (Zbits cb cur ++ replicate (8 - cb) false).
Proof.
  intros Hcb. rewrite <- Zbits_0, <- Zbits_shift_in by lia. rewrite Z.lor_0_r.
  replace (cb + (8 - cb))%nat with 8%nat by lia. rewrite bits_val_Zbits.
  unfold u8, u64. change (2 ^ Z.of_nat 8) with (2 ^ 8).
  rewrite <- (Z.mod_mod_divide (Z.shiftl _ _) (2 ^ 64) (2 ^ 8)) by (by exists (2 ^ 56)).
  do 3 f_equal. lia.
Qed.

(** With fewer than eight bits left: the leaf of the symbol they start with... *)
Lemma tail_leaf f n C c Y k :
  path_ok f n C c = true -> (length C <= k)%nat -> (k < 8)%nat ->
  length (C ++ Y) = k ->
  exists ch, n = Internal ch /\
    child_at ch ((C ++ Y) ++ replicate (8 - k) false) = Some (Some (Leaf (len C) c)).
Proof.
  intros Hpath HC Hk Hl. destruct f as [|f]; [by destruct n|].
  destruct n as [|ch]; [done|]. exists ch. split; [done|]. cbn [path_ok] in Hpath.
  rewrite (proj2 (Nat.ltb_ge 8 (length C))), forallb_forall in Hpath by lia.
  rewrite <- app_assoc. rewrite length_app in Hl.
  assert (Hx : length (Y ++ replicate (8 - k) false) = (8 - length C)%nat)
    by (rewrite length_app, length_replicate; lia).
  specialize (Hpath _ (proj1 (list_elem_of_In _ _) (all_bits_complete _ _ Hx))).
  destruct (child_at ch _) as [[[cl sym|]|]|]; try done.
  by apply andb_prop in Hpath as [->%Z.eqb_eq ->%Z.eqb_eq].
Qed.

(** ... or, when only padding is left, nothing that fits. *)
Lemma tail_pad k :
  (0 < k < 8)%nat -> exists ch, root = Internal ch /\
    match child_at ch (replicate k true ++ replicate (8 - k) false) with
    | Some (Some (Internal _)) => True
    | Some (Some (Leaf cl _)) => cl > Z.of_nat k
    | _ => False
    end.
Proof.
  intros Hk. pose proof (rs_pad _ Hroot k Hk) as Hp. unfold pad_ok in Hp.
  destruct root as [|ch]; [done|]. exists ch. split; [done|].
  destruct (child_at ch _) as [[[cl sym|]|]|]; try done. lia.
Qed.

Lemma huffTail_ok fuel s w R :
  bytes_ok w -> regs s [] R -> hcbits s < 8 -> (Z.to_nat (hcbits s) < fuel)%nat ->
  pending (hnode s) (hsbits s =? hcbits s) w R ->
  (maxLen = 0 \/ len (hout s) + len w <= maxLen) ->
  exists s' pad, huffTail root maxLen fuel s = Ret s' /\ (pad < 8)%nat /\
    hcbits s' = Z.of_nat pad /\ hsbits s' = Z.of_nat pad /\
    Zbits pad (hcur s') = replicate pad true /\ hout s' = hout s ++ w.
Proof.
  revert s w R. induction fuel as [|fuel IH]; intros s w R Hw HR Hc Hf HP Hmax; [lia|].
  destruct HR as (cb & Hcb & _ & HR). rewrite app_nil_r in HR. rewrite Hcb in Hc, Hf.
  cbn [huffTail]. rewrite Hcb, tail_index, HR by lia.
  assert (HlR : length R = cb) by (by rewrite <- HR, Zbits_length).
  destruct HP as (pad & Hpad & HP). destruct w as [|c w].
  - destruct HP as (Hn & Hs%Z.eqb_eq & ->). rewrite length_replicate in HlR. subst cb.
    assert (Hend : exists s' pad', @Ret hpackErr _ s = Ret s' /\ (pad' < 8)%nat /\
      hcbits s' = Z.of_nat pad' /\ hsbits s' = Z.of_nat pad' /\
      Zbits pad' (hcur s') = replicate pad' true /\ hout s' = hout s ++ []).
    { exists s, pad. rewrite app_nil_r. split_and!; try done; congruence. }
    destruct (Z.gtb_spec (Z.of_nat pad) 0) as [Hgt|]; [|done]. rewrite Hn.
    destruct (tail_pad pad) as (ch & -> & Hch); [lia|]. unfold child_at in Hch.
    destruct (ch !! _) as [[[cl sym|]|]|]; try done.
    by rewrite (proj2 (Z.gtb_lt cl (Z.of_nat pad))) by lia.
  - destruct HP as (f & C & Hpath & HC & HP). rewrite HP in HlR.
    assert (Hle : (length C <= cb)%nat) by (rewrite length_app in HlR; lia).
    rewrite (proj2 (Z.gtb_lt (Z.of_nat cb) 0)) by lia.
    destruct (tail_leaf f _ C c _ cb Hpath Hle ltac:(lia) HlR) as (ch & -> & Hch).
    unfold child_at in Hch. rewrite HP, Hch.
    destruct (Z.gtb_spec (len C) (Z.of_nat cb)); [unfold len in *; lia|].
    rewrite (buffer_not_full s c w) by done.
    destruct (register_split (hcur s) cb (length C) R [] Hle) as [_ Hd]; [by rewrite app_nil_r|].
    rewrite app_nil_r in Hd. rewrite u8_small by (unfold len in *; lia).
    edestruct (IH (mkH root (hcur s) (Z.of_nat cb - len C) (Z.of_nat cb - len C)
      (hout s ++ [c])) w (drop (length C) R)) as (s' & p & He & ? & ? & ? & ? & Ho); simpl.
    + by inversion Hw.
    + exists (cb - length C)%nat. simpl. rewrite app_nil_r. unfold len. split_and!; [lia|lia|done].
    + unfold len. lia.
    + unfold len. lia.
    + rewrite Z.eqb_refl, HP, drop_app_length. apply pending_root; [by inversion Hw|done|done].
    + rewrite len_cons in Hmax. rewrite len_app. change (len [c]) with 1. lia.
    + exists s', p. split_and!; try done. rewrite Ho. simpl. by rewrite <- app_assoc.
Qed.

Lemma huffCheck_ok s pad :
  (pad < 8)%nat -> hcbits s = Z.of_nat pad -> hsbits s = Z.of_nat pad ->
  Zbits pad (hcur s) = replicate pad true -> huffCheck s = Ret (hout s).
Proof.
  intros Hp Hc Hs Hb. unfold huffCheck. rewrite Hs, Hc.
  destruct (Z.gtb_spec (Z.of_nat pad) 7); [lia|].
  rewrite Z.shiftl_mul_pow2, Z.mul_1_l by lia.
  replace (2 ^ Z.of_nat pad - 1) with (Z.ones (Z.of_nat pad)) by (rewrite Z.ones_equiv; lia).
  rewrite Z.land_ones, <- bits_val_Zbits, Hb by lia.
  rewrite <- (Zbits_ones pad (Z.of_nat pad)), bits_val_Zbits by lia.
  rewrite Z.mod_small, Z.ones_equiv, Z.sub_1_r, Z.eqb_refl by lia. done.
Qed.

Lemma huffmanDecodeFrom_ok v s pad :
  bytes_ok v -> bytes_ok s -> (pad < 8)%nat ->
  bytes_bits v = codes_bits s ++ replicate pad true -> (maxLen = 0 \/ len s <= maxLen) ->
  huffmanDecodeFrom root maxLen v = Ret s.
Proof.
  intros Hv Hs Hpad Hbits Hmax. unfold huffmanDecodeFrom.
  destruct (huffFeed_ok v (mkH root 0 0 0 []) s (bytes_bits v))
    as (s1 & w1 & R1 & -> & ? & ? & ? & ? & Hout); try done.
  { exists O. split_and!; [done|lia|done]. }
  { simpl. rewrite Hbits. by apply pending_root. }
  simpl in Hout. cbn [obind].
  destruct (huffTail_ok 8 s1 w1 R1) as (s2 & p & -> & ? & ? & ? & ? & Ho); try done.
  { lia. }
  { rewrite <- len_app, Hout. done. }
  cbn [obind]. rewrite (huffCheck_ok s2 p) by done. by rewrite Ho, Hout.
Qed.
End RoundTrip.

(** What [AppendHuffmanString] appends decodes to the string it was given,
    unless the string is longer than the decoder allows. *)
Lemma huffman_roundtrip_ok dst s maxLen :
  bytes_ok dst -> bytes_ok s -> maxLen = 0 \/ len s <= maxLen ->
  exists v, AppendHuffmanString dst s = Some (dst ++ v) /\ bytes_ok v /\
    huffmanDecode maxLen v = Ret s.
Proof.
  intros Hd Hs Hmax. destruct (AppendHuffmanString_bits dst s Hd Hs) as (v & pad & -> & ? & ? & ?).
  exists v. split_and!; [done|done|]. unfold huffmanDecode.
  destruct getRoot_spec as (root & -> & Hroot). cbn [from_option].
  by apply (huffmanDecodeFrom_ok root Hroot maxLen v s pad).
Qed.

Lemma foldl_huffLen s n :
  bytes_ok s -> 0 <= n -> n + 30 * len s < 2 ^ 64 ->
  foldl (fun n c => u64 (n + huffLen c)) n s = n + len (codes_bits s).
Proof.
  intros Hs. revert n. induction Hs as [|c s Hc Hs IH]; intros n Hn Hb; cbn [foldl].
  { change (len (codes_bits [])) with 0. lia. }
  pose proof (huff_table_ok c Hc). rewrite len_cons in Hb. pose proof (len_nonneg s).
  rewrite u64_small, IH, codes_bits_cons, len_app by lia.
  unfold len at 2. rewrite code_bits_length by done. lia.
Qed.

(** [HuffmanEncodeLength] is the length of what [AppendHuffmanString] appends. *)
Lemma HuffmanEncodeLength_ok s v :
  bytes_ok s -> 30 * len s + 7 < 2 ^ 64 ->
  AppendHuffmanString [] s = Some v -> HuffmanEncodeLength s = len v.
Proof.
  intros Hs Hb Hv. unfold HuffmanEncodeLength. pose proof (len_nonneg s).
  destruct (AppendHuffmanString_bits [] s) as (v' & pad & Hv' & _ & Hpad & Hbits);
    [constructor|done|]. simpl in Hv'. simplify_eq.
  apply (f_equal length) in Hbits. rewrite bytes_bits_length, length_app, length_replicate in Hbits.
  rewrite foldl_huffLen by (done || lia). rewrite Z.add_0_l.
  assert (Hl : len (codes_bits s) + Z.of_nat pad = 8 * len v) by (unfold len; lia).
  assert (len (codes_bits s) <= 30 * len s).
  { clear -Hs. induction Hs as [|c s Hc Hs IH]; [done|].
    rewrite codes_bits_cons, len_app, len_cons. pose proof (huff_table_ok c Hc).
    unfold len at 1. rewrite code_bits_length by done. lia. }
  pose proof (len_nonneg (codes_bits s)). rewrite u64_small by lia.
  symmetry. apply (Z.div_unique _ 8 _ (7 - Z.of_nat pad)); lia.
Qed.

(** The appended bytes do not depend on what the buffer held before. *)
Lemma AppendHuffmanString_len dst s v :
  bytes_ok dst -> bytes_ok s -> 30 * len s + 7 < 2 ^ 64 ->
  AppendHuffmanString dst s = Some (dst ++ v) -> len v = HuffmanEncodeLength s.
Proof.
  intros Hd Hs Hb Hv.
  destruct (AppendHuffmanString_bits dst s Hd Hs) as (v' & pad & Hv' & _ & Hpad & Hbits).
  rewrite Hv' in Hv. simplify_eq.
  destruct (AppendHuffmanString_bits [] s) as (v0 & pad0 & Hv0 & _ & Hpad0 & Hbits0);
    [constructor|done|].
  rewrite (HuffmanEncodeLength_ok s v0) by done.
  apply (f_equal length) in Hbits, Hbits0.
  rewrite bytes_bits_length, length_app, length_replicate in Hbits, Hbits0.
  unfold len. lia.
Qed.

(** ** The decoder is total

    On every input it returns a string or an error: it never reads through a
    nil array, never indexes one out of range, and its loops end. *)

(** What a decoded string satisfies: bytes, and no more than [maxLen] of them. *)
Definition decoded_ok (maxLen : Z) (out : list Z) : Prop :=
  bytes_ok out /\ (0 < maxLen -> len out <= maxLen).

Section Total.
Context (root : node) (Htree : tree_ok 4 root = true) (maxLen : Z).

Definition hstate_ok (s : hstate) : Prop :=
  (exists k, tree_ok k (hnode s) = true) /\ 0 <= hcbits s < 16 /\ decoded_ok maxLen (hout s).

(** A byte is added only while the buffer is not full. *)
Lemma decoded_snoc out c :
  decoded_ok maxLen out -> buffer_full maxLen out = false -> is_u8 c ->
  decoded_ok maxLen (out ++ [c]).
Proof.
  intros [Hb Hl] Hfull Hc. split; [by apply bytes_ok_snoc|]. intros Hm.
  rewrite len_app. change (len [c]) with 1. unfold buffer_full in Hfull. specialize (Hl Hm). lia.
Qed.

Lemma tree_ok_child k n i :
  tree_ok k n = true -> is_u8 i -> exists ch, n = Internal ch /\
    match ch !! Z.to_nat i with
    | None => False
    | Some None => True
    | Some (Some (Leaf cl sym)) => 1 <= cl <= 8 /\ is_u8 sym
    | Some (Some n') => exists k', tree_ok k' n' = true
    end.
Proof.
  intros Hok [Hi1 Hi2]. destruct n as [|ch], k as [|k]; try done. exists ch. split; [done|].
  cbn [tree_ok] in Hok. apply andb_prop in Hok as [Hl%Nat.eqb_eq Hall].
  rewrite forallb_forall in Hall.
  destruct (ch !! Z.to_nat i) as [o|] eqn:E.
  - assert (Hin : In o ch) by (apply list_elem_of_In; by eapply list_elem_of_lookup_2).
    specialize (Hall _ Hin). destruct o as [[cl sym|ch']|]; [|by exists k|done].
    unfold is_u8. lia.
  - apply lookup_ge_None in E. lia.
Qed.

(** A result that is not a panic, and satisfies [P] when it is a value. *)
Definition safe {A} (P : A -> Prop) (r : outcome hpackErr A) : Prop :=
  match r with Ret a => P a | Fail _ => True | Panic => False end.

Lemma safe_bind {A B} (P : A -> Prop) (Q : B -> Prop) m (k : A -> outcome hpackErr B) :
  safe P m -> (forall a, P a -> safe Q (k a)) -> safe Q (obind m k).
Proof. destruct m; simpl; auto. Qed.

Lemma huffDrain_safe fuel s :
  hstate_ok s -> (Z.to_nat (hcbits s) < fuel)%nat ->
  safe (fun s' => hstate_ok s' /\ hcbits s' < 8) (huffDrain root maxLen fuel s).
Proof.
  revert s. induction fuel as [|fuel IH]; intros s Hs Hf; [lia|].
  pose proof Hs as ((k & Hk) & Hc & Ho). cbn [huffDrain].
  destruct (Z.geb_spec (hcbits s) 8) as [Hge|]; [|by split].
  destruct (tree_ok_child k _ _ Hk (u8_range (Z.shiftr (hcur s) (hcbits s - 8))))
    as (ch & -> & Hch).
  destruct (ch !! _) as [[[cl sym|ch']|]|]; [| |done|done].
  - destruct (buffer_full maxLen (hout s)) eqn:Hfull; [done|]. destruct Hch as [Hcl Hsym].
    rewrite u8_small by lia. apply IH; [|simpl; lia]. split_and!; simpl; [by exists 4%nat|lia|lia|].
    by apply decoded_snoc.
  - rewrite u8_small by lia. apply IH; [|simpl; lia]. split_and!; simpl; [done|lia|lia|done].
Qed.

Lemma huffFeed_safe v s :
  hstate_ok s -> hcbits s < 8 ->
  safe (fun s' => hstate_ok s' /\ hcbits s' < 8) (huffFeed root maxLen v s).
Proof.
  revert s. induction v as [|b v IH]; intros s Hs Hc; [done|]. cbn [huffFeed].
  pose proof Hs as (Hk & Hb & Ho). rewrite (u8_small (hcbits s + 8)) by lia.
  eapply safe_bind; [apply huffDrain_safe|intros s' []; by apply IH].
  - split_and!; simpl; [done|lia|lia|done].
  - simpl. lia.
Qed.

Lemma huffTail_safe fuel s :
  hstate_ok s -> hcbits s < 8 -> (Z.to_nat (hcbits s) < fuel)%nat ->
  safe (fun s' => hstate_ok s') (huffTail root maxLen fuel s).
Proof.
  revert s. induction fuel as [|fuel IH]; intros s Hs Hlt Hf; [lia|].
  pose proof Hs as ((k & Hk) & Hc & Ho). cbn [huffTail].
  destruct (Z.gtb_spec (hcbits s) 0) as [Hgt|]; [|done].
  destruct (tree_ok_child k _ _ Hk (u8_range (u64 (Z.shiftl (hcur s) (8 - hcbits s)))))
    as (ch & -> & Hch).
  destruct (ch !! _) as [[[cl sym|ch']|]|]; [|done|done|done].
  destruct (Z.gtb_spec cl (hcbits s)); [done|].
  destruct (buffer_full maxLen (hout s)) eqn:Hfull; [done|]. destruct Hch as [Hcl Hsym].
  rewrite u8_small by lia. apply IH; simpl; [|lia|lia].
  split_and!; simpl; [by exists 4%nat|lia|lia|].
  by apply decoded_snoc.
Qed.

Lemma huffmanDecodeFrom_safe v : safe (decoded_ok maxLen) (huffmanDecodeFrom root maxLen v).
Proof.
  unfold huffmanDecodeFrom. eapply safe_bind.
  { apply huffFeed_safe; simpl; [|lia]. split_and!; simpl; [by exists 4%nat|lia|lia|].
    split; [constructor|]. simpl. unfold len. simpl. lia. }
  intros s [Hs Hc]. pose proof Hs as (_ & Hb & _).
  eapply safe_bind; [apply (huffTail_safe 8 s Hs Hc); lia|].
  intros s' (_ & _ & Ho). unfold huffCheck. by repeat case_if.
Qed.
End Total.

Lemma huffmanDecode_safe maxLen v : safe (decoded_ok maxLen) (huffmanDecode maxLen v).
Proof.
  unfold huffmanDecode. destruct getRoot_spec as (root & -> & Hroot). cbn [from_option].
  by apply huffmanDecodeFrom_safe, (rs_tree _ Hroot).
Qed.

#[global] Arguments huffmanDecode : simpl never.
#[global] Arguments AppendHuffmanString : simpl never.
#[global] Opaque getRootHuffmanNode.

(** ** The theorems of the string code *)

(** C17.  Huffman coding is lossless: every byte string, whatever buffer it is
    appended to, is decoded back, and [HuffmanEncodeLength] is the exact number
    of bytes it takes. *)
Theorem huffman_roundtrip dst s :
  bytes_ok dst -> bytes_ok s -> 30 * len s + 7 < 2 ^ 64 ->
  exists v, AppendHuffmanString dst s = Some (dst ++ v) /\ bytes_ok v /\
    len v = HuffmanEncodeLength s /\ HuffmanDecodeToString v = Ret s.
Proof.
  intros Hd Hs Hl. destruct (huffman_roundtrip_ok dst s 0 Hd Hs) as (v & Ha & Hv & Hr); [by left|].
  exists v. split; [exact Ha|]. split; [exact Hv|].
  split; [exact (AppendHuffmanString_len dst s v Hd Hs Hl Ha)|exact Hr].
Qed.

Lemma huffman_roundtrip_witness :
  exists v, AppendHuffmanString [1; 2] (str "hbone") = Some ([1; 2] ++ v) /\
    HuffmanDecodeToString v = Ret (str "hbone").
Proof.
  destruct (huffman_roundtrip [1; 2] (str "hbone")) as (v & H1 & _ & _ & H2).
  - repeat constructor; by vm_compute.
  - apply str_bytes_ok.
  - by vm_compute.
  - exists v. split; [exact H1|exact H2].
Defined.

(** Decoding is total: on every input [huffmanDecode] returns bytes or an
    error, never panics or loops, and a limit on the length of the result is
    kept. *)
Theorem huffmanDecode_total maxLen v :
  (exists s, huffmanDecode maxLen v = Ret s /\ bytes_ok s /\ (0 < maxLen -> len s <= maxLen)) \/
  (exists e, huffmanDecode maxLen v = Fail e).
Proof.
  pose proof (huffmanDecode_safe maxLen v) as H.
  destruct (huffmanDecode maxLen v) as [s|e|]; [left|right; by exists e|done].
  exists s. by destruct H.
Qed.
