(* ===== verification/HpackCodec.v ===== *)
(** * The HPACK encoder and decoder: h2/hpack/encode.go and h2/hpack/hpack.go

    [Encoder] and [Decoder] are state-passing translations.  The decoder's
    emit callback is a parameter: it may change its own state and the
    [emitEnabled] flag, as the framer's callback does.  A function that can
    panic returns [option], with [None] for the panic; a function that changes
    the decoder returns the new state beside its error, because some errors are
    raised after the state has changed. *)
From S2P Require Import Prelude Bits HpackTables HpackHuffman.

Definition initialHeaderTableSize : Z := 4096.

(** ** Variable-length integers *)

(** The loop of [appendVarInt]; ten groups of seven bits hold any [uint64]. *)
Fixpoint varIntGroups (fuel : nat) (i : Z) : list Z :=
  match fuel with
  | S fuel =>
      if i >=? 128 then u8 (Z.lor 0x80 (Z.land i 0x7f)) :: varIntGroups fuel (Z.shiftr i 7)
      else [u8 i]
  | O => []
  end.

Definition appendVarInt (dst : list Z) (n i : Z) : list Z :=
  let k := u64 (Z.shiftl 1 n - 1) in
  if i <? k then dst ++ [u8 i]
  else (dst ++ [u8 k]) ++ varIntGroups 10 (i - k).

Fixpoint readVarIntLoop (p : list Z) (i m : Z) : outcome hpackErr (Z * list Z) :=
  match p with
  | [] => Fail errNeedMore
  | b :: p =>
      let i := u64 (i + u64 (Z.shiftl (Z.land b 127) m)) in
      if Z.land b 128 =? 0 then Ret (i, p) else
      let m := u64 (m + 7) in
      if m >=? 63 then Fail (DecodingError varintOverflow) else readVarIntLoop p i m
  end.

Definition readVarInt (n : Z) (p : list Z) : outcome hpackErr (Z * list Z) :=
  if (n <? 1) || (n >? 8) then Panic else
  match p with
  | [] => Fail errNeedMore
  | b :: p =>
      let i := if n <? 8 then Z.land b (Z.shiftl 1 n - 1) else b in
      if i <? Z.shiftl 1 n - 1 then Ret (i, p) else readVarIntLoop p i 0
  end.

(** ** Encoding *)

(** [dst[first] |= m] *)
Definition or_at (dst : list Z) (first : nat) (m : Z) : option (list Z) :=
  b ← dst !! first; Some (<[first := Z.lor b m]> dst).

Definition appendHpackString (dst s : list Z) : option (list Z) :=
  let huffmanLength := HuffmanEncodeLength s in
  if huffmanLength <? u64 (len s) then
    let first := length dst in
    dst ← AppendHuffmanString (appendVarInt dst 7 huffmanLength) s;
    or_at dst first 0x80
  else Some (appendVarInt dst 7 (u64 (len s)) ++ s).

Definition encodeTypeByte (indexing sensitive : bool) : Z :=
  if sensitive then 0x10 else if indexing then 0x40 else 0.

Definition appendIndexed (dst : list Z) (i : Z) : option (list Z) :=
  or_at (appendVarInt dst 7 i) (length dst) 0x80.

Definition appendNewName (dst : list Z) (f : HeaderField) (indexing : bool) : option (list Z) :=
  dst ← appendHpackString (dst ++ [encodeTypeByte indexing (Sensitive f)]) (Name f);
  appendHpackString dst (Value f).

Definition appendIndexedName (dst : list Z) (f : HeaderField) (i : Z) (indexing : bool)
    : option (list Z) :=
  let n := if indexing then 6 else 4 in
  dst ← or_at (appendVarInt dst n i) (length dst) (encodeTypeByte indexing (Sensitive f));
  appendHpackString dst (Value f).

Definition appendTableSize (dst : list Z) (v : Z) : option (list Z) :=
  or_at (appendVarInt dst 5 v) (length dst) 0x20.

Record Encoder := mkEncoder {
  eDynTab : dynamicTable;
  minSize : Z;
  maxSizeLimit : Z;
  tableSizeUpdate : bool
}.

Definition NewEncoder : option Encoder :=
  dt ← dyn_setMaxSize dyn_init initialHeaderTableSize;
  Some (mkEncoder dt uint32Max initialHeaderTableSize false).

Definition searchTable (e : Encoder) (f : HeaderField) : option (Z * bool) :=
  '(i, m) ← search true staticTable f;
  if (m : bool) then Some (i, true) else
  '(j, m) ← search false (table (eDynTab e)) f;
  if m || ((i =? 0) && negb (j =? 0)) then Some (u64 (j + u64 (table_len staticTable)), m)
  else Some (i, false).

Definition SetMaxDynamicTableSize (e : Encoder) (v : Z) : option Encoder :=
  let v := if v >? maxSizeLimit e then maxSizeLimit e else v in
  let min := if v <? minSize e then v else minSize e in
  dt ← dyn_setMaxSize (eDynTab e) v;
  Some (mkEncoder dt min (maxSizeLimit e) true).

Definition SetMaxDynamicTableSizeLimit (e : Encoder) (v : Z) : option Encoder :=
  if maxSize (eDynTab e) >? v then
    dt ← dyn_setMaxSize (eDynTab e) v;
    Some (mkEncoder dt (minSize e) v true)
  else Some (mkEncoder (eDynTab e) (minSize e) v (tableSizeUpdate e)).

Definition shouldIndex (e : Encoder) (f : HeaderField) : bool :=
  negb (Sensitive f) && (Size f <=? maxSize (eDynTab e)).

(** The pending size updates [WriteField] sends before the field. *)
Definition encodeSizeUpdate (e : Encoder) : option (Encoder * list Z) :=
  if tableSizeUpdate e then
    buf ← (if minSize e <? maxSize (eDynTab e) then appendTableSize [] (minSize e) else Some []);
    buf ← appendTableSize buf (maxSize (eDynTab e));
    Some (mkEncoder (eDynTab e) uint32Max (maxSizeLimit e) false, buf)
  else Some (e, []).

(** The field itself, after the updates: indexed, or a literal with an indexed
    or a new name. *)
Definition encodeRepr (e : Encoder) (buf : list Z) (f : HeaderField)
    : option (Encoder * list Z) :=
  '(idx, nameValueMatch) ← searchTable e f;
  if (nameValueMatch : bool) then
    buf ← appendIndexed buf idx; Some (e, buf)
  else
    let indexing := shouldIndex e f in
    dt ← (if indexing then dyn_add (eDynTab e) f else Some (eDynTab e));
    let e := mkEncoder dt (minSize e) (maxSizeLimit e) (tableSizeUpdate e) in
    buf ← (if idx =? 0 then appendNewName buf f indexing
           else appendIndexedName buf f idx indexing);
    Some (e, buf).

(** [WriteField] up to its call of [Write]: the new encoder and the bytes of [e.buf]. *)
Definition encodeField (e : Encoder) (f : HeaderField) : option (Encoder * list Z) :=
  '(e, buf) ← encodeSizeUpdate e; encodeRepr e buf f.

Inductive writeErr (E : Type) := WriterErr (err : E) | ErrShortWrite.
Arguments WriterErr {E} err.
Arguments ErrShortWrite {E}.

(** [WriteField]; [wr] is the underlying writer: its new state, the number of
    bytes it took and its error. *)
Definition WriteField {W E} (wr : W -> list Z -> W * Z * option E) (e : Encoder) (w : W)
    (f : HeaderField) : option (Encoder * W * option (writeErr E)) :=
  '(e, buf) ← encodeField e f;
  let '(w, n, err) := wr w buf in
  Some (e, w, match err with
              | Some err => Some (WriterErr err)
              | None => if n =? len buf then None else Some ErrShortWrite
              end).

(** ** Decoding *)
Record Decoder := mkDecoder {
  dDynTab : dynamicTable;
  emitEnabled : bool;
  maxStrLen : Z;
  saveBuf : list Z;
  firstField : bool
}.

Definition NewDecoder (maxDynamicTableSize : Z) : option Decoder :=
  dt ← dyn_setMaxSize (mkDyn table_init 0 0 maxDynamicTableSize) maxDynamicTableSize;
  Some (mkDecoder dt true 0 [] true).

Definition SetMaxStringLength (d : Decoder) (n : Z) : Decoder :=
  mkDecoder (dDynTab d) (emitEnabled d) n (saveBuf d) (firstField d).
Definition SetEmitEnabled (d : Decoder) (v : bool) : Decoder :=
  mkDecoder (dDynTab d) v (maxStrLen d) (saveBuf d) (firstField d).
Definition set_dynTab (d : Decoder) (dt : dynamicTable) : Decoder :=
  mkDecoder dt (emitEnabled d) (maxStrLen d) (saveBuf d) (firstField d).
Definition set_saveBuf (d : Decoder) (b : list Z) : Decoder :=
  mkDecoder (dDynTab d) (emitEnabled d) (maxStrLen d) b (firstField d).
Definition set_firstField (d : Decoder) (b : bool) : Decoder :=
  mkDecoder (dDynTab d) (emitEnabled d) (maxStrLen d) (saveBuf d) b.
Definition dec_SetMaxDynamicTableSize (d : Decoder) (v : Z) : option Decoder :=
  dt ← dyn_setMaxSize (dDynTab d) v; Some (set_dynTab d dt).
Definition SetAllowedMaxDynamicTableSize (d : Decoder) (v : Z) : Decoder :=
  let dt := dDynTab d in set_dynTab d (mkDyn (table dt) (size dt) (maxSize dt) v).

Definition maxTableIndex (d : Decoder) : Z :=
  table_len (table (dDynTab d)) + table_len staticTable.

(** [at]: [None] is [ok == false]; both lookups are in range. *)
Definition dec_at (d : Decoder) (i : Z) : option HeaderField :=
  if i =? 0 then None else
  if i <=? table_len staticTable then ents staticTable !! Z.to_nat (i - 1) else
  if i >? maxTableIndex d then None else
  let dt := table (dDynTab d) in
  ents dt !! Z.to_nat (table_len dt - (i - table_len staticTable)).

Inductive indexType := indexedTrue | indexedFalse | indexedNever.
Definition indexed (v : indexType) : bool :=
  match v with indexedTrue => true | _ => false end.
Definition sensitive (v : indexType) : bool :=
  match v with indexedNever => true | _ => false end.

Definition readString (d : Decoder) (p : list Z) (wantStr : bool)
    : outcome hpackErr (list Z * list Z) :=
  match p with
  | [] => Fail errNeedMore
  | b :: _ =>
      let isHuff := negb (Z.land b 128 =? 0) in
      obind (readVarInt 7 p) (fun '(strLen, p) =>
      if negb (maxStrLen d =? 0) && (strLen >? maxStrLen d) then Fail ErrStringLength else
      if len p <? strLen then Fail errNeedMore else
      let raw := take (Z.to_nat strLen) p in
      let rest := drop (Z.to_nat strLen) p in
      if negb isHuff then Ret (if wantStr then raw else [], rest) else
      if wantStr then obind (huffmanDecode (maxStrLen d) raw) (fun s => Ret (s, rest))
      else Ret ([], rest))
  end.

Section Decoding.
Context {S : Type} (emit : HeaderField -> S -> bool -> S * bool).

(** The decoder, the callback's state and [d.buf], with the error returned. *)
Definition parsed : Type := option (Decoder * S * list Z * option hpackErr).

Definition callEmit (d : Decoder) (s : S) (hf : HeaderField) : Decoder * S * option hpackErr :=
  if negb (maxStrLen d =? 0)
     && ((len (Name hf) >? maxStrLen d) || (len (Value hf) >? maxStrLen d))
  then (d, s, Some ErrStringLength)
  else if emitEnabled d then
    let '(s, en) := emit hf s (emitEnabled d) in (SetEmitEnabled d en, s, None)
  else (d, s, None).

Definition parseFieldIndexed (d : Decoder) (s : S) (buf : list Z) : parsed :=
  match readVarInt 7 buf with
  | Panic => None
  | Fail e => Some (d, s, buf, Some e)
  | Ret (idx, rest) =>
      match dec_at d idx with
      | None => Some (d, s, buf, Some (DecodingError (InvalidIndexError idx)))
      | Some hf =>
          let '(d, s, e) := callEmit d s (mkHeaderField (Name hf) (Value hf) false) in
          Some (d, s, rest, e)
      end
  end.

(** The name of a literal field: from the table, or a string of its own. *)
Definition literalName (d : Decoder) (nameIdx : Z) (buf : list Z) (wantStr : bool)
    : outcome hpackErr (list Z * list Z) :=
  if nameIdx >? 0 then
    match dec_at d nameIdx with
    | None => Fail (DecodingError (InvalidIndexError nameIdx))
    | Some ihf => Ret (Name ihf, buf)
    end
  else readString d buf wantStr.

Definition parseFieldLiteral (d : Decoder) (s : S) (buf : list Z) (n : Z) (it : indexType)
    : parsed :=
  let wantStr := emitEnabled d || indexed it in
  let read :=
    obind (readVarInt n buf) (fun '(nameIdx, rest) =>
    obind (literalName d nameIdx rest wantStr) (fun '(name, rest) =>
    obind (readString d rest wantStr) (fun '(value, rest) => Ret (name, value, rest)))) in
  match read with
  | Panic => None
  | Fail e => Some (d, s, buf, Some e)
  | Ret (name, value, rest) =>
      let hf := mkHeaderField name value false in
      dt ← (if indexed it then dyn_add (dDynTab d) hf else Some (dDynTab d));
      let '(d, s, e) :=
        callEmit (set_dynTab d dt) s (mkHeaderField name value (sensitive it)) in
      Some (d, s, rest, e)
  end.

Definition parseDynamicTableSizeUpdate (d : Decoder) (s : S) (buf : list Z) : parsed :=
  if negb (firstField d) && (size (dDynTab d) >? 0)
  then Some (d, s, buf, Some (DecodingError sizeUpdateNotFirst)) else
  match readVarInt 5 buf with
  | Panic => None
  | Fail e => Some (d, s, buf, Some e)
  | Ret (sz, rest) =>
      if sz >? allowedMaxSize (dDynTab d)
      then Some (d, s, buf, Some (DecodingError sizeUpdateTooLarge)) else
      dt ← dyn_setMaxSize (dDynTab d) (u32 sz);
      Some (set_dynTab d dt, s, rest, None)
  end.

(** [d.buf[0]] panics on an empty buffer. *)
Definition parseHeaderFieldRepr (d : Decoder) (s : S) (buf : list Z) : parsed :=
  match buf with
  | [] => None
  | b :: _ =>
      if negb (Z.land b 128 =? 0) then parseFieldIndexed d s buf
      else if Z.land b 192 =? 64 then parseFieldLiteral d s buf 6 indexedTrue
      else if Z.land b 240 =? 0 then parseFieldLiteral d s buf 4 indexedFalse
      else if Z.land b 240 =? 16 then parseFieldLiteral d s buf 4 indexedNever
      else if Z.land b 224 =? 32 then parseDynamicTableSizeUpdate d s buf
      else Some (d, s, buf, Some (DecodingError invalidEncoding))
  end.

(** The loop of [Write].  Every field that is parsed takes a byte at least, so
    the length of the buffer is enough fuel. *)
Fixpoint writeLoop (fuel : nat) (d : Decoder) (s : S) (buf : list Z)
    : option (Decoder * S * option hpackErr) :=
  match buf, fuel with
  | [], _ => Some (d, s, None)
  | _, O => None
  | _, Datatypes.S fuel =>
      match parseHeaderFieldRepr d s buf with
      | None => None
      | Some (d, s, buf, Some errNeedMore) =>
          if negb (maxStrLen d =? 0) && (len buf >? 2 * (maxStrLen d + 8))
          then Some (d, s, Some ErrStringLength)
          else Some (set_saveBuf d buf, s, None)
      | Some (d, s, _, Some e) => Some (set_firstField d false, s, Some e)
      | Some (d, s, buf, None) => writeLoop fuel (set_firstField d false) s buf
      end
  end.

(** [Write], without the byte count it returns. *)
Definition dec_Write (d : Decoder) (s : S) (p : list Z) : option (Decoder * S * option hpackErr) :=
  match p with
  | [] => Some (d, s, None)
  | _ =>
      let buf := saveBuf d ++ p in
      writeLoop (length buf) (set_saveBuf d []) s buf
  end.

Definition dec_Close (d : Decoder) : Decoder * option hpackErr :=
  match saveBuf d with
  | [] => (set_firstField d true, None)
  | _ => (set_saveBuf d [], Some (DecodingError truncatedHeaders))
  end.

End Decoding.

(** The callback of [DecodeFull] collects the fields. *)
Definition collect (hf : HeaderField) (acc : list HeaderField) (en : bool)
    : list HeaderField * bool := (acc ++ [hf], en).

Definition DecodeFull (d : Decoder) (p : list Z)
    : option (Decoder * (list HeaderField + hpackErr)) :=
  '(d, hf, err) ← dec_Write collect d [] p;
  match err with
  | Some e => Some (d, inr e)
  | None =>
      let '(d, err) := dec_Close d in
      match err with
      | Some e => Some (d, inr e)
      | None => Some (d, inl hf)
      end
  end.

Example enc_dec :
  (e ← NewEncoder;
   '(e, b1) ← encodeField e (hf ":method" "GET");
   '(e, b2) ← encodeField e (hf "x-hbone" "tunnel-1");
   '(e, b3) ← encodeField e (hf "x-hbone" "tunnel-1");
   '(e, b4) ← encodeField e (mkHeaderField (str "x-hbone") (str "secret") true);
   d ← NewDecoder 4096;
   '(d, r) ← DecodeFull d (b1 ++ b2 ++ b3 ++ b4); Some r)
  = Some (inl [hf ":method" "GET"; hf "x-hbone" "tunnel-1"; hf "x-hbone" "tunnel-1";
               mkHeaderField (str "x-hbone") (str "secret") true]).
Proof. vm_compute. reflexivity. Qed.

(** ** Integers: encoding, then decoding *)
Lemma group_bits x :
  0 <= x < 128 ->
  Z.land (u8 (Z.lor 0x80 x)) 127 = x /\ (Z.land (u8 (Z.lor 0x80 x)) 128 =? 0) = false.
Proof.
  intros Hx.
  assert (H : (x >=? 128) || (Z.land (u8 (Z.lor 0x80 x)) 127 =? x)
      && negb (Z.land (u8 (Z.lor 0x80 x)) 128 =? 0) = true).
  { refine (forall_bytes_spec (fun x => (x >=? 128) || (Z.land (u8 (Z.lor 0x80 x)) 127 =? x)
      && negb (Z.land (u8 (Z.lor 0x80 x)) 128 =? 0)) _ x _); [by vm_compute|unfold is_u8; lia]. }
  destruct (Z.geb_spec x 128); [lia|]. simpl in H.
  apply andb_prop in H as [->%Z.eqb_eq ->%negb_true_iff]. done.
Qed.

Lemma last_group_bits x : 0 <= x < 128 -> Z.land x 127 = x /\ Z.land x 128 = 0.
Proof.
  intros Hx. split.
  - change 127 with (Z.ones 7). rewrite Z.land_ones by lia. by apply Z.mod_small.
  - apply Z.bits_inj'. intros i Hi. rewrite Z.land_spec, Z.testbit_0_l.
    change 128 with (2 ^ 7). rewrite Z.pow2_bits_eqb by lia.
    destruct (Z.eqb_spec 7 i) as [<-|]; [|by rewrite andb_false_r].
    by rewrite (testbit_above 7).
Qed.

Lemma varIntGroups_read fuel i acc m rest :
  0 <= i < 2 ^ (7 * Z.of_nat fuel) -> 0 <= m -> 0 <= acc ->
  i * 2 ^ m < 2 ^ 63 -> acc + i * 2 ^ m < 2 ^ 64 -> (i = 0 -> m < 63) ->
  (0 < fuel)%nat ->
  readVarIntLoop (varIntGroups fuel i ++ rest) acc m = Ret (acc + i * 2 ^ m, rest).
Proof.
  revert i acc m.
  induction fuel as [|fuel IH]; intros i acc m Hi Hm Hacc Hb Hs H0 Hf; [lia|].
  cbn [varIntGroups].
  assert (Hm63 : m < 63).
  { destruct (Z.eq_dec i 0) as [->|]; [by apply H0|].
    destruct (Z.lt_ge_cases m 63); [done|].
    pose proof (Z.pow_le_mono_r 2 63 m). nia. }
  destruct (Z.geb_spec i 128) as [Hge|Hlt].
  - assert (Hmod : 0 <= i mod 128 < 128) by (apply Z.mod_pos_bound; lia).
    assert (Hdm : i = 128 * (i / 128) + i mod 128) by (apply Z.div_mod; lia).
    assert (Hp7 : 2 ^ (m + 7) = 128 * 2 ^ m) by (rewrite Z.pow_add_r by lia; lia).
    assert (Hpos : 0 < 2 ^ m) by (apply Z.pow_pos_nonneg; lia).
    assert (Hland : Z.land i 127 = i mod 128)
      by (change 127 with (Z.ones 7); by rewrite Z.land_ones).
    destruct (group_bits (i mod 128) Hmod) as [Hg1 Hg2].
    assert (Hm7 : m + 7 < 63).
    { destruct (Z.lt_ge_cases (m + 7) 63); [done|].
      pose proof (Z.pow_le_mono_r 2 63 (m + 7)). nia. }
    rewrite Hland. cbn [app readVarIntLoop]. rewrite Hg1, Hg2.
    rewrite Z.shiftl_mul_pow2, Z.shiftr_div_pow2 by lia. change (2 ^ 7) with 128.
    rewrite (u64_small (i mod 128 * 2 ^ m)) by nia.
    rewrite (u64_small (acc + _)) by nia. rewrite (u64_small (m + 7)) by lia.
    destruct (Z.geb_spec (m + 7) 63); [lia|].
    assert (1 <= i / 128) by (apply Z.div_le_lower_bound; lia).
    rewrite IH; [do 2 f_equal; nia| |lia|nia|nia|nia|lia|].
    + split; [lia|]. apply Z.div_lt_upper_bound; [lia|].
      replace (7 * Z.of_nat (S fuel)) with (7 * Z.of_nat fuel + 7) in Hi by lia.
      rewrite Z.pow_add_r in Hi by lia. change (2 ^ 7) with 128 in Hi. lia.
    + destruct fuel; [simpl in Hi; lia|lia].
  - cbn [app readVarIntLoop]. rewrite (u8_small i) by lia.
    destruct (last_group_bits i ltac:(lia)) as [-> ->].
    rewrite Z.shiftl_mul_pow2 by lia. simpl.
    assert (Hpos : 0 < 2 ^ m) by (apply Z.pow_pos_nonneg; lia).
    rewrite (u64_small (i * 2 ^ m)) by nia. rewrite u64_small by nia. done.
Qed.

Definition vi_head (n i : Z) : Z := if i <? 2 ^ n - 1 then i else 2 ^ n - 1.
Definition vi_tail (n i : Z) : list Z :=
  if i <? 2 ^ n - 1 then [] else varIntGroups 10 (i - (2 ^ n - 1)).

Lemma prefix_bound n : 1 <= n <= 7 -> 2 <= 2 ^ n <= 128.
Proof.
  intros. pose proof (Z.pow_le_mono_r 2 1 n). pose proof (Z.pow_le_mono_r 2 n 7). lia.
Qed.

Lemma vi_head_range n i : 1 <= n <= 7 -> 0 <= i -> 0 <= vi_head n i < 2 ^ n.
Proof.
  intros Hn Hi. pose proof (prefix_bound n Hn). unfold vi_head.
  destruct (Z.ltb_spec i (2 ^ n - 1)); lia.
Qed.

Lemma varIntGroups_bytes fuel i : bytes_ok (varIntGroups fuel i).
Proof.
  revert i. induction fuel as [|fuel IH]; intros i; cbn [varIntGroups]; [constructor|].
  case_if; constructor; [apply u8_range|apply IH|apply u8_range|constructor].
Qed.

Lemma vi_tail_bytes n i : bytes_ok (vi_tail n i).
Proof. unfold vi_tail. case_if; [constructor|apply varIntGroups_bytes]. Qed.
#[export] Hint Resolve vi_tail_bytes : gow.

Lemma appendVarInt_eq dst n i :
  1 <= n <= 7 -> 0 <= i -> appendVarInt dst n i = dst ++ vi_head n i :: vi_tail n i.
Proof.
  intros Hn Hi. pose proof (prefix_bound n Hn). unfold appendVarInt, vi_head, vi_tail.
  rewrite Z.shiftl_mul_pow2, Z.mul_1_l, u64_small by lia.
  destruct (Z.ltb_spec i (2 ^ n - 1)); rewrite u8_small by lia; [done|].
  by rewrite <- app_assoc.
Qed.

(** The prefix of the first byte is read back under any flags above it. *)
Lemma readVarInt_ok n i m rest :
  1 <= n <= 7 -> 0 <= i < 2 ^ 63 -> Z.land m (2 ^ n - 1) = 0 ->
  readVarInt n (Z.lor (vi_head n i) m :: vi_tail n i ++ rest) = Ret (i, rest).
Proof.
  intros Hn Hi Hm. pose proof (prefix_bound n Hn). pose proof (vi_head_range n i Hn) as Hh.
  unfold readVarInt. destruct (Z.ltb_spec n 1); [lia|]. destruct (Z.gtb_spec n 8); [lia|].
  destruct (Z.ltb_spec n 8); [|lia]. simpl orb. cbv iota.
  rewrite Z.shiftl_mul_pow2, Z.mul_1_l by lia.
  assert (Hhead : Z.land (Z.lor (vi_head n i) m) (2 ^ n - 1) = vi_head n i).
  { rewrite Z.land_lor_distr_l, Hm, Z.lor_0_r.
    replace (2 ^ n - 1) with (Z.ones n) by (rewrite Z.ones_equiv; lia).
    rewrite Z.land_ones by lia. apply Z.mod_small, Hh. lia. }
  rewrite Hhead. unfold vi_head, vi_tail.
  destruct (Z.ltb_spec i (2 ^ n - 1)) as [Hlt|Hge].
  - by rewrite (proj2 (Z.ltb_lt i (2 ^ n - 1))).
  - rewrite Z.ltb_irrefl.
    rewrite varIntGroups_read; rewrite ?Z.mul_1_r; [do 2 f_equal; lia|lia..].
Qed.

(** ** Strings: encoding, then decoding *)
Lemma or_at_mid dst h t m : or_at (dst ++ h :: t) (length dst) m = Some (dst ++ Z.lor h m :: t).
Proof.
  unfold or_at. rewrite list_lookup_middle by done. simpl.
  by rewrite <- (Nat.add_0_r (length dst)), insert_app_r.
Qed.

Lemma bytes_ok_cons b l : is_u8 b -> bytes_ok l -> bytes_ok (b :: l).
Proof. by constructor. Qed.

Lemma flag_byte_ok n i m : 1 <= n <= 7 -> 0 <= i -> is_u8 m -> is_u8 (Z.lor (vi_head n i) m).
Proof.
  intros Hn Hi Hm. pose proof (prefix_bound n Hn). pose proof (vi_head_range n i Hn Hi).
  apply lor_range; [lia|lia|done].
Qed.

Lemma huff_flag h : 0 <= h < 128 -> (Z.land (Z.lor h 0x80) 128 =? 0) = false.
Proof.
  intros Hh. apply Z.eqb_neq. rewrite Z.land_lor_distr_l.
  destruct (last_group_bits h Hh) as [_ ->]. done.
Qed.

Definition str_fits (d : Decoder) (s : list Z) : Prop := maxStrLen d = 0 \/ len s <= maxStrLen d.

(** What one call of [readString] does with the header of a string. *)
Lemma readString_head d h t p raw rest want (huff : bool) :
  readVarInt 7 (h :: t ++ raw ++ rest) = Ret (len raw, raw ++ rest) ->
  (Z.land h 128 =? 0) = negb huff ->
  maxStrLen d = 0 \/ len raw <= maxStrLen d -> p = h :: t ++ raw ++ rest ->
  readString d p want =
    if huff then
      if want then obind (huffmanDecode (maxStrLen d) raw) (fun s => Ret (s, rest)) else Ret ([], rest)
    else Ret (if want then raw else [], rest).
Proof.
  intros Hv Hflag Hmax ->. unfold readString. rewrite Hv, Hflag. cbn [obind].
  assert (Hm : negb (maxStrLen d =? 0) && (len raw >? maxStrLen d) = false).
  { destruct (Z.eqb_spec (maxStrLen d) 0); [done|]. simpl.
    destruct (Z.gtb_spec (len raw) (maxStrLen d)); [lia|done]. }
  rewrite Hm, len_app. pose proof (len_nonneg rest).
  destruct (Z.ltb_spec (len raw + len rest) (len raw)); [lia|].
  unfold len. rewrite Nat2Z.id, take_app_length, drop_app_length.
  destruct huff, want; reflexivity.
Qed.

(** [es] is a string the decoder reads back as [s]. *)
Definition reads_string (es s : list Z) : Prop :=
  bytes_ok es /\ es <> [] /\
  forall d rest want, str_fits d s ->
    readString d (es ++ rest) want = Ret (if want then s else [], rest).

Lemma huffString_ok dst s :
  bytes_ok dst -> bytes_ok s -> len s < 2 ^ 58 -> HuffmanEncodeLength s < len s ->
  exists es, (dst' ← AppendHuffmanString (appendVarInt dst 7 (HuffmanEncodeLength s)) s;
              or_at dst' (length dst) 0x80) = Some (dst ++ es) /\ reads_string es s.
Proof.
  intros Hd Hs Hlen Hlt. pose proof (len_nonneg s). set (k := HuffmanEncodeLength s) in *.
  assert (Hk : 0 <= k) by (apply Z.div_pos; [apply u64_range|lia]).
  rewrite appendVarInt_eq by lia. pose proof (vi_head_range 7 k ltac:(lia) Hk) as Hh.
  assert (Hd' : bytes_ok (dst ++ vi_head 7 k :: vi_tail 7 k)).
  { apply bytes_ok_app. split; [done|].
    apply bytes_ok_cons; [unfold is_u8; lia|apply vi_tail_bytes]. }
  destruct (AppendHuffmanString_bits _ s Hd' Hs) as (v & pad & Hv & Hvok & Hpad & Hbits).
  pose proof (AppendHuffmanString_len _ s v Hd' Hs ltac:(lia) Hv) as Hkv. fold k in Hkv.
  rewrite Hv. cbn [mbind option_bind]. rewrite <- app_assoc, <- app_comm_cons, or_at_mid.
  eexists. split; [done|]. split_and!; [|done|].
  { apply bytes_ok_cons; [by apply flag_byte_ok; [lia|lia|]|].
    apply bytes_ok_app. split; [apply vi_tail_bytes|done]. }
  intros d rest want Hfit.
  rewrite (readString_head d (Z.lor (vi_head 7 k) 128) (vi_tail 7 k) _ v rest want true).
  - destruct want; [|done]. unfold huffmanDecode.
    destruct getRoot_spec as (root & -> & Hroot). cbn [from_option].
    by rewrite (huffmanDecodeFrom_ok root Hroot (maxStrLen d) v s pad).
  - rewrite Hkv. apply readVarInt_ok; [lia|lia|done].
  - by rewrite huff_flag.
  - destruct Hfit as [|]; [by left|right; lia].
  - cbn [app]. by rewrite <- app_assoc.
Qed.

Lemma rawString_ok dst s :
  bytes_ok s -> len s < 2 ^ 58 ->
  exists es, appendVarInt dst 7 (len s) ++ s = dst ++ es /\ reads_string es s.
Proof.
  intros Hs Hlen. pose proof (len_nonneg s). rewrite appendVarInt_eq, <- app_assoc by lia.
  pose proof (vi_head_range 7 (len s) ltac:(lia) ltac:(lia)) as Hh.
  eexists. split; [done|]. split_and!; [|done|].
  { apply bytes_ok_cons; [unfold is_u8; lia|]. apply bytes_ok_app.
    split; [apply vi_tail_bytes|done]. }
  intros d rest want Hfit.
  rewrite (readString_head d (vi_head 7 (len s)) (vi_tail 7 (len s)) _ s rest want false).
  - done.
  - rewrite <- (Z.lor_0_r (vi_head 7 (len s))). apply readVarInt_ok; [lia|lia|done].
  - by destruct (last_group_bits (vi_head 7 (len s)) Hh) as [_ ->].
  - done.
  - cbn [app]. by rewrite <- app_assoc.
Qed.

Lemma hpackString_ok dst s :
  bytes_ok dst -> bytes_ok s -> len s < 2 ^ 58 ->
  exists es, appendHpackString dst s = Some (dst ++ es) /\ reads_string es s.
Proof.
  intros Hd Hs Hlen. unfold appendHpackString. pose proof (len_nonneg s).
  rewrite (u64_small (len s)) by lia.
  destruct (Z.ltb_spec (HuffmanEncodeLength s) (len s)); [by apply huffString_ok|].
  destruct (rawString_ok dst s Hs Hlen) as (es & -> & Hes). by exists es.
Qed.

(** ** Tables of the two sides

    The encoder's dynamic table is the newest part of the decoder's, and the
    two have the same maximum size once the pending size update is sent. *)
Record synced (e : Encoder) (d : Decoder) : Prop := {
  sy_enc : dyn_wf (eDynTab e);
  sy_dec : dyn_wf (dDynTab d);
  sy_ents : ents (table (eDynTab e)) `suffix_of` ents (table (dDynTab d));
  sy_max : tableSizeUpdate e = false -> maxSize (eDynTab e) = maxSize (dDynTab d);
  sy_allowed : maxSize (eDynTab e) <= allowedMaxSize (dDynTab d)
}.

(** How many fields a table has ever held. *)
Definition added (dt : dynamicTable) : Z := evictCount (table dt) + table_len (table dt).

Lemma static_len : table_len staticTable = 61.
Proof. vm_compute. reflexivity. Qed.
Lemma static_ents : ents staticTable = staticTableEntries.
Proof. apply staticTable_ok. Qed.
#[local] Opaque staticTable.

Lemma newest_has_pair l n v k : newest (has_pair (n, v)) l = Some k ->
  exists g, l !! k = Some g /\ Name g = n /\ Value g = v.
Proof.
  intros (g & Hg & Hp & _)%newest_Some. exists g.
  apply bool_decide_eq_true in Hp. by simplify_eq.
Qed.
Lemma newest_has_name l n k : newest (has_name n) l = Some k ->
  exists g, l !! k = Some g /\ Name g = n.
Proof.
  intros (g & Hg & Hp & _)%newest_Some. exists g. by apply bool_decide_eq_true in Hp.
Qed.

(** What a search returns, for either kind of table. *)
Definition found (l : list HeaderField) (pos : nat -> Z) (f : HeaderField) (r : Z * bool) : Prop :=
  match r with
  | (i, true) => exists k g, i = pos k /\ l !! k = Some g /\ Name g = Name f /\
                   Value g = Value f /\ Sensitive f = false
  | (i, false) => i = 0 \/ exists k g, i = pos k /\ l !! k = Some g /\ Name g = Name f
  end.

Lemma search_found static t f :
  table_wf t -> exists r, search static t f = Some r /\
    found (ents t) (fun k => if static then Z.of_nat k + 1 else table_len t - Z.of_nat k) f r.
Proof.
  intros Hwf. exists (search_ref static t f). split; [by apply search_ref_ok|].
  unfold search_ref. destruct (Sensitive f) eqn:Hs.
  - destruct (newest (has_name (Name f)) (ents t)) as [k|] eqn:E; [|by left].
    apply newest_has_name in E as (g & ? & ?). right. by exists k, g.
  - destruct (newest (has_pair (Name f, Value f)) (ents t)) as [k|] eqn:E.
    + apply newest_has_pair in E as (g & ? & ? & ?). by exists k, g.
    + destruct (newest (has_name (Name f)) (ents t)) as [k|] eqn:E'; [|by left].
      apply newest_has_name in E' as (g & ? & ?). right. by exists k, g.
Qed.

Lemma dec_at_static d k g :
  staticTableEntries !! k = Some g -> dec_at d (Z.of_nat k + 1) = Some g.
Proof.
  intros Hk. pose proof (lookup_lt_Some _ _ _ Hk) as Hlt.
  assert (length staticTableEntries = 61%nat) as Hl by done. rewrite Hl in Hlt.
  unfold dec_at. rewrite static_len, static_ents.
  destruct (Z.eqb_spec (Z.of_nat k + 1) 0); [lia|].
  destruct (Z.leb_spec (Z.of_nat k + 1) 61); [|lia].
  by replace (Z.to_nat (Z.of_nat k + 1 - 1)) with k by lia.
Qed.

Lemma dec_at_dynamic d es k g :
  es `suffix_of` ents (table (dDynTab d)) -> es !! k = Some g ->
  dec_at d (len es - Z.of_nat k + 61) = Some g.
Proof.
  intros [x Hx] Hk. pose proof (lookup_lt_Some _ _ _ Hk) as Hlt.
  unfold dec_at, maxTableIndex. rewrite static_len. unfold table_len. rewrite Hx, len_app.
  pose proof (len_nonneg x). unfold len in *.
  destruct (Z.eqb_spec (Z.of_nat (length es) - Z.of_nat k + 61) 0); [lia|].
  destruct (Z.leb_spec (Z.of_nat (length es) - Z.of_nat k + 61) 61); [lia|].
  destruct (Z.gtb_spec (Z.of_nat (length es) - Z.of_nat k + 61)
    (Z.of_nat (length x) + Z.of_nat (length es) + 61)); [lia|].
  rewrite lookup_app_r by lia. rewrite <- Hk. f_equal. lia.
Qed.

(** The index the encoder picks refers to the same entry on the decoder's side. *)
Lemma searchTable_ok e d f :
  synced e d -> added (eDynTab e) < 2 ^ 62 ->
  exists i m, searchTable e f = Some (i, m) /\ 0 <= i < 2 ^ 63 /\
    if m then exists g, dec_at d i = Some g /\ Name g = Name f /\ Value g = Value f /\
                Sensitive f = false
    else i = 0 \/ exists g, dec_at d i = Some g /\ Name g = Name f.
Proof.
  intros [He _ Hes _ _] Hadd. destruct staticTable_ok as (Hsw & _ & _). unfold searchTable.
  destruct (search_found true staticTable f Hsw) as ([i m] & -> & Hf). rewrite static_ents in Hf.
  assert (Hk61 : forall k g, staticTableEntries !! k = Some g -> (k < 61)%nat)
    by (intros k g Hk; exact (lookup_lt_Some _ _ _ Hk)).
  cbn [mbind option_bind]. destruct m.
  { exists i, true. destruct Hf as (k & g & -> & Hk & Hg). pose proof (Hk61 _ _ Hk).
    split; [done|]. split; [lia|]. exists g. split; [by apply dec_at_static|done]. }
  destruct (search_found false (table (eDynTab e)) f (dwf_table _ He)) as ([j m] & -> & Hj).
  cbn [mbind option_bind]. rewrite static_len, (u64_small 61) by lia.
  pose proof (wf_count _ (dwf_table _ He)) as Hc. unfold added, table_len in *.
  assert (Hdyn : forall k g, ents (table (eDynTab e)) !! k = Some g ->
    j = len (ents (table (eDynTab e))) - Z.of_nat k ->
    u64 (j + 61) = j + 61 /\ 0 < j /\ j + 61 < 2 ^ 63 /\ dec_at d (j + 61) = Some g).
  { intros k g Hk ->. pose proof (lookup_lt_Some _ _ _ Hk). pose proof (dec_at_dynamic d _ k g Hes Hk).
    unfold len in *. rewrite u64_small by lia. split_and!; [done|lia|lia|done]. }
  destruct m; simpl.
  { destruct Hj as (k & g & Ej & Hk & Hg). destruct (Hdyn k g Hk Ej) as (-> & ? & ? & Hat).
    exists (j + 61), true. split; [done|]. split; [lia|]. by exists g. }
  destruct ((i =? 0) && negb (j =? 0)) eqn:Eij.
  - destruct Hj as [->|(k & g & Ej & Hk & Hg)]; [by rewrite andb_false_r in Eij|].
    destruct (Hdyn k g Hk Ej) as (-> & ? & ? & Hat).
    exists (j + 61), false. split; [done|]. split; [lia|]. right. by exists g.
  - exists i, false. split; [done|]. destruct Hf as [->|(k & g & -> & Hk & Hg)].
    + split; [lia|by left].
    + pose proof (Hk61 _ _ Hk). split; [lia|]. right. exists g. split; [by apply dec_at_static|done].
Qed.

(** ** One field: encoding, then decoding *)
Definition field_ok (f : HeaderField) : Prop :=
  bytes_ok (Name f) /\ bytes_ok (Value f) /\ Size f + 2 ^ 31 < 2 ^ 32 /\
  len (Name f) < 2 ^ 58 /\ len (Value f) < 2 ^ 58.

Section FieldRoundTrip.
Context {S : Type} (emit : HeaderField -> S -> bool -> S * bool).

(** What emitting [f] does to the callback's state and the flag. *)
Definition emitted (d : Decoder) (s : S) (f : HeaderField) : S * bool :=
  if emitEnabled d then emit f s true else (s, false).

(** Parsing [b] is receiving the field [f]: it is emitted, and the table becomes [dt]. *)
Definition parses_as (d : Decoder) (b : list Z) (f : HeaderField) (dt : dynamicTable) : Prop :=
  bytes_ok b /\ b <> [] /\
  forall s rest, parseHeaderFieldRepr emit d s (b ++ rest) =
    let '(s', en) := emitted d s f in
    Some (SetEmitEnabled (set_dynTab d dt) en, s', rest, None).

Lemma callEmit_ok d s f n v :
  str_fits d (Name f) -> str_fits d (Value f) ->
  (emitEnabled d = true -> n = Name f /\ v = Value f) -> 
  (emitEnabled d = false -> str_fits d n /\ str_fits d v) ->
  callEmit emit d s (mkHeaderField n v (Sensitive f)) =
    let '(s', en) := emitted d s f in (SetEmitEnabled d en, s', None).
Proof.
  intros Hn Hv Hen Hdis. unfold callEmit, emitted, str_fits in *. simpl.
  assert (Hfit : negb (maxStrLen d =? 0)
     && ((len n >? maxStrLen d) || (len v >? maxStrLen d)) = false).
  { destruct (emitEnabled d); [destruct (Hen eq_refl); subst|destruct (Hdis eq_refl)]; lia. }
  rewrite Hfit. destruct (emitEnabled d) eqn:E.
  - destruct (Hen eq_refl) as [-> ->]. by destruct f.
  - by destruct d; simpl in *; subst.
Qed.

Lemma parse_indexed d i f g :
  0 <= i < 2 ^ 63 -> dec_at d i = Some g -> Name g = Name f -> Value g = Value f ->
  Sensitive f = false -> str_fits d (Name f) -> str_fits d (Value f) ->
  parses_as d (Z.lor (vi_head 7 i) 0x80 :: vi_tail 7 i) f (dDynTab d).
Proof.
  intros Hi Hat Hn Hv Hs Hfn Hfv. pose proof (vi_head_range 7 i ltac:(lia) ltac:(lia)) as Hh.
  split_and!; [|done|].
  { apply bytes_ok_cons; [by apply flag_byte_ok; [lia|lia|]|apply vi_tail_bytes]. }
  intros s rest. unfold parseHeaderFieldRepr. cbn [app]. rewrite huff_flag by done. cbn [negb].
  unfold parseFieldIndexed. rewrite readVarInt_ok, Hat by (done || lia).
  rewrite Hn, Hv, <- Hs.
  rewrite (callEmit_ok d s f (Name f) (Value f)) by done.
  destruct (emitted d s f) as [s' en]. by destruct d.
Qed.

(** The representation [WriteField] picks for a literal. *)
Definition lit_prefix (indexing : bool) : Z := if indexing then 6 else 4.
Definition lit_type (indexing sens : bool) : indexType :=
  if sens then indexedNever else if indexing then indexedTrue else indexedFalse.

(** The branch [parseHeaderFieldRepr] takes on the first byte of a literal. *)
Definition lit_branch (indexing sens : bool) (b : Z) : bool :=
  (Z.land b 128 =? 0) &&
  (if indexing then Z.land b 192 =? 64
   else negb (Z.land b 192 =? 64) &&
     (if sens then negb (Z.land b 240 =? 0) && (Z.land b 240 =? 16) else Z.land b 240 =? 0)).

Lemma lit_branch_ok (indexing sens : bool) h :
  (indexing = true -> sens = false) -> 0 <= h < 2 ^ lit_prefix indexing ->
  lit_branch indexing sens (Z.lor h (encodeTypeByte indexing sens)) = true.
Proof.
  intros Hi. destruct indexing.
  - rewrite (Hi eq_refl).
    exact (forall_below_spec 64 (fun h => lit_branch true false (Z.lor h 64)) eq_refl h).
  - destruct sens;
      [exact (forall_below_spec 16 (fun h => lit_branch false true (Z.lor h 16)) eq_refl h)
      |exact (forall_below_spec 16 (fun h => lit_branch false false (Z.lor h 0)) eq_refl h)].
Qed.

Lemma lit_dispatch d s (indexing sens : bool) h rest :
  (indexing = true -> sens = false) -> 0 <= h < 2 ^ lit_prefix indexing ->
  let b := Z.lor h (encodeTypeByte indexing sens) in
  parseHeaderFieldRepr emit d s (b :: rest) =
    parseFieldLiteral emit d s (b :: rest) (lit_prefix indexing) (lit_type indexing sens).
Proof.
  intros Hi Hh b. pose proof (lit_branch_ok indexing sens h Hi Hh) as Hb. fold b in Hb.
  unfold parseHeaderFieldRepr. apply andb_prop in Hb as [-> Hb]. cbn [negb].
  destruct indexing; [by rewrite (Hi eq_refl), Hb|].
  apply andb_prop in Hb as [->%negb_true_iff Hb]. destruct sens; [|by rewrite Hb].
  by apply andb_prop in Hb as [->%negb_true_iff ->].
Qed.

Lemma lit_mask (indexing sens : bool) :
  (indexing = true -> sens = false) ->
  is_u8 (encodeTypeByte indexing sens) /\
  Z.land (encodeTypeByte indexing sens) (2 ^ lit_prefix indexing - 1) = 0.
Proof. intros Hi. destruct indexing; [rewrite (Hi eq_refl)|destruct sens]; by vm_compute. Qed.

Lemma str_fits_nil d : 0 <= maxStrLen d -> str_fits d [].
Proof. intros. right. by rewrite len_nil. Qed.

(** The literal representations: [nb] is the encoded name, empty when the index gives it. *)
Lemma parse_literal d i f (indexing : bool) nb vb dt :
  0 <= maxStrLen d -> 0 <= i < 2 ^ 63 -> str_fits d (Name f) -> str_fits d (Value f) ->
  (indexing = true -> Sensitive f = false) ->
  (if i >? 0 then nb = [] /\ exists g, dec_at d i = Some g /\ Name g = Name f
   else reads_string nb (Name f)) ->
  reads_string vb (Value f) ->
  (if indexing then dyn_add (dDynTab d) f = Some dt else dt = dDynTab d) ->
  let n := lit_prefix indexing in
  parses_as d (Z.lor (vi_head n i) (encodeTypeByte indexing (Sensitive f))
               :: vi_tail n i ++ nb ++ vb) f dt.
Proof.
  intros Hmax Hi Hfn Hfv Hsens Hname (Hvok & _ & Hval) Hdt n.
  destruct (lit_mask indexing (Sensitive f) Hsens) as [Hm8 Hmask].
  assert (Hn : 1 <= n <= 7) by (unfold n, lit_prefix; destruct indexing; lia).
  pose proof (vi_head_range n i Hn ltac:(lia)) as Hh.
  assert (Hit : indexed (lit_type indexing (Sensitive f)) = indexing /\
                sensitive (lit_type indexing (Sensitive f)) = Sensitive f)
    by (destruct indexing; [by rewrite (Hsens eq_refl)|by destruct (Sensitive f)]).
  split_and!; [|done|].
  { apply bytes_ok_cons; [by apply flag_byte_ok; [lia|lia|]|].
    rewrite !bytes_ok_app. split; [apply vi_tail_bytes|]. split; [|done].
    destruct (i >? 0); [by destruct Hname as [-> _]; constructor|apply Hname]. }
  intros s rest. rewrite <- app_comm_cons, lit_dispatch by done.
  unfold parseFieldLiteral. rewrite <- !app_assoc, readVarInt_ok by (done || lia).
  destruct Hit as [-> ->]. cbn [obind].
  set (want := emitEnabled d || indexing).
  assert (Hlit : literalName d i (nb ++ vb ++ rest) want =
    Ret (if i >? 0 then Name f else if want then Name f else [], vb ++ rest)).
  { unfold literalName. destruct (i >? 0).
    - by destruct Hname as (-> & g & -> & ->).
    - destruct Hname as (_ & _ & Hr). by rewrite Hr. }
  rewrite Hlit. cbn [obind]. rewrite Hval by done. cbn [obind].
  assert (Hadd : (if indexing then dyn_add (dDynTab d) (mkHeaderField
      (if i >? 0 then Name f else if want then Name f else []) (if want then Value f else []) false)
      else Some (dDynTab d)) = Some dt).
  { destruct indexing; [|by subst]. unfold want. rewrite orb_true_r.
    replace (if i >? 0 then Name f else Name f) with (Name f) by (by destruct (i >? 0)).
    rewrite <- (Hsens eq_refl), <- Hdt. by destruct f. }
  rewrite Hadd. cbn [mbind option_bind].
  rewrite (callEmit_ok (set_dynTab d dt) s f); try done.
  - unfold emitted. cbn [emitEnabled set_dynTab]. by destruct (if emitEnabled d then _ else _).
  - cbn [emitEnabled set_dynTab]. intros E. unfold want. rewrite E. by destruct (i >? 0).
  - cbn [emitEnabled set_dynTab]. intros _. pose proof (str_fits_nil d Hmax).
    split; [destruct (i >? 0); [done|]|]; by destruct want.
Qed.

(** What the two tables must leave room for: their entries are numbered in 64
    bits and their sizes added up in 32. *)
Definition room (dt : dynamicTable) (n : Z) : Prop := added dt + n < 2 ^ 62 /\ maxSize dt < 2 ^ 31.

(** The step of the encoder from [e] to [e'] that sends [b] is the step of the
    decoder from the table [dt] to [dt'] that receives [f]. *)
Record field_step (e : Encoder) (d : Decoder) (dst : list Z) (f : HeaderField)
    (e' : Encoder) (b : list Z) (dt' : dynamicTable) : Prop := {
  fs_encode : encodeRepr e dst f = Some (e', dst ++ b);
  fs_parse : forall en ff, parses_as (SetEmitEnabled (set_firstField d ff) en) b f dt';
  fs_synced : synced e' (set_dynTab d dt');
  fs_update : tableSizeUpdate e' = false;
  fs_enc_room : added (eDynTab e') <= added (eDynTab e) + 1 /\ maxSize (eDynTab e') = maxSize (eDynTab e);
  fs_dec_room : added dt' <= added (dDynTab d) + 1 /\ maxSize dt' = maxSize (dDynTab d)
}.

Lemma dyn_add_room dt f :
  dyn_wf dt -> room dt 1 -> Size f + 2 ^ 31 < 2 ^ 32 ->
  exists dt', dyn_add dt f = Some dt' /\ dyn_wf dt' /\ maxSize dt' = maxSize dt /\
    allowedMaxSize dt' = allowedMaxSize dt /\
    ents (table dt') = fit (maxSize dt) (ents (table dt) ++ [f]) /\ added dt' = added dt + 1.
Proof.
  intros Hwf [Hr Hm] Hf. unfold added in *.
  apply dyn_add_ok; [done|lia|]. pose proof (Size_range f). lia.
Qed.

(** Adding the field on both sides keeps them in step. *)
Lemma synced_add e d f (indexing : bool) :
  synced e d -> tableSizeUpdate e = false -> room (eDynTab e) 1 -> room (dDynTab d) 1 ->
  Size f + 2 ^ 31 < 2 ^ 32 ->
  exists et dt, (if indexing then dyn_add (eDynTab e) f else Some (eDynTab e)) = Some et /\
    (if indexing then dyn_add (dDynTab d) f = Some dt else dt = dDynTab d) /\
    synced (mkEncoder et (minSize e) (maxSizeLimit e) (tableSizeUpdate e)) (set_dynTab d dt) /\
    (added et <= added (eDynTab e) + 1 /\ maxSize et = maxSize (eDynTab e)) /\
    (added dt <= added (dDynTab d) + 1 /\ maxSize dt = maxSize (dDynTab d)).
Proof.
  intros Hs Hu Hre Hrd Hf. pose proof Hs as [He Hd Hes Hmax Hall]. specialize (Hmax Hu).
  destruct indexing.
  - destruct (dyn_add_room _ f He Hre Hf) as (et & -> & Hew & Hem & _ & Hee & Hea).
    destruct (dyn_add_room _ f Hd Hrd Hf) as (dt & -> & Hdw & Hdm & Hda & Hde & Hdad).
    exists et, dt. split_and!; [done|done| |lia|done|lia|done].
    split; simpl; [done|done| |lia|lia].
    rewrite Hee, Hde, <- Hmax. apply fit_mono.
    + pose proof (dwf_size _ He). pose proof (sum_size_nonneg (ents (table (eDynTab e)))).
      pose proof (dwf_max _ He). lia.
    + destruct Hes as [x ->]. exists x. by rewrite app_assoc.
  - exists (eDynTab e), (dDynTab d). split_and!; [done|done| |lia|done|lia|done].
    by destruct e, d.
Qed.

Lemma encodeLiteral_ok d dst f (indexing : bool) i :
  bytes_ok dst -> field_ok f -> 0 <= i < 2 ^ 63 ->
  (i = 0 \/ exists g, dec_at d i = Some g /\ Name g = Name f) ->
  exists nb vb,
    (if i =? 0 then appendNewName dst f indexing else appendIndexedName dst f i indexing) =
      Some (dst ++ Z.lor (vi_head (lit_prefix indexing) i) (encodeTypeByte indexing (Sensitive f))
            :: vi_tail (lit_prefix indexing) i ++ nb ++ vb) /\
    (if i >? 0 then nb = [] /\ exists g, dec_at d i = Some g /\ Name g = Name f
     else reads_string nb (Name f)) /\ reads_string vb (Value f).
Proof.
  intros Hdst (Hn & Hv & _ & Hnl & Hvl) Hi Hg.
  assert (Ht : is_u8 (encodeTypeByte indexing (Sensitive f)))
    by (destruct indexing, (Sensitive f); by vm_compute).
  assert (Hp : 1 <= lit_prefix indexing <= 7) by (destruct indexing; by vm_compute).
  pose proof (prefix_bound _ Hp).
  destruct (Z.eqb_spec i 0) as [->|Hne]; simpl Z.gtb.
  - assert (Hh : vi_head (lit_prefix indexing) 0 = 0 /\ vi_tail (lit_prefix indexing) 0 = [])
      by (destruct indexing; by vm_compute).
    destruct Hh as [-> ->]. rewrite Z.lor_0_l. unfold appendNewName. cbn [app].
    pose proof (bytes_ok_snoc _ _ Hdst Ht) as Hb.
    destruct (hpackString_ok _ (Name f) Hb Hn Hnl) as (nb & -> & Hnb). cbn [mbind option_bind].
    destruct (hpackString_ok ((dst ++ [encodeTypeByte indexing (Sensitive f)]) ++ nb) (Value f))
      as (vb & -> & Hvb); [apply bytes_ok_app; by split; [|apply Hnb]|done|done|].
    exists nb, vb. by rewrite <- !app_assoc.
  - destruct Hg as [->|Hg]; [done|]. rewrite (proj2 (Z.gtb_lt i 0)) by lia.
    unfold appendIndexedName. fold (lit_prefix indexing). rewrite appendVarInt_eq, or_at_mid by lia.
    cbn [mbind option_bind].
    destruct (hpackString_ok (dst ++ Z.lor (vi_head (lit_prefix indexing) i)
      (encodeTypeByte indexing (Sensitive f)) :: vi_tail (lit_prefix indexing) i) (Value f))
      as (vb & -> & Hvb); [|done|done|].
    { apply bytes_ok_app. split; [done|].
      apply bytes_ok_cons; [apply flag_byte_ok; [done|lia|done]|apply vi_tail_bytes]. }
    exists [], vb. by rewrite <- app_assoc, <- app_comm_cons.
Qed.

(** One field, no size update pending. *)
Lemma encodeRepr_ok e d dst f :
  synced e d -> tableSizeUpdate e = false -> room (eDynTab e) 1 -> room (dDynTab d) 1 ->
  bytes_ok dst -> field_ok f -> 0 <= maxStrLen d -> str_fits d (Name f) -> str_fits d (Value f) ->
  exists e' b dt', field_step e d dst f e' b dt'.
Proof.
  intros Hs Hu Hre Hrd Hdst Hf Hmax Hfn Hfv.
  assert (Hadd : added (eDynTab e) < 2 ^ 62) by (destruct Hre; lia).
  destruct (searchTable_ok e d f Hs Hadd) as (i & m & Hsearch & Hi & Hm).
  unfold encodeRepr. destruct m.
  - destruct Hm as (g & Hat & Hn & Hv & Hsens).
    eexists e, _, (dDynTab d).
    split; [|intros en ff; by apply (parse_indexed (SetEmitEnabled (set_firstField d ff) en) i f g)|by destruct d|done|split; [lia|done]|split; [lia|done]].
    unfold encodeRepr. rewrite Hsearch. cbn [mbind option_bind]. unfold appendIndexed.
    by rewrite appendVarInt_eq, or_at_mid by lia.
  - destruct (synced_add e d f (shouldIndex e f) Hs Hu Hre Hrd) as (et & dt & Het & Hdt & Hs' & Hr);
      [by apply Hf|].
    destruct (encodeLiteral_ok d dst f (shouldIndex e f) i Hdst Hf Hi Hm) as (nb & vb & Hb & Hnb & Hvb).
    eexists (mkEncoder et (minSize e) (maxSizeLimit e) (tableSizeUpdate e)), _, dt.
    split; [|intros en ff; apply parse_literal; try done|exact Hs'|done|apply Hr|apply Hr].
    + unfold encodeRepr. rewrite Hsearch. cbn [mbind option_bind]. rewrite Het.
      cbn [mbind option_bind]. by rewrite Hb.
    + unfold shouldIndex. by destruct (Sensitive f).
Qed.
End FieldRoundTrip.
