(* ===== verification/HpackBlocks.v ===== *)
(** * Header blocks: properties of the HPACK encoder and decoder over whole runs

    [block_roundtrip] composes the one-field steps of HpackCodec into header
    blocks, [Write_split] says the decoder does not care how a block is cut
    into writes, and [Write_safe] bounds what any input can do to it. *)
From S2P Require Import Prelude Bits HpackTables HpackHuffman HpackCodec.

Section Writes.
Context {S : Type} (emit : HeaderField -> S -> bool -> S * bool).

(** ** Progress of the parser *)

Lemma readVarIntLoop_shorter p i m r rest :
  readVarIntLoop p i m = Ret (r, rest) -> (length rest < length p)%nat.
Proof.
  revert i m. induction p as [|b p IH]; intros i m; cbn [readVarIntLoop]; [done|].
  case_if; [intros [= _ <-]; simpl; lia|]. case_if; [done|].
  intros H%IH. simpl. lia.
Qed.

Lemma readVarInt_shorter n p r rest :
  readVarInt n p = Ret (r, rest) -> (length rest < length p)%nat.
Proof.
  unfold readVarInt. case_if; [done|]. destruct p as [|b p]; [done|].
  case_if; [intros [= _ <-]; simpl; lia|]. intros H%readVarIntLoop_shorter. simpl. lia.
Qed.

Lemma readVarIntLoop_nonneg p j m i rest : readVarIntLoop p j m = Ret (i, rest) -> 0 <= i.
Proof.
  revert j m. induction p as [|c p IH]; intros j m; cbn [readVarIntLoop]; [done|].
  case_if; [intros [= <- _]; apply u64_range|]. case_if; [done|apply IH].
Qed.

Lemma readVarInt_nonneg n p i rest : n < 8 -> readVarInt n p = Ret (i, rest) -> 0 <= i.
Proof.
  intros Hn. unfold readVarInt. destruct (Z.ltb_spec n 1); [done|]. cbn [orb]. case_if; [done|].
  destruct p as [|b p]; [done|]. destruct (Z.ltb_spec n 8); [|lia].
  assert (Hm : 0 <= Z.land b (Z.shiftl 1 n - 1)).
  { apply Z.land_nonneg. right. rewrite Z.shiftl_mul_pow2, Z.mul_1_l by lia.
    pose proof (Z.pow_pos_nonneg 2 n). lia. }
  case_if; [by intros [= <- _]|]. apply readVarIntLoop_nonneg.
Qed.

Lemma obind_Ret {E A B} (m : outcome E A) (k : A -> outcome E B) b :
  obind m k = Ret b -> exists a, m = Ret a /\ k a = Ret b.
Proof. destruct m; simpl; [eauto|done|done]. Qed.

Lemma readString_shorter d p want r rest :
  readString d p want = Ret (r, rest) -> (length rest < length p)%nat.
Proof.
  unfold readString. destruct p as [|b p]; [done|].
  intros ([n q] & Hq%readVarInt_shorter & H)%obind_Ret.
  enough (rest = drop (Z.to_nat n) q) as -> by (rewrite length_drop; lia).
  destruct (negb (maxStrLen d =? 0) && _); [discriminate|].
  destruct (len q <? n); [discriminate|].
  destruct (negb (negb _)); [by injection H as _ <-|]. destruct want; [|by injection H as _ <-].
  by apply obind_Ret in H as (? & _ & [= _ <-]).
Qed.

(** ** One call of the parser

    Whatever the input, a call is one of these: an error that changes nothing;
    a field, which may be added to the table and is then emitted; a size update;
    or a panic of the table. *)
Definition bounded (d : Decoder) (f : HeaderField) : Prop :=
  (exists i g, dec_at d i = Some g /\ Name f = Name g) \/ (0 < maxStrLen d -> len (Name f) <= maxStrLen d).

Inductive parse_view (d : Decoder) (s : S) (buf : list Z) : parsed (S := S) -> Prop :=
| pv_err e : parse_view d s buf (Some (d, s, buf, Some e))
| pv_field f rest :
    (length rest < length buf)%nat ->
    parse_view d s buf (let '(d, s, e) := callEmit emit d s f in Some (d, s, rest, e))
| pv_literal (indexing : bool) f g rest :
    (length rest < length buf)%nat ->
    bounded d g -> (0 < maxStrLen d -> len (Value g) <= maxStrLen d) ->
    parse_view d s buf
      (dt ← (if indexing then dyn_add (dDynTab d) g else Some (dDynTab d));
       let '(d, s, e) := callEmit emit (set_dynTab d dt) s f in Some (d, s, rest, e))
| pv_update v rest :
    (length rest < length buf)%nat -> 0 <= v <= allowedMaxSize (dDynTab d) ->
    parse_view d s buf (dt ← dyn_setMaxSize (dDynTab d) (u32 v); Some (set_dynTab d dt, s, rest, None)).

Lemma readVarInt_safe n p : 1 <= n <= 8 -> safe (fun _ => True) (readVarInt n p).
Proof.
  intros Hn. unfold readVarInt. destruct (Z.ltb_spec n 1), (Z.gtb_spec n 8); try lia.
  destruct p as [|b p]; [done|]. cbn [orb]. case_if; [done|].
  generalize (if n <? 8 then Z.land b (Z.shiftl 1 n - 1) else b) as i, 0 as m.
  induction p as [|c p IH]; intros i m; cbn [readVarIntLoop]; [done|].
  case_if; [done|]. by case_if.
Qed.

Lemma readString_safe d p want :
  safe (fun '(s, rest) => (length rest < length p)%nat /\ (0 < maxStrLen d -> len s <= maxStrLen d))
    (readString d p want).
Proof.
  destruct (readString d p want) as [[s rest]|e|] eqn:E; [|done|].
  - split; [by eapply readString_shorter|]. intros Hm. revert E. unfold readString.
    destruct p as [|b p]; [done|]. intros ([n q] & _ & E)%obind_Ret.
    destruct (negb (maxStrLen d =? 0) && (n >? maxStrLen d)) eqn:En; [discriminate|].
    destruct (len q <? n); [discriminate|].
    assert (Hnil : len (@nil Z) <= maxStrLen d) by (rewrite len_nil; lia).
    destruct (negb (negb _)).
    + injection E as <- <-. destruct want; [|done]. unfold len. rewrite length_take. lia.
    + destruct want; [|by injection E as <- <-]. apply obind_Ret in E as (v & Hv & [= <- <-]).
      pose proof (huffmanDecode_safe (maxStrLen d) (take (Z.to_nat n) q)) as Hs.
      rewrite Hv in Hs. by apply Hs.
  - revert E. unfold readString. destruct p as [|b p]; [done|].
    pose proof (readVarInt_safe 7 (b :: p) ltac:(lia)) as Hv.
    destruct (readVarInt 7 (b :: p)) as [[n q]|e|]; [|done|done]. cbn [obind].
    destruct (negb _ && _); [done|]. destruct (len q <? n); [done|].
    destruct (negb (negb _)); [done|]. destruct want; [|done].
    pose proof (huffmanDecode_safe (maxStrLen d) (take (Z.to_nat n) q)) as Hs.
    by destruct (huffmanDecode _ _).
Qed.

Lemma literalName_safe d i p want :
  safe (fun '(s, rest) => (length rest <= length p)%nat /\ forall v sens, bounded d (mkHeaderField s v sens))
    (literalName d i p want).
Proof.
  unfold literalName. case_if.
  - destruct (dec_at d i) as [g|] eqn:E; [|done]. split; [lia|]. intros. left. by exists i, g.
  - pose proof (readString_safe d p want) as H. destruct (readString d p want) as [[s rest]|e|]; [|done|done].
    destruct H. split; [lia|]. intros. by right.
Qed.

Lemma literal_view d s buf n it :
  1 <= n <= 8 -> parse_view d s buf (parseFieldLiteral emit d s buf n it).
Proof.
  intros Hn. unfold parseFieldLiteral. set (want := emitEnabled d || indexed it).
  pose proof (readVarInt_safe n buf Hn) as Hi.
  destruct (readVarInt n buf) as [[i p]|e|] eqn:Ei; [|apply pv_err|done].
  apply readVarInt_shorter in Ei. cbn [obind].
  pose proof (literalName_safe d i p want) as Hl.
  destruct (literalName d i p want) as [[nm p']|e|]; [|apply pv_err|done]. cbn [obind].
  pose proof (readString_safe d p' want) as Hs.
  destruct (readString d p' want) as [[v rest]|e|]; [|apply pv_err|done]. cbn [obind].
  destruct Hl as [Hl Hb], Hs as [Hs Hv]. apply pv_literal; [lia|apply Hb|done].
Qed.

Lemma parse_ok_view d s b p : parse_view d s (b :: p) (parseHeaderFieldRepr emit d s (b :: p)).
Proof.
  unfold parseHeaderFieldRepr. set (buf := b :: p).
  repeat case_if; try (apply literal_view; lia); [| |apply pv_err].
  - unfold parseFieldIndexed. pose proof (readVarInt_safe 7 buf ltac:(lia)) as Hi.
    destruct (readVarInt 7 buf) as [[i rest]|e|] eqn:E; [|apply pv_err|done].
    destruct (dec_at d i); [|apply pv_err]. by eapply pv_field, readVarInt_shorter.
  - unfold parseDynamicTableSizeUpdate. case_if; [apply pv_err|].
    pose proof (readVarInt_safe 5 buf ltac:(lia)) as Hi.
    destruct (readVarInt 5 buf) as [[v rest]|e|] eqn:E; [|apply pv_err|done].
    destruct (Z.gtb_spec v (allowedMaxSize (dDynTab d))); [apply pv_err|].
    apply pv_update; [by eapply readVarInt_shorter|]. split; [|done].
    by eapply readVarInt_nonneg; [|exact E].
Qed.

(** A field that is parsed takes a byte at least, and a call for more input
    leaves everything as it was. *)
Definition progress (d : Decoder) (s : S) (buf : list Z) (r : parsed (S := S)) : Prop :=
  match r with
  | None => True
  | Some (d', s', buf', None) => (length buf' < length buf)%nat /\ saveBuf d' = saveBuf d
  | Some (d', s', buf', Some errNeedMore) => d' = d /\ s' = s /\ buf' = buf
  | Some (d', s', buf', Some _) => True
  end.

Lemma callEmit_progress d0 s0 d s f buf rest :
  (length rest < length buf)%nat -> saveBuf d = saveBuf d0 ->
  progress d0 s0 buf (let '(d, s, e) := callEmit emit d s f in Some (d, s, rest, e)).
Proof.
  intros H Hs. unfold callEmit. case_if; [done|]. case_if; [|done].
  by destruct (emit f s _).
Qed.

Lemma parse_progress d s buf : progress d s buf (parseHeaderFieldRepr emit d s buf).
Proof.
  destruct buf as [|b p]; [done|].
  destruct (parse_ok_view d s b p) as [[]|f rest|ix f g rest|v rest]; try done.
  - by apply callEmit_progress.
  - destruct (if ix then _ else _); [by apply callEmit_progress|done].
  - by destruct (dyn_setMaxSize _ _).
Qed.

(** ** The loop of [Write] as a reference recursion on the parser's results *)
Lemma writeLoop_fuel fuel fuel' d s buf :
  (length buf <= fuel)%nat -> (length buf <= fuel')%nat ->
  writeLoop emit fuel d s buf = writeLoop emit fuel' d s buf.
Proof.
  revert fuel' d s buf. induction fuel as [|fuel IH]; intros fuel' d s buf H1 H2.
  { destruct buf; simpl in H1; [|lia]. by destruct fuel'. }
  destruct buf as [|b p]; [by destruct fuel'|].
  destruct fuel' as [|fuel']; simpl in H2; [lia|]. cbn [writeLoop].
  pose proof (parse_progress d s (b :: p)) as Hp.
  destruct (parseHeaderFieldRepr emit d s (b :: p)) as [[[[d' s'] buf'] [e|]]|]; [done| |done].
  simpl in Hp, H1. apply IH; lia.
Qed.

Lemma writeLoop_step fuel d s b f dt rest :
  parses_as emit d b f dt -> (length (b ++ rest) <= fuel)%nat ->
  writeLoop emit fuel d s (b ++ rest) =
    let '(s', en) := emitted emit d s f in
    writeLoop emit (length rest) (set_firstField (SetEmitEnabled (set_dynTab d dt) en) false) s' rest.
Proof.
  intros (_ & Hne & Hp) Hl. destruct b as [|c b]; [done|]. specialize (Hp s rest).
  destruct fuel as [|fuel]; simpl in Hl; [lia|]. cbn [writeLoop app]. cbn [app] in Hp. rewrite Hp.
  destruct (emitted emit d s f) as [s' en]. apply writeLoop_fuel; [|lia].
  rewrite length_app in Hl. lia.
Qed.

(** ** Cutting a block into writes *)
Lemma readVarInt_more n p q i rest :
  readVarInt n p = Ret (i, rest) -> readVarInt n (p ++ q) = Ret (i, rest ++ q).
Proof.
  unfold readVarInt. case_if; [done|]. destruct p as [|b p]; [done|]. cbn [app].
  case_if; [by intros [= <- <-]|].
  generalize (if n <? 8 then Z.land b (Z.shiftl 1 n - 1) else b) as j, 0 as m.
  induction p as [|c p IH]; intros j m; cbn [readVarIntLoop app]; [done|].
  case_if; [by intros [= <- <-]|]. case_if; [done|apply IH].
Qed.

Lemma readString_more d p q want v rest :
  readString d p want = Ret (v, rest) -> readString d (p ++ q) want = Ret (v, rest ++ q).
Proof.
  unfold readString. destruct p as [|b p]; [done|]. cbn [app].
  intros ([n p'] & Hn & E)%obind_Ret. pose proof (readVarInt_more _ _ q _ _ Hn) as Hn'.
  cbn [app] in Hn'. rewrite Hn'. cbn [obind].
  destruct (negb (maxStrLen d =? 0) && _); [discriminate|].
  destruct (Z.ltb_spec (len p') n) as [|Hl]; [discriminate|].
  rewrite len_app. pose proof (len_nonneg q).
  destruct (Z.ltb_spec (len p' + len q) n); [lia|]. unfold len in Hl.
  rewrite take_app_le, drop_app_le by lia.
  destruct (negb (negb _)); [by injection E as <- <-|]. destruct want; [|by injection E as <- <-].
  apply obind_Ret in E as (w & -> & [= <- <-]). done.
Qed.

Lemma literalName_more d i p q want v rest :
  literalName d i p want = Ret (v, rest) -> literalName d i (p ++ q) want = Ret (v, rest ++ q).
Proof.
  unfold literalName. case_if; [|apply readString_more]. destruct (dec_at d i); [|done].
  by intros [= <- <-].
Qed.

Lemma literal_more d s buf q n it d' s' rest :
  parseFieldLiteral emit d s buf n it = Some (d', s', rest, None) ->
  parseFieldLiteral emit d s (buf ++ q) n it = Some (d', s', rest ++ q, None).
Proof.
  unfold parseFieldLiteral. set (want := emitEnabled d || indexed it).
  destruct (obind _ _) as [[[nm v] rest']|e|] eqn:E; [|done|done].
  apply obind_Ret in E as ([i p] & Hi%(readVarInt_more _ _ q) & E). rewrite Hi. cbn [obind].
  apply obind_Ret in E as ([nm' p'] & Hn%(literalName_more _ _ _ q) & E). rewrite Hn. cbn [obind].
  apply obind_Ret in E as ([v' p''] & Hv%(readString_more _ _ q) & [= -> -> ->]). rewrite Hv.
  cbn [obind]. destruct (if indexed it then _ else _) as [dt|]; [|done]. cbn [mbind option_bind].
  destruct (callEmit _ _ _ _) as [[d1 s1] e1]. by intros [= -> -> -> ->].
Qed.

Lemma parse_more d s buf q d' s' rest :
  parseHeaderFieldRepr emit d s buf = Some (d', s', rest, None) ->
  parseHeaderFieldRepr emit d s (buf ++ q) = Some (d', s', rest ++ q, None).
Proof.
  unfold parseHeaderFieldRepr. destruct buf as [|b p]; [done|]. cbn [app].
  change (b :: p ++ q) with ((b :: p) ++ q). set (buf := b :: p).
  repeat case_if; try apply literal_more; [| |done].
  - unfold parseFieldIndexed. destruct (readVarInt 7 buf) as [[i p']|e|] eqn:E; [|done|done].
    rewrite (readVarInt_more _ _ q _ _ E). destruct (dec_at d i); [|done].
    destruct (callEmit _ _ _ _) as [[d1 s1] e1]. by intros [= -> -> -> ->].
  - unfold parseDynamicTableSizeUpdate. case_if; [done|].
    destruct (readVarInt 5 buf) as [[v p']|e|] eqn:E; [|done|done].
    rewrite (readVarInt_more _ _ q _ _ E). case_if; [done|].
    destruct (dyn_setMaxSize _ _); [|done]. by intros [= <- <- <-].
Qed.

Lemma writeLoop_more fuel d s buf q d1 s1 :
  saveBuf d = [] -> (length buf <= fuel)%nat -> writeLoop emit fuel d s buf = Some (d1, s1, None) ->
  writeLoop emit (length (buf ++ q)) d s (buf ++ q) =
  writeLoop emit (length (saveBuf d1 ++ q)) (set_saveBuf d1 []) s1 (saveBuf d1 ++ q).
Proof.
  revert d s buf. induction fuel as [|fuel IH]; intros d s buf Hd Hl.
  { destruct buf; simpl in Hl; [|lia]. intros [= <- <-]. rewrite Hd. by destruct d; simpl in *; subst. }
  destruct buf as [|b p].
  { intros [= <- <-]. rewrite Hd. by destruct d; simpl in *; subst. }
  cbn [writeLoop]. pose proof (parse_progress d s (b :: p)) as Hp.
  destruct (parseHeaderFieldRepr emit d s (b :: p)) as [[[[d' s'] rest] [e|]]|] eqn:E; [|idtac|done].
  - destruct e; try done. destruct Hp as (-> & -> & ->). case_if; [done|].
    intros [= <- <-]. cbn [saveBuf set_saveBuf]. by destruct d; simpl in *; subst.
  - destruct Hp as [Hlt Hsb]. simpl in Hl, Hlt. intros Hw.
    apply IH in Hw; [|by rewrite <- Hd, <- Hsb|lia]. rewrite <- Hw.
    pose proof (parse_more _ _ _ q _ _ _ E) as E'. cbn [app] in E' |- *.
    cbn [length writeLoop]. rewrite E'. apply writeLoop_fuel; rewrite !length_app; lia.
Qed.

(** How a block is cut into writes does not matter, unless a write fails. *)
Lemma Write_app d s p q d1 s1 :
  dec_Write emit d s p = Some (d1, s1, None) ->
  dec_Write emit d s (p ++ q) = dec_Write emit d1 s1 q.
Proof.
  unfold dec_Write. destruct p as [|b p]; [by intros [= <- <-]|]. cbn [app].
  destruct q as [|c q]; [by rewrite app_nil_r|]. intros Hw.
  change (b :: p ++ c :: q) with ((b :: p) ++ c :: q). rewrite app_assoc.
  by apply (writeLoop_more (length (saveBuf d ++ b :: p))).
Qed.

(** ** Invariants of the callback's state *)
Section EmitInvariant.
Context (P : S -> Prop) (Hemit : forall f s, P s -> P (emit f s true).1).

Lemma parse_emit_inv d s b p d' s' rest e :
  P s -> parseHeaderFieldRepr emit d s (b :: p) = Some (d', s', rest, e) -> P s'.
Proof.
  intros HP E.
  assert (Hcall : forall d0 f r, (let '(d, s, e) := callEmit emit d0 s f in Some (d, s, r, e))
      = Some (d', s', rest, e) -> P s').
  { intros d0 f r. unfold callEmit. case_if; [by intros [= _ <- _ _]|].
    case_if; [|by intros [= _ <- _ _]]. pose proof (Hemit f s HP) as Hs.
    by destruct (emit f s true); intros [= _ <- _ _]. }
  revert E. destruct (parse_ok_view d s b p) as [e'|f r _|ix f g r _ _ _|v r _ _].
  - by intros [= _ <- _ _].
  - apply Hcall.
  - destruct (if ix then _ else _) as [dt|]; [apply Hcall|done].
  - destruct (dyn_setMaxSize _ _); [|done]. by intros [= _ <- _ _].
Qed.

Lemma writeLoop_emit_inv fuel : forall d s buf d' s' e,
  P s -> writeLoop emit fuel d s buf = Some (d', s', e) -> P s'.
Proof.
  induction fuel as [|fuel IH]; intros d s buf d' s' e HP.
  { destruct buf; [by intros [= _ <- _]|done]. }
  destruct buf as [|b p]; [by intros [= _ <- _]|]. cbn [writeLoop].
  destruct (parseHeaderFieldRepr emit d s (b :: p)) as [[[[d1 s1] r] [e1|]]|] eqn:E; [| |done];
    apply parse_emit_inv in E; [|done| |done].
  - destruct e1; try (by intros [= _ <- _]). case_if; by intros [= _ <- _].
  - by apply IH.
Qed.

Lemma Write_emit_inv d s p d' s' e : P s -> dec_Write emit d s p = Some (d', s', e) -> P s'.
Proof.
  intros HP. unfold dec_Write. destruct p; [by intros [= _ <- _]|]. by apply writeLoop_emit_inv.
Qed.
End EmitInvariant.

(** ** What any input can do

    The table stays within its maximum size and that within what the receiver
    allows; the input kept for the next write is bounded. *)
Definition exact (f : HeaderField) : Prop := len (Name f) + len (Value f) + 32 < 2 ^ 32.

Record dec_wf (d : Decoder) : Prop := {
  dec_dyn : dyn_wf (dDynTab d);
  dec_exact : Forall exact (ents (table (dDynTab d)));
  dec_allowed : maxSize (dDynTab d) <= allowedMaxSize (dDynTab d) < 2 ^ 30;
  dec_strlen : 0 < maxStrLen d < 2 ^ 30
}.

Lemma sum_size_elem es g : g ∈ es -> Size g <= sum_size es.
Proof.
  induction es as [|f es IH]; [by intros ?%not_elem_of_nil|]. simpl.
  pose proof (sum_size_nonneg es). pose proof (Size_range f) as [? _].
  intros [->|Hg%IH]%elem_of_cons; lia.
Qed.

Lemma static_name_len g : g ∈ staticTableEntries -> len (Name g) <= 27.
Proof.
  intros Hg. assert (H : Forall (fun g => len (Name g) <= 27) staticTableEntries)
    by (by apply (bool_decide_unpack _); vm_compute). by eapply Forall_forall in H.
Qed.

Lemma dec_at_name_len d i g : dec_wf d -> dec_at d i = Some g -> len (Name g) < 2 ^ 30.
Proof.
  intros [Hdyn Hex Hall _]. unfold dec_at. rewrite static_ents.
  case_if; [done|]. case_if.
  { intros Hg%list_elem_of_lookup_2%static_name_len. lia. }
  case_if; [done|]. intros Hg%list_elem_of_lookup_2.
  pose proof (sum_size_elem _ _ Hg) as Hs. rewrite Forall_forall in Hex.
  rewrite (Size_exact g) in Hs by (by apply Hex). pose proof (dwf_size _ Hdyn).
  pose proof (dwf_max _ Hdyn). pose proof (len_nonneg (Value g)). lia.
Qed.

Lemma bounded_exact d g :
  dec_wf d -> bounded d g -> (0 < maxStrLen d -> len (Value g) <= maxStrLen d) ->
  exact g /\ maxSize (dDynTab d) + Size g < 2 ^ 32.
Proof.
  intros Hd Hb Hv. pose proof (dec_strlen _ Hd). pose proof (dec_allowed _ Hd).
  assert (len (Name g) < 2 ^ 30).
  { destruct Hb as [(i & h & Hat & ->)|Hn]; [by eapply dec_at_name_len|lia]. }
  assert (Hx : exact g) by (unfold exact; lia). split; [done|]. rewrite Size_exact by done. lia.
Qed.

(** The state after a step: still well formed, the same limits. *)
Record dec_step (d d' : Decoder) : Prop := {
  ds_wf : dec_wf d';
  ds_added : added (dDynTab d') <= added (dDynTab d) + 1;
  ds_limits : allowedMaxSize (dDynTab d') = allowedMaxSize (dDynTab d) /\
    maxStrLen d' = maxStrLen d /\ saveBuf d' = saveBuf d
}.

Lemma dec_step_refl d : dec_wf d -> dec_step d d.
Proof. intros. split; [done|lia|done]. Qed.

Lemma dec_wf_ext d d' : dDynTab d' = dDynTab d -> maxStrLen d' = maxStrLen d -> dec_wf d -> dec_wf d'.
Proof. intros E1 E2 []. by split; rewrite ?E1, ?E2. Qed.

Lemma dec_step_ext d d' d'' :
  dDynTab d'' = dDynTab d' -> maxStrLen d'' = maxStrLen d' -> saveBuf d'' = saveBuf d' ->
  dec_step d d' -> dec_step d d''.
Proof. intros E1 E2 E3 [? ? ?]. split; rewrite ?E1, ?E2, ?E3; [by eapply dec_wf_ext|done|done]. Qed.

Lemma fit_exact max es : Forall exact es -> Forall exact (fit max es).
Proof. destruct (fit_suffix_of max es) as [x Hx]. rewrite Hx at 1. by intros [_ H]%Forall_app. Qed.

Lemma add_step d g :
  dec_wf d -> added (dDynTab d) + 1 < 2 ^ 62 -> bounded d g ->
  (0 < maxStrLen d -> len (Value g) <= maxStrLen d) ->
  exists dt, dyn_add (dDynTab d) g = Some dt /\ dec_step d (set_dynTab d dt).
Proof.
  intros Hd Hadd Hb Hv. destruct (bounded_exact d g Hd Hb Hv) as [Hx Hsz].
  pose proof Hd as [Hdyn Hex Hall Hstr].
  destruct (dyn_add_ok (dDynTab d) g Hdyn Hsz) as (dt & Hdt & Hw & Hm & Ha & He & Hc);
    [unfold added in Hadd; lia|].
  exists dt. split; [done|]. split; simpl; [|unfold added in *; lia|done].
  split; simpl; [done| |lia|done]. rewrite He. apply fit_exact, Forall_app. split; [done|].
  by apply Forall_singleton.
Qed.

Lemma update_step d v :
  dec_wf d -> 0 <= v <= allowedMaxSize (dDynTab d) ->
  exists dt, dyn_setMaxSize (dDynTab d) (u32 v) = Some dt /\ dec_step d (set_dynTab d dt).
Proof.
  intros [Hdyn Hex Hall Hstr] Hv. rewrite u32_small by lia.
  destruct (dyn_setMaxSize_ok (dDynTab d) v Hdyn ltac:(lia)) as (dt & Hdt & Hw & Hm & Ha & He & Hc).
  exists dt. split; [done|]. split; simpl; [|unfold added in *; lia|done].
  split; simpl; [done|rewrite He; by apply fit_exact|lia|done].
Qed.

Lemma callEmit_step d0 d s f :
  dec_step d0 d -> exists d' s' e, callEmit emit d s f = (d', s', e) /\ dec_step d0 d'.
Proof.
  intros H. unfold callEmit. case_if; [by eauto|]. case_if; [|by eauto].
  destruct (emit f s _) as [s' en]. eexists _, _, _. split; [done|]. by eapply dec_step_ext; [..|exact H].
Qed.

Lemma parse_step d s b p :
  dec_wf d -> added (dDynTab d) + 1 < 2 ^ 62 -> 
  exists d' s' rest e, parseHeaderFieldRepr emit d s (b :: p) = Some (d', s', rest, e) /\ dec_step d d'.
Proof.
  intros Hd Hadd. pose proof (dec_step_refl d Hd) as Hrefl.
  destruct (parse_ok_view d s b p) as [e|f rest Hl|ix f g rest Hl Hb Hv|v rest Hl Hv].
  - by eauto 10.
  - destruct (callEmit_step d d s f Hrefl) as (d' & s' & e & -> & H). by eauto 10.
  - assert (exists dt, (if ix then dyn_add (dDynTab d) g else Some (dDynTab d)) = Some dt /\
      dec_step d (set_dynTab d dt)) as (dt & -> & Hdt).
    { destruct ix; [by apply add_step|]. exists (dDynTab d). split; [done|by destruct d]. }
    destruct (callEmit_step d _ s f Hdt) as (d' & s' & e & H & ?). cbn [mbind option_bind].
    rewrite H. by eauto 10.
  - destruct (update_step d v Hd Hv) as (dt & -> & H). cbn [mbind option_bind]. by eauto 10.
Qed.

(** The number of entries ever added and of bytes kept: each byte of input adds
    one at most. *)
Definition pot (d : Decoder) : Z := added (dDynTab d) + len (saveBuf d).

Record write_post (d : Decoder) (n : Z) (d' : Decoder) : Prop := {
  wp_wf : dec_wf d';
  wp_pot : pot d' <= added (dDynTab d) + n;
  wp_limits : allowedMaxSize (dDynTab d') = allowedMaxSize (dDynTab d) /\ maxStrLen d' = maxStrLen d;
  wp_saved : len (saveBuf d') <= 2 * (maxStrLen d' + 8)
}.

Lemma write_post_idle d n :
  dec_wf d -> saveBuf d = [] -> 0 <= n -> write_post d n d.
Proof.
  intros Hd Hs Hn. pose proof (dec_strlen _ Hd).
  split; [done|unfold pot; rewrite Hs, len_nil; lia|done|rewrite Hs, len_nil; lia].
Qed.

Lemma write_post_ext d n d1 d' :
  dDynTab d' = dDynTab d1 -> maxStrLen d' = maxStrLen d1 -> saveBuf d' = saveBuf d1 ->
  write_post d n d1 -> write_post d n d'.
Proof.
  intros E1 E2 E3 [? Hp ? ?].
  split; unfold pot in *; rewrite ?E1, ?E2, ?E3; [by eapply dec_wf_ext|done..].
Qed.

Lemma writeLoop_safe fuel : forall d s buf,
  dec_wf d -> (length buf <= fuel)%nat -> added (dDynTab d) + Z.of_nat fuel < 2 ^ 62 -> saveBuf d = [] ->
  exists d' s' e, writeLoop emit fuel d s buf = Some (d', s', e) /\ write_post d (Z.of_nat fuel) d'.
Proof.
  induction fuel as [|fuel IH]; intros d s buf Hd Hl Hadd Hsb.
  { destruct buf; simpl in Hl; [|lia]. eexists d, s, None. split; [done|by apply write_post_idle]. }
  destruct buf as [|b p]; [eexists d, s, None; split; [done|apply write_post_idle; [done|done|lia]]|].
  cbn [writeLoop]. pose proof (parse_progress d s (b :: p)) as Hp.
  destruct (parse_step d s b p Hd ltac:(lia)) as (d' & s' & rest & e & E & [Hw Ha (Hal & Hms & Hsv)]).
  rewrite E in Hp |- *. rewrite Hsb in Hsv. pose proof (dec_strlen _ Hd).
  assert (Hhard : write_post d (Z.of_nat (Datatypes.S fuel)) d').
  { split; [done|unfold pot; rewrite Hsv, len_nil; lia|done|rewrite Hsv, len_nil; lia]. }
  destruct e as [e|].
  - assert (Hfail : exists d'' s'' e', Some (set_firstField d' false, s', Some e) = Some (d'', s'', e') /\
      write_post d (Z.of_nat (Datatypes.S fuel)) d'').
    { eexists _, _, _. split; [done|]. by eapply write_post_ext; [..|exact Hhard]. }
    destruct e; try exact Hfail. clear Hfail. destruct Hp as (-> & -> & ->).
    destruct (negb (maxStrLen d =? 0) && (len (b :: p) >? 2 * (maxStrLen d + 8))) eqn:Eb.
    + by eexists _, _, _.
    + eexists _, _, _. split; [done|]. split; [by eapply dec_wf_ext; [..|exact Hw]| |done|].
      * unfold pot. cbn [saveBuf set_saveBuf dDynTab]. unfold len. lia.
      * cbn [saveBuf set_saveBuf maxStrLen]. lia.
  - destruct Hp as [Hlt _]. simpl in Hl, Hlt.
    destruct (IH (set_firstField d' false) s' rest) as (d'' & s'' & e & -> & [? Hpot [Hal' Hms'] ?]).
    + by eapply dec_wf_ext; [..|exact Hw].
    + lia.
    + simpl. lia.
    + done.
    + exists d'', s'', e. split; [done|]. simpl in *.
      split; [done|lia|split; congruence|done].
Qed.

Lemma Write_post d s p :
  dec_wf d -> pot d + len p < 2 ^ 62 -> len (saveBuf d) <= 2 * (maxStrLen d + 8) ->
  exists d' s' e, dec_Write emit d s p = Some (d', s', e) /\
    write_post d (len (saveBuf d ++ p)) d'.
Proof.
  intros Hd Hadd Hsb. unfold dec_Write. destruct p as [|b p].
  - eexists d, s, None. split; [done|]. rewrite app_nil_r. by split.
  - unfold pot in Hadd.
    destruct (writeLoop_safe (length (saveBuf d ++ b :: p)) (set_saveBuf d []) s (saveBuf d ++ b :: p))
      as (d' & s' & e & Hw & [? ? ? ?]); [by eapply dec_wf_ext; [..|exact Hd]|done| |done|].
    { rewrite length_app. unfold len in *. cbn [dDynTab set_saveBuf]. lia. }
    exists d', s', e. split; [exact Hw|by split].
Qed.

(** ** Size updates

    A pending update that sends one size restores the agreement of the two
    tables.  [WriteField] sends two when the size was lowered and raised again;
    [two_updates_rejected] below shows what the decoder makes of that. *)
Definition update_ok (e : Encoder) (d : Decoder) : Prop :=
  tableSizeUpdate e = true ->
  maxSize (eDynTab e) <= minSize e /\ firstField d = true /\ saveBuf d = [].

Lemma parse_update d v :
  firstField d = true -> dyn_wf (dDynTab d) -> 0 <= v < 2 ^ 32 -> v <= allowedMaxSize (dDynTab d) ->
  exists dt, (forall s rest,
      parseHeaderFieldRepr emit d s (Z.lor (vi_head 5 v) 32 :: vi_tail 5 v ++ rest) =
      Some (set_dynTab d dt, s, rest, None)) /\
    dyn_wf dt /\ maxSize dt = v /\ allowedMaxSize dt = allowedMaxSize (dDynTab d) /\
    ents (table dt) = fit v (ents (table (dDynTab d))) /\ added dt = added (dDynTab d).
Proof.
  intros Hff Hwf Hv Hall. pose proof (vi_head_range 5 v ltac:(lia) ltac:(lia)) as Hh.
  destruct (dyn_setMaxSize_ok _ v Hwf Hv) as (dt & Hdt & Hw & Hm & Ha & He & Hn).
  exists dt. split; [|done]. intros s rest. unfold parseHeaderFieldRepr.
  pose proof (forall_below_spec 32 (fun h => (Z.land (Z.lor h 32) 128 =? 0) &&
    negb (Z.land (Z.lor h 32) 192 =? 64) && negb (Z.land (Z.lor h 32) 240 =? 0) &&
    negb (Z.land (Z.lor h 32) 240 =? 16) && (Z.land (Z.lor h 32) 224 =? 32)) eq_refl _ Hh) as Hb.
  cbv beta in Hb. apply andb_prop in Hb as [[[[-> ->%negb_true_iff]%andb_prop ->%negb_true_iff]%andb_prop
    ->%negb_true_iff]%andb_prop ->]. cbn [negb].
  unfold parseDynamicTableSizeUpdate. rewrite Hff. cbn [negb andb].
  rewrite readVarInt_ok by (done || lia).
  destruct (Z.gtb_spec v (allowedMaxSize (dDynTab d))); [lia|].
  by rewrite (u32_small v), Hdt by lia.
Qed.

Lemma sizeUpdate_ok e d :
  synced e d -> update_ok e d ->
  exists e1 u dt, encodeSizeUpdate e = Some (e1, u) /\ tableSizeUpdate e1 = false /\
    synced e1 (set_dynTab d dt) /\ eDynTab e1 = eDynTab e /\ bytes_ok u /\
    added dt = added (dDynTab d) /\ maxSize dt = maxSize (eDynTab e) /\
    (u = [] -> dt = dDynTab d) /\
    forall s rest, u <> [] -> parseHeaderFieldRepr emit d s (u ++ rest) =
      Some (set_dynTab d dt, s, rest, None).
Proof.
  intros Hs Hup. pose proof Hs as [He Hd Hes Hm Ha]. unfold encodeSizeUpdate.
  destruct (tableSizeUpdate e) eqn:Hu; cycle 1.
  { exists e, [], (dDynTab d). specialize (Hm eq_refl).
    split_and!; try done. constructor. }
  destruct (Hup Hu) as (Hmin & Hf & _).
  destruct (Z.ltb_spec (minSize e) (maxSize (eDynTab e))); [lia|]. cbn [mbind option_bind].
  set (v := maxSize (eDynTab e)) in *.
  assert (Hv : 0 <= v < 2 ^ 32).
  { pose proof (dwf_max _ He). pose proof (dwf_size _ He).
    pose proof (sum_size_nonneg (ents (table (eDynTab e)))). lia. }
  unfold appendTableSize. rewrite appendVarInt_eq, or_at_mid by lia. cbn [mbind option_bind app].
  destruct (parse_update d v Hf Hd Hv Ha) as (dt & Hp & Hw & Hmx & Hal & Hen & Had).
  eexists _, _, dt. split_and!; [done|done| |done| |done|done|done|].
  - split; simpl; [done|done| |done|by rewrite Hal]. rewrite Hen.
    apply fit_longest; [done|]. pose proof (dwf_max _ He). rewrite <- (dwf_size _ He). lia.
  - apply bytes_ok_cons; [by apply flag_byte_ok; [lia|lia|]|apply vi_tail_bytes].
  - intros s rest _. apply Hp.
Qed.

(** ** Blocks *)

(** Fields written one after the other to a buffer, as the writers of header
    blocks do. *)
Fixpoint encodeFields (e : Encoder) (fs : list HeaderField) : option (Encoder * list Z) :=
  match fs with
  | [] => Some (e, [])
  | f :: fs =>
      '(e, b) ← encodeField e f;
      '(e, b') ← encodeFields e fs;
      Some (e, b ++ b')
  end.

(** What emitting the fields in turn does to the callback's state and the flag. *)
Definition emit_all (s : S) (en : bool) (fs : list HeaderField) : S * bool :=
  foldl (fun '(s, en) f => if (en : bool) then emit f s true else (s, false)) (s, en) fs.

Definition fits (d : Decoder) (f : HeaderField) : Prop :=
  field_ok f /\ str_fits d (Name f) /\ str_fits d (Value f).

Lemma synced_dec e d d' : dDynTab d = dDynTab d' -> synced e d -> synced e d'.
Proof. intros E [? ? ? ? ?]. by split; rewrite <- ?E. Qed.

(** The decoder with its flags set. *)
Definition flags (d : Decoder) (ff en : bool) : Decoder :=
  SetEmitEnabled (set_firstField d ff) en.

(** [k] fields went into the counters of a table. *)
Definition leaves_room (dt : dynamicTable) (k : Z) (dt' : dynamicTable) : Prop :=
  added dt' <= added dt + k /\ maxSize dt' = maxSize dt.
Lemma leaves_room_room dt k dt' n : leaves_room dt k dt' -> room dt (k + n) -> room dt' n.
Proof. intros [? E] [? ?]. unfold room. rewrite E. lia. Qed.

Lemma fields_written fs : forall e d,
  synced e d -> tableSizeUpdate e = false -> room (eDynTab e) (len fs) -> room (dDynTab d) (len fs) ->
  0 <= maxStrLen d -> Forall (fits d) fs ->
  exists e' b dt, encodeFields e fs = Some (e', b) /\ tableSizeUpdate e' = false /\
    synced e' (set_dynTab d dt) /\ leaves_room (eDynTab e) (len fs) (eDynTab e') /\ leaves_room (dDynTab d) (len fs) dt /\
    forall ff en s, writeLoop emit (length b) (flags d ff en) s b =
      let '(s', en') := emit_all s en fs in
      Some (flags (set_dynTab d dt) (ff && bool_decide (fs = [])) en', s', None).
Proof.
  induction fs as [|f fs IH]; intros e d Hs Hu Hre Hrd Hmax Hfs.
  { exists e, [], (dDynTab d). split_and!; [done|done|by destruct d|split; [rewrite len_nil; lia|done]..|].
    intros ff en s. simpl. by rewrite andb_true_r. }
  rewrite len_cons in Hre, Hrd. pose proof (len_nonneg fs).
  inversion_clear Hfs as [|? ? (Hf & Hn & Hv) Hfs'].
  assert (Hr : forall dt, room dt (len fs + 1) -> room dt 1) by (unfold room; lia).
  destruct (encodeRepr_ok emit e d [] f) as (e1 & b & dt & [Henc Hp Hs1 Hu1 Hr1 Hr2]);
    try done; [by apply Hr..|constructor|].
  destruct (IH e1 (set_dynTab d dt)) as (e' & b' & dt' & Henc' & Hu' & Hs' & Hl1 & Hl2 & Hw); try done.
  { unfold room in *. lia. }
  { unfold room in *. cbn [dDynTab set_dynTab]. lia. }
  exists e', (b ++ b'), dt'. rewrite len_cons.
  split_and!; [|done|by eapply synced_dec; [|exact Hs']|unfold leaves_room in *; cbn [dDynTab set_dynTab] in *; lia..|].
  { cbn [encodeFields]. unfold encodeField, encodeSizeUpdate. rewrite Hu. cbn [mbind option_bind].
    rewrite Henc. cbn [app mbind option_bind]. by rewrite Henc'. }
  intros ff en s. rewrite (writeLoop_step _ _ _ _ _ _ _ (Hp en ff)) by done.
  unfold emit_all, emitted. cbn [foldl emitEnabled SetEmitEnabled flags].
  destruct (if en then emit f s true else (s, false)) as [s' en'].
  rewrite andb_false_r. exact (Hw false en' s').
Qed.

(** A block written by the encoder, then given to the decoder in one write. *)
Lemma block_written e d fs :
  synced e d -> update_ok e d -> fs <> [] ->
  room (eDynTab e) (len fs) -> room (dDynTab d) (len fs) -> 0 <= maxStrLen d ->
  Forall (fits d) fs -> saveBuf d = [] ->
  exists e' b dt, encodeFields e fs = Some (e', b) /\ b <> [] /\ tableSizeUpdate e' = false /\
    synced e' (set_dynTab d dt) /\ leaves_room (eDynTab e) (len fs) (eDynTab e') /\
    (added dt <= added (dDynTab d) + len fs /\ maxSize dt = maxSize (eDynTab e)) /\
    forall s, dec_Write emit d s b =
      let '(s', en') := emit_all s (emitEnabled d) fs in
      Some (flags (set_dynTab d dt) false en', s', None).
Proof.
  intros Hs Hup Hne Hre Hrd Hmax Hfs Hsave.
  destruct (sizeUpdate_ok e d Hs Hup)
    as (e1 & u & dt1 & Hu & Hu1 & Hs1 & Het & Hub & Had & Hmx & Hnil & Hp).
  destruct fs as [|f fs]; [done|]. clear Hne. rewrite len_cons in Hre, Hrd. pose proof (len_nonneg fs).
  inversion_clear Hfs as [|? ? (Hf & Hn & Hv) Hfs'].
  set (d1 := set_dynTab d dt1).
  destruct (encodeRepr_ok emit e1 d1 u f) as (e2 & b & dt2 & [Henc Hp2 Hs2 Hu2 Hr2 Hr2']); try done.
  { rewrite Het. unfold room in *. lia. }
  { unfold room in *. cbn [dDynTab set_dynTab d1]. lia. }
  rewrite Het in Hr2. cbn [dDynTab set_dynTab d1] in Hr2'.
  destruct (fields_written fs e2 (set_dynTab d dt2))
    as (e' & b' & dt & Henc' & Hu' & Hs' & Hl1 & Hl2 & Hw); try done.
  { unfold room in *. lia. }
  { unfold room in *. cbn [dDynTab set_dynTab]. lia. }
  exists e', (u ++ b ++ b'), dt. pose proof (Hp2 true true) as (_ & Hne & _). rewrite len_cons.
  split_and!; [|by destruct u, b|done|by eapply synced_dec; [|exact Hs']|unfold leaves_room in *; cbn [dDynTab set_dynTab] in *; lia..|].
  { cbn [encodeFields]. unfold encodeField. rewrite Hu. cbn [mbind option_bind].
    rewrite Henc. cbn [mbind option_bind]. rewrite Henc'. cbn [mbind option_bind].
    by rewrite app_assoc. }
  assert (Hfirst : forall ff s, writeLoop emit (length (b ++ b')) (set_firstField d1 ff) s (b ++ b') =
    let '(s', en') := emit_all s (emitEnabled d) (f :: fs) in
    Some (flags (set_dynTab d dt) false en', s', None)).
  { intros ff s. replace (set_firstField d1 ff) with (flags d1 ff (emitEnabled d)) by (by destruct d).
    rewrite (writeLoop_step _ _ _ _ _ _ _ (Hp2 (emitEnabled d) ff)) by done.
    unfold emit_all, emitted. cbn [foldl emitEnabled SetEmitEnabled flags].
    destruct (if emitEnabled d then _ else _) as [s' en']. exact (Hw false en' s'). }
  intros s. unfold dec_Write. rewrite Hsave. cbn [app].
  replace (set_saveBuf d []) with d by (destruct d; simpl in *; by subst).
  destruct u as [|c u].
  - rewrite <- (Hfirst (firstField d)). cbn [app]. destruct b as [|c b]; [done|].
    cbn [app]. f_equal. unfold d1. rewrite Hnil by done. by destruct d.
  - cbn [app]. cbn [length writeLoop]. pose proof (Hp s (b ++ b')) as Hp'. cbn [app] in Hp'.
    rewrite Hp' by done. rewrite <- (Hfirst false). apply writeLoop_fuel; [|done].
    rewrite !length_app. lia.
Qed.
End Writes.

(** ** The theorems of the codec *)

Lemma emit_all_collect acc fs : emit_all collect acc true fs = (acc ++ fs, true).
Proof.
  revert acc. induction fs as [|f fs IH]; intros acc; [by rewrite app_nil_r|].
  change (emit_all collect acc true (f :: fs)) with (emit_all collect (acc ++ [f]) true fs).
  by rewrite IH, <- app_assoc.
Qed.

(** The state of a decoder between two blocks. *)
Definition between_blocks (d : Decoder) : Prop :=
  emitEnabled d = true /\ saveBuf d = [] /\ firstField d = true /\ 0 <= maxStrLen d.


(** A freshly made pair is in step. *)
Lemma fresh_synced :
  exists e d, NewEncoder = Some e /\ NewDecoder 4096 = Some d /\ synced e d /\ update_ok e d /\
    between_blocks d /\ added (eDynTab e) = 0 /\ added (dDynTab d) = 0 /\
    maxSize (eDynTab e) = 4096 /\ maxSize (dDynTab d) = 4096 /\ maxStrLen d = 0.
Proof.
  assert (He : dyn_wf (mkDyn table_init 0 4096 0)) by (split; simpl; [apply table_init_wf|done|lia]).
  assert (Hd : dyn_wf (mkDyn table_init 0 4096 4096)) by (split; simpl; [apply table_init_wf|done|lia]).
  exists (mkEncoder (mkDyn table_init 0 4096 0) uint32Max 4096 false),
    (mkDecoder (mkDyn table_init 0 4096 4096) true 0 [] true).
  split_and!; done.
Qed.

Definition sample_fields : list HeaderField :=
  [hf ":method" "POST"; hf "x-hbone" "tunnel-1"; mkHeaderField (str "x-hbone") (str "secret") true].

Lemma field_ok_small f :
  bytes_ok (Name f) -> bytes_ok (Value f) -> len (Name f) < 2 ^ 29 -> len (Value f) < 2 ^ 29 ->
  field_ok f.
Proof.
  intros. pose proof (len_nonneg (Name f)). pose proof (len_nonneg (Value f)).
  split_and!; [done|done|rewrite Size_exact; lia|lia|lia].
Qed.

Lemma sample_fits d : maxStrLen d = 0 -> Forall (fits d) sample_fields.
Proof.
  intros Hm. assert (Hf : forall f, field_ok f -> fits d f) by (intros f ?; by split_and!; [|left..]).
  unfold sample_fields.
  do 3 (apply Forall_cons_2;
    [apply Hf, field_ok_small; [apply str_bytes_ok|apply str_bytes_ok|by vm_compute|by vm_compute]|]).
  constructor.
Qed.


(** C26.  A decoder does not care how a header block is cut into calls of
    [Write], as CONTINUATION frames cut it: if a first call succeeds, the second
    one ends in the same state and with the same error as one call with both parts. *)
Theorem Write_split {S} (emit : HeaderField -> S -> bool -> S * bool) d s p q d1 s1 :
  dec_Write emit d s p = Some (d1, s1, None) ->
  dec_Write emit d s (p ++ q) = dec_Write emit d1 s1 q.
Proof. apply Write_app. Qed.

Lemma Write_split_witness :
  exists d d1, NewDecoder 4096 = Some d /\ dec_Write collect d [] [0x82; 0x40; 1] = Some (d1, [hf ":method" "GET"], None) /\
    dec_Write collect d [] ([0x82; 0x40; 1] ++ [120; 1; 121]) =
    dec_Write collect d1 [hf ":method" "GET"] [120; 1; 121].
Proof.
  eexists _, _. split; [vm_compute; reflexivity|]. split; [vm_compute; reflexivity|].
  apply Write_split. vm_compute. reflexivity.
Defined.

(** C36.  Whatever bytes arrive, [Write] returns, without a panic: the dynamic
    table stays within its maximum size, which stays within the size the
    receiver allows, and the bytes kept for the next call are at most twice the
    allowed string length and a little more. *)
Theorem Write_safe {S} (emit : HeaderField -> S -> bool -> S * bool) d s p :
  dec_wf d -> len (saveBuf d) <= 2 * (maxStrLen d + 8) -> pot d + len p < 2 ^ 62 ->
  exists d' s' e, dec_Write emit d s p = Some (d', s', e) /\ dec_wf d' /\
    size (dDynTab d') <= maxSize (dDynTab d') <= allowedMaxSize (dDynTab d') /\
    allowedMaxSize (dDynTab d') = allowedMaxSize (dDynTab d) /\ maxStrLen d' = maxStrLen d /\
    pot d' <= pot d + len p /\ len (saveBuf d') <= 2 * (maxStrLen d' + 8).
Proof.
  intros Hd Hsb Hadd. destruct (Write_post emit d s p Hd Hadd Hsb) as (d' & s' & e & Hw & [Hwf Hp Hl Hs]).
  exists d', s', e. pose proof (dwf_max _ (dec_dyn _ Hwf)). pose proof (dec_allowed _ Hwf).
  rewrite len_app in Hp. unfold pot in *. split_and!; [done|done|lia|lia|apply Hl|apply Hl|lia|done].
Qed.

Definition sample_decoder : Decoder := mkDecoder (mkDyn table_init 0 4096 4096) true 1000 [] true.

Lemma sample_decoder_wf : dec_wf sample_decoder.
Proof. split; simpl; [split; simpl; [apply table_init_wf|done|lia]|constructor|lia|lia]. Qed.

Lemma Write_safe_witness :
  exists d' s' e, dec_Write collect sample_decoder [] [0x3f; 0xe1; 0x1f; 0x82; 0xff] = Some (d', s', e) /\
    dec_wf d' /\ size (dDynTab d') <= 4096.
Proof.
  destruct (Write_safe collect sample_decoder [] [0x3f; 0xe1; 0x1f; 0x82; 0xff])
    as (d' & s' & e & Hw & Hwf & Hsz & Hal & _).
  - apply sample_decoder_wf.
  - by vm_compute.
  - by vm_compute.
  - exists d', s', e. split; [exact Hw|]. split; [exact Hwf|].
    change (allowedMaxSize (dDynTab sample_decoder)) with 4096 in Hal. lia.
Defined.

(** Lowering the encoder's table size, or setting it anew after the last
    change was sent, keeps the two sides in step and leaves an update that the
    next header block can carry ([hpack_roundtrip]); the size is capped by the
    limit the peer gave. *)
Theorem SetMax_synced e d v :
  synced e d -> is_u32 v -> is_u32 (maxSizeLimit e) ->
  maxSizeLimit e <= allowedMaxSize (dDynTab d) -> Z.min v (maxSizeLimit e) <= minSize e ->
  firstField d = true -> saveBuf d = [] ->
  exists e', SetMaxDynamicTableSize e v = Some e' /\ synced e' d /\ update_ok e' d /\
    maxSize (eDynTab e') = Z.min v (maxSizeLimit e) /\
    ents (table (eDynTab e')) = fit (Z.min v (maxSizeLimit e)) (ents (table (eDynTab e))).
Proof.
  intros [He Hd Hes Hm Ha] Hv Hl Hall Hmin Hff Hsb. unfold SetMaxDynamicTableSize, is_u32 in *.
  replace (if v >? maxSizeLimit e then maxSizeLimit e else v) with (Z.min v (maxSizeLimit e))
    by (destruct (Z.gtb_spec v (maxSizeLimit e)); lia).
  set (w := Z.min v (maxSizeLimit e)) in *.
  destruct (dyn_setMaxSize_ok (eDynTab e) w He ltac:(lia)) as (dt & -> & Hw & Hmx & _ & Hen & _).
  eexists. split; [done|]. split_and!.
  - split; simpl; [done|done| |done|lia]. rewrite Hen. etransitivity; [apply fit_suffix_of|done].
  - intros _. simpl. split; [|done]. destruct (Z.ltb_spec w (minSize e)); lia.
  - done.
  - done.
Qed.

Lemma SetMax_synced_witness :
  exists e d e', NewEncoder = Some e /\ NewDecoder 4096 = Some d /\
    SetMaxDynamicTableSize e 100 = Some e' /\ synced e' d /\ update_ok e' d.
Proof.
  pose (e := mkEncoder (mkDyn table_init 0 4096 0) uint32Max 4096 false).
  pose (d := mkDecoder (mkDyn table_init 0 4096 4096) true 0 [] true).
  assert (Hs : synced e d).
  { split; simpl; [|split; simpl; [apply table_init_wf|done|lia]|done|done|lia].
    split; simpl; [apply table_init_wf|done|lia]. }
  destruct (SetMax_synced e d 100 Hs) as (e' & H1 & H2 & H3 & _);
    [by vm_compute|by vm_compute|by vm_compute|by vm_compute|reflexivity|reflexivity|].
  exists e, d, e'. split; [reflexivity|]. split; [reflexivity|]. auto.
Defined.

(** When the table size is lowered and raised again between two blocks,
    [WriteField] announces both sizes, as RFC 7541, 4.2 asks for; the decoder
    takes the second announcement for one that is not at the start of the block
    and rejects the block, unless its table is empty by then. *)
Theorem two_updates_rejected :
  (e ← NewEncoder; d ← NewDecoder 4096;
   '(e, b) ← encodeField e (hf "x" "y");
   '(d, r) ← DecodeFull d b;
   e ← SetMaxDynamicTableSize e 100; e ← SetMaxDynamicTableSize e 4096;
   '(e, b') ← encodeField e (hf ":method" "GET");
   '(d, r') ← DecodeFull d b'; Some (r, r'))
  = Some (inl [hf "x" "y"], inr (DecodingError sizeUpdateNotFirst)).
Proof. vm_compute. reflexivity. Qed.
