(* ===== verification/HpackPieces.v ===== *)
(** * Header blocks in pieces: how long they are, and how they are cut

    The bytes an encoder makes of a header list are no more than the size of the
    list (in the sense of SETTINGS_MAX_HEADER_LIST_SIZE) and what two table size
    updates take; and a decoder that accepts a block accepts each piece of it, so
    a block may be cut into HEADERS and CONTINUATION frames anywhere. *)
From S2P Require Import Prelude Bits HpackTables HpackHuffman HpackCodec HpackBlocks.

(** ** Lengths *)
Lemma varIntGroups_len fuel i : len (varIntGroups fuel i) <= Z.of_nat fuel.
Proof.
  revert i. induction fuel as [|fuel IH]; intros i; cbn [varIntGroups]; [done|].
  case_if; rewrite len_cons; [specialize (IH (Z.shiftr i 7))|rewrite len_nil]; lia.
Qed.
Lemma appendVarInt_len dst n i : len (appendVarInt dst n i) <= len dst + 11.
Proof.
  unfold appendVarInt. pose proof (varIntGroups_len 10 (i - u64 (Z.shiftl 1 n - 1))).
  case_if; rewrite !len_app, ?len_cons, ?len_nil; lia.
Qed.

(** Bytes were appended, [n] at most. *)
Definition grows (dst dst' : list Z) (n : Z) : Prop := bytes_ok dst' /\ len dst' <= len dst + n.

Lemma appendVarInt_grows dst n i : bytes_ok dst -> grows dst (appendVarInt dst n i) 11.
Proof.
  intros Hd. split; [|apply appendVarInt_len]. unfold appendVarInt.
  case_if; rewrite ?bytes_ok_app; split_and!; try done; try (apply bytes_ok_cons; [apply u8_range|constructor]).
  apply varIntGroups_bytes.
Qed.
Lemma or_at_grows dst i m dst' : bytes_ok dst -> is_u8 m -> or_at dst i m = Some dst' -> grows dst dst' 0.
Proof.
  intros Hd Hm. unfold or_at. destruct (dst !! i) as [b|] eqn:Eb; [|done]. cbn [mbind option_bind]. intros [= <-].
  split; [|unfold len; rewrite length_insert; lia]. apply Forall_insert; [done|]. apply lor_range; [lia| |done].
  by apply (Forall_lookup_1 _ _ _ _ Hd Eb).
Qed.
Lemma grows_trans a b c n m : grows a b n -> grows b c m -> grows a c (n + m).
Proof. intros [? ?] [? ?]. split; [done|lia]. Qed.

Lemma appendHpackString_grows dst s dst' : bytes_ok dst -> bytes_ok s -> len s < 2 ^ 58 ->
  appendHpackString dst s = Some dst' -> grows dst dst' (11 + len s).
Proof.
  intros Hd Hs Hl E. destruct (hpackString_ok dst s Hd Hs Hl) as (es & E' & Hes & _).
  assert (dst' = dst ++ es) as -> by congruence. split; [by apply bytes_ok_app|]. clear E'. revert E.
  unfold appendHpackString. pose proof (len_nonneg s). rewrite u64_small by lia.
  destruct (Z.ltb_spec (HuffmanEncodeLength s) (len s)) as [Hlt|].
  - intros (d2 & Ha & Ho)%bind_Some. destruct (appendVarInt_grows dst 7 (HuffmanEncodeLength s) Hd) as [Hd1 Hl1].
    destruct (AppendHuffmanString_bits _ s Hd1 Hs) as (v & pad & Hv & Hvb & _).
    assert (d2 = appendVarInt dst 7 (HuffmanEncodeLength s) ++ v) as -> by congruence.
    apply or_at_grows in Ho as [_ Ho]; [|by apply bytes_ok_app|done].
    rewrite !len_app in Ho. rewrite len_app. rewrite (AppendHuffmanString_len _ s v Hd1 Hs) in Ho by (lia || done). lia.
  - intros [= E]. apply (f_equal len) in E. rewrite len_app in E. pose proof (appendVarInt_len dst 7 (len s)). lia.
Qed.

(** A representation takes no more bytes than the field counts. *)
Lemma encodeRepr_len e dst f e' dst' :
  bytes_ok dst -> field_ok f -> encodeRepr e dst f = Some (e', dst') -> grows dst dst' (len (Name f) + len (Value f) + 32).
Proof.
  intros Hd (Hn & Hv & _ & Hnl & Hvl). pose proof (len_nonneg (Name f)). pose proof (len_nonneg (Value f)).
  assert (Hw : forall a b n, grows a b n -> n <= len (Name f) + len (Value f) + 32 -> grows a b (len (Name f) + len (Value f) + 32)).
  { intros a b n [? ?] ?. split; [done|lia]. }
  unfold encodeRepr. destruct (searchTable e f) as [[i m]|]; [|done]. cbn [mbind option_bind]. destruct m.
  - unfold appendIndexed. intros (d1 & Ho & [= <- <-])%bind_Some.
    destruct (appendVarInt_grows dst 7 i Hd) as [H1 H2]. apply or_at_grows in Ho; [|done|done].
    eapply Hw; [eapply grows_trans; [by split|exact Ho]|lia].
  - destruct (if shouldIndex e f then _ else _); [|done]. cbn [mbind option_bind].
    assert (Ht : is_u8 (encodeTypeByte (shouldIndex e f) (Sensitive f))).
    { unfold encodeTypeByte. repeat case_if; by vm_compute. }
    case_if.
    + unfold appendNewName. intros (d1 & (d2 & H1 & H2)%bind_Some & [= <- <-])%bind_Some.
      assert (Hg : grows dst (dst ++ [encodeTypeByte (shouldIndex e f) (Sensitive f)]) 1).
      { split; [|rewrite len_app, len_cons, len_nil; lia]. apply bytes_ok_app. split; [done|]. by apply bytes_ok_cons; [|constructor]. }
      apply appendHpackString_grows in H1; [|apply Hg|done|done]. apply appendHpackString_grows in H2; [|apply H1|done|done].
      eapply Hw; [eapply grows_trans; [exact Hg|eapply grows_trans; [exact H1|exact H2]]|lia].
    + unfold appendIndexedName. intros (d1 & (d2 & H1 & H2)%bind_Some & [= <- <-])%bind_Some.
      set (n := if shouldIndex e f then 6 else 4) in *. pose proof (appendVarInt_grows dst n i Hd) as Hg.
      apply or_at_grows in H1; [|apply Hg|done]. apply appendHpackString_grows in H2; [|apply H1|done|done].
      eapply Hw; [eapply grows_trans; [exact Hg|eapply grows_trans; [exact H1|exact H2]]|lia].
Qed.

Lemma encodeSizeUpdate_len e e' b : encodeSizeUpdate e = Some (e', b) -> grows [] b (if tableSizeUpdate e then 22 else 0) /\ tableSizeUpdate e' = false.
Proof.
  unfold encodeSizeUpdate. destruct (tableSizeUpdate e) eqn:Eu; [|intros [= <- <-]; split; [|done]; split; [constructor|done]].
  assert (Ha : forall dst v dst', bytes_ok dst -> appendTableSize dst v = Some dst' -> grows dst dst' 11).
  { intros dst v dst' Hd Ho. unfold appendTableSize in Ho. destruct (appendVarInt_grows dst 5 v Hd) as [H1 H2].
    apply or_at_grows in Ho; [|done|done]. replace 11 with (11 + 0) by done. eapply grows_trans; [by split|exact Ho]. }
  intros (b1 & H1 & (b2 & H2 & [= <- <-])%bind_Some)%bind_Some. split; [|done].
  assert (Hb1 : grows [] b1 11). { destruct (minSize e <? _); [by apply Ha in H1; [|constructor]|]. injection H1 as <-. split; [constructor|done]. }
  apply Ha in H2; [|apply Hb1]. replace 22 with (11 + 11) by done. by eapply grows_trans.
Qed.

(** The size of a header list, without wrap-around. *)
Definition list_size (fs : list HeaderField) : Z := foldr (fun f n => len (Name f) + len (Value f) + 32 + n) 0 fs.

Lemma encodeFields_len fs : forall e e' b, Forall field_ok fs -> encodeFields e fs = Some (e', b) ->
  bytes_ok b /\ len b <= list_size fs + (if tableSizeUpdate e then 22 else 0).
Proof.
  induction fs as [|f fs IH]; intros e e' b Hfs; cbn [encodeFields list_size foldr].
  { intros [= <- <-]. split; [constructor|]. rewrite len_nil. case_if; lia. }
  apply Forall_cons in Hfs as [Hf Hfs]. unfold encodeField.
  intros ([e2 b1] & ([e1 u] & Hu & H1)%bind_Some & ([e3 b2] & H2 & [= <- <-])%bind_Some)%bind_Some.
  apply encodeSizeUpdate_len in Hu as [[Hub Hul] Hu1]. pose proof (encodeRepr_len _ _ _ _ _ Hub Hf H1) as [Hb1 Hl1].
  assert (tableSizeUpdate e2 = false) as Hu2.
  { unfold encodeRepr in H1. destruct (searchTable e1 f) as [[i m]|]; [|done]. cbn [mbind option_bind] in H1. destruct m.
    - apply bind_Some in H1 as (? & _ & [= <- _]). done.
    - apply bind_Some in H1 as (? & _ & (? & _ & [= <- _])%bind_Some). done. }
  destruct (IH e2 e3 b2 Hfs H2) as [Hb2 Hl2]. rewrite Hu2 in Hl2. split; [by apply bytes_ok_app|].
  rewrite len_app. rewrite len_nil in Hul. fold (list_size fs). lia.
Qed.

(** ** Pieces *)
Section Pieces.
Context {S : Type} (emit : HeaderField -> S -> bool -> S * bool).

(** What a reader returns when more input follows, unless it asked for it. *)
Definition ext {A} (q : list Z) (o : outcome hpackErr (A * list Z)) : outcome hpackErr (A * list Z) :=
  match o with Ret (a, rest) => Ret (a, rest ++ q) | o => o end.

Lemma readVarInt_decided n p q : readVarInt n p <> Fail errNeedMore -> readVarInt n (p ++ q) = ext q (readVarInt n p).
Proof.
  unfold readVarInt. case_if; [done|]. destruct p as [|b p]; [done|]. cbn [app]. case_if; [done|].
  generalize (if n <? 8 then Z.land b (Z.shiftl 1 n - 1) else b) as j, 0 as m.
  induction p as [|c p IH]; intros j m; cbn [readVarIntLoop app]; [done|]. case_if; [done|]. case_if; [done|apply IH].
Qed.

Lemma readString_decided d p q want : readString d p want <> Fail errNeedMore -> readString d (p ++ q) want = ext q (readString d p want).
Proof.
  intros H. destruct (readString d p want) as [[v rest]|e|] eqn:E; [by apply readString_more| |].
  all: revert E H; unfold readString; destruct p as [|b p]; [done|]; cbn [app];
    pose proof (readVarInt_decided 7 (b :: p) q) as Hd; cbn [app] in Hd;
    destruct (readVarInt 7 (b :: p)) as [[n p']|e'|]; cbn [obind]; try done;
    (destruct (decide (e' = errNeedMore)); [by subst|]; rewrite Hd; [|congruence]; by cbn) || rewrite Hd by done; cbn [ext obind]; try done.
  all: destruct (negb (maxStrLen d =? 0) && _); [done|]; destruct (Z.ltb_spec (len p') n) as [|Hl]; [by intros [= <-]|];
    rewrite len_app; pose proof (len_nonneg q); destruct (Z.ltb_spec (len p' + len q) n); [lia|]; unfold len in Hl;
    rewrite take_app_le by lia; destruct (negb (negb _)); [done|]; destruct want; [|done];
    destruct (huffmanDecode _ _); by cbn.
Qed.
Lemma literalName_decided d i p q want :
  literalName d i p want <> Fail errNeedMore -> literalName d i (p ++ q) want = ext q (literalName d i p want).
Proof. unfold literalName. case_if; [|apply readString_decided]. by destruct (dec_at d i). Qed.

Lemma needMore_dec {A} (o : outcome hpackErr A) : o = Fail errNeedMore \/ o <> Fail errNeedMore.
Proof. destruct o as [|e|]; [by right| |by right]. destruct (decide (e = errNeedMore)) as [->|]; [by left|right; congruence]. Qed.

(** The parser, likewise: what it decided without asking for more it decides
    again. *)
Definition decided (q : list Z) (r r' : parsed (S := S)) : Prop :=
  match r with
  | None => r' = None
  | Some (d, s, rest, None) => r' = Some (d, s, rest ++ q, None)
  | Some (d, s, rest, Some errNeedMore) => True
  | Some (d, s, rest, Some e) => exists rest', r' = Some (d, s, rest', Some e)
  end.

Lemma decided_fail q d s rest rest' e : decided q (Some (d, s, rest, Some e)) (Some (d, s, rest', Some e)).
Proof. destruct e; cbn; eauto. Qed.
Lemma decided_emit q d s f rest :
  decided q (let '(d, s, e) := callEmit emit d s f in Some (d, s, rest, e))
    (let '(d, s, e) := callEmit emit d s f in Some (d, s, rest ++ q, e)).
Proof. destruct (callEmit emit d s f) as [[d' s'] [e|]]; [apply decided_fail|done]. Qed.

Lemma literal_decided d s buf q n it :
  decided q (parseFieldLiteral emit d s buf n it) (parseFieldLiteral emit d s (buf ++ q) n it).
Proof.
  unfold parseFieldLiteral. set (want := emitEnabled d || indexed it).
  destruct (needMore_dec (readVarInt n buf)) as [->|H1]; [done|]. rewrite (readVarInt_decided _ _ q H1).
  destruct (readVarInt n buf) as [[i p]|e|]; cbn [ext obind]; [|apply decided_fail|done].
  destruct (needMore_dec (literalName d i p want)) as [->|H2]; [done|]. rewrite (literalName_decided _ _ _ q _ H2).
  destruct (literalName d i p want) as [[nm p']|e|]; cbn [ext obind]; [|apply decided_fail|done].
  destruct (needMore_dec (readString d p' want)) as [->|H3]; [done|]. rewrite (readString_decided _ _ q _ H3).
  destruct (readString d p' want) as [[v rest]|e|]; cbn [ext obind]; [|apply decided_fail|done].
  destruct (if indexed it then _ else _) as [dt|]; [|done]. cbn [mbind option_bind]. apply decided_emit.
Qed.

Lemma parse_decided d s b p q : decided q (parseHeaderFieldRepr emit d s (b :: p)) (parseHeaderFieldRepr emit d s ((b :: p) ++ q)).
Proof.
  unfold parseHeaderFieldRepr. cbn [app]. change (b :: p ++ q) with ((b :: p) ++ q). set (buf := b :: p).
  repeat case_if; try apply literal_decided; [| |apply decided_fail].
  - unfold parseFieldIndexed.
    destruct (needMore_dec (readVarInt 7 buf)) as [->|H1]; [done|]. rewrite (readVarInt_decided _ _ q H1).
    destruct (readVarInt 7 buf) as [[i rest]|e|]; cbn [ext]; [|apply decided_fail|done].
    destruct (dec_at d i); [apply decided_emit|apply decided_fail].
  - unfold parseDynamicTableSizeUpdate. case_if; [apply decided_fail|].
    destruct (needMore_dec (readVarInt 5 buf)) as [->|H1]; [done|]. rewrite (readVarInt_decided _ _ q H1).
    destruct (readVarInt 5 buf) as [[v rest]|e|]; cbn [ext]; [|apply decided_fail|done].
    case_if; [apply decided_fail|]. by destruct (dyn_setMaxSize _ _).
Qed.

Lemma parse_keeps d s buf d' s' rest e :
  parseHeaderFieldRepr emit d s buf = Some (d', s', rest, e) -> maxStrLen d' = maxStrLen d /\ saveBuf d' = saveBuf d.
Proof.
  assert (Hc : forall d0 s0 f rest0, maxStrLen d0 = maxStrLen d /\ saveBuf d0 = saveBuf d ->
    (let '(d, s, e) := callEmit emit d0 s0 f in Some (d, s, rest0, e)) = Some (d', s', rest, e) ->
    maxStrLen d' = maxStrLen d /\ saveBuf d' = saveBuf d).
  { intros d0 s0 f rest0 H. unfold callEmit. case_if; [by intros [= <- <- _ _]|]. case_if; [|by intros [= <- <- _ _]].
    destruct (emit f s0 _). by intros [= <- <- _ _]. }
  destruct buf as [|b p]; [done|]. destruct (parse_ok_view emit d s b p) as [[]|f r|ix f g r|v r]; try by intros [= <- <- _ _].
  - by apply Hc.
  - destruct (if ix then _ else _); [|done]. cbn [mbind option_bind]. by apply Hc.
  - destruct (dyn_setMaxSize _ _); [|done]. cbn [mbind option_bind]. by intros [= <- <- _ _].
Qed.

(** A piece was taken: what is kept of it is no longer than it. *)
Definition taken (d : Decoder) (n : Z) (d1 : Decoder) : Prop :=
  maxStrLen d1 = maxStrLen d /\ len (saveBuf d1) <= n.

(** A block that is accepted as a whole is accepted in pieces. *)
Lemma writeLoop_prefix fuel : forall d s buf q d2 s2,
  (length buf <= fuel)%nat -> saveBuf d = [] -> maxStrLen d = 0 \/ len buf <= 2 * (maxStrLen d + 8) ->
  writeLoop emit (length (buf ++ q)) d s (buf ++ q) = Some (d2, s2, None) ->
  exists d1 s1, writeLoop emit fuel d s buf = Some (d1, s1, None) /\ taken d (len buf) d1.
Proof.
  induction fuel as [|fuel IH]; intros d s buf q d2 s2 Hl Hsv Hm;
    (destruct buf as [|b p]; [by exists d, s; split; [|split; [|rewrite Hsv]]|]); [simpl in Hl; lia|].
  cbn [app length writeLoop]. change (b :: p ++ q) with ((b :: p) ++ q).
  pose proof (parse_decided d s b p q) as Hd. pose proof (parse_progress emit d s (b :: p)) as Hp.
  pose proof (parse_keeps d s (b :: p)) as Hk.
  destruct (parseHeaderFieldRepr emit d s (b :: p)) as [[[[d' s'] rest] [e|]]|].
  - destruct e; [|by destruct Hd as [rest' ->]..]. destruct Hp as (-> & -> & ->). intros _.
    destruct (Z.eqb_spec (maxStrLen d) 0); cbn [negb andb]; [by eexists _, _|].
    destruct (Z.gtb_spec (len (b :: p)) (2 * (maxStrLen d + 8))); [lia|]. by eexists _, _.
  - cbn [decided] in Hd. rewrite Hd. destruct Hp as [Hlt _]. destruct (Hk _ _ _ _ eq_refl) as [Hmx Hsv']. intros Hw.
    assert (Hlr : len rest <= len (b :: p)) by (unfold len; simpl in *; lia).
    destruct (IH (set_firstField d' false) s' rest q d2 s2) as (d1 & s1 & E & Hmx1 & Hl1).
    + simpl in Hl, Hlt. lia.
    + by rewrite <- Hsv, <- Hsv'.
    + cbn [maxStrLen set_firstField]. rewrite Hmx. destruct Hm as [->|Hm]; [by left|right; lia].
    + erewrite writeLoop_fuel; [exact Hw|lia|]. rewrite !length_app. simpl in *. lia.
    + exists d1, s1. split; [done|]. split; [by rewrite Hmx1|lia].
  - cbn [decided] in Hd. by rewrite Hd.
Qed.

Lemma Write_prefix d s p q d2 s2 :
  dec_Write emit d s (p ++ q) = Some (d2, s2, None) ->
  maxStrLen d = 0 \/ len (saveBuf d) + len p <= 2 * (maxStrLen d + 8) ->
  exists d1 s1, dec_Write emit d s p = Some (d1, s1, None) /\ taken d (len (saveBuf d) + len p) d1.
Proof.
  intros Hw Hm. destruct p as [|b p]; [exists d, s; split; [done|]; split; [done|]; rewrite len_nil; lia|].
  unfold dec_Write in *. cbn [app] in Hw. change (b :: p ++ q) with ((b :: p) ++ q) in Hw. rewrite app_assoc in Hw.
  rewrite <- len_app in *. by eapply (writeLoop_prefix _ (set_saveBuf d []) s _ q).
Qed.
End Pieces.
