(* ===== verification/Frame.v ===== *)
(** * HTTP/2 frames: h2/frame/frame.go, h2/frame/errors.go, h2/frame/http2.go

    The frame header, one constructor of [Frame] per frame type, the parser of
    each type and the [Write...] method of each.  A parser is given the header
    and the payload and returns a frame or an error; a writer returns the bytes
    it hands to the underlying writer in one call.  The error counters and the
    debug log do not change results and are left out. *)
From S2P Require Import Prelude Bits.

(** ** Errors *)
Definition ErrCode : Type := Z.
Definition ErrCodeNo : ErrCode := 0.
Definition ErrCodeProtocol : ErrCode := 1.
Definition ErrCodeInternal : ErrCode := 2.
Definition ErrCodeFlowControl : ErrCode := 3.
Definition ErrCodeSettingsTimeout : ErrCode := 4.
Definition ErrCodeStreamClosed : ErrCode := 5.
Definition ErrCodeFrameSize : ErrCode := 6.
Definition ErrCodeRefusedStream : ErrCode := 7.
Definition ErrCodeCancel : ErrCode := 8.
Definition ErrCodeCompression : ErrCode := 9.
Definition ErrCodeConnect : ErrCode := 10.
Definition ErrCodeEnhanceYourCalm : ErrCode := 11.
Definition ErrCodeInadequateSecurity : ErrCode := 12.
Definition ErrCodeHTTP11Required : ErrCode := 13.

(** What the reader or the writer of the connection fails with. *)
Inductive ioErr := EOF | ErrUnexpectedEOF | ErrShortWrite | OtherIO (n : Z).

(** The reasons given with a [connError] or a header error; the code makes
    strings of them. *)
Inductive reason :=
| DataOnStream0 | PadTooLarge | HeadersOnStream0 | PriorityOnStream0 | PriorityBadLength (n : Z)
| ContinuationOnStream0
| WantedContinuation (gotType gotStream lastType lastStream : Z)
| WrongContinuation (gotStream lastStream : Z)
| UnexpectedContinuation (gotStream : Z)
| PseudoAfterRegular | InvalidFieldName (name : list Z)
| PseudoHeaderError (name : list Z) | DuplicatePseudoHeader (name : list Z)
| MixPseudoHeaderTypes.

Inductive frameErr :=
| ConnectionError (code : ErrCode)
| StreamError (streamID : Z) (code : ErrCode) (cause : option reason)
| connError (code : ErrCode) (why : reason)
| ErrFrameTooLarge
| errStreamID | errDepStreamID | errPadLength | errPadBytes
| errWindowIncrement | errIllegalUse
| IOErr (e : ioErr).

Definition streamError (id : Z) (code : ErrCode) : frameErr := StreamError id code None.

(** ** Types and flags *)
Definition FrameData : Z := 0.
Definition FrameHeaders : Z := 1.
Definition FramePriority : Z := 2.
Definition FrameRSTStream : Z := 3.
Definition FrameSettings : Z := 4.
Definition FramePushPromise : Z := 5.
Definition FramePing : Z := 6.
Definition FrameGoAway : Z := 7.
Definition FrameWindowUpdate : Z := 8.
Definition FrameContinuation : Z := 9.

Definition Has (f v : Z) : bool := Z.land f v =? v.

Definition FlagDataEndStream : Z := 0x1.
Definition FlagDataPadded : Z := 0x8.
Definition FlagHeadersEndStream : Z := 0x1.
Definition FlagHeadersEndHeaders : Z := 0x4.
Definition FlagHeadersPadded : Z := 0x8.
Definition FlagHeadersPriority : Z := 0x20.
Definition FlagSettingsAck : Z := 0x1.
Definition FlagPingAck : Z := 0x1.
Definition FlagContinuationEndHeaders : Z := 0x4.
Definition FlagPushPromiseEndHeaders : Z := 0x4.
Definition FlagPushPromisePadded : Z := 0x8.

Definition frameHeaderLen : Z := 9.
Definition maxFrameSize : Z := 2 ^ 24 - 1.

Record FrameHeader := mkFH {
  valid : bool;
  Type_ : Z;
  Flags : Z;
  Length : Z;
  StreamID : Z
}.

Record PriorityParam := mkPP { StreamDep : Z; Exclusive : bool; Weight : Z }.
#[export] Instance PriorityParam_eq_dec : EqDecision PriorityParam.
Proof. solve_decision. Defined.
Definition PriorityParam_zero : PriorityParam := mkPP 0 false 0.
Definition IsZero (p : PriorityParam) : bool := bool_decide (p = PriorityParam_zero).

Record Setting := mkSetting { ID : Z; Val : Z }.

Definition SettingHeaderTableSize : Z := 1.
Definition SettingEnablePush : Z := 2.
Definition SettingMaxConcurrentStreams : Z := 3.
Definition SettingInitialWindowSize : Z := 4.
Definition SettingMaxFrameSize : Z := 5.
Definition SettingMaxHeaderListSize : Z := 6.

(** [Setting.Valid] *)
Definition Setting_Valid (s : Setting) : option frameErr :=
  if ID s =? SettingEnablePush then
    if negb (Val s =? 1) && negb (Val s =? 0) then Some (ConnectionError ErrCodeProtocol) else None
  else if ID s =? SettingInitialWindowSize then
    if Val s >? 2 ^ 31 - 1 then Some (ConnectionError ErrCodeFlowControl) else None
  else if ID s =? SettingMaxFrameSize then
    if (Val s <? 16384) || (Val s >? 2 ^ 24 - 1) then Some (ConnectionError ErrCodeProtocol) else None
  else None.

Inductive Frame :=
| DataFrame (fh : FrameHeader) (data : list Z)
| HeadersFrame (fh : FrameHeader) (priority : PriorityParam) (headerFragBuf : list Z)
| PriorityFrame (fh : FrameHeader) (p : PriorityParam)
| RSTStreamFrame (fh : FrameHeader) (code : ErrCode)
| SettingsFrame (fh : FrameHeader) (p : list Z)
| PushPromiseFrame (fh : FrameHeader) (promiseID : Z) (headerFragBuf : list Z)
| PingFrame (fh : FrameHeader) (data : list Z)
| GoAwayFrame (fh : FrameHeader) (lastStreamID : Z) (code : ErrCode) (debugData : list Z)
| WindowUpdateFrame (fh : FrameHeader) (increment : Z)
| ContinuationFrame (fh : FrameHeader) (headerFragBuf : list Z)
| UnknownFrame (fh : FrameHeader) (p : list Z).

Definition Header (f : Frame) : FrameHeader :=
  match f with
  | DataFrame fh _ | HeadersFrame fh _ _ | PriorityFrame fh _ | RSTStreamFrame fh _
  | SettingsFrame fh _ | PushPromiseFrame fh _ _ | PingFrame fh _ | GoAwayFrame fh _ _ _
  | WindowUpdateFrame fh _ | ContinuationFrame fh _ | UnknownFrame fh _ => fh
  end.

(** ** Big-endian integers (encoding/binary and the write helpers) *)
Definition writeUint16 (v : Z) : list Z := [u8 (Z.shiftr v 8); u8 v].
Definition writeUint32 (v : Z) : list Z :=
  [u8 (Z.shiftr v 24); u8 (Z.shiftr v 16); u8 (Z.shiftr v 8); u8 v].

(** [binary.BigEndian.Uint16] and [Uint32] panic on a short slice. *)
Definition Uint16 (b : list Z) : outcome frameErr Z :=
  match b with
  | b0 :: b1 :: _ => Ret (Z.lor b1 (Z.shiftl b0 8))
  | _ => Panic
  end.
Definition Uint32 (b : list Z) : outcome frameErr Z :=
  match b with
  | b0 :: b1 :: b2 :: b3 :: _ =>
      Ret (Z.lor (Z.lor (Z.lor b3 (Z.shiftl b2 8)) (Z.shiftl b1 16)) (Z.shiftl b0 24))
  | _ => Panic
  end.

Definition readByte (p : list Z) : outcome frameErr (list Z * Z) :=
  match p with
  | [] => Fail (IOErr ErrUnexpectedEOF)
  | b :: p => Ret (p, b)
  end.

Definition readUint32 (p : list Z) : outcome frameErr (list Z * Z) :=
  if len p <? 4 then Fail (IOErr ErrUnexpectedEOF)
  else obind (Uint32 p) (fun v => Ret (drop 4 p, v)).

(** ** Parsers *)

(** [payload[:len(payload)-int(padSize)]], where the callers have checked the bound *)
Definition unpad (p : list Z) (padLength : Z) : list Z := take (Z.to_nat (len p - padLength)) p.

Definition readPad (padded : bool) (p : list Z) : outcome frameErr (list Z * Z) :=
  if padded then readByte p else Ret (p, 0).

Definition parseDataFrame (fh : FrameHeader) (payload : list Z) : outcome frameErr Frame :=
  if StreamID fh =? 0 then Fail (connError ErrCodeProtocol DataOnStream0) else
  obind (readPad (Has (Flags fh) FlagDataPadded) payload) (fun '(payload, padSize) =>
  if padSize >? len payload then Fail (connError ErrCodeProtocol PadTooLarge) else
  Ret (DataFrame fh (unpad payload padSize))).

Definition parsePriority (p : list Z) : outcome frameErr (list Z * PriorityParam) :=
  obind (readUint32 p) (fun '(p, v) =>
  let dep := Z.land v 0x7fffffff in
  obind (readByte p) (fun '(p, weight) => Ret (p, mkPP dep (negb (v =? dep)) weight))).

Definition parseHeadersFrame (fh : FrameHeader) (p : list Z) : outcome frameErr Frame :=
  if StreamID fh =? 0 then Fail (connError ErrCodeProtocol HeadersOnStream0) else
  obind (readPad (Has (Flags fh) FlagHeadersPadded) p) (fun '(p, padLength) =>
  obind (if Has (Flags fh) FlagHeadersPriority then parsePriority p
         else Ret (p, PriorityParam_zero)) (fun '(p, prio) =>
  if len p - padLength <? 0 then Fail (streamError (StreamID fh) ErrCodeProtocol) else
  Ret (HeadersFrame fh prio (unpad p padLength)))).

Definition parsePriorityFrame (fh : FrameHeader) (payload : list Z) : outcome frameErr Frame :=
  if StreamID fh =? 0 then Fail (connError ErrCodeProtocol PriorityOnStream0) else
  if negb (len payload =? 5) then Fail (connError ErrCodeFrameSize (PriorityBadLength (len payload))) else
  obind (Uint32 payload) (fun v =>
  let streamID := Z.land v 0x7fffffff in
  match payload !! 4%nat with
  | Some w => Ret (PriorityFrame fh (mkPP streamID (negb (streamID =? v)) w))
  | None => Panic
  end).

Definition parseRSTStreamFrame (fh : FrameHeader) (p : list Z) : outcome frameErr Frame :=
  if negb (len p =? 4) then Fail (ConnectionError ErrCodeFrameSize) else
  if StreamID fh =? 0 then Fail (ConnectionError ErrCodeProtocol) else
  obind (Uint32 p) (fun c => Ret (RSTStreamFrame fh c)).

(** [SettingsFrame.Setting]: [i] is below [NumSettings]. *)
Definition Setting_at (p : list Z) (i : nat) : outcome frameErr Setting :=
  obind (Uint16 (drop (i * 6) p)) (fun id =>
  obind (Uint32 (drop (i * 6 + 2) p)) (fun v => Ret (mkSetting id v))).

Definition NumSettings (p : list Z) : nat := Z.to_nat (len p / 6).

(** The loops over [Setting(0)], ..., [Setting(NumSettings-1)]. *)
Fixpoint settings_from (p : list Z) (i n : nat) : outcome frameErr (list Setting) :=
  match n with
  | O => Ret []
  | S n =>
      obind (Setting_at p i) (fun s =>
      obind (settings_from p (S i) n) (fun l => Ret (s :: l)))
  end.
Definition settings (p : list Z) : outcome frameErr (list Setting) := settings_from p 0 (NumSettings p).

(** [SettingsFrame.Value]: the first setting with the id. *)
Definition Settings_Value (fh : FrameHeader) (p : list Z) (id : Z) : outcome frameErr (option Z) :=
  if negb (valid fh) then Panic else
  obind (settings p) (fun l => Ret (Val <$> find (fun s => ID s =? id) l)).

(** [SettingsFrame.ForeachSetting]: stops at the first error of [fn]. *)
Fixpoint foreach {St} (fn : St -> Setting -> St * option frameErr) (st : St) (l : list Setting)
    : St * option frameErr :=
  match l with
  | [] => (st, None)
  | s :: l =>
      let '(st, err) := fn st s in
      match err with
      | Some e => (st, Some e)
      | None => foreach fn st l
      end
  end.
Definition ForeachSetting {St} (fh : FrameHeader) (p : list Z)
    (fn : St -> Setting -> St * option frameErr) (st : St) : outcome frameErr (St * option frameErr) :=
  if negb (valid fh) then Panic else
  obind (settings p) (fun l => Ret (foreach fn st l)).

(** [SettingsFrame.HasDuplicates]: all pairs when there are few, a set of seen ids else. *)
Fixpoint dup_pairs (ids : list Z) : bool :=
  match ids with
  | [] => false
  | i :: ids => existsb (fun j => i =? j) ids || dup_pairs ids
  end.
Fixpoint dup_seen (seen : gset Z) (ids : list Z) : bool :=
  match ids with
  | [] => false
  | i :: ids => bool_decide (i ∈ seen) || dup_seen ({[i]} ∪ seen) ids
  end.
Definition HasDuplicates (p : list Z) : outcome frameErr bool :=
  let num := NumSettings p in
  if (num =? 0)%nat then Ret false else
  obind (settings p) (fun l =>
  if (num <? 10)%nat then Ret (dup_pairs (ID <$> l)) else Ret (dup_seen ∅ (ID <$> l))).

Definition parseSettingsFrame (fh : FrameHeader) (p : list Z) : outcome frameErr Frame :=
  if Has (Flags fh) FlagSettingsAck && (Length fh >? 0) then Fail (ConnectionError ErrCodeFrameSize) else
  if negb (StreamID fh =? 0) then Fail (ConnectionError ErrCodeProtocol) else
  if negb (len p mod 6 =? 0) then Fail (ConnectionError ErrCodeFrameSize) else
  obind (Settings_Value fh p SettingInitialWindowSize) (fun v =>
  match v with
  | Some v =>
      if v >? 2 ^ 31 - 1 then Fail (ConnectionError ErrCodeFlowControl)
      else Ret (SettingsFrame fh p)
  | None => Ret (SettingsFrame fh p)
  end).

Definition parsePushPromise (fh : FrameHeader) (p : list Z) : outcome frameErr Frame :=
  if StreamID fh =? 0 then Fail (ConnectionError ErrCodeProtocol) else
  obind (readPad (Has (Flags fh) FlagPushPromisePadded) p) (fun '(p, padLength) =>
  obind (readUint32 p) (fun '(p, promiseID) =>
  let promiseID := Z.land promiseID (2 ^ 31 - 1) in
  if padLength >? len p then Fail (ConnectionError ErrCodeProtocol) else
  Ret (PushPromiseFrame fh promiseID (unpad p padLength)))).

Definition parsePingFrame (fh : FrameHeader) (payload : list Z) : outcome frameErr Frame :=
  if negb (len payload =? 8) then Fail (ConnectionError ErrCodeFrameSize) else
  if negb (StreamID fh =? 0) then Fail (ConnectionError ErrCodeProtocol) else
  Ret (PingFrame fh payload).

Definition parseGoAwayFrame (fh : FrameHeader) (p : list Z) : outcome frameErr Frame :=
  if negb (StreamID fh =? 0) then Fail (ConnectionError ErrCodeProtocol) else
  if len p <? 8 then Fail (ConnectionError ErrCodeFrameSize) else
  obind (Uint32 p) (fun last =>
  obind (Uint32 (drop 4 p)) (fun code =>
  Ret (GoAwayFrame fh (Z.land last (2 ^ 31 - 1)) code (drop 8 p)))).

Definition parseWindowUpdateFrame (fh : FrameHeader) (p : list Z) : outcome frameErr Frame :=
  if negb (len p =? 4) then Fail (ConnectionError ErrCodeFrameSize) else
  obind (Uint32 p) (fun v =>
  let inc := Z.land v 0x7fffffff in
  if inc =? 0 then
    if StreamID fh =? 0 then Fail (ConnectionError ErrCodeProtocol)
    else Fail (streamError (StreamID fh) ErrCodeProtocol)
  else Ret (WindowUpdateFrame fh inc)).

Definition parseContinuationFrame (fh : FrameHeader) (p : list Z) : outcome frameErr Frame :=
  if StreamID fh =? 0 then Fail (connError ErrCodeProtocol ContinuationOnStream0) else
  Ret (ContinuationFrame fh p).

Definition parseUnknownFrame (fh : FrameHeader) (p : list Z) : outcome frameErr Frame :=
  Ret (UnknownFrame fh p).

(** [typeFrameParser]: the entry of [frameParsers], else [parseUnknownFrame]. *)
Definition typeFrameParser (t : Z) : FrameHeader -> list Z -> outcome frameErr Frame :=
  if t =? FrameData then parseDataFrame
  else if t =? FrameHeaders then parseHeadersFrame
  else if t =? FramePriority then parsePriorityFrame
  else if t =? FrameRSTStream then parseRSTStreamFrame
  else if t =? FrameSettings then parseSettingsFrame
  else if t =? FramePushPromise then parsePushPromise
  else if t =? FramePing then parsePingFrame
  else if t =? FrameGoAway then parseGoAwayFrame
  else if t =? FrameWindowUpdate then parseWindowUpdateFrame
  else if t =? FrameContinuation then parseContinuationFrame
  else parseUnknownFrame.

(** ** Writers

    [f.AllowIllegalWrites] is an argument; the result is what [f.w.Write] is
    called with.  [f.wbuf] is rebuilt by every call. *)
Definition startWrite (ftype flags streamID : Z) : list Z :=
  [0; 0; 0; u8 ftype; u8 flags; u8 (Z.shiftr streamID 24); u8 (Z.shiftr streamID 16);
   u8 (Z.shiftr streamID 8); u8 streamID].

(** The length goes over the first three bytes of the buffer. *)
Definition endWrite (wbuf : list Z) : outcome frameErr (list Z) :=
  let length := len wbuf - frameHeaderLen in
  if length >=? 2 ^ 24 then Fail ErrFrameTooLarge else
  Ret (u8 (Z.shiftr length 16) :: u8 (Z.shiftr length 8) :: u8 length :: drop 3 wbuf).

Definition validStreamIDOrZero (streamID : Z) : bool := Z.land streamID (2 ^ 31) =? 0.
Definition validStreamID (streamID : Z) : bool :=
  negb (streamID =? 0) && (Z.land streamID (2 ^ 31) =? 0).

Definition flag (b : bool) (f : Z) : Z := if b then f else 0.

(** [pad] is [None] for a nil slice: a slice of length zero is not nil and
    makes a padded frame. *)
Definition WriteDataPadded (illegal : bool) (streamID : Z) (endStream : bool) (data : list Z)
    (pad : option (list Z)) : outcome frameErr (list Z) :=
  if negb (validStreamID streamID) && negb illegal then Fail errStreamID else
  let padBytes := default [] pad in
  if (len padBytes >? 0) && (len padBytes >? 255) then Fail errPadLength else
  if (len padBytes >? 0) && negb illegal && existsb (fun b => negb (b =? 0)) padBytes
  then Fail errPadBytes else
  let flags := Z.lor (flag endStream FlagDataEndStream)
                 (match pad with Some _ => FlagDataPadded | None => 0 end) in
  let wbuf := startWrite FrameData flags streamID in
  let wbuf := match pad with Some p => wbuf ++ [u8 (len p)] | None => wbuf end in
  endWrite (wbuf ++ data ++ padBytes).

Definition WriteData (illegal : bool) (streamID : Z) (endStream : bool) (data : list Z) :=
  WriteDataPadded illegal streamID endStream data None.

(** [WriteDataNC] writes the header into the caller's buffer, in front of the
    data: [data] is the slice up to its capacity and [dlen] its length.  The
    result is the changed buffer beside what is written. *)
Fixpoint put (data : list Z) (dlen i : Z) (bs : list Z) : option (list Z) :=
  match bs with
  | [] => Some data
  | b :: bs =>
      if (i <? 0) || (i >=? dlen) then None else put (<[Z.to_nat i := b]> data) dlen (i + 1) bs
  end.
Definition WriteDataNC (streamID : Z) (endStream : bool) (data : list Z) (dlen start end_ : Z)
    : option (list Z * outcome frameErr (list Z)) :=
  let flags := flag endStream FlagDataEndStream in
  let length := end_ - start in
  data ← put data dlen (start - 9)
    [u8 (Z.shiftr length 16); u8 (Z.shiftr length 8); u8 length; u8 FrameData; u8 flags;
     u8 (Z.shiftr streamID 24); u8 (Z.shiftr streamID 16); u8 (Z.shiftr streamID 8); u8 streamID];
  if length >=? 2 ^ 24 then Some (data, Fail ErrFrameTooLarge) else
  if (start - 9 >? end_) || (end_ >? len data) then None else
  Some (data, Ret (take (Z.to_nat (end_ - (start - 9))) (drop (Z.to_nat (start - 9)) data))).

Definition setting_bytes (s : Setting) : list Z := writeUint16 (u16 (ID s)) ++ writeUint32 (Val s).

Definition WriteSettings (l : list Setting) : outcome frameErr (list Z) :=
  endWrite (startWrite FrameSettings 0 0 ++ (l ≫= setting_bytes)).

Definition WriteSettingsAck : outcome frameErr (list Z) :=
  endWrite (startWrite FrameSettings FlagSettingsAck 0).

Definition WritePing (ack : bool) (data : list Z) : outcome frameErr (list Z) :=
  endWrite (startWrite FramePing (flag ack FlagPingAck) 0 ++ data).

Definition WriteGoAway (maxStreamID : Z) (code : ErrCode) (debugData : list Z)
    : outcome frameErr (list Z) :=
  endWrite (startWrite FrameGoAway 0 0 ++ writeUint32 (Z.land maxStreamID (2 ^ 31 - 1))
            ++ writeUint32 code ++ debugData).

Definition WriteWindowUpdate (illegal : bool) (streamID incr : Z) : outcome frameErr (list Z) :=
  if ((incr <? 1) || (incr >? 2147483647)) && negb illegal then Fail errWindowIncrement else
  endWrite (startWrite FrameWindowUpdate 0 streamID ++ writeUint32 incr).

(** The dependency and the exclusive bit of a priority, as one word. *)
Definition priority_word (p : PriorityParam) : Z :=
  if Exclusive p then Z.lor (StreamDep p) (2 ^ 31) else StreamDep p.

Record HeadersFrameParam := mkHFP {
  hp_StreamID : Z;
  hp_BlockFragment : list Z;
  hp_EndStream : bool;
  hp_EndHeaders : bool;
  hp_PadLength : Z;
  hp_Priority : PriorityParam
}.

(** [padZeros[:n]] *)
Definition padZeros (n : Z) : list Z := replicate (Z.to_nat n) 0.

Definition WriteHeaders (illegal : bool) (p : HeadersFrameParam) : outcome frameErr (list Z) :=
  if negb (validStreamID (hp_StreamID p)) && negb illegal then Fail errStreamID else
  let padded := negb (hp_PadLength p =? 0) in
  let prio := negb (IsZero (hp_Priority p)) in
  let flags :=
    Z.lor (Z.lor (Z.lor (flag padded FlagHeadersPadded) (flag (hp_EndStream p) FlagHeadersEndStream))
             (flag (hp_EndHeaders p) FlagHeadersEndHeaders)) (flag prio FlagHeadersPriority) in
  let wbuf := startWrite FrameHeaders flags (hp_StreamID p) in
  let wbuf := if padded then wbuf ++ [u8 (hp_PadLength p)] else wbuf in
  if prio && negb (validStreamIDOrZero (StreamDep (hp_Priority p))) && negb illegal
  then Fail errDepStreamID else
  let wbuf := if prio then (wbuf ++ writeUint32 (priority_word (hp_Priority p)))
                             ++ [u8 (Weight (hp_Priority p))] else wbuf in
  endWrite (wbuf ++ hp_BlockFragment p ++ padZeros (hp_PadLength p)).

Definition WritePriority (illegal : bool) (streamID : Z) (p : PriorityParam) : outcome frameErr (list Z) :=
  if negb (validStreamID streamID) && negb illegal then Fail errStreamID else
  if negb (validStreamIDOrZero (StreamDep p)) then Fail errDepStreamID else
  endWrite (startWrite FramePriority 0 streamID ++ writeUint32 (priority_word p) ++ [u8 (Weight p)]).

Definition WriteRSTStream (illegal : bool) (streamID : Z) (code : ErrCode) : outcome frameErr (list Z) :=
  if negb (validStreamID streamID) && negb illegal then Fail errStreamID else
  endWrite (startWrite FrameRSTStream 0 streamID ++ writeUint32 code).

Definition WriteContinuation (illegal : bool) (streamID : Z) (endHeaders : bool)
    (headerBlockFragment : list Z) : outcome frameErr (list Z) :=
  if negb (validStreamID streamID) && negb illegal then Fail errStreamID else
  endWrite (startWrite FrameContinuation (flag endHeaders FlagContinuationEndHeaders) streamID
            ++ headerBlockFragment).

Record PushPromiseParam := mkPPP {
  pp_StreamID : Z;
  pp_PromiseID : Z;
  pp_BlockFragment : list Z;
  pp_EndHeaders : bool;
  pp_PadLength : Z
}.

Definition WritePushPromise (illegal : bool) (p : PushPromiseParam) : outcome frameErr (list Z) :=
  if negb (validStreamID (pp_StreamID p)) && negb illegal then Fail errStreamID else
  let padded := negb (pp_PadLength p =? 0) in
  let flags := Z.lor (flag padded FlagPushPromisePadded)
                 (flag (pp_EndHeaders p) FlagPushPromiseEndHeaders) in
  let wbuf := startWrite FramePushPromise flags (pp_StreamID p) in
  let wbuf := if padded then wbuf ++ [u8 (pp_PadLength p)] else wbuf in
  if negb (validStreamID (pp_PromiseID p)) && negb illegal then Fail errStreamID else
  endWrite (wbuf ++ writeUint32 (pp_PromiseID p) ++ pp_BlockFragment p
            ++ padZeros (pp_PadLength p)).

Definition WriteRawFrame (t flags streamID : Z) (payload : list Z) : outcome frameErr (list Z) :=
  endWrite (startWrite t flags streamID ++ payload).

(** ** Reading a header *)

(** A reader: the bytes it still delivers and the error that follows them. *)
Record reader := mkReader { rdata : list Z; rerr : ioErr }.

(** [io.ReadFull]: an end of input after the first byte is unexpected. *)
Definition ReadFull (r : reader) (n : Z) : reader * outcome frameErr (list Z) :=
  if n <=? len (rdata r) then
    (mkReader (drop (Z.to_nat n) (rdata r)) (rerr r), Ret (take (Z.to_nat n) (rdata r)))
  else
    (mkReader [] (rerr r),
     Fail (IOErr (match rerr r, rdata r with
                  | EOF, _ :: _ => ErrUnexpectedEOF
                  | e, _ => e
                  end))).

Definition readFrameHeader (r : reader) : reader * outcome frameErr FrameHeader :=
  let '(r, b) := ReadFull r frameHeaderLen in
  (r, obind b (fun buf =>
    match buf with
    | b0 :: b1 :: b2 :: t :: fl :: sid =>
        obind (Uint32 sid) (fun id =>
        Ret (mkFH true t fl (Z.lor (Z.lor (Z.shiftl b0 16) (Z.shiftl b1 8)) b2)
               (Z.land id (2 ^ 31 - 1))))
    | _ => Panic
    end)).

(** ** What a written frame is read back as *)

Lemma land_low v k : 0 <= k -> Z.land v (2 ^ k - 1) = v mod 2 ^ k.
Proof. intros. rewrite <- Z.land_ones by done. f_equal. rewrite Z.ones_equiv. lia. Qed.

(** The bytes of a word, as quotients and remainders [lia] works with. *)
Ltac bytewise :=
  repeat rewrite Z.shiftr_div_pow2 by lia;
  unfold u8, u16, is_u8, is_u32 in *;
  repeat match goal with
    | |- context [2 ^ ?k] => let v := eval vm_compute in (2 ^ k) in change (2 ^ k) with v in *
    end;
  repeat match goal with
    | |- context [?v / 65536] => rewrite <- (Z.div_div v 256 256 : _ = v / 65536) by lia
    | |- context [?v / 16777216] => rewrite <- (Z.div_div v 65536 256 : _ = v / 16777216) by lia
    end;
  Z.to_euclidean_division_equations; lia.

Lemma Uint32_write v rest : is_u32 v -> Uint32 (writeUint32 v ++ rest) = Ret v.
Proof.
  intros Hv. cbn [app writeUint32 Uint32]. f_equal.
  pose proof (u8_range v). pose proof (u8_range (Z.shiftr v 8)).
  pose proof (u8_range (Z.shiftr v 16)). pose proof (u8_range (Z.shiftr v 24)).
  unfold is_u8 in *. rewrite (lor_add _ _ 8), (lor_add _ _ 16), (lor_add _ _ 24) by lia.
  bytewise.
Qed.

Lemma Uint16_write v rest : 0 <= v < 2 ^ 16 -> Uint16 (writeUint16 v ++ rest) = Ret v.
Proof.
  intros Hv. cbn [app writeUint16 Uint16]. f_equal.
  pose proof (u8_range v). unfold is_u8 in *. rewrite (lor_add _ _ 8) by lia. bytewise.
Qed.

(** The nine bytes in front of a payload of [n] bytes. *)
Definition header_bytes (t fl sid n : Z) : list Z :=
  [u8 (Z.shiftr n 16); u8 (Z.shiftr n 8); u8 n; u8 t; u8 fl] ++ writeUint32 sid.

Lemma endWrite_ok t fl sid p :
  len p < 2 ^ 24 -> endWrite (startWrite t fl sid ++ p) = Ret (header_bytes t fl sid (len p) ++ p).
Proof.
  intros Hp. unfold endWrite, startWrite. cbn [app]. rewrite !len_cons. unfold frameHeaderLen.
  replace (len p + 1 + 1 + 1 + 1 + 1 + 1 + 1 + 1 + 1 - 9) with (len p) by lia.
  destruct (Z.geb_spec (len p) (2 ^ 24)); [lia|]. reflexivity.
Qed.

Lemma readFrameHeader_ok t fl sid n rest e :
  is_u8 t -> is_u8 fl -> is_u32 sid -> 0 <= n < 2 ^ 24 ->
  readFrameHeader (mkReader (header_bytes t fl sid n ++ rest) e) =
    (mkReader rest e, Ret (mkFH true t fl n (Z.land sid (2 ^ 31 - 1)))).
Proof.
  intros Ht Hf Hs Hn. unfold readFrameHeader, ReadFull. cbn [rdata rerr].
  unfold header_bytes, writeUint32. cbn [app]. rewrite !len_cons. pose proof (len_nonneg rest).
  destruct (Z.leb_spec frameHeaderLen (len rest + 1 + 1 + 1 + 1 + 1 + 1 + 1 + 1 + 1));
    [|unfold frameHeaderLen in *; lia].
  change (Z.to_nat frameHeaderLen) with 9%nat. cbn [skipn firstn obind].
  pose proof (Uint32_write sid [] Hs) as Hw. cbn [app writeUint32] in Hw. rewrite take_0, drop_0, Hw. cbn [obind].
  f_equal. f_equal. rewrite (u8_small t), (u8_small fl) by done. f_equal.
  pose proof (u8_range n). pose proof (u8_range (Z.shiftr n 8)). unfold is_u8 in *.
  rewrite <- Z.lor_assoc, Z.lor_comm, (Z.lor_comm _ (u8 n)), (lor_add _ _ 8), (lor_add _ _ 16) by lia.
  bytewise.
Qed.

(** [b] on the wire is the frame [f]. *)
Definition wire (b : list Z) (f : Frame) : Prop :=
  exists fh p, typeFrameParser (Type_ fh) fh p = Ret f /\ Length fh = len p /\ bytes_ok b /\
    forall rest e, readFrameHeader (mkReader (b ++ rest) e) = (mkReader (p ++ rest) e, Ret fh).

Lemma wire_ok t fl sid p f :
  is_u8 t -> is_u8 fl -> is_u32 sid -> len p < 2 ^ 24 -> bytes_ok p ->
  typeFrameParser t (mkFH true t fl (len p) (Z.land sid (2 ^ 31 - 1))) p = Ret f ->
  exists b, endWrite (startWrite t fl sid ++ p) = Ret b /\ wire b f.
Proof.
  intros Ht Hf Hs Hl Hp Hparse. eexists. split; [by apply endWrite_ok|].
  eexists _, p. split_and!; [exact Hparse|done| |].
  - apply bytes_ok_app. split; [|done]. repeat constructor; apply u8_range.
  - intros rest e. pose proof (len_nonneg p). rewrite <- app_assoc. by apply readFrameHeader_ok.
Qed.

(** ** One call of a writer *)
Inductive writeCall :=
| CallData (streamID : Z) (endStream : bool) (data : list Z) (pad : option (list Z))
| CallHeaders (p : HeadersFrameParam)
| CallPriority (streamID : Z) (p : PriorityParam)
| CallRSTStream (streamID : Z) (code : ErrCode)
| CallSettings (l : list Setting)
| CallSettingsAck
| CallPushPromise (p : PushPromiseParam)
| CallPing (ack : bool) (data : list Z)
| CallGoAway (maxStreamID : Z) (code : ErrCode) (debugData : list Z)
| CallWindowUpdate (streamID incr : Z)
| CallContinuation (streamID : Z) (endHeaders : bool) (frag : list Z)
| CallRaw (t flags streamID : Z) (payload : list Z).

Definition write (illegal : bool) (c : writeCall) : outcome frameErr (list Z) :=
  match c with
  | CallData sid e d pad => WriteDataPadded illegal sid e d pad
  | CallHeaders p => WriteHeaders illegal p
  | CallPriority sid p => WritePriority illegal sid p
  | CallRSTStream sid c => WriteRSTStream illegal sid c
  | CallSettings l => WriteSettings l
  | CallSettingsAck => WriteSettingsAck
  | CallPushPromise p => WritePushPromise illegal p
  | CallPing a d => WritePing a d
  | CallGoAway m c d => WriteGoAway m c d
  | CallWindowUpdate sid i => WriteWindowUpdate illegal sid i
  | CallContinuation sid e f => WriteContinuation illegal sid e f
  | CallRaw t fl sid p => WriteRawFrame t fl sid p
  end.

Definition sid_ok (sid : Z) : Prop := 0 < sid < 2 ^ 31.
Definition setting_ok (s : Setting) : Prop :=
  0 <= ID s < 2 ^ 16 /\ is_u32 (Val s) /\
  (ID s = SettingInitialWindowSize -> Val s < 2 ^ 31).
Definition prio_ok (p : PriorityParam) : Prop := 0 <= StreamDep p < 2 ^ 31 /\ is_u8 (Weight p).

(** The arguments a caller may give, and the frame the peer sees for them. *)
Definition call_ok (c : writeCall) : Prop :=
  match c with
  | CallData sid _ d pad =>
      sid_ok sid /\ bytes_ok d /\ len d + 256 < 2 ^ 24 /\
      match pad with Some p => len p < 256 /\ Forall (eq 0) p | None => True end
  | CallHeaders p =>
      sid_ok (hp_StreamID p) /\ bytes_ok (hp_BlockFragment p) /\
      len (hp_BlockFragment p) + 262 < 2 ^ 24 /\ is_u8 (hp_PadLength p) /\ prio_ok (hp_Priority p)
  | CallPriority sid p => sid_ok sid /\ prio_ok p
  | CallRSTStream sid c => sid_ok sid /\ is_u32 c
  | CallSettings l => Forall setting_ok l /\ 6 * len l < 2 ^ 24
  | CallSettingsAck => True
  | CallPushPromise p =>
      sid_ok (pp_StreamID p) /\ sid_ok (pp_PromiseID p) /\ bytes_ok (pp_BlockFragment p) /\
      len (pp_BlockFragment p) + 262 < 2 ^ 24 /\ is_u8 (pp_PadLength p)
  | CallPing _ d => bytes_ok d /\ len d = 8
  | CallGoAway m c d => is_u32 m /\ is_u32 c /\ bytes_ok d /\ len d + 8 < 2 ^ 24
  | CallWindowUpdate sid i => 0 <= sid < 2 ^ 31 /\ 0 < i < 2 ^ 31
  | CallContinuation sid _ f => sid_ok sid /\ bytes_ok f /\ len f < 2 ^ 24
  | CallRaw t fl sid p =>
      FrameContinuation < t < 256 /\ is_u8 fl /\ 0 <= sid < 2 ^ 31 /\ bytes_ok p /\ len p < 2 ^ 24
  end.

Definition fh (t fl n sid : Z) : FrameHeader := mkFH true t fl n sid.

Definition call_frame (c : writeCall) : Frame :=
  match c with
  | CallData sid e d pad =>
      DataFrame (fh FrameData (Z.lor (flag e FlagDataEndStream)
                   (match pad with Some _ => FlagDataPadded | None => 0 end))
                   (len d + match pad with Some p => 1 + len p | None => 0 end) sid) d
  | CallHeaders p =>
      let prio := negb (IsZero (hp_Priority p)) in
      HeadersFrame (fh FrameHeaders
        (Z.lor (Z.lor (Z.lor (flag (negb (hp_PadLength p =? 0)) FlagHeadersPadded)
           (flag (hp_EndStream p) FlagHeadersEndStream))
           (flag (hp_EndHeaders p) FlagHeadersEndHeaders)) (flag prio FlagHeadersPriority))
        (len (hp_BlockFragment p) + hp_PadLength p + (if hp_PadLength p =? 0 then 0 else 1)
         + (if prio then 5 else 0))
        (hp_StreamID p)) (hp_Priority p) (hp_BlockFragment p)
  | CallPriority sid p => PriorityFrame (fh FramePriority 0 5 sid) p
  | CallRSTStream sid c => RSTStreamFrame (fh FrameRSTStream 0 4 sid) c
  | CallSettings l => SettingsFrame (fh FrameSettings 0 (6 * len l) 0) (l ≫= setting_bytes)
  | CallSettingsAck => SettingsFrame (fh FrameSettings FlagSettingsAck 0 0) []
  | CallPushPromise p =>
      PushPromiseFrame (fh FramePushPromise
        (Z.lor (flag (negb (pp_PadLength p =? 0)) FlagPushPromisePadded)
           (flag (pp_EndHeaders p) FlagPushPromiseEndHeaders))
        (4 + len (pp_BlockFragment p) + pp_PadLength p + (if pp_PadLength p =? 0 then 0 else 1))
        (pp_StreamID p)) (pp_PromiseID p) (pp_BlockFragment p)
  | CallPing a d => PingFrame (fh FramePing (flag a FlagPingAck) 8 0) d
  | CallGoAway m c d => GoAwayFrame (fh FrameGoAway 0 (8 + len d) 0) (m mod 2 ^ 31) c d
  | CallWindowUpdate sid i => WindowUpdateFrame (fh FrameWindowUpdate 0 4 sid) i
  | CallContinuation sid e f =>
      ContinuationFrame (fh FrameContinuation (flag e FlagContinuationEndHeaders) (len f) sid) f
  | CallRaw t fl sid p => UnknownFrame (fh t fl (len p) sid) p
  end.

(** A legal call writes a frame that reads back as [call_frame]. *)
Definition roundtrips (c : writeCall) : Prop :=
  exists b, write false c = Ret b /\ wire b (call_frame c).

Lemma sid_low sid : 0 <= sid < 2 ^ 31 -> Z.land sid (2 ^ 31 - 1) = sid.
Proof. intros. rewrite land_low by lia. by apply Z.mod_small. Qed.

Lemma sid_high sid : 0 <= sid < 2 ^ 31 -> Z.land sid (2 ^ 31) = 0.
Proof.
  intros. apply Z.bits_inj'. intros i Hi. rewrite Z.land_spec, Z.pow2_bits_eqb, Z.testbit_0_l by lia.
  destruct (Z.eqb_spec 31 i); [|by rewrite andb_false_r]. subst.
  by rewrite (testbit_above 31) by lia.
Qed.

Lemma sid_valid sid : sid_ok sid -> validStreamID sid = true.
Proof.
  intros []. unfold validStreamID. rewrite sid_high by lia.
  by destruct (Z.eqb_spec sid 0); [lia|].
Qed.

Lemma sid_u32 sid : 0 <= sid < 2 ^ 31 -> is_u32 sid.
Proof. unfold is_u32. lia. Qed.

Lemma writeUint32_bytes v : bytes_ok (writeUint32 v).
Proof. repeat constructor; apply u8_range. Qed.
Lemma len_writeUint32 v : len (writeUint32 v) = 4.
Proof. done. Qed.
#[export] Hint Rewrite len_writeUint32 : len.
#[export] Hint Resolve writeUint32_bytes sid_u32 : gow.

Lemma sid_pos sid : sid_ok sid -> 0 <= sid < 2 ^ 31 /\ (sid =? 0) = false.
Proof. intros []. split; [lia|]. by apply Z.eqb_neq; lia. Qed.

Lemma frame_wire t fl sid p f :
  is_u8 t -> is_u8 fl -> 0 <= sid < 2 ^ 31 -> len p < 2 ^ 24 -> bytes_ok p ->
  typeFrameParser t (fh t fl (len p) sid) p = Ret f ->
  exists b, endWrite (startWrite t fl sid ++ p) = Ret b /\ wire b f.
Proof.
  intros Ht Hf Hs Hl Hp Hparse. apply wire_ok; [done|done|by apply sid_u32|done|done|].
  by rewrite sid_low.
Qed.

Lemma Uint32_exact v : is_u32 v -> Uint32 (writeUint32 v) = Ret v.
Proof. intros. rewrite <- (app_nil_r (writeUint32 v)). by apply Uint32_write. Qed.

Lemma readUint32_write v rest : is_u32 v -> readUint32 (writeUint32 v ++ rest) = Ret (rest, v).
Proof.
  intros Hv. unfold readUint32. rewrite Uint32_write by done. rewrite len_app, len_writeUint32.
  pose proof (len_nonneg rest). destruct (Z.ltb_spec (4 + len rest) 4); [lia|]. done.
Qed.

Lemma rst_roundtrips sid c : call_ok (CallRSTStream sid c) -> roundtrips (CallRSTStream sid c).
Proof.
  intros [Hs Hc]. unfold roundtrips, write, WriteRSTStream. rewrite sid_valid by done.
  destruct (sid_pos sid Hs) as [Hr Hz].
  apply frame_wire; [done|done|done|done|apply writeUint32_bytes|].
  change (typeFrameParser _) with parseRSTStreamFrame. unfold parseRSTStreamFrame. cbn [StreamID fh].
  by rewrite Hz, Uint32_exact.
Qed.

Lemma window_roundtrips sid i : call_ok (CallWindowUpdate sid i) -> roundtrips (CallWindowUpdate sid i).
Proof.
  intros [Hs Hi]. unfold roundtrips, write, WriteWindowUpdate.
  destruct (Z.ltb_spec i 1); [lia|]. destruct (Z.gtb_spec i 2147483647); [lia|]. cbn [orb andb negb].
  apply frame_wire; [done|done|done|done|apply writeUint32_bytes|].
  change (typeFrameParser _) with parseWindowUpdateFrame. unfold parseWindowUpdateFrame.
  rewrite Uint32_exact by (unfold is_u32; lia). cbn [negb obind].
  change 0x7fffffff with (2 ^ 31 - 1). rewrite sid_low by lia.
  destruct (Z.eqb_spec i 0); [lia|]. done.
Qed.

Lemma ping_roundtrips a d : call_ok (CallPing a d) -> roundtrips (CallPing a d).
Proof.
  intros [Hd Hl]. unfold roundtrips, write, WritePing.
  apply frame_wire; [done|by destruct a|done|lia|done|].
  change (typeFrameParser _) with parsePingFrame. unfold parsePingFrame. by rewrite Hl.
Qed.

Lemma goaway_roundtrips m c d : call_ok (CallGoAway m c d) -> roundtrips (CallGoAway m c d).
Proof.
  intros (Hm & Hc & Hd & Hl). unfold roundtrips, write, WriteGoAway.
  assert (Hlen : len (writeUint32 (Z.land m (2 ^ 31 - 1)) ++ writeUint32 c ++ d) = 8 + len d)
    by (rewrite !len_app, !len_writeUint32; lia).
  assert (Hm' : is_u32 (m mod 2 ^ 31)) by (pose proof (Z.mod_pos_bound m (2 ^ 31)); unfold is_u32; lia).
  pose proof (len_nonneg d). apply frame_wire; [done|done|done|lia|rewrite !bytes_ok_app; auto with gow|].
  change (typeFrameParser _) with parseGoAwayFrame. unfold parseGoAwayFrame. rewrite Hlen.
  cbn [StreamID fh]. destruct (Z.ltb_spec (8 + len d) 8); [lia|]. cbn [negb Z.eqb].
  rewrite !land_low by lia. rewrite Uint32_write by done.
  change (drop 4 (writeUint32 (m mod 2 ^ 31) ++ writeUint32 c ++ d)) with (writeUint32 c ++ d).
  rewrite Uint32_write by done. cbn [obind]. rewrite land_low, Z.mod_mod by lia. done.
Qed.

Lemma cont_roundtrips sid e f : call_ok (CallContinuation sid e f) -> roundtrips (CallContinuation sid e f).
Proof.
  intros (Hs & Hf & Hl). unfold roundtrips, write, WriteContinuation. rewrite sid_valid by done.
  destruct (sid_pos sid Hs) as [Hr Hz]. apply frame_wire; [done|by destruct e|done|done|done|].
  change (typeFrameParser _) with parseContinuationFrame. unfold parseContinuationFrame.
  cbn [StreamID fh]. by rewrite Hz.
Qed.

Lemma priority_word_ok p : prio_ok p ->
  is_u32 (priority_word p) /\ Z.land (priority_word p) (2 ^ 31 - 1) = StreamDep p /\
  (StreamDep p =? priority_word p) = negb (Exclusive p).
Proof.
  intros [Hd _]. unfold priority_word, is_u32. destruct (Exclusive p).
  - pose proof (lor_add (StreamDep p) 1 31 Hd ltac:(lia)) as Hl.
    change (Z.shiftl 1 31) with (2 ^ 31) in Hl. rewrite Hl.
    split; [lia|]. split; [|apply Z.eqb_neq; lia].
    rewrite land_low, Z.mod_add by lia. by apply Z.mod_small.
  - split; [lia|]. split; [by apply sid_low|by rewrite Z.eqb_refl].
Qed.

Lemma priority_roundtrips sid p : call_ok (CallPriority sid p) -> roundtrips (CallPriority sid p).
Proof.
  intros [Hs Hp]. pose proof (priority_word_ok p Hp) as (Hw & Hlow & Hex). destruct Hp as [Hdep Hwt].
  unfold roundtrips, write, WritePriority. rewrite sid_valid by done.
  unfold validStreamIDOrZero. rewrite sid_high by lia. destruct (sid_pos sid Hs) as [Hr Hz].
  cbn [negb andb Z.eqb]. rewrite (u8_small (Weight p)) by done.
  apply frame_wire; [done|done|done|done|apply bytes_ok_snoc; auto with gow|].
  change (typeFrameParser _) with parsePriorityFrame. unfold parsePriorityFrame. cbn [StreamID fh].
  rewrite Hz. change (len (writeUint32 (priority_word p) ++ [Weight p]) =? 5) with true. cbn [negb].
  rewrite Uint32_write by done. cbn [obind]. change 0x7fffffff with (2 ^ 31 - 1). rewrite Hlow, Hex.
  change ((writeUint32 (priority_word p) ++ [Weight p]) !! 4%nat) with (Some (Weight p)).
  rewrite negb_involutive. by destruct p.
Qed.

Lemma setting_bytes_length s : length (setting_bytes s) = 6%nat.
Proof. done. Qed.
Lemma settings_length l : length (l ≫= setting_bytes) = (6 * length l)%nat.
Proof. induction l as [|s l IH]; [done|]. rewrite bind_cons, length_app, IH. simpl. lia. Qed.

Lemma Setting_at_ok pre s rest i :
  length pre = (i * 6)%nat -> 0 <= ID s < 2 ^ 16 -> is_u32 (Val s) ->
  Setting_at (pre ++ setting_bytes s ++ rest) i = Ret s.
Proof.
  intros Hp Hi Hv. unfold Setting_at, setting_bytes. rewrite u16_small by done.
  rewrite <- !app_assoc, <- Hp, drop_app_length, Uint16_write by done. cbn [obind].
  rewrite <- drop_drop, drop_app_length.
  change (drop 2 (writeUint16 (ID s) ++ ?x)) with x.
  rewrite Uint32_write by done. by destruct s.
Qed.

Lemma settings_from_ok l : forall pre i,
  length pre = (i * 6)%nat -> Forall setting_ok l ->
  settings_from (pre ++ (l ≫= setting_bytes)) i (length l) = Ret l.
Proof.
  induction l as [|s l IH]; intros pre i Hp Hl; [done|].
  inversion_clear Hl as [|? ? (Hi & Hv & _) Hl']. cbn [length settings_from].
  rewrite bind_cons, Setting_at_ok by done. cbn [obind].
  rewrite app_assoc, IH; [done| |done]. rewrite length_app, setting_bytes_length. lia.
Qed.

Lemma NumSettings_ok l : NumSettings (l ≫= setting_bytes) = length l.
Proof.
  unfold NumSettings, len. rewrite settings_length.
  replace (Z.of_nat (6 * length l)) with (Z.of_nat (length l) * 6) by lia.
  rewrite Z.div_mul by lia. lia.
Qed.

Lemma settings_ok l : Forall setting_ok l -> settings (l ≫= setting_bytes) = Ret l.
Proof. intros. unfold settings. rewrite NumSettings_ok. by apply (settings_from_ok l []). Qed.

Lemma settings_bytes_ok l : bytes_ok (l ≫= setting_bytes).
Proof.
  induction l as [|s l IH]; [constructor|]. rewrite bind_cons. apply bytes_ok_app.
  split; [|done]. repeat constructor; apply u8_range.
Qed.

Lemma len_settings l : len (l ≫= setting_bytes) = 6 * len l.
Proof. unfold len. rewrite settings_length. lia. Qed.

Lemma settings_roundtrips l : call_ok (CallSettings l) -> roundtrips (CallSettings l).
Proof.
  intros [Hl Hb]. unfold roundtrips, write, WriteSettings.
  apply frame_wire; [done|done|done|by rewrite len_settings|apply settings_bytes_ok|].
  change (typeFrameParser _) with parseSettingsFrame. unfold parseSettingsFrame.
  rewrite len_settings. cbn [StreamID Length Flags fh].
  change (Has 0 FlagSettingsAck) with false. cbn [andb Z.eqb negb].
  replace ((6 * len l) mod 6) with 0 by (rewrite Z.mul_comm, Z.mod_mul; lia). cbn [Z.eqb negb].
  unfold Settings_Value. cbn [valid fh negb]. rewrite settings_ok by done. cbn [obind].
  destruct (find (fun s => ID s =? SettingInitialWindowSize) l) as [s|] eqn:E; [|done].
  apply find_some in E as [Hin%list_elem_of_In Hid%Z.eqb_eq]. cbn [fmap option_fmap option_map].
  eapply Forall_forall in Hl; [|done]. destruct Hl as (_ & _ & Hw). specialize (Hw Hid).
  destruct (Z.gtb_spec (Val s) (2 ^ 31 - 1)); [lia|]. done.
Qed.

Lemma ack_roundtrips : roundtrips CallSettingsAck.
Proof.
  unfold roundtrips, write, WriteSettingsAck. rewrite <- (app_nil_r (startWrite _ _ _)).
  apply frame_wire; [done|done|done|done|constructor|done].
Qed.

Lemma raw_roundtrips t fl sid p : call_ok (CallRaw t fl sid p) -> roundtrips (CallRaw t fl sid p).
Proof.
  intros (Ht & Hf & Hs & Hp & Hl). unfold roundtrips, write, WriteRawFrame.
  apply frame_wire; [unfold is_u8, FrameContinuation in *; lia|done|done|done|done|].
  unfold typeFrameParser, FrameContinuation, FrameData, FrameHeaders, FramePriority, FrameRSTStream,
    FrameSettings, FramePushPromise, FramePing, FrameGoAway, FrameWindowUpdate in *.
  repeat (rewrite (proj2 (Z.eqb_neq t _)) by lia). done.
Qed.

(** Padding goes after the block and is cut off again. *)
Lemma unpad_ok d pad : unpad (d ++ pad) (len pad) = d.
Proof.
  unfold unpad. rewrite len_app. replace (len d + len pad - len pad) with (len d) by lia.
  unfold len. by rewrite Nat2Z.id, take_app_length.
Qed.

Lemma len_padZeros n : 0 <= n -> len (padZeros n) = n.
Proof. intros. unfold len, padZeros. rewrite length_replicate. lia. Qed.
Lemma unpad_zeros d n : 0 <= n -> unpad (d ++ padZeros n) n = d.
Proof. intros Hn. rewrite <- (len_padZeros n Hn) at 2. apply unpad_ok. Qed.
Lemma padZeros_bytes n : bytes_ok (padZeros n).
Proof. apply Forall_replicate. done. Qed.
#[export] Hint Resolve padZeros_bytes : gow.

Lemma zeros_accepted p : Forall (eq 0) p -> existsb (fun b => negb (b =? 0)) p = false.
Proof. by induction 1 as [|? ? <- _ IH]. Qed.

Lemma data_roundtrips sid e d pad : call_ok (CallData sid e d pad) -> roundtrips (CallData sid e d pad).
Proof.
  intros (Hs & Hd & Hl & Hpad). destruct (sid_pos sid Hs) as [Hr Hz]. pose proof (len_nonneg d).
  unfold roundtrips, write, WriteDataPadded. rewrite sid_valid by done. cbn [negb andb].
  destruct pad as [p|]; cbn [default id].
  - destruct Hpad as [Hpl H0]. pose proof (len_nonneg p).
    destruct (Z.gtb_spec (len p) 255); [lia|]. rewrite andb_false_r.
    rewrite (zeros_accepted p H0), andb_false_r. rewrite <- app_assoc, u8_small by lia.
    assert (Hlen : len ([len p] ++ d ++ p) = len d + (1 + len p)) by (autorewrite with len; lia).
    apply frame_wire; [done|by destruct e|done|lia| |].
    { rewrite !bytes_ok_app. split_and!; [by apply Forall_singleton; unfold is_u8; lia|done|].
      eapply Forall_impl; [exact H0|]. by intros ? <-. }
    change (typeFrameParser _) with parseDataFrame. unfold parseDataFrame. rewrite Hlen.
    cbn [StreamID Flags fh]. rewrite Hz.
    replace (Has _ FlagDataPadded) with true by (by destruct e). cbn [readPad app readByte obind].
    rewrite len_app. destruct (Z.gtb_spec (len p) (len d + len p)); [lia|]. by rewrite unpad_ok.
  - cbn [call_frame]. rewrite app_nil_r, Z.add_0_r. apply frame_wire; [done|by destruct e|done|lia|done|].
    change (typeFrameParser _) with parseDataFrame. unfold parseDataFrame.
    cbn [StreamID Flags fh]. rewrite Hz.
    replace (Has _ FlagDataPadded) with false by (by destruct e). cbn [readPad obind].
    destruct (Z.gtb_spec 0 (len d)); [lia|].
    rewrite <- (app_nil_r d) at 2. change 0 with (len (@nil Z)). by rewrite unpad_ok.
Qed.

Lemma pad_read (n : Z) (padded : bool) rest :
  is_u8 n -> padded = negb (n =? 0) ->
  readPad padded ((if padded then [u8 n] else []) ++ rest) = Ret (rest, n).
Proof.
  intros Hn ->. destruct (Z.eqb_spec n 0); cbn [negb readPad app]; [by subst|].
  cbn [readByte]. by rewrite u8_small.
Qed.

Lemma headers_roundtrips p : call_ok (CallHeaders p) -> roundtrips (CallHeaders p).
Proof.
  intros (Hs & Hf & Hl & Hn & Hp). pose proof (priority_word_ok _ Hp) as (Hw & Hlow & Hex).
  destruct Hp as [Hdep Hwt], (sid_pos _ Hs) as [Hr Hz], p as [sid frag es eh n pr].
  simpl in Hs, Hf, Hl, Hn, Hw, Hlow, Hex, Hdep, Hwt, Hr, Hz.
  unfold roundtrips, write, WriteHeaders.
  cbn [call_frame hp_StreamID hp_BlockFragment hp_EndStream hp_EndHeaders hp_PadLength hp_Priority].
  set (padded := negb (n =? 0)). set (prio := negb (IsZero pr)).
  unfold validStreamIDOrZero. rewrite sid_valid, sid_high by done. cbn [negb andb Z.eqb].
  rewrite andb_false_r. cbn [andb].
  set (fl := Z.lor _ (flag prio _)). pose proof (len_nonneg frag). unfold is_u8 in Hn.
  set (pre := if prio then writeUint32 (priority_word pr) ++ [u8 (Weight pr)] else []).
  assert (Hbuf : forall w : list Z, (if prio then (w ++ writeUint32 (priority_word pr)) ++ [u8 (Weight pr)]
      else w) = w ++ pre) by (intros w; unfold pre; destruct prio; by rewrite ?app_nil_r, <- ?app_assoc).
  assert (Hpad : forall w : list Z, (if padded then w ++ [u8 n] else w)
      = w ++ (if padded then [u8 n] else [])) by (intros w; destruct padded; by rewrite ?app_nil_r).
  rewrite Hbuf, Hpad, <- !app_assoc.
  set (body := pre ++ frag ++ padZeros n).
  assert (Hlen : len ((if padded then [u8 n] else []) ++ body) =
    len frag + n + (if n =? 0 then 0 else 1) + (if prio then 5 else 0)).
  { unfold body. rewrite !len_app, len_padZeros by lia. unfold padded, pre.
    destruct (n =? 0), prio; autorewrite with len; cbn [negb]; change (len [u8 n]) with 1;
    change (len (@nil Z)) with 0; change (len (writeUint32 (priority_word pr))) with 4; lia. }
  rewrite <- Hlen. apply frame_wire; [done| |done| | |].
  { unfold fl. by destruct padded, es, eh, prio. }
  { rewrite Hlen. destruct (n =? 0), prio; lia. }
  { unfold body, pre. rewrite !bytes_ok_app. split_and!; [|destruct prio|done|auto with gow].
    - destruct padded; [apply Forall_singleton, u8_range|constructor].
    - apply bytes_ok_snoc; auto with gow.
    - constructor. }
  change (typeFrameParser _) with parseHeadersFrame. unfold parseHeadersFrame.
  cbn [StreamID Flags fh]. rewrite Hz.
  replace (Has fl FlagHeadersPadded) with padded by (unfold fl; by destruct padded, es, eh, prio).
  replace (Has fl FlagHeadersPriority) with prio by (unfold fl; by destruct padded, es, eh, prio).
  rewrite pad_read by done. cbn [obind].
  assert (Hprio : (if prio then parsePriority body else Ret (body, PriorityParam_zero))
    = Ret (frag ++ padZeros n, pr)).
  { unfold body, pre. destruct prio eqn:Ep.
    - unfold parsePriority. rewrite <- app_assoc, readUint32_write by done. cbn [obind app readByte].
      change 0x7fffffff with (2 ^ 31 - 1). rewrite Hlow, Z.eqb_sym, Hex, negb_involutive, u8_small by done.
      by destruct pr.
    - unfold prio, IsZero in Ep. apply negb_false_iff, bool_decide_eq_true in Ep. by subst. }
  rewrite Hprio. cbn [obind]. rewrite len_app, len_padZeros by lia.
  destruct (Z.ltb_spec (len frag + n - n) 0); [lia|].
  by rewrite unpad_zeros by lia.
Qed.

Lemma push_roundtrips p : call_ok (CallPushPromise p) -> roundtrips (CallPushPromise p).
Proof.
  intros (Hs & Hpi & Hf & Hl & Hn). destruct (sid_pos _ Hs) as [Hr Hz], (sid_pos _ Hpi) as [Hr' _].
  destruct p as [sid pid frag eh n]. simpl in Hs, Hpi, Hf, Hl, Hn, Hr, Hz, Hr'.
  unfold roundtrips, write, WritePushPromise.
  cbn [call_frame pp_StreamID pp_PromiseID pp_BlockFragment pp_EndHeaders pp_PadLength].
  rewrite !sid_valid by done. cbn [negb andb]. set (padded := negb (n =? 0)).
  set (fl := Z.lor (flag padded _) _). pose proof (len_nonneg frag). unfold is_u8 in Hn.
  assert (Hpad : forall w : list Z, (if padded then w ++ [u8 n] else w)
      = w ++ (if padded then [u8 n] else [])) by (intros w; destruct padded; by rewrite ?app_nil_r).
  rewrite Hpad, <- !app_assoc.
  set (body := writeUint32 pid ++ frag ++ padZeros n).
  assert (Hlen : len ((if padded then [u8 n] else []) ++ body) =
    4 + len frag + n + (if n =? 0 then 0 else 1)).
  { unfold body. rewrite !len_app, len_padZeros, len_writeUint32 by lia. unfold padded.
    destruct (n =? 0); cbn [negb]; change (len [u8 n]) with 1; change (len (@nil Z)) with 0; lia. }
  rewrite <- Hlen. apply frame_wire; [done| |done| | |].
  { unfold fl. by destruct padded, eh. }
  { rewrite Hlen. destruct (n =? 0); lia. }
  { unfold body. rewrite !bytes_ok_app. split_and!; [|auto with gow|done|auto with gow].
    destruct padded; [apply Forall_singleton, u8_range|constructor]. }
  change (typeFrameParser _) with parsePushPromise. unfold parsePushPromise.
  cbn [StreamID Flags fh]. rewrite Hz.
  replace (Has fl FlagPushPromisePadded) with padded by (unfold fl; by destruct padded, eh).
  rewrite pad_read by done. unfold body. cbn [obind].
  rewrite readUint32_write by (by apply sid_u32). cbn [obind].
  rewrite sid_low, len_app, len_padZeros by lia.
  destruct (Z.gtb_spec n (len frag + n)); [lia|].
  by rewrite unpad_zeros by lia.
Qed.

Lemma call_roundtrips c : call_ok c -> roundtrips c.
Proof.
  destruct c; [apply data_roundtrips|apply headers_roundtrips|apply priority_roundtrips
    |apply rst_roundtrips|apply settings_roundtrips|intros _; apply ack_roundtrips
    |apply push_roundtrips|apply ping_roundtrips|apply goaway_roundtrips|apply window_roundtrips
    |apply cont_roundtrips|apply raw_roundtrips].
Qed.

(** ** Duplicate settings *)
Lemma dup_pairs_NoDup ids : dup_pairs ids = true <-> ~ NoDup ids.
Proof.
  induction ids as [|i ids IH]; cbn [dup_pairs].
  { split; [done|]. intros []. constructor. }
  rewrite orb_true_iff, IH, existsb_exists, NoDup_cons. setoid_rewrite Z.eqb_eq.
  setoid_rewrite <- list_elem_of_In. destruct (decide (i ∈ ids)); naive_solver.
Qed.

Lemma dup_seen_NoDup ids : forall seen,
  dup_seen seen ids = true <-> ~ (NoDup ids /\ forall i, i ∈ ids -> i ∉ seen).
Proof.
  induction ids as [|i ids IH]; intros seen; cbn [dup_seen].
  { split; [done|]. intros []. split; [constructor|]. by intros ? ?%not_elem_of_nil. }
  rewrite orb_true_iff, IH, bool_decide_eq_true, NoDup_cons. destruct (decide (i ∈ seen)) as [H|H].
  - split; [|by left]. intros _ [_ Hs]. by apply (Hs i); [left|].
  - setoid_rewrite elem_of_cons. setoid_rewrite elem_of_union. setoid_rewrite elem_of_singleton.
    split.
    + intros [?|Hn]; [done|]. intros [[Hi Hd] Hs]. apply Hn. split; [done|].
      intros j Hj [->|Hjs]; [done|]. by apply (Hs j); [right|].
    + intros Hn. right. intros [Hd Hs]. apply Hn. split_and!; [|done|].
      * intros Hi. apply (Hs i Hi). by left.
      * intros j [->|Hj]; [done|]. intros Hjs. apply (Hs j Hj). by right.
Qed.

(** ** The theorems of the frame layer *)

(** C2.  Every frame a writer sends is read back: for each of the twelve
    writing methods and all legal arguments (padding, priority, flags and
    payloads of any size included) the call succeeds, and the bytes, followed by
    anything, are parsed into a header with their length and a frame with the
    arguments of the call. *)
Theorem frame_roundtrip c :
  call_ok c -> exists b, write false c = Ret b /\ wire b (call_frame c).
Proof. apply call_roundtrips. Qed.

Lemma frame_roundtrip_witness :
  exists b, write false (CallHeaders (mkHFP 5 [130; 135] true true 3 (mkPP 1 true 9))) = Ret b /\
    wire b (HeadersFrame (mkFH true 1 45 11 5) (mkPP 1 true 9) [130; 135]).
Proof.
  apply (frame_roundtrip (CallHeaders (mkHFP 5 [130; 135] true true 3 (mkPP 1 true 9)))).
  split; [by vm_compute|]. split; [repeat constructor; by vm_compute|].
  split; [by vm_compute|]. split; [by vm_compute|]. split; by vm_compute.
Defined.

(** The settings of a SETTINGS frame come back in order, and
    [HasDuplicates] answers whether two of them have the same id, in the
    quadratic branch for short frames as in the one with a set for long ones. *)
Theorem settings_read l :
  Forall setting_ok l ->
  settings (l ≫= setting_bytes) = Ret l /\
  exists b, HasDuplicates (l ≫= setting_bytes) = Ret b /\ (b = true <-> ~ NoDup (ID <$> l)).
Proof.
  intros Hl. split; [by apply settings_ok|]. unfold HasDuplicates.
  rewrite NumSettings_ok, settings_ok by done. destruct l as [|s l].
  { exists false. split; [done|]. split; [done|]. intros []. constructor. }
  cbn [length Nat.eqb obind]. destruct (_ <? 10)%nat; eexists; (split; [reflexivity|]).
  - apply dup_pairs_NoDup.
  - rewrite dup_seen_NoDup. set_solver.
Qed.

Lemma settings_read_witness :
  settings ([mkSetting 4 65535; mkSetting 5 16384] ≫= setting_bytes)
  = Ret [mkSetting 4 65535; mkSetting 5 16384].
Proof.
  apply (settings_read [mkSetting 4 65535; mkSetting 5 16384]).
  repeat constructor; cbn; lia.
Defined.
