(* ===== verification/FrameRead.v ===== *)
(** * Reading frames: the [Framer] of h2/frame/frame.go

    [ReadFrame], the order of HEADERS and CONTINUATION frames
    ([checkFrameOrder]) and the header blocks read through the HPACK decoder
    ([readMetaFrame]).  The connection is a [reader]; the buffer that a DATA
    payload is read into comes from [nio.GetDataBufferChunk], of which only the
    capacity matters, the parameter [chunkCap]. *)
From S2P Require Import Prelude Bits HpackTables HpackHuffman HpackCodec HpackBlocks Frame.

(** ** State *)
Record Framer := mkFramer {
  fr_r : reader;
  lastFrame : option Frame;
  errDetail : option reason;
  lastHeaderStream : Z;
  maxReadSize : Z;
  AllowIllegalReads : bool;
  ReadMetaHeaders : option Decoder;
  MaxHeaderListSize : Z
}.

Definition set_r (fr : Framer) (r : reader) : Framer :=
  mkFramer r (lastFrame fr) (errDetail fr) (lastHeaderStream fr) (maxReadSize fr)
    (AllowIllegalReads fr) (ReadMetaHeaders fr) (MaxHeaderListSize fr).
Definition set_lastFrame (fr : Framer) (f : option Frame) : Framer :=
  mkFramer (fr_r fr) f (errDetail fr) (lastHeaderStream fr) (maxReadSize fr)
    (AllowIllegalReads fr) (ReadMetaHeaders fr) (MaxHeaderListSize fr).
Definition set_errDetail (fr : Framer) (d : option reason) : Framer :=
  mkFramer (fr_r fr) (lastFrame fr) d (lastHeaderStream fr) (maxReadSize fr)
    (AllowIllegalReads fr) (ReadMetaHeaders fr) (MaxHeaderListSize fr).
Definition set_lastHeaderStream (fr : Framer) (s : Z) : Framer :=
  mkFramer (fr_r fr) (lastFrame fr) (errDetail fr) s (maxReadSize fr)
    (AllowIllegalReads fr) (ReadMetaHeaders fr) (MaxHeaderListSize fr).
Definition set_dec (fr : Framer) (d : Decoder) : Framer :=
  mkFramer (fr_r fr) (lastFrame fr) (errDetail fr) (lastHeaderStream fr) (maxReadSize fr)
    (AllowIllegalReads fr) (Some d) (MaxHeaderListSize fr).

Definition SetMaxReadFrameSize (fr : Framer) (v : Z) : Framer :=
  let v := if v >? maxFrameSize then maxFrameSize else v in
  mkFramer (fr_r fr) (lastFrame fr) (errDetail fr) (lastHeaderStream fr) v
    (AllowIllegalReads fr) (ReadMetaHeaders fr) (MaxHeaderListSize fr).

Definition NewFramer (r : reader) : Framer :=
  SetMaxReadFrameSize (mkFramer r None None 0 0 false None 0) maxFrameSize.

Definition maxHeaderListSize (fr : Framer) : Z :=
  if MaxHeaderListSize fr =? 0 then Z.shiftl 16 20 else MaxHeaderListSize fr.

(** [uint32(int(v)) == v] holds for a 64-bit [int]. *)
Definition maxHeaderStringLen (fr : Framer) : Z :=
  let v := maxHeaderListSize fr in
  if u32 (i64 v) =? v then i64 v else 0.

(** [invalidate] marks the header of the frame. *)
Definition set_valid (fh : FrameHeader) (b : bool) : FrameHeader :=
  mkFH b (Type_ fh) (Flags fh) (Length fh) (StreamID fh).
Definition invalidate (f : Frame) : Frame :=
  match f with
  | DataFrame fh d => DataFrame (set_valid fh false) d
  | HeadersFrame fh p b => HeadersFrame (set_valid fh false) p b
  | PriorityFrame fh p => PriorityFrame (set_valid fh false) p
  | RSTStreamFrame fh c => RSTStreamFrame (set_valid fh false) c
  | SettingsFrame fh p => SettingsFrame (set_valid fh false) p
  | PushPromiseFrame fh i b => PushPromiseFrame (set_valid fh false) i b
  | PingFrame fh d => PingFrame (set_valid fh false) d
  | GoAwayFrame fh l c d => GoAwayFrame (set_valid fh false) l c d
  | WindowUpdateFrame fh i => WindowUpdateFrame (set_valid fh false) i
  | ContinuationFrame fh b => ContinuationFrame (set_valid fh false) b
  | UnknownFrame fh p => UnknownFrame (set_valid fh false) p
  end.

(** [Framer.connError]: the reason is kept for [ErrorDetail]. *)
Definition fr_connError {A} (fr : Framer) (code : ErrCode) (why : reason)
    : Framer * outcome frameErr A :=
  (set_errDetail fr (Some why), Fail (ConnectionError code)).

(** ** The order of frames *)
Definition checkFrameOrder (fr : Framer) (f : Frame) : Framer * outcome frameErr unit :=
  let last := lastFrame fr in
  let fr := set_lastFrame fr (Some f) in
  if AllowIllegalReads fr then (fr, Ret tt) else
  let fh := Header f in
  let accept :=
    if (Type_ fh =? FrameHeaders) || (Type_ fh =? FrameContinuation) then
      (set_lastHeaderStream fr (if Has (Flags fh) FlagHeadersEndHeaders then 0 else StreamID fh), Ret tt)
    else (fr, Ret tt) in
  if negb (lastHeaderStream fr =? 0) then
    if negb (Type_ fh =? FrameContinuation) then
      match last with
      | None => (fr, Panic)
      | Some l => fr_connError fr ErrCodeProtocol
          (WantedContinuation (Type_ fh) (StreamID fh) (Type_ (Header l)) (lastHeaderStream fr))
      end
    else if negb (StreamID fh =? lastHeaderStream fr) then
      fr_connError fr ErrCodeProtocol (WrongContinuation (StreamID fh) (lastHeaderStream fr))
    else accept
  else if Type_ fh =? FrameContinuation then
    fr_connError fr ErrCodeProtocol (UnexpectedContinuation (StreamID fh))
  else accept.

(** ** Header blocks *)
Record MetaHeadersFrame := mkMeta {
  mh_header : FrameHeader;
  mh_priority : PriorityParam;
  mh_Fields : list HeaderField;
  mh_Truncated : bool
}.

Inductive anyFrame := Plain (f : Frame) | Meta (mh : MetaHeadersFrame).

(** A rune of a field name is a capital letter exactly when a byte is: the
    bytes of a longer UTF-8 sequence, and the replacement for a broken one, are
    no capitals. *)
Definition validWireHeaderFieldName (v : list Z) : bool :=
  match v with
  | [] => false
  | _ => forallb (fun r => negb ((65 <=? r) && (r <=? 90))) v
  end.

(** The variables the emit callback of [readMetaFrame] closes over. *)
Record metaState := mkMS {
  remainSize : Z;
  sawRegular : bool;
  invalid : option reason;
  ms_Truncated : bool;
  ms_Fields : list HeaderField
}.

(** [strings.HasPrefix(hf.Name, ":")] *)
Definition hasColon (name : list Z) : bool :=
  match name with c :: _ => c =? 58 | [] => false end.

Definition metaEmit (hf : HeaderField) (st : metaState) (en : bool) : metaState * bool :=
  let st :=
    if hasColon (Name hf) then
      if sawRegular st
      then mkMS (remainSize st) (sawRegular st) (Some PseudoAfterRegular) (ms_Truncated st) (ms_Fields st)
      else st
    else
      let inv := if validWireHeaderFieldName (Name hf) then invalid st
                 else Some (InvalidFieldName (Name hf)) in
      mkMS (remainSize st) true inv (ms_Truncated st) (ms_Fields st) in
  match invalid st with
  | Some _ => (st, false)
  | None =>
      let size := Size hf in
      if size >? remainSize st then
        (mkMS (remainSize st) (sawRegular st) None true (ms_Fields st), false)
      else
        (mkMS (u32 (remainSize st - size)) (sawRegular st) None (ms_Truncated st)
           (ms_Fields st ++ [hf]), en)
  end.

(** [MetaHeadersFrame.PseudoFields]: the fields before the first regular one. *)
Fixpoint PseudoFields (l : list HeaderField) : list HeaderField :=
  match l with
  | [] => []
  | hf :: l => if IsPseudo hf then hf :: PseudoFields l else []
  end.
Fixpoint RegularFields (l : list HeaderField) : list HeaderField :=
  match l with
  | [] => []
  | hf :: l' => if IsPseudo hf then RegularFields l' else l
  end.

(** [MetaHeadersFrame.PseudoValue] *)
Fixpoint PseudoValue (l : list HeaderField) (pseudo : list Z) : list Z :=
  match l with
  | [] => []
  | hf :: l =>
      if negb (IsPseudo hf) then []
      else if bool_decide (drop 1 (Name hf) = pseudo) then Value hf
      else PseudoValue l pseudo
  end.

Definition requestPseudos : list (list Z) :=
  [str ":method"; str ":path"; str ":scheme"; str ":authority"; str ":protocol"].

(** The loop of [checkPseudos]; [seen] is [pf[:i]]. *)
Fixpoint checkPseudosLoop (seen pf : list HeaderField) (isRequest isResponse : bool) : option reason :=
  match pf with
  | [] => if isRequest && isResponse then Some MixPseudoHeaderTypes else None
  | hf :: pf =>
      let next isRequest isResponse :=
        if existsb (fun hf2 => bool_decide (Name hf = Name hf2)) seen
        then Some (DuplicatePseudoHeader (Name hf))
        else checkPseudosLoop (seen ++ [hf]) pf isRequest isResponse in
      if bool_decide (Name hf ∈ requestPseudos) then next true isResponse
      else if bool_decide (Name hf = str ":status") then next isRequest true
      else Some (PseudoHeaderError (Name hf))
  end.
Definition checkPseudos (fields : list HeaderField) : option reason :=
  checkPseudosLoop [] (PseudoFields fields) false false.

Section MetaFrame.
(** [fr.ReadFrame], which the loop over the continuations calls. *)
Context (readFrame : Framer -> Framer * outcome frameErr anyFrame).

Fixpoint metaLoop (fuel : nat) (fr : Framer) (st : metaState) (frag : list Z) (ended : bool)
    : Framer * outcome frameErr metaState :=
  match ReadMetaHeaders fr with
  | None => (fr, Panic)
  | Some d =>
      match dec_Write metaEmit d st frag with
      | None => (fr, Panic)
      | Some (d, st, err) =>
          let fr := set_dec fr d in
          match err with
          | Some _ => (fr, Fail (ConnectionError ErrCodeCompression))
          | None =>
              if ended then (fr, Ret st) else
              match fuel with
              | O => (fr, Panic)
              | S fuel =>
                  let '(fr, r) := readFrame fr in
                  match r with
                  | Ret (Plain (ContinuationFrame fh frag)) =>
                      if negb (valid fh) then (fr, Panic)
                      else metaLoop fuel fr st frag (Has (Flags fh) FlagContinuationEndHeaders)
                  | Ret _ => (fr, Panic)
                  | Fail e => (fr, Fail e)
                  | Panic => (fr, Panic)
                  end
              end
          end
      end
  end.

(** Every continuation that is read takes nine bytes of the input at least, so
    its length is enough fuel. *)
Definition readMetaFrame (fr : Framer) (fh : FrameHeader) (prio : PriorityParam) (frag : list Z)
    : Framer * outcome frameErr anyFrame :=
  if AllowIllegalReads fr then (fr, Fail errIllegalUse) else
  match ReadMetaHeaders fr with
  | None => (fr, Panic)
  | Some d =>
      let d := SetMaxStringLength (SetEmitEnabled d true) (maxHeaderStringLen fr) in
      let st := mkMS (maxHeaderListSize fr) false None false [] in
      if negb (valid fh) then (fr, Panic) else
      let '(fr, r) := metaLoop (S (length (rdata (fr_r fr)))) (set_dec fr d) st frag
                        (Has (Flags fh) FlagHeadersEndHeaders) in
      match r, ReadMetaHeaders fr with
      | Ret st, Some d =>
          let fh := set_valid fh false in
          let '(d, cerr) := dec_Close d in
          let fr := set_dec fr d in
          match cerr, invalid st with
          | Some _, _ => (fr, Fail (ConnectionError ErrCodeCompression))
          | None, Some why =>
              (set_errDetail fr (Some why), Fail (StreamError (StreamID fh) ErrCodeProtocol (Some why)))
          | None, None =>
              match checkPseudos (ms_Fields st) with
              | Some why =>
                  (set_errDetail fr (Some why), Fail (StreamError (StreamID fh) ErrCodeProtocol (Some why)))
              | None => (fr, Ret (Meta (mkMeta fh prio (ms_Fields st) (ms_Truncated st))))
              end
          end
      | Fail e, _ => (fr, Fail e)
      | _, _ => (fr, Panic)
      end
  end.
End MetaFrame.

(** ** ReadFrame *)
Section ReadFrame.
Context (chunkCap : Z -> Z).

(** [ReadFrame] up to and with [checkFrameOrder]. *)
Definition readOrdered (fr : Framer) : Framer * outcome frameErr Frame :=
  let fr := set_lastFrame (set_errDetail fr None) (invalidate <$> lastFrame fr) in
  let '(r, h) := readFrameHeader (fr_r fr) in
  let fr := set_r fr r in
  match h with
  | Panic => (fr, Panic)
  | Fail e => (fr, Fail e)
  | Ret fh =>
      if Length fh >? maxReadSize fr then (fr, Fail ErrFrameTooLarge) else
      if (Type_ fh =? FrameData) && (Length fh >? chunkCap (Length fh)) then (fr, Panic) else
      let '(r, p) := ReadFull (fr_r fr) (Length fh) in
      let fr := set_r fr r in
      match obind p (typeFrameParser (Type_ fh) fh) with
      | Panic => (fr, Panic)
      | Fail (connError code why) => fr_connError fr code why
      | Fail e => (fr, Fail e)
      | Ret f =>
          let '(fr, o) := checkFrameOrder fr f in
          (fr, obind o (fun _ => Ret f))
      end
  end.

(** A block of headers is read inside [ReadFrame], which then reads the
    continuations by calling itself: those are never HEADERS again, so the
    calls nest two deep. *)
Fixpoint ReadFrameN (depth : nat) (fr : Framer) : Framer * outcome frameErr anyFrame :=
  match depth with
  | O => (fr, Panic)
  | S depth =>
      let '(fr, r) := readOrdered fr in
      match r with
      | Panic => (fr, Panic)
      | Fail e => (fr, Fail e)
      | Ret (HeadersFrame fh prio frag as f) =>
          match ReadMetaHeaders fr with
          | Some _ => readMetaFrame (ReadFrameN depth) fr fh prio frag
          | None => (fr, Ret (Plain f))
          end
      | Ret f => (fr, Ret (Plain f))
      end
  end.
Definition ReadFrame : Framer -> Framer * outcome frameErr anyFrame := ReadFrameN 2.
End ReadFrame.

(** ** The order of frames *)

(** A HEADERS or CONTINUATION frame that leaves its header block open. *)
Definition opens (f : Frame) : bool :=
  ((Type_ (Header f) =? FrameHeaders) || (Type_ (Header f) =? FrameContinuation))
  && negb (Has (Flags (Header f)) FlagHeadersEndHeaders).
Definition is_cont (f : Frame) : bool := Type_ (Header f) =? FrameContinuation.

(** RFC 7540, 6.10: a CONTINUATION follows exactly the frames that leave a
    block open, on the same stream. *)
Definition contiguous (fs : list Frame) : Prop :=
  forall i f, fs !! i = Some f ->
    (is_cont f = true <-> exists j g, i = S j /\ fs !! j = Some g /\ opens g = true) /\
    (forall j g, i = S j -> fs !! j = Some g -> opens g = true ->
       StreamID (Header f) = StreamID (Header g)).

(** All frames pass [checkFrameOrder], one after the other. *)
Fixpoint accepts (fr : Framer) (fs : list Frame) : bool :=
  match fs with
  | [] => true
  | f :: fs =>
      let '(fr, o) := checkFrameOrder fr f in
      match o with Ret _ => accepts fr fs | _ => false end
  end.

Fixpoint follows (prev : option Frame) (fs : list Frame) : Prop :=
  match fs with
  | [] => True
  | f :: fs =>
      is_cont f = from_option opens false prev /\
      (forall g, prev = Some g -> opens g = true -> StreamID (Header f) = StreamID (Header g)) /\
      follows (Some f) fs
  end.

Lemma follows_lookup prev fs :
  follows prev fs <-> forall i f, fs !! i = Some f ->
    let p := match i with O => prev | S j => fs !! j end in
    is_cont f = from_option opens false p /\
    (forall g, p = Some g -> opens g = true -> StreamID (Header f) = StreamID (Header g)).
Proof.
  revert prev. induction fs as [|f fs IH]; intros prev; cbn [follows].
  { split; [|done]. intros _ i f. by rewrite lookup_nil. }
  rewrite IH. split.
  - intros (H1 & H2 & H3) [|i] g Hg; [by simplify_eq/=|]. simpl in Hg. specialize (H3 i g Hg).
    by destruct i.
  - intros H. split; [apply (H O f eq_refl)|]. split; [apply (H O f eq_refl)|].
    intros i g Hg. specialize (H (S i) g Hg). by destruct i.
Qed.

Lemma contiguous_follows fs : contiguous fs <-> follows None fs.
Proof.
  rewrite follows_lookup. unfold contiguous. split; intros H i f Hf; specialize (H i f Hf).
  - destruct H as [H1 H2]. destruct i as [|j]; cbn zeta.
    + split; [|done]. cbn. apply not_true_iff_false. intros (j & g & ? & _)%H1. lia.
    + split; [|by intros g; apply H2]. apply eq_true_iff_eq. rewrite H1. split.
      * by intros (? & g & [= <-] & -> & ?).
      * destruct (fs !! j) as [g|] eqn:E; [|done]. intros ?. by exists j, g.
  - cbn zeta in H. destruct H as [H1 H2]. rewrite H1. destruct i as [|j]; cbn.
    + split; [|done]. split; [done|]. intros (j & g & ? & _). lia.
    + split; [|by intros ? g [= <-]; apply H2]. split.
      * destruct (fs !! j) as [g|] eqn:E; [|done]. intros ?. by exists j, g.
      * by intros (? & g & [= <-] & -> & ?).
Qed.

(** The state [checkFrameOrder] keeps after the frame [prev]. *)
Definition order_state (fr : Framer) (prev : option Frame) : Prop :=
  AllowIllegalReads fr = false /\ (is_Some prev -> lastFrame fr <> None) /\
  lastHeaderStream fr = match prev with
                        | Some g => if opens g then StreamID (Header g) else 0
                        | None => 0
                        end.

Definition order_step (fr : Framer) (prev : option Frame) (f : Frame) : bool :=
  bool_decide (is_cont f = from_option opens false prev) &&
  (negb (from_option opens false prev) || (StreamID (Header f) =? lastHeaderStream fr)).

Lemma checkFrameOrder_step fr prev f :
  order_state fr prev -> (opens f = true -> StreamID (Header f) <> 0) ->
  (forall g, prev = Some g -> opens g = true -> StreamID (Header g) <> 0) ->
  exists fr' o, checkFrameOrder fr f = (fr', o) /\ o <> Panic /\
    (o = Ret tt <-> order_step fr prev f = true) /\ (o = Ret tt -> order_state fr' (Some f)).
Proof.
  intros (Hill & Hlast & Hlhs) Hf Hprev. unfold checkFrameOrder, order_step. cbn [AllowIllegalReads set_lastFrame lastHeaderStream].
  rewrite Hill. fold (is_cont f).
  set (accept := if _ || _ then _ else _).
  assert (Hacc : (exists fr', accept = (fr', Ret tt) /\ (is_cont f = true \/ lastHeaderStream fr = 0 ->
      order_state fr' (Some f)))).
  { unfold accept. fold (is_cont f). destruct ((Type_ (Header f) =? FrameHeaders) || is_cont f) eqn:E; eexists; (split; [done|]); intros Hz.
    - split_and!; [done|done|]. cbn [lastHeaderStream set_lastHeaderStream]. unfold opens.
      fold (is_cont f). rewrite E. by destruct (Has _ _).
    - split_and!; [done|done|]. cbn [lastHeaderStream set_lastFrame]. unfold opens.
      fold (is_cont f). rewrite E. destruct Hz as [Hz|Hz]; [|done].
      rewrite Hz, orb_true_r in E. done. }
  destruct Hacc as (fa & -> & Hfa).
  assert (Hop : (lastHeaderStream fr =? 0) = negb (from_option opens false prev)).
  { rewrite Hlhs. destruct prev as [g|]; [|done]. cbn. destruct (opens g) eqn:Eg; [|done].
    apply Z.eqb_neq. by apply Hprev. }
  rewrite Hop. destruct prev as [g|]; cbn [from_option].
  - destruct (opens g) eqn:Eg; cbn [negb orb].
    + destruct (is_cont f) eqn:Ec; cbn [negb].
      * destruct (Z.eqb_spec (StreamID (Header f)) (lastHeaderStream fr)); cbn [negb].
        -- eexists _, _. split; [done|]. split_and!; [done|by rewrite bool_decide_true|]. intros _. by apply Hfa; left.
        -- eexists _, _. split; [done|]. split_and!; [done|by rewrite andb_false_r|done].
      * destruct (lastFrame fr); [|exfalso; by apply Hlast].
        eexists _, _. split; [done|]. split_and!; [done|by rewrite bool_decide_false|done].
    + destruct (is_cont f) eqn:Ec.
      * eexists _, _. split; [done|]. split_and!; [done|by rewrite bool_decide_false|done].
      * eexists _, _. split; [done|]. split_and!; [done|by rewrite bool_decide_true|].
        intros _. apply Hfa. right. by rewrite Hlhs.
  - cbn [negb orb]. destruct (is_cont f) eqn:Ec.
    + eexists _, _. split; [done|]. split_and!; [done|by rewrite bool_decide_false|done].
    + eexists _, _. split; [done|]. split_and!; [done|by rewrite bool_decide_true|].
      intros _. apply Hfa. right. by rewrite Hlhs.
Qed.

Lemma accepts_follows fs : forall fr prev,
  order_state fr prev -> (forall g, prev = Some g -> opens g = true -> StreamID (Header g) <> 0) ->
  Forall (fun f => opens f = true -> StreamID (Header f) <> 0) fs ->
  accepts fr fs = true <-> follows prev fs.
Proof.
  induction fs as [|f fs IH]; intros fr prev Hst Hprev Hfs; [done|].
  inversion_clear Hfs as [|? ? Hf Hfs']. cbn [accepts follows].
  destruct (checkFrameOrder_step fr prev f Hst Hf Hprev) as (fr' & o & -> & Hnp & Hok & Hst').
  assert (Hstep : order_step fr prev f = true <->
    (is_cont f = from_option opens false prev /\
     forall g, prev = Some g -> opens g = true -> StreamID (Header f) = StreamID (Header g))).
  { destruct Hst as (_ & _ & Hlhs). unfold order_step. rewrite andb_true_iff, bool_decide_eq_true, Hlhs.
    destruct prev as [g|]; cbn [from_option]; [|by split; intros [? _]].
    destruct (opens g) eqn:Eg; cbn [negb orb]; [rewrite Z.eqb_eq|].
    - split; intros [H1 H2]; (split; [done|]); [by intros ? [= <-]|by apply H2].
    - split; intros [H1 _]; (split; [done|]); [intros ? [= <-]; congruence|done]. }
  assert (Hnext : o = Ret tt -> accepts fr' fs = true <-> follows (Some f) fs).
  { intros Ho. apply IH; [by apply Hst'| |done]. intros g [= <-]. by apply Hf. }
  transitivity (order_step fr prev f = true /\ follows (Some f) fs); [|rewrite Hstep; tauto].
  rewrite <- Hok. destruct o as [[]| |]; [tauto|split; [done|by intros [? _]]..].
Qed.

(** ** Reading never panics *)

Lemma Setting_at_safe p i : (i * 6 + 6 <= length p)%nat -> exists s, Setting_at p i = Ret s.
Proof.
  intros H. unfold Setting_at.
  assert (H1 : (6 <= length (drop (i * 6) p))%nat) by (rewrite length_drop; lia).
  assert (H2 : (4 <= length (drop (i * 6 + 2) p))%nat) by (rewrite length_drop; lia).
  destruct (drop (i * 6) p) as [|? [|? ?]]; [simpl in H1; lia|simpl in H1; lia|]. cbn [Uint16 obind].
  destruct (drop (i * 6 + 2) p) as [|? [|? [|? [|? ?]]]]; [simpl in H2; lia..|]. cbn [Uint32 obind]. eauto.
Qed.

Lemma settings_safe p : exists l, settings p = Ret l.
Proof.
  unfold settings, NumSettings.
  assert (H : (Z.to_nat (len p / 6) * 6 <= length p)%nat)
    by (unfold len; Z.to_euclidean_division_equations; lia).
  assert (Hgen : forall n i, ((i + n) * 6 <= length p)%nat -> exists l, settings_from p i n = Ret l);
    [|apply Hgen; lia].
  induction n as [|n IH]; intros i Hi; cbn [settings_from]; [eauto|].
  destruct (Setting_at_safe p i) as [s ->]; [lia|]. cbn [obind].
  destruct (IH (S i)) as [l ->]; [lia|]. cbn [obind]. eauto.
Qed.

Lemma Uint32_safe p : 4 <= len p -> exists v, Uint32 p = Ret v.
Proof.
  unfold len. destruct p as [|? [|? [|? [|? ?]]]]; simpl; [lia..|]. eauto.
Qed.

Lemma readPad_safe b p : readPad b p <> Panic.
Proof. by destruct b, p. Qed.

Lemma readUint32_safe p : readUint32 p <> Panic.
Proof.
  unfold readUint32. destruct (Z.ltb_spec (len p) 4); [done|]. by destruct (Uint32_safe p) as [v ->].
Qed.

Lemma parsePriority_safe p : parsePriority p <> Panic.
Proof.
  unfold parsePriority. pose proof (readUint32_safe p).
  destruct (readUint32 p) as [[q v]|e|]; [|done|done]. cbn [obind]. by destruct q.
Qed.

Lemma readPad_shorter b p q n : readPad b p = Ret (q, n) -> (length q <= length p)%nat.
Proof. destruct b, p; intros [= <- <-]; simpl; lia. Qed.

Lemma parsePriority_shorter p q pr : parsePriority p = Ret (q, pr) -> (length q <= length p)%nat.
Proof.
  unfold parsePriority, readUint32. case_if; [done|].
  destruct (Uint32 p); [|done|done]. cbn [obind].
  destruct (drop 4 p) as [|w p'] eqn:E; [done|]. cbn [readByte obind]. intros [= <- _].
  apply (f_equal length) in E. rewrite length_drop in E. simpl in E. lia.
Qed.

(** The header block a frame carries. *)
Definition frag_of (f : Frame) : list Z :=
  match f with
  | HeadersFrame _ _ b | ContinuationFrame _ b => b
  | _ => []
  end.

Definition named (f : Frame) (fh : FrameHeader) : Prop :=
  match f with HeadersFrame _ _ _ => Type_ fh = FrameHeaders | _ => True end.

(** What a parser returns for a header read from the wire: no panic, the header
    itself, and the frame type the header names. *)
Definition parsed_as (fh : FrameHeader) (p : list Z) (o : outcome frameErr Frame) : Prop :=
  o <> Panic /\ forall f, o = Ret f -> Header f = fh /\
    (Type_ fh = FrameContinuation -> exists b, f = ContinuationFrame fh b) /\
    (Type_ fh = FrameHeaders \/ Type_ fh = FrameContinuation -> StreamID fh <> 0) /\
    (length (frag_of f) <= length p)%nat /\ named f fh.

Lemma parsed_as_Fail fh p e : parsed_as fh p (Fail e).
Proof. done. Qed.

Lemma parsed_as_Ret fh p f :
  Header f = fh -> Type_ fh <> FrameContinuation \/ (exists b, f = ContinuationFrame fh b) ->
  Type_ fh <> FrameHeaders /\ Type_ fh <> FrameContinuation \/ StreamID fh <> 0 ->
  (length (frag_of f) <= length p)%nat -> named f fh -> parsed_as fh p (Ret f).
Proof.
  intros H1 H2 H3 H4 H5. split; [done|]. intros ? [= <-]. split_and!; [done| | |done|done].
  - by destruct H2.
  - intros [?|?]; by destruct H3 as [[]|].
Qed.

Lemma parseDataFrame_ok fh p : Type_ fh = FrameData -> parsed_as fh p (parseDataFrame fh p).
Proof.
  intros E. unfold parseDataFrame. case_if; [apply parsed_as_Fail|].
  pose proof (readPad_safe (Has (Flags fh) FlagDataPadded) p).
  destruct (readPad _ p) as [[q n]|e|]; [|apply parsed_as_Fail|done]. cbn [obind].
  case_if; [apply parsed_as_Fail|]. apply parsed_as_Ret; [done|by left; rewrite E|by left; rewrite E|simpl; lia|done].
Qed.

Lemma parseHeadersFrame_ok fh p : Type_ fh = FrameHeaders -> parsed_as fh p (parseHeadersFrame fh p).
Proof.
  intros E. unfold parseHeadersFrame. destruct (Z.eqb_spec (StreamID fh) 0); [apply parsed_as_Fail|].
  pose proof (readPad_safe (Has (Flags fh) FlagHeadersPadded) p).
  destruct (readPad _ p) as [[q n']|e|] eqn:Eq; [|apply parsed_as_Fail|done]. cbn [obind].
  assert ((if Has (Flags fh) FlagHeadersPriority then parsePriority q else Ret (q, PriorityParam_zero))
    <> Panic) by (case_if; [apply parsePriority_safe|done]).
  destruct (if Has (Flags fh) FlagHeadersPriority then _ else _) as [[q' pr]|e|] eqn:Eq';
    [|apply parsed_as_Fail|done]. cbn [obind].
  case_if; [apply parsed_as_Fail|]. apply parsed_as_Ret; [done|by left; rewrite E|by right| |done].
  apply readPad_shorter in Eq. simpl. unfold unpad. rewrite length_take.
  enough (length q' <= length q)%nat by lia.
  destruct (Has _ FlagHeadersPriority); [by eapply parsePriority_shorter|by injection Eq' as <- _].
Qed.

Lemma parsePriorityFrame_ok fh p : Type_ fh = FramePriority -> parsed_as fh p (parsePriorityFrame fh p).
Proof.
  intros E. unfold parsePriorityFrame. case_if; [apply parsed_as_Fail|].
  destruct (Z.eqb_spec (len p) 5) as [Hl|]; [|apply parsed_as_Fail]. cbn [negb].
  destruct (Uint32_safe p) as [v ->]; [lia|]. cbn [obind].
  destruct (lookup_lt_is_Some_2 p 4%nat) as [w ->]; [unfold len in Hl; lia|].
  apply parsed_as_Ret; [done|by left; rewrite E|by left; rewrite E|simpl; lia|done].
Qed.

Lemma parseRSTStreamFrame_ok fh p : Type_ fh = FrameRSTStream -> parsed_as fh p (parseRSTStreamFrame fh p).
Proof.
  intros E. unfold parseRSTStreamFrame. destruct (Z.eqb_spec (len p) 4) as [Hl|]; [|apply parsed_as_Fail]. cbn [negb].
  case_if; [apply parsed_as_Fail|]. destruct (Uint32_safe p) as [v ->]; [lia|].
  apply parsed_as_Ret; [done|by left; rewrite E|by left; rewrite E|simpl; lia|done].
Qed.

Lemma parseSettingsFrame_ok fh p : valid fh = true -> Type_ fh = FrameSettings -> parsed_as fh p (parseSettingsFrame fh p).
Proof.
  intros Hv E. unfold parseSettingsFrame, Settings_Value. do 3 (case_if; [apply parsed_as_Fail|]). rewrite Hv. cbn [negb].
  destruct (settings_safe p) as [l ->]. cbn [obind].
  assert (Hok : parsed_as fh p (Ret (SettingsFrame fh p)))
    by (apply parsed_as_Ret; [done|by left; rewrite E|by left; rewrite E|simpl; lia|done]).
  destruct (Val <$> _); [|done]. case_if; [apply parsed_as_Fail|done].
Qed.

Lemma parsePushPromise_ok fh p : Type_ fh = FramePushPromise -> parsed_as fh p (parsePushPromise fh p).
Proof.
  intros E. unfold parsePushPromise. case_if; [apply parsed_as_Fail|].
  pose proof (readPad_safe (Has (Flags fh) FlagPushPromisePadded) p).
  destruct (readPad _ p) as [[q n']|e|]; [|apply parsed_as_Fail|done]. cbn [obind].
  pose proof (readUint32_safe q). destruct (readUint32 q) as [[q' v]|e|]; [|apply parsed_as_Fail|done].
  cbn [obind]. case_if; [apply parsed_as_Fail|].
  apply parsed_as_Ret; [done|by left; rewrite E|by left; rewrite E|simpl; lia|done].
Qed.

Lemma parsePingFrame_ok fh p : Type_ fh = FramePing -> parsed_as fh p (parsePingFrame fh p).
Proof.
  intros E. unfold parsePingFrame. do 2 (case_if; [apply parsed_as_Fail|]).
  apply parsed_as_Ret; [done|by left; rewrite E|by left; rewrite E|simpl; lia|done].
Qed.

Lemma parseGoAwayFrame_ok fh p : Type_ fh = FrameGoAway -> parsed_as fh p (parseGoAwayFrame fh p).
Proof.
  intros E. unfold parseGoAwayFrame. case_if; [apply parsed_as_Fail|].
  destruct (Z.ltb_spec (len p) 8); [apply parsed_as_Fail|].
  destruct (Uint32_safe p) as [v ->]; [lia|]. cbn [obind].
  destruct (Uint32_safe (drop 4 p)) as [v' ->]; [unfold len in *; rewrite length_drop; lia|].
  apply parsed_as_Ret; [done|by left; rewrite E|by left; rewrite E|simpl; lia|done].
Qed.

Lemma parseWindowUpdateFrame_ok fh p : Type_ fh = FrameWindowUpdate -> parsed_as fh p (parseWindowUpdateFrame fh p).
Proof.
  intros E. unfold parseWindowUpdateFrame. destruct (Z.eqb_spec (len p) 4) as [Hl|]; [|apply parsed_as_Fail]. cbn [negb].
  destruct (Uint32_safe p) as [v ->]; [lia|]. cbn [obind]. case_if; [case_if; apply parsed_as_Fail|].
  apply parsed_as_Ret; [done|by left; rewrite E|by left; rewrite E|simpl; lia|done].
Qed.

Lemma parseContinuationFrame_ok fh p : Type_ fh = FrameContinuation -> parsed_as fh p (parseContinuationFrame fh p).
Proof.
  intros E. unfold parseContinuationFrame. destruct (Z.eqb_spec (StreamID fh) 0); [apply parsed_as_Fail|].
  apply parsed_as_Ret; [done|right; eauto|by right|done|done].
Qed.

Lemma typeFrameParser_ok fh p : valid fh = true -> parsed_as fh p (typeFrameParser (Type_ fh) fh p).
Proof.
  intros Hv. unfold typeFrameParser.
  destruct (Z.eqb_spec (Type_ fh) FrameData); [by apply parseDataFrame_ok|].
  destruct (Z.eqb_spec (Type_ fh) FrameHeaders); [by apply parseHeadersFrame_ok|].
  destruct (Z.eqb_spec (Type_ fh) FramePriority); [by apply parsePriorityFrame_ok|].
  destruct (Z.eqb_spec (Type_ fh) FrameRSTStream); [by apply parseRSTStreamFrame_ok|].
  destruct (Z.eqb_spec (Type_ fh) FrameSettings); [by apply parseSettingsFrame_ok|].
  destruct (Z.eqb_spec (Type_ fh) FramePushPromise); [by apply parsePushPromise_ok|].
  destruct (Z.eqb_spec (Type_ fh) FramePing); [by apply parsePingFrame_ok|].
  destruct (Z.eqb_spec (Type_ fh) FrameGoAway); [by apply parseGoAwayFrame_ok|].
  destruct (Z.eqb_spec (Type_ fh) FrameWindowUpdate); [by apply parseWindowUpdateFrame_ok|].
  destruct (Z.eqb_spec (Type_ fh) FrameContinuation); [by apply parseContinuationFrame_ok|].
  apply parsed_as_Ret; [done|by left|by left|simpl; lia|done].
Qed.

Definition same_conf (fr fr' : Framer) : Prop :=
  maxReadSize fr' = maxReadSize fr /\ AllowIllegalReads fr' = AllowIllegalReads fr /\
  ReadMetaHeaders fr' = ReadMetaHeaders fr /\ MaxHeaderListSize fr' = MaxHeaderListSize fr.

Definition order_inv (fr : Framer) : Prop := lastHeaderStream fr <> 0 -> lastFrame fr <> None.

(** What holds after an accepted frame, for the frames that follow it. *)
Definition ordered_after (fr fr' : Framer) (f : Frame) : Prop :=
  AllowIllegalReads fr = false ->
  (lastHeaderStream fr <> 0 -> Type_ (Header f) = FrameContinuation) /\
  (Type_ (Header f) = FrameHeaders \/ Type_ (Header f) = FrameContinuation ->
   lastHeaderStream fr' = if Has (Flags (Header f)) FlagHeadersEndHeaders then 0
                          else StreamID (Header f)).

Lemma checkFrameOrder_safe fr f :
  order_inv fr -> exists fr' o, checkFrameOrder fr f = (fr', o) /\ o <> Panic /\
    fr_r fr' = fr_r fr /\ same_conf fr fr' /\ lastFrame fr' = Some f /\
    (o = Ret tt -> ordered_after fr fr' f).
Proof.
  intros Hinv. unfold checkFrameOrder, ordered_after.
  cbn [AllowIllegalReads set_lastFrame lastHeaderStream]. destruct (AllowIllegalReads fr) eqn:Hill.
  { eexists _, _. split; [done|]. by split_and!. }
  set (accept := if _ || _ then _ else _).
  assert (Hacc : exists fr', accept = (fr', Ret tt) /\ fr_r fr' = fr_r fr /\ same_conf fr fr' /\
    lastFrame fr' = Some f /\ (Type_ (Header f) = FrameHeaders \/ Type_ (Header f) = FrameContinuation ->
      lastHeaderStream fr' = if Has (Flags (Header f)) FlagHeadersEndHeaders then 0 else StreamID (Header f))).
  { unfold accept. destruct ((Type_ (Header f) =? FrameHeaders) || _) eqn:E; eexists; (split; [done|]).
    - by split_and!.
    - split_and!; [done..|]. intros [H|H]; rewrite H in E; done. }
  destruct Hacc as (fa & -> & Hr & Hc & Hl & Hlhs).
  destruct (Z.eqb_spec (lastHeaderStream fr) 0); cbn [negb].
  - destruct (Z.eqb_spec (Type_ (Header f)) FrameContinuation).
    + eexists _, _. split; [done|]. by split_and!.
    + eexists _, _. split; [done|]. by split_and!.
  - destruct (Z.eqb_spec (Type_ (Header f)) FrameContinuation); cbn [negb].
    + destruct (Z.eqb_spec (StreamID (Header f)) (lastHeaderStream fr)); cbn [negb];
        eexists _, _; (split; [done|]); by split_and!.
    + destruct (lastFrame fr) eqn:El; [|by destruct (Hinv ltac:(done))].
      eexists _, _. split; [done|]. by split_and!.
Qed.

Lemma ReadFull_spec r n : exists r' o, ReadFull r n = (r', o) /\ o <> Panic /\
  (length (rdata r') <= length (rdata r))%nat /\ (forall e, o = Fail e -> exists i, e = IOErr i) /\
  forall b, o = Ret b -> length b = Z.to_nat n /\ (length (rdata r') + Z.to_nat n)%nat = length (rdata r).
Proof.
  unfold ReadFull. destruct (Z.leb_spec n (len (rdata r))) as [H|].
  - eexists _, _. split; [done|]. cbn [rdata]. unfold len in H. rewrite length_drop.
    split_and!; [done|lia|done|]. intros b [= <-]. rewrite length_take. lia.
  - eexists _, _. split; [done|]. split_and!; [done|simpl; lia|intros ? [= <-]; eauto|done].
Qed.

Lemma readFrameHeader_spec r : exists r' o, readFrameHeader r = (r', o) /\ o <> Panic /\
  (length (rdata r') <= length (rdata r))%nat /\
  forall fh, o = Ret fh -> valid fh = true /\ (length (rdata r') + 9)%nat = length (rdata r).
Proof.
  unfold readFrameHeader. destruct (ReadFull_spec r frameHeaderLen) as (r' & o & -> & Hnp & Hl & _ & Hb).
  eexists _, _. split; [done|]. destruct o as [b|e|]; [|done|done]. cbn [obind].
  destruct (Hb b eq_refl) as [Hlen Hrest]. change (Z.to_nat frameHeaderLen) with 9%nat in *.
  do 9 (destruct b as [|? b]; [done|]). split_and!; [done|lia|]. intros fh [= <-]. done.
Qed.

(** ** A frame that was written is read *)
Lemma wire_header b f : wire b f ->
  exists p, typeFrameParser (Type_ (Header f)) (Header f) p = Ret f /\ Length (Header f) = len p /\
    forall rest e, readFrameHeader (mkReader (b ++ rest) e) = (mkReader (p ++ rest) e, Ret (Header f)).
Proof.
  intros (fh & p & Hp & Hl & _ & Hw). exists p. enough (Header f = fh) as -> by done.
  destruct (readFrameHeader_spec (mkReader (b ++ []) EOF)) as (r' & o & E & _ & _ & Hv).
  rewrite Hw in E. injection E as _ <-. destruct (typeFrameParser_ok fh p (proj1 (Hv fh eq_refl))) as [_ Hf].
  by apply (Hf _ Hp).
Qed.

Lemma ReadFull_app p rest e : ReadFull (mkReader (p ++ rest) e) (len p) = (mkReader rest e, Ret p).
Proof.
  unfold ReadFull. cbn [rdata rerr]. rewrite len_app. pose proof (len_nonneg rest).
  destruct (Z.leb_spec (len p) (len p + len rest)); [|lia]. unfold len at 1 2. rewrite Nat2Z.id.
  by rewrite take_app_length, drop_app_length.
Qed.

(** [readOrdered] takes the bytes of the frame and checks its order. *)
Lemma readOrdered_wire (chunkCap : Z -> Z) fr b f rest :
  (forall n, n <= chunkCap n) -> wire b f -> rdata (fr_r fr) = b ++ rest -> Length (Header f) <= maxReadSize fr ->
  readOrdered chunkCap fr =
    let '(fr', o) := checkFrameOrder (set_r (set_lastFrame (set_errDetail fr None) (invalidate <$> lastFrame fr))
                       (mkReader rest (rerr (fr_r fr)))) f in
    (fr', obind o (fun _ => Ret f)).
Proof.
  intros Hc Hw Hr Hm. destruct (wire_header b f Hw) as (p & Hp & Hl & Hh).
  unfold readOrdered. cbn [fr_r set_lastFrame set_errDetail]. destruct (fr_r fr) as [rd e] eqn:Er. cbn [rdata] in Hr. subst rd.
  rewrite Hh. cbn [maxReadSize set_r set_lastFrame set_errDetail fr_r rerr].
  destruct (Z.gtb_spec (Length (Header f)) (maxReadSize fr)); [lia|].
  pose proof (Hc (Length (Header f))). destruct (Z.gtb_spec (Length (Header f)) (chunkCap (Length (Header f)))); [lia|].
  rewrite andb_false_r, Hl, ReadFull_app. cbn [obind]. by rewrite Hp.
Qed.

Section Total.
Context (chunkCap : Z -> Z) (HchunkCap : forall n, n <= chunkCap n).

Record ordered_post (fr fr' : Framer) (o : outcome frameErr Frame) : Prop := {
  op_safe : o <> Panic;
  op_conf : same_conf fr fr';
  op_inv : order_inv fr';
  op_len : (length (rdata (fr_r fr')) <= length (rdata (fr_r fr)))%nat;
  op_ret : forall f, o = Ret f ->
    (length (frag_of f) + length (rdata (fr_r fr')) + 9 <= length (rdata (fr_r fr)))%nat /\
    valid (Header f) = true /\ ordered_after fr fr' f /\
    (Type_ (Header f) = FrameContinuation -> exists b, f = ContinuationFrame (Header f) b) /\
    (Type_ (Header f) = FrameHeaders \/ Type_ (Header f) = FrameContinuation -> StreamID (Header f) <> 0) /\
    named f (Header f)
}.

Lemma readOrdered_spec fr :
  order_inv fr -> exists fr' o, readOrdered chunkCap fr = (fr', o) /\ ordered_post fr fr' o.
Proof.
  intros Hinv. unfold readOrdered. cbn [fr_r set_lastFrame set_errDetail].
  destruct (readFrameHeader_spec (fr_r fr)) as (r & h & -> & Hnp & Hl & Hh).
  assert (Hi : forall r, order_inv (set_r (set_lastFrame (set_errDetail fr None)
    (invalidate <$> lastFrame fr)) r)) by (intros ?; unfold order_inv in *; simpl; destruct (lastFrame fr); auto).
  destruct h as [fh|e|]; [|eexists _, _; split; [reflexivity|]; by split|done].
  destruct (Hh fh eq_refl) as [Hv Hlen]. cbn [maxReadSize set_r fr_r].
  case_if; [eexists _, _; split; [reflexivity|]; by split|].
  destruct (Z.gtb_spec (Length fh) (chunkCap (Length fh))); [specialize (HchunkCap (Length fh)); lia|].
  rewrite andb_false_r. destruct (ReadFull_spec r (Length fh)) as (r' & p & -> & Hnp' & Hl' & Hio & Hp).
  set (fr1 := set_r (set_r _ r) r').
  assert (Hfail : forall e, ordered_post fr fr1 (Fail e))
    by (intros e; split; [done|done|apply (Hi r')|simpl; lia|done]).
  assert (Hdet : forall e w, ordered_post fr (set_errDetail fr1 w) (Fail e))
    by (intros e w; split; [done|done|apply (Hi r')|simpl; lia|done]).
  destruct p as [p|e|]; cbn [obind]; [|destruct (Hio e eq_refl) as [i ->]; by eexists _, _; split; [done|]|done].
  destruct (typeFrameParser_ok fh p Hv) as [Hpn Hpf].
  destruct (typeFrameParser (Type_ fh) fh p) as [f|e|]; [|destruct e; by eexists _, _; split; [reflexivity|]|done].
  destruct (Hpf f eq_refl) as (Hhd & Hcont & Hsid & Hfrag & Hnm), (Hp p eq_refl) as [Hpl Hrl].
  destruct (checkFrameOrder_safe fr1 f (Hi r')) as (fr' & o & -> & Ho & Hr & Hc & Hlast & Hord).
  eexists _, _. split; [done|]. split.
  - by destruct o as [[]| |].
  - exact Hc.
  - unfold order_inv. by rewrite Hlast.
  - rewrite Hr. simpl. lia.
  - intros g Hg. destruct o as [[]| |]; try done. injection Hg as <-. rewrite Hhd, Hr.
    split_and!; [simpl; lia|done|exact (Hord eq_refl)|done|done|done].
Qed.

(** Reading a continuation: the only frame that can follow an open block. *)
Lemma read_continuation fr :
  order_inv fr -> AllowIllegalReads fr = false -> lastHeaderStream fr <> 0 ->
  exists fr' o, ReadFrameN chunkCap 1 fr = (fr', o) /\ o <> Panic /\ same_conf fr fr' /\ order_inv fr' /\
    (length (rdata (fr_r fr')) <= length (rdata (fr_r fr)))%nat /\
    forall a, o = Ret a -> exists fh b, a = Plain (ContinuationFrame fh b) /\ valid fh = true /\
      (length b + length (rdata (fr_r fr')) + 9 <= length (rdata (fr_r fr)))%nat /\
      (Has (Flags fh) FlagContinuationEndHeaders = false -> lastHeaderStream fr' <> 0).
Proof.
  intros Hinv Hill Hlhs. cbn [ReadFrameN].
  destruct (readOrdered_spec fr Hinv) as (fr' & o & -> & [Hs Hc Hi Hl Hr]).
  destruct o as [f|e|]; [|by eexists _, _|done].
  destruct (Hr f eq_refl) as (Hlen & Hv & Hord & Hcont & Hsid & _).
  destruct (Hord Hill) as [Ht Hnext]. specialize (Ht Hlhs). destruct (Hcont Ht) as [b Hf].
  rewrite Hf in *. cbn [Header frag_of] in *.
  eexists _, _. split; [reflexivity|]. split_and!; [done|done|done|done|].
  intros a [= <-]. eexists _, b. split; [reflexivity|]. split_and!; [done|done|].
  intros Hend. rewrite Hnext by (by right). change FlagHeadersEndHeaders with FlagContinuationEndHeaders.
  rewrite Hend. apply Hsid. by right.
Qed.

(** The decoder of a framer, between two frames. *)
Definition dec_ready (fr : Framer) (n : Z) (d : Decoder) : Prop :=
  dec_wf (SetMaxStringLength d (maxHeaderStringLen fr)) /\
  len (saveBuf d) <= 2 * (maxHeaderStringLen fr + 8) /\ pot d + n < 2 ^ 62.

Record fr_wf (fr : Framer) : Prop := {
  fw_order : order_inv fr;
  fw_limit : 0 < maxHeaderStringLen fr < 2 ^ 30;
  fw_dec : forall d, ReadMetaHeaders fr = Some d -> dec_ready fr (len (rdata (fr_r fr))) d
}.

(** Inside a block: the limit on strings is set. *)
Record in_block (fr : Framer) (n : Z) (d : Decoder) : Prop := {
  ib_dec : ReadMetaHeaders fr = Some d;
  ib_order : order_inv fr;
  ib_limit : 0 < maxHeaderStringLen fr < 2 ^ 30;
  ib_strlen : maxStrLen d = maxHeaderStringLen fr;
  ib_ready : dec_ready fr n d
}.

Lemma in_block_wf fr d : in_block fr (len (rdata (fr_r fr))) d -> fr_wf fr.
Proof. intros [Hd Ho Hl _ Hr]. split; [done|done|]. intros d' Hd'. by simplify_eq. Qed.

Lemma maxHeaderStringLen_conf fr fr' :
  same_conf fr fr' -> maxHeaderStringLen fr' = maxHeaderStringLen fr.
Proof. intros (_ & _ & _ & H). unfold maxHeaderStringLen, maxHeaderListSize. by rewrite H. Qed.

Lemma in_block_write fr n d st frag :
  0 <= n -> in_block fr (len frag + n) d -> exists d' st' e, dec_Write metaEmit d st frag = Some (d', st', e) /\
    in_block (set_dec fr d') n d'.
Proof.
  intros Hn [Hd Ho Hl Hs (Hwf & Hsb & Hpot)].
  assert (Hdw : dec_wf d) by (by eapply dec_wf_ext; [..|exact Hwf]; [|rewrite Hs]).
  rewrite <- Hs in Hsb. pose proof (len_nonneg frag).
  destruct (Write_post metaEmit d st frag Hdw) as (d' & st' & e & Hw & [Hwf' Hp' [_ Hm'] Hsb']);
    [lia|done|].
  exists d', st', e. split; [done|]. rewrite len_app in Hp'.
  split; [done|done|done|by rewrite Hm', Hs|]. split_and!.
  - eapply dec_wf_ext; [..|exact Hwf']; [done|]. by rewrite Hm', Hs.
  - change (maxHeaderStringLen (set_dec fr d')) with (maxHeaderStringLen fr). by rewrite <- Hs, <- Hm'.
  - unfold pot in *. lia.
Qed.

Lemma metaLoop_safe fuel : forall fr d st frag (ended : bool),
  (length (rdata (fr_r fr)) < fuel)%nat -> in_block fr (len frag + len (rdata (fr_r fr))) d ->
  AllowIllegalReads fr = false -> (ended = false -> lastHeaderStream fr <> 0) ->
  exists fr' o d', metaLoop (ReadFrameN chunkCap 1) fuel fr st frag ended = (fr', o) /\ o <> Panic /\
    in_block fr' (len (rdata (fr_r fr'))) d' /\ (length (rdata (fr_r fr')) <= length (rdata (fr_r fr)))%nat.
Proof.
  induction fuel as [|fuel IH]; intros fr d st frag ended Hf Hb Hill Hlhs; [lia|].
  cbn [metaLoop]. rewrite (ib_dec _ _ _ Hb).
  destruct (in_block_write fr (len (rdata (fr_r fr))) d st frag (len_nonneg _) Hb)
    as (d' & st' & e & -> & Hb').
  destruct e; [by eexists _, _, d'|]. destruct ended; [by eexists _, _, d'|].
  destruct (read_continuation (set_dec fr d') (ib_order _ _ _ Hb) Hill (Hlhs eq_refl))
    as (fr' & o & -> & Hnp & Hc & Ho & Hl & Hret).
  cbn [fr_r set_dec] in Hl, Hret.
  assert (Hd' : ReadMetaHeaders fr' = Some d') by apply Hc.
  pose proof (maxHeaderStringLen_conf _ _ Hc) as HL.
  assert (Hblock : forall n, n <= len (rdata (fr_r fr)) -> in_block fr' n d').
  { intros n Hn. destruct Hb' as [_ _ Hlim Hstr (Hwf & Hsv & Hpot)].
    split; [done|done|by rewrite HL|by rewrite HL|]. unfold dec_ready. rewrite HL.
    split_and!; [done|done|lia]. }
  destruct o as [a|e|]; [|eexists _, _, d'; split_and!; [done|done|apply Hblock; unfold len; lia|done]|done].
  destruct (Hret a eq_refl) as (fh & b & -> & Hv & Hlen & Hnext). rewrite Hv. cbn [negb].
  destruct (IH fr' d' st' b (Has (Flags fh) FlagContinuationEndHeaders)) as (fr2 & o2 & d2 & Hm & ? & ? & ?).
  - lia.
  - apply Hblock. unfold len. lia.
  - destruct Hc as (_ & -> & _). done.
  - done.
  - exists fr2, o2, d2. split_and!; [done|done|done|lia].
Qed.

(** Closing the block. *)
Lemma in_block_close fr n d :
  in_block fr n d -> let '(d', e) := dec_Close d in in_block (set_dec fr d') n d'.
Proof.
  intros [Hd Ho Hl Hs (Hwf & Hsb & Hpot)]. unfold dec_Close.
  destruct (saveBuf d) as [|b p] eqn:E.
  - split; [done|done|done|done|]. split_and!; [by eapply dec_wf_ext; [..|exact Hwf]|by simpl; rewrite E|].
    unfold pot in *. simpl. by rewrite E in *.
  - split; [done|done|done|done|]. split_and!; [by eapply dec_wf_ext; [..|exact Hwf]| |].
    + simpl. rewrite len_nil. change (maxHeaderStringLen (set_dec fr _)) with (maxHeaderStringLen fr). lia.
    + unfold pot in *. simpl. rewrite E in Hpot. rewrite len_nil. pose proof (len_nonneg (b :: p)). lia.
Qed.

Lemma readMetaFrame_safe fr fh prio frag n :
  fr_wf fr -> (forall d, ReadMetaHeaders fr = Some d -> dec_ready fr (len frag + len (rdata (fr_r fr))) d) ->
  is_Some (ReadMetaHeaders fr) -> valid fh = true ->
  (AllowIllegalReads fr = false -> Has (Flags fh) FlagHeadersEndHeaders = false -> lastHeaderStream fr <> 0) ->
  (length (rdata (fr_r fr)) <= n)%nat ->
  exists fr' o, readMetaFrame (ReadFrameN chunkCap 1) fr fh prio frag = (fr', o) /\ o <> Panic /\
    fr_wf fr' /\ (length (rdata (fr_r fr')) <= n)%nat.
Proof.
  intros [Ho Hl _] Hdec [d Hd] Hv Hlhs Hn. unfold readMetaFrame.
  destruct (AllowIllegalReads fr) eqn:Hill.
  { eexists _, _. split_and!; [done|done| |done]. split; [done|done|]. intros d' Hd'.
    destruct (Hdec d' Hd') as (? & ? & ?). pose proof (len_nonneg frag). split_and!; [done|done|lia]. }
  rewrite Hd, Hv. cbn [negb]. destruct (Hdec d Hd) as (Hwf & Hsb & Hpot).
  set (d0 := SetMaxStringLength (SetEmitEnabled d true) (maxHeaderStringLen fr)).
  destruct (metaLoop_safe (S (length (rdata (fr_r fr)))) (set_dec fr d0) d0
    (mkMS (maxHeaderListSize fr) false None false []) frag (Has (Flags fh) FlagHeadersEndHeaders))
    as (fr' & o & d' & -> & Hnp & Hb & Hlen).
  { cbn [fr_r set_dec]. lia. }
  { split; [done|done|done|done|]. split_and!; [by eapply dec_wf_ext; [..|exact Hwf]|done|done]. }
  { done. }
  { by apply Hlhs. }
  cbn [fr_r set_dec] in Hlen. assert (Hw : fr_wf fr') by (by eapply in_block_wf).
  destruct o as [st|e|]; [|eexists _, _; split_and!; [done|done|done|lia]|done].
  rewrite (ib_dec _ _ _ Hb). pose proof (in_block_close _ _ _ Hb) as Hcl.
  destruct (dec_Close d') as [d'' ce].
  assert (Hcw : fr_wf (set_dec fr' d'')) by exact (in_block_wf _ _ Hcl).
  assert (Hdet : forall w, fr_wf (set_errDetail (set_dec fr' d'') w)) by (intros w; by destruct Hcw; split).
  destruct ce; [eexists _, _; split_and!; [done|done|done|simpl; lia]|].
  destruct (invalid st); [eexists _, _; split_and!; [done|done|apply Hdet|simpl; lia]|].
  destruct (checkPseudos _); eexists _, _; split_and!; [done|done|apply Hdet|simpl; lia|done|done|done|simpl; lia].
Qed.

Lemma ReadFrame_safe fr :
  fr_wf fr -> exists fr' o, ReadFrame chunkCap fr = (fr', o) /\ o <> Panic /\ fr_wf fr' /\
    (length (rdata (fr_r fr')) <= length (rdata (fr_r fr)))%nat.
Proof.
  intros Hwf. unfold ReadFrame. set (rec := ReadFrameN chunkCap 1). cbn [ReadFrameN]. fold rec.
  destruct (readOrdered_spec fr (fw_order _ Hwf)) as (fr' & o & -> & [Hs Hc Hi Hl Hr]).
  pose proof (maxHeaderStringLen_conf _ _ Hc) as HL.
  assert (Hdec : forall d n, ReadMetaHeaders fr' = Some d -> n <= len (rdata (fr_r fr)) -> dec_ready fr' n d).
  { intros d n Hd Hn. destruct Hc as (_ & _ & Hm & _). rewrite Hm in Hd.
    destruct (fw_dec _ Hwf d Hd) as (? & ? & ?). unfold dec_ready. rewrite HL. split_and!; [done|done|lia]. }
  assert (Hw : fr_wf fr').
  { split; [done|rewrite HL; apply Hwf|]. intros d Hd. apply Hdec; [done|unfold len; lia]. }
  destruct o as [f|e|]; [|by eexists _, _|done].
  destruct (Hr f eq_refl) as (Hlen & Hv & Hord & _ & Hsid & Hnm).
  destruct f as [| fh prio frag | | | | | | | | |]; try by eexists _, _.
  destruct (ReadMetaHeaders fr') as [d|] eqn:Hd; [|by eexists _, _].
  cbn [Header frag_of] in *. apply readMetaFrame_safe; [done| |by rewrite Hd|done| |lia].
  - intros d' Hd'. apply Hdec; [congruence|]. unfold len. lia.
  - intros Hill Hend. destruct Hc as (_ & Hill' & _). rewrite Hill' in Hill.
    destruct (Hord Hill) as [_ Hnext]. cbn [Header] in Hnext. rewrite Hnext, Hend by (by left). apply Hsid. by left.
Qed.
End Total.

(** ** What a header block that is accepted satisfies *)

(** The fields collected so far: the pseudo-headers first, then regular fields
    with names in lower case; their sizes are what is taken from the limit. *)
Record ms_ok (limit : Z) (st : metaState) : Prop := {
  mo_split : exists ps rs, ms_Fields st = ps ++ rs /\ Forall (fun f => IsPseudo f = true) ps /\
    Forall (fun f => IsPseudo f = false /\ validWireHeaderFieldName (Name f) = true) rs /\
    (invalid st = None -> sawRegular st = false -> rs = []);
  mo_size : sum_size (ms_Fields st) + remainSize st = limit;
  mo_remain : is_u32 (remainSize st)
}.

Lemma hasColon_IsPseudo f : hasColon (Name f) = IsPseudo f.
Proof. done. Qed.

Lemma metaEmit_ok limit f st : ms_ok limit st -> ms_ok limit (metaEmit f st true).1.
Proof.
  intros [(ps & rs & Hf & Hps & Hrs & Hsaw) Hsz Hrem].
  assert (Hadd : forall st', ms_Fields st' = ms_Fields st -> remainSize st' = remainSize st ->
    (invalid st' = None -> sawRegular st' = false -> rs = []) -> ms_ok limit st').
  { intros st' E1 E2 H. split; rewrite ?E1, ?E2; [by exists ps, rs|done|done]. }
  unfold metaEmit. set (st1 := if hasColon (Name f) then _ else _).
  assert (H1 : ms_Fields st1 = ms_Fields st /\ remainSize st1 = remainSize st /\
    (invalid st1 = None -> sawRegular st1 = false -> rs = []) /\
    (invalid st1 = None -> if IsPseudo f then sawRegular st1 = false
       else validWireHeaderFieldName (Name f) = true /\ sawRegular st1 = true)).
  { unfold st1. rewrite hasColon_IsPseudo. destruct (IsPseudo f).
    - destruct (sawRegular st) eqn:Es; [done|]. split_and!; [done|done|intros ? _; by apply Hsaw|done].
    - split_and!; [done|done|done|]. simpl. by destruct (validWireHeaderFieldName (Name f)). }
  destruct H1 as (E1 & E2 & H3 & H4). destruct (invalid st1) eqn:Ei; [apply Hadd; [done|done|cbn [fst]; rewrite Ei; discriminate]|].
  destruct (Z.gtb_spec (Size f) (remainSize st1)); [apply Hadd; [done|done|intros _; by apply H3]|].
  pose proof (Size_range f) as [Hs0 _]. unfold is_u32 in *. rewrite E2 in *.
  specialize (H4 eq_refl). split; cbn [fst ms_Fields remainSize sawRegular]; rewrite ?E1.
  - rewrite Hf. destruct (IsPseudo f) eqn:Ep.
    + rewrite (H3 eq_refl H4), app_nil_r. exists (ps ++ [f]), []. rewrite app_nil_r.
      split_and!; [done|by apply Forall_app; split; [|apply Forall_singleton]|constructor|done].
    + destruct H4 as [Hv Hsr]. exists ps, (rs ++ [f]). rewrite app_assoc.
      split_and!; [done|done|by apply Forall_app; split; [|apply Forall_singleton]|]. by rewrite Hsr.
  - rewrite sum_size_app. simpl. rewrite u32_small by lia. lia.
  - apply u32_range.
Qed.

Lemma metaLoop_fields limit rec fuel : forall fr st frag ended fr' st',
  ms_ok limit st -> metaLoop rec fuel fr st frag ended = (fr', Ret st') -> ms_ok limit st'.
Proof.
  induction fuel as [|fuel IH]; intros fr st frag ended fr' st' Hst; cbn [metaLoop];
    (destruct (ReadMetaHeaders fr) as [d|]; [|done]);
    (destruct (dec_Write metaEmit d st frag) as [[[d1 st1] e]|] eqn:E; [|done]);
    apply (Write_emit_inv metaEmit (ms_ok limit) (metaEmit_ok limit)) in E; try done;
    (destruct e; [done|]); (destruct ended; [by intros [= _ <-]|]); [done|].
  destruct (rec _) as [fr1 [[f|mh]|e|]]; [|done..]. destruct f; try done.
  destruct (negb _); [done|]. by apply IH.
Qed.

(** The pseudo-headers [checkPseudos] lets pass. *)
Definition pseudos_ok (names : list (list Z)) : Prop :=
  NoDup names /\ Forall (fun n => n ∈ requestPseudos \/ n = str ":status") names /\
  ~ ((exists n, n ∈ names /\ n ∈ requestPseudos) /\ str ":status" ∈ names).

Lemma status_not_request : str ":status" ∉ requestPseudos.
Proof. by apply (bool_decide_unpack _); vm_compute. Qed.

Lemma checkPseudosLoop_ok pf : forall seen req resp,
  NoDup (Name <$> seen) -> Forall (fun n => n ∈ requestPseudos \/ n = str ":status") (Name <$> seen) ->
  (req = true <-> exists n, n ∈ Name <$> seen /\ n ∈ requestPseudos) ->
  (resp = true <-> str ":status" ∈ Name <$> seen) ->
  checkPseudosLoop seen pf req resp = None -> pseudos_ok (Name <$> (seen ++ pf)).
Proof.
  induction pf as [|f pf IH]; intros seen req resp Hnd Hall Hreq Hresp; cbn [checkPseudosLoop].
  { rewrite app_nil_r. destruct req, resp; try done; intros _; (split_and!; [done|done|]);
      rewrite <- Hreq, <- Hresp; by intros []. }
  assert (Hdup : existsb (fun hf2 => bool_decide (Name f = Name hf2)) seen = false ->
    Name f ∉ Name <$> seen).
  { intros Hd (g & Hg & Hin)%list_elem_of_fmap. apply not_true_iff_false in Hd. apply Hd, existsb_exists.
    exists g. split; [by apply list_elem_of_In|by apply bool_decide_eq_true]. }
  rewrite (cons_middle f seen pf), app_assoc.
  destruct (existsb _ seen); [by repeat case_if|]. specialize (Hdup eq_refl).
  assert (Hnd' : NoDup ((Name <$> seen) ++ [Name f])).
  { apply NoDup_app. split_and!; [done| |apply NoDup_singleton].
    by intros n Hn ->%list_elem_of_singleton. }
  pose proof status_not_request as Hstat.
  case_bool_decide as Er; [|case_bool_decide as Es; [|done]];
    apply IH; rewrite ?fmap_app; cbn [fmap list_fmap]; try done.
  - apply Forall_app. split; [done|]. apply Forall_singleton. by left.
  - split; [|done]. intros _. exists (Name f). set_solver.
  - rewrite Hresp, elem_of_app, list_elem_of_singleton. split; [by left|]. intros [|H]; [done|].
    by rewrite H in Hstat.
  - apply Forall_app. split; [done|]. apply Forall_singleton. by right.
  - rewrite Hreq. setoid_rewrite elem_of_app. setoid_rewrite list_elem_of_singleton.
    split; [intros (n & ? & ?); exists n; auto|]. intros (n & [?| ->] & ?); [by exists n|done].
  - split; [|done]. intros _. rewrite Es. apply elem_of_app. right. by apply list_elem_of_singleton.
Qed.

Lemma PseudoFields_app ps rs :
  Forall (fun f => IsPseudo f = true) ps -> Forall (fun f => IsPseudo f = false) rs ->
  PseudoFields (ps ++ rs) = ps.
Proof.
  intros Hps Hrs. induction Hps as [|f ps Hf _ IH]; simpl; [|by rewrite Hf, IH].
  destruct Hrs as [|g rs Hg]; simpl; [done|]. by rewrite Hg.
Qed.

(** A list of fields as a peer may send it. *)
Definition fields_ok (limit : Z) (fs : list HeaderField) : Prop :=
  sum_size fs <= limit /\ exists ps rs, fs = ps ++ rs /\
    Forall (fun f => IsPseudo f = true) ps /\
    Forall (fun f => IsPseudo f = false /\ validWireHeaderFieldName (Name f) = true) rs /\
    pseudos_ok (Name <$> ps).

Lemma readMetaFrame_fields rec fr fh prio frag fr' mh :
  0 <= maxHeaderListSize fr < 2 ^ 32 ->
  readMetaFrame rec fr fh prio frag = (fr', Ret (Meta mh)) -> fields_ok (maxHeaderListSize fr) (mh_Fields mh).
Proof.
  intros Hlim. unfold readMetaFrame. destruct (AllowIllegalReads fr); [done|].
  destruct (ReadMetaHeaders fr); [|done]. destruct (negb (valid fh)); [done|].
  destruct (metaLoop _ _ _ _ _ _) as [fr1 [st|e|]] eqn:E; [|done|done].
  destruct (ReadMetaHeaders fr1); [|done]. destruct (dec_Close _) as [d' [ce|]]; [done|].
  destruct (invalid st); [done|]. destruct (checkPseudos (ms_Fields st)) eqn:Ep; [done|].
  intros [= _ <-]. cbn [mh_Fields].
  apply (metaLoop_fields (maxHeaderListSize fr)) in E as [(ps & rs & Hf & Hps & Hrs & _) Hsz Hrem].
  - split; [unfold is_u32 in Hrem; lia|]. exists ps, rs. split_and!; [done|done|done|].
    unfold checkPseudos in Ep. rewrite Hf, PseudoFields_app in Ep; [|done|].
    + apply (checkPseudosLoop_ok ps []) in Ep; [done|constructor|constructor| |].
      * split; [done|]. by intros (n & ?%not_elem_of_nil & _).
      * split; [done|]. by intros ?%not_elem_of_nil.
    + eapply Forall_impl; [exact Hrs|]. by intros f [].
  - split; cbn [ms_Fields remainSize]; [|simpl; lia|done].
    exists [], []. split_and!; [done|constructor|constructor|done].
Qed.

Lemma limit_range fr : 0 < maxHeaderStringLen fr -> 0 <= maxHeaderListSize fr < 2 ^ 32.
Proof.
  unfold maxHeaderStringLen. destruct (Z.eqb_spec (u32 (i64 (maxHeaderListSize fr))) (maxHeaderListSize fr)) as [<-|];
    [intros _; apply u32_range|lia].
Qed.

(** ** The theorems of the reader *)



(** C10.  Whatever arrives on the connection, [ReadFrame] returns a frame or an
    error: it does not panic, the type assertion on the frame after an open
    header block included, its loop over the continuations ends, and the framer
    is left in a state in which it can be called again. *)
Theorem ReadFrame_total (chunkCap : Z -> Z) fr :
  (forall n, n <= chunkCap n) -> fr_wf fr ->
  exists fr' o, ReadFrame chunkCap fr = (fr', o) /\ o <> Panic /\ fr_wf fr' /\
    (length (rdata (fr_r fr')) <= length (rdata (fr_r fr)))%nat.
Proof. intros Hc Hwf. by apply ReadFrame_safe. Qed.

Definition sample_framer (bytes : list Z) : Framer :=
  mkFramer (mkReader bytes EOF) None None 0 16384 false (Some sample_decoder) 1000.

Lemma sample_framer_wf : fr_wf (sample_framer [0; 0; 1; 1; 4; 0; 0; 0; 3; 0x82]).
Proof.
  split; [by intros []|by vm_compute|]. intros d [= <-]. split_and!; [|by vm_compute|by vm_compute].
  eapply dec_wf_ext; [..|exact sample_decoder_wf]; reflexivity.
Qed.

Lemma ReadFrame_total_witness :
  exists fr' o, ReadFrame (fun n => n) (sample_framer [0; 0; 1; 1; 4; 0; 0; 0; 3; 0x82]) = (fr', o) /\
    o <> Panic /\ fr_wf fr'.
Proof.
  destruct (ReadFrame_total (fun n => n) (sample_framer [0; 0; 1; 1; 4; 0; 0; 0; 3; 0x82]))
    as (fr' & o & H1 & H2 & H3 & _).
  - intros n. lia.
  - apply sample_framer_wf.
  - exists fr', o. auto.
Defined.

(** C28.  A header list that [ReadFrame] returns is a legal one: its size is
    within the limit (also when it was truncated), the pseudo-headers come
    first, are known, occur once and are not those of a request and a response
    at once, and the names of the other fields have no capitals. *)
Theorem ReadFrame_fields (chunkCap : Z -> Z) fr fr' mh :
  (forall n, n <= chunkCap n) -> fr_wf fr ->
  ReadFrame chunkCap fr = (fr', Ret (Meta mh)) ->
  fields_ok (maxHeaderListSize fr) (mh_Fields mh).
Proof.
  intros Hc Hwf. unfold ReadFrame. set (rec := ReadFrameN chunkCap 1). cbn [ReadFrameN]. fold rec.
  destruct (readOrdered_spec chunkCap Hc fr (fw_order _ Hwf)) as (fr1 & o & -> & [_ (_ & _ & _ & Hm) _ _ _]).
  assert (Hsame : maxHeaderListSize fr1 = maxHeaderListSize fr) by (unfold maxHeaderListSize; by rewrite Hm).
  destruct o as [f|e|]; [|done|done]. destruct f; try done.
  destruct (ReadMetaHeaders fr1); [|done]. rewrite <- Hsame. apply readMetaFrame_fields.
  rewrite Hsame. apply limit_range, Hwf.
Qed.

Lemma ReadFrame_fields_witness :
  fields_ok 1000 [hf ":method" "GET"].
Proof.
  refine (ReadFrame_fields (fun n => n) (sample_framer [0; 0; 1; 1; 4; 0; 0; 0; 3; 0x82]) _
    (mkMeta (mkFH false 1 4 1 3) PriorityParam_zero [hf ":method" "GET"] false) _ sample_framer_wf _).
  - intros n. lia.
  - vm_compute. reflexivity.
Defined.
