(* ===== verification/FrameTyped.v ===== *)
(** * The frames [ReadFrame] returns are well typed

    The fields of a frame have Go's types in the source and are integers and lists
    here.  Whatever bytes the peer sends, the frames that come out of [ReadFrame]
    have the ranges of those types, and the ranges RFC 7540 promises on top of
    them: what the handlers of a connection take for granted. *)
From S2P Require Import Prelude Bits HpackTables HpackHuffman HpackCodec Frame FrameRead.

Definition header_typed (fh : FrameHeader) : Prop :=
  is_u8 (Type_ fh) /\ is_u8 (Flags fh) /\ 0 <= Length fh < 2 ^ 24 /\ 0 <= StreamID fh < 2 ^ 31.

Definition frame_typed (f : Frame) : Prop :=
  header_typed (Header f) /\
  match f with
  | DataFrame fh d => sid_ok (StreamID fh) /\ bytes_ok d /\ len d <= Length fh
  | HeadersFrame fh p b => sid_ok (StreamID fh) /\ prio_ok p /\ bytes_ok b
  | PriorityFrame fh p => sid_ok (StreamID fh) /\ prio_ok p
  | RSTStreamFrame fh c => sid_ok (StreamID fh) /\ is_u32 c
  | SettingsFrame fh p =>
      StreamID fh = 0 /\ bytes_ok p /\ len p mod 6 = 0 /\ (Has (Flags fh) FlagSettingsAck = true -> p = [])
  | PushPromiseFrame fh i b => sid_ok (StreamID fh) /\ 0 <= i < 2 ^ 31 /\ bytes_ok b
  | PingFrame fh d => StreamID fh = 0 /\ bytes_ok d /\ len d = 8
  | GoAwayFrame fh l c d => StreamID fh = 0 /\ 0 <= l < 2 ^ 31 /\ is_u32 c /\ bytes_ok d
  | WindowUpdateFrame fh i => 0 < i < 2 ^ 31
  | ContinuationFrame fh b => sid_ok (StreamID fh) /\ bytes_ok b
  | UnknownFrame fh p => FrameContinuation < Type_ fh /\ bytes_ok p
  end.

Definition any_typed (a : anyFrame) : Prop :=
  match a with
  | Plain f => frame_typed f
  | Meta mh => header_typed (mh_header mh) /\ sid_ok (StreamID (mh_header mh)) /\ prio_ok (mh_priority mh)
  end.

(** ** Parts of a frame *)
Lemma Uint32_typed b v : bytes_ok b -> Uint32 b = Ret v -> is_u32 v.
Proof.
  intros Hb. destruct b as [|b0 [|b1 [|b2 [|b3 b]]]]; try discriminate. intros [= <-].
  do 4 (apply Forall_cons in Hb as [? Hb]). unfold is_u8, is_u32 in *.
  rewrite (lor_add _ _ 8), (lor_add _ _ 16), (lor_add _ _ 24) by lia. lia.
Qed.
Lemma land31 v : 0 <= Z.land v (2 ^ 31 - 1) < 2 ^ 31.
Proof. rewrite (land_low v 31) by done. apply Z.mod_pos_bound. lia. Qed.

Lemma bytes_ok_drop n p : bytes_ok p -> bytes_ok (drop n p).
Proof. apply Forall_drop. Qed.
Lemma bytes_ok_take n p : bytes_ok p -> bytes_ok (take n p).
Proof. apply Forall_take. Qed.
Create HintDb typed discriminated.
#[export] Hint Resolve bytes_ok_drop bytes_ok_take : typed.

Lemma unpad_typed p n : bytes_ok p -> bytes_ok (unpad p n) /\ len (unpad p n) <= len p.
Proof.
  intros Hp. unfold unpad. split; [auto with typed|]. unfold len. rewrite length_take. lia.
Qed.

Lemma readByte_typed p p' b : bytes_ok p -> readByte p = Ret (p', b) -> bytes_ok p' /\ is_u8 b /\ len p' <= len p.
Proof.
  intros Hp. destruct p as [|x p]; [done|]. intros [= <- <-]. apply Forall_cons in Hp as [? ?].
  rewrite len_cons. split_and!; [done|done|lia].
Qed.
Lemma readPad_typed b p p' n : bytes_ok p -> readPad b p = Ret (p', n) -> bytes_ok p' /\ len p' <= len p.
Proof.
  destruct b; [|by intros Hp [= <- <-]]. intros Hp H. by apply readByte_typed in H as (? & _ & ?).
Qed.
Lemma readUint32_typed p p' v : bytes_ok p -> readUint32 p = Ret (p', v) -> bytes_ok p' /\ is_u32 v.
Proof.
  intros Hp. unfold readUint32. case_if; [done|]. destruct (Uint32 p) as [w| |] eqn:E; [|done..]. intros [= <- <-].
  split; [auto with typed|by eapply Uint32_typed].
Qed.
Lemma parsePriority_typed p p' pr : bytes_ok p -> parsePriority p = Ret (p', pr) -> bytes_ok p' /\ prio_ok pr.
Proof.
  intros Hp. unfold parsePriority. destruct (readUint32 p) as [[p1 v]| |] eqn:E1; [|done..]. cbn [obind].
  apply readUint32_typed in E1 as [Hp1 _]; [|done].
  destruct (readByte p1) as [[p2 w]| |] eqn:E2; [|done..]. cbn [obind]. intros [= <- <-].
  apply readByte_typed in E2 as (? & ? & _); [|done]. split; [done|]. split; [apply land31|done].
Qed.

(** ** Frames *)
Section Typed.
Context (fh : FrameHeader) (p : list Z).
Hypothesis Hfh : header_typed fh.
Hypothesis Hp : bytes_ok p.
Hypothesis Hlen : len p = Length fh.

Lemma sid_typed : (StreamID fh =? 0) = false -> sid_ok (StreamID fh).
Proof. destruct Hfh as (_ & _ & _ & ?). unfold sid_ok. lia. Qed.

(** Split on the checks of a parser; what remains is the frame it returns. *)
Ltac checks := repeat (match goal with |- (if ?b then _ else _) = _ -> _ => destruct b eqn:?; [done|] end).
Ltac typed := split; [exact Hfh|]; cbn; split_and!; auto using sid_typed, land31 with typed.

Lemma parseDataFrame_typed f : parseDataFrame fh p = Ret f -> frame_typed f.
Proof.
  unfold parseDataFrame. checks. destruct (readPad _ p) as [[p1 n]| |] eqn:E; [|done..]. cbn [obind].
  checks. intros [= <-]. apply readPad_typed in E as [Hp1 Hl]; [|done]. destruct (unpad_typed p1 n Hp1).
  typed. lia.
Qed.
Lemma parseHeadersFrame_typed f : parseHeadersFrame fh p = Ret f -> frame_typed f.
Proof.
  unfold parseHeadersFrame. checks. destruct (readPad _ p) as [[p1 n]| |] eqn:E; [|done..]. cbn [obind].
  apply readPad_typed in E as [Hp1 _]; [|done].
  assert (Hpr : forall p2 q, (if Has (Flags fh) FlagHeadersPriority then parsePriority p1 else Ret (p1, PriorityParam_zero)) =
                Ret (p2, q) -> bytes_ok p2 /\ prio_ok q).
  { intros p2 q. case_if; [by apply parsePriority_typed|]. intros [= <- <-]. done. }
  destruct (if Has (Flags fh) FlagHeadersPriority then _ else _) as [[p2 q]| |]; [|done..]. cbn [obind]. checks. intros [= <-].
  destruct (Hpr p2 q eq_refl) as [Hp2 ?]. destruct (unpad_typed p2 n Hp2). typed.
Qed.
Lemma parsePriorityFrame_typed f : parsePriorityFrame fh p = Ret f -> frame_typed f.
Proof.
  unfold parsePriorityFrame. checks. destruct (Uint32 p) as [v| |]; [|done..]. cbn [obind].
  destruct (p !! 4%nat) as [w|] eqn:E; [|done]. intros [= <-]. typed. split; [apply land31|].
  by eapply Forall_lookup_1 in E.
Qed.
Lemma parseRSTStreamFrame_typed f : parseRSTStreamFrame fh p = Ret f -> frame_typed f.
Proof.
  unfold parseRSTStreamFrame. checks. destruct (Uint32 p) as [v| |] eqn:E; [|done..]. intros [= <-].
  typed. by eapply Uint32_typed.
Qed.
Lemma parseSettingsFrame_typed f : parseSettingsFrame fh p = Ret f -> frame_typed f.
Proof.
  unfold parseSettingsFrame. checks. destruct (Settings_Value fh p _) as [v| |]; [|done..]. cbn [obind].
  intros H. assert (f = SettingsFrame fh p) as -> by (destruct v as [v|]; [destruct (v >? 2 ^ 31 - 1)|]; congruence).
  typed; [lia|lia|]. intros Ha. rewrite Ha in *. destruct p; [done|]. rewrite len_cons in *. pose proof (len_nonneg l). simpl in *. lia.
Qed.
Lemma parsePushPromise_typed f : parsePushPromise fh p = Ret f -> frame_typed f.
Proof.
  unfold parsePushPromise. checks. destruct (readPad _ p) as [[p1 n]| |] eqn:E; [|done..]. cbn [obind].
  apply readPad_typed in E as [Hp1 _]; [|done]. destruct (readUint32 p1) as [[p2 v]| |] eqn:E2; [|done..]. cbn [obind].
  checks. intros [= <-]. apply readUint32_typed in E2 as [Hp2 _]; [|done]. destruct (unpad_typed p2 n Hp2). typed; apply land31.
Qed.
Lemma parsePingFrame_typed f : parsePingFrame fh p = Ret f -> frame_typed f.
Proof. unfold parsePingFrame. checks. intros [= <-]. typed; lia. Qed.
Lemma parseGoAwayFrame_typed f : parseGoAwayFrame fh p = Ret f -> frame_typed f.
Proof.
  unfold parseGoAwayFrame. checks. destruct (Uint32 p) as [v| |]; [|done..]. cbn [obind].
  destruct (Uint32 (drop 4 p)) as [c| |] eqn:E; [|done..]. intros [= <-].
  typed; [lia|apply land31|apply land31|]. eapply Uint32_typed; [|exact E]. auto with typed.
Qed.
Lemma parseWindowUpdateFrame_typed f : parseWindowUpdateFrame fh p = Ret f -> frame_typed f.
Proof.
  unfold parseWindowUpdateFrame. checks. destruct (Uint32 p) as [v| |]; [|done..]. cbn [obind].
  pose proof (land31 v) as Hv. change (2 ^ 31 - 1) with 0x7fffffff in Hv.
  destruct (Z.eqb_spec (Z.land v 0x7fffffff) 0); [by case_if|]. intros [= <-]. typed; lia.
Qed.
Lemma parseContinuationFrame_typed f : parseContinuationFrame fh p = Ret f -> frame_typed f.
Proof. unfold parseContinuationFrame. checks. intros [= <-]. typed. Qed.

Lemma typeFrameParser_typed f : typeFrameParser (Type_ fh) fh p = Ret f -> frame_typed f.
Proof.
  unfold typeFrameParser.
  repeat (match goal with |- (if ?b then _ else _) _ _ = _ -> _ => destruct b eqn:? end;
    [eauto using parseDataFrame_typed, parseHeadersFrame_typed, parsePriorityFrame_typed, parseRSTStreamFrame_typed,
       parseSettingsFrame_typed, parsePushPromise_typed, parsePingFrame_typed, parseGoAwayFrame_typed,
       parseWindowUpdateFrame_typed, parseContinuationFrame_typed|]).
  intros [= <-]. typed. destruct Hfh as ([? _] & _).
  unfold FrameData, FrameHeaders, FramePriority, FrameRSTStream, FrameSettings, FramePushPromise, FramePing, FrameGoAway,
    FrameWindowUpdate, FrameContinuation in *. lia.
Qed.
End Typed.

(** ** ReadFrame *)
Lemma ReadFull_typed r n r' o :
  bytes_ok (rdata r) -> ReadFull r n = (r', o) ->
  bytes_ok (rdata r') /\ forall b, o = Ret b -> bytes_ok b /\ (0 <= n -> len b = n).
Proof.
  intros Hr. unfold ReadFull. destruct (Z.leb_spec n (len (rdata r))); intros [= <- <-]; simpl.
  - split; [auto with typed|]. intros b [= <-]. split; [auto with typed|]. unfold len in *. rewrite length_take. lia.
  - split; [constructor|done].
Qed.

Lemma readFrameHeader_typed r r' o :
  bytes_ok (rdata r) -> readFrameHeader r = (r', o) -> bytes_ok (rdata r') /\ forall fh, o = Ret fh -> header_typed fh.
Proof.
  intros Hr. unfold readFrameHeader. destruct (ReadFull r frameHeaderLen) as [r1 b] eqn:E. intros [= <- <-].
  destruct (ReadFull_typed _ _ _ _ Hr E) as [? Hb]. split; [done|]. intros fh.
  destruct b as [b| |]; [|done..]. destruct (Hb b eq_refl) as [Hbytes _]. cbn [obind].
  destruct b as [|b0 [|b1 [|b2 [|t [|fl sid]]]]]; try done. destruct (Uint32 sid) as [id| |]; [|done..]. intros [= <-].
  do 5 (apply Forall_cons in Hbytes as [? Hbytes]). unfold is_u8 in *. split_and!; try done; [| | apply land31..];
    cbn; rewrite <- Z.lor_assoc, Z.lor_comm, (Z.lor_comm _ b2), (lor_add b2 b1 8), (lor_add _ b0 16) by lia; lia.
Qed.

(** The frame that is read, and what is left to read. *)
Definition ordered_typed (x : Framer * outcome frameErr Frame) : Prop :=
  bytes_ok (rdata (fr_r x.1)) /\ forall f, x.2 = Ret f -> frame_typed f.
Definition read_typed (x : Framer * outcome frameErr anyFrame) : Prop :=
  bytes_ok (rdata (fr_r x.1)) /\ forall a, x.2 = Ret a -> any_typed a.

Lemma checkFrameOrder_reader fr f fr' o : checkFrameOrder fr f = (fr', o) -> fr_r fr' = fr_r fr.
Proof.
  unfold checkFrameOrder, fr_connError.
  repeat (match goal with |- context [if ?b then _ else _] => destruct b | |- context [match ?x with None => _ | Some _ => _ end] => destruct x end;
          try (by intros [= <- <-])).
Qed.

Lemma readOrdered_typed chunkCap fr : bytes_ok (rdata (fr_r fr)) -> ordered_typed (readOrdered chunkCap fr).
Proof.
  intros Hr. unfold readOrdered. cbn [fr_r set_lastFrame set_errDetail].
  destruct (readFrameHeader (fr_r fr)) as [r h] eqn:Eh. destruct (readFrameHeader_typed _ _ _ Hr Eh) as [Hr1 Hh].
  destruct h as [fh| |]; [|by split..]. specialize (Hh fh eq_refl).
  case_if; [by split|]. case_if; [by split|]. cbn [fr_r set_r].
  destruct (ReadFull r (Length fh)) as [r2 p] eqn:Ep. destruct (ReadFull_typed _ _ _ _ Hr1 Ep) as [Hr2 Hp].
  destruct p as [p| |]; cbn [obind]; [|by destruct e|by split].
  destruct (Hp p eq_refl) as [Hpb Hpl]. pose proof Hh as (_ & _ & [? _] & _).
  destruct (typeFrameParser (Type_ fh) fh p) as [f|e|] eqn:Ef; [|by destruct e|by split].
  destruct (checkFrameOrder _ f) as [fr' o] eqn:Eo. apply checkFrameOrder_reader in Eo. split; cbn; [by rewrite Eo|].
  intros g Hg. destruct o; [|done..]. injection Hg as <-. eapply typeFrameParser_typed; eauto.
Qed.

Lemma metaLoop_reader readFrame fuel : 
  (forall fr, bytes_ok (rdata (fr_r fr)) -> bytes_ok (rdata (fr_r (readFrame fr).1))) ->
  forall fr st frag ended, bytes_ok (rdata (fr_r fr)) -> bytes_ok (rdata (fr_r (metaLoop readFrame fuel fr st frag ended).1)).
Proof.
  intros Hread. induction fuel as [|fuel IH]; intros fr st frag ended Hr; cbn [metaLoop].
  - destruct (ReadMetaHeaders fr); [|done]. destruct (dec_Write _ _ _ _) as [[[? ?] []]|]; [done| |done]. by case_if.
  - destruct (ReadMetaHeaders fr) as [d|]; [|done]. destruct (dec_Write _ _ _ _) as [[[d' st'] []]|]; [done| |done].
    case_if; [done|]. specialize (Hread (set_dec fr d') Hr). destruct (readFrame (set_dec fr d')) as [fr' r].
    destruct r as [[f|]| |]; try done. destruct f; try done. case_if; [done|]. by apply IH.
Qed.

Lemma readMetaFrame_typed readFrame fr fh prio frag :
  (forall fr, bytes_ok (rdata (fr_r fr)) -> bytes_ok (rdata (fr_r (readFrame fr).1))) ->
  bytes_ok (rdata (fr_r fr)) -> frame_typed (HeadersFrame fh prio frag) -> read_typed (readMetaFrame readFrame fr fh prio frag).
Proof.
  intros Hread Hr (Hh & Hs & Hpr & _). unfold readMetaFrame. case_if; [by split|].
  destruct (ReadMetaHeaders fr) as [d|]; [|by split]. case_if; [by split|].
  set (d0 := SetMaxStringLength _ _). set (st0 := mkMS _ _ _ _ _). set (n := S _). set (ended := Has _ _).
  pose proof (metaLoop_reader readFrame n Hread (set_dec fr d0) st0 frag ended Hr) as Hr1.
  destruct (metaLoop _ _ _ _ _ _) as [fr1 r]. cbn [fst] in Hr1.
  destruct r as [st| |]; [|by split..]. destruct (ReadMetaHeaders fr1) as [d1|]; [|by split].
  destruct (dec_Close d1) as [d2 [|]]; [by split|]. destruct (invalid st); [by split|].
  destruct (checkPseudos _); [by split|]. split; [done|]. intros a [= <-]. done.
Qed.

Lemma ReadFrameN_typed chunkCap depth : forall fr, bytes_ok (rdata (fr_r fr)) -> read_typed (ReadFrameN chunkCap depth fr).
Proof.
  induction depth as [|depth IH]; intros fr Hr; [by split|]. cbn [ReadFrameN].
  destruct (readOrdered_typed chunkCap fr Hr) as [Hr1 Hf]. destruct (readOrdered chunkCap fr) as [fr1 o]. cbn [fst snd] in *.
  destruct o as [f| |]; [|by split..]. specialize (Hf f eq_refl).
  assert (Hplain : read_typed (fr1, Ret (Plain f))) by (split; [done|by intros ? [= <-]]).
  destruct f; try exact Hplain. destruct (ReadMetaHeaders fr1); [|exact Hplain].
  apply readMetaFrame_typed; [|done|done]. intros fr2 H2. apply (IH fr2 H2).
Qed.

(** C18.  What [ReadFrame] returns is well typed, whatever the peer sends: types,
    flags, error codes, priorities and payload bytes have the ranges of their Go
    types; ids have 31 bits; frames of a stream have one, frames of the connection
    have id zero; window increments are not zero; a PING has eight bytes, SETTINGS
    whole settings and no acknowledgement a payload; DATA is no longer than its
    header says.  The input that is left is bytes again, so the same holds of the
    next frame. *)
Theorem ReadFrame_typed chunkCap fr fr' a :
  bytes_ok (rdata (fr_r fr)) -> ReadFrame chunkCap fr = (fr', Ret a) -> any_typed a /\ bytes_ok (rdata (fr_r fr')).
Proof. intros Hr E. destruct (ReadFrameN_typed chunkCap 2 fr Hr) as [H1 H2]. unfold ReadFrame in E. rewrite E in *. auto. Qed.

Lemma ReadFrame_typed_witness :
  exists fr' a, ReadFrame (fun n => n) (NewFramer (mkReader [0; 0; 4; 8; 0; 0; 0; 0; 5; 0; 0; 0; 7] EOF)) = (fr', Ret a) /\
    a = Plain (WindowUpdateFrame (mkFH true 8 0 4 5) 7) /\ any_typed a.
Proof.
  eexists _, _. split; [vm_compute; reflexivity|]. split; [reflexivity|].
  eapply (ReadFrame_typed (fun n => n) (NewFramer (mkReader [0; 0; 4; 8; 0; 0; 0; 0; 5; 0; 0; 0; 7] EOF)));
    [repeat constructor; by vm_compute|vm_compute; reflexivity].
Defined.
