(* ===== verification/FlowControl.v ===== *)
(** * Flow control: h2/flowcontrol.go

    [trInFlow] (the connection's inbound window), [inFlow] (a stream's inbound
    window) and [writeQuota] (how much a stream may schedule for writing).

    The contract of the inbound side is the window of the peer: how many bytes
    it may still send.  [inFlow_step] is the sender and the receiver together,
    and [books] says that the receiver's counters describe the sender's window.
    [writeQuota] is shared by two goroutines: [wq_step] is its interleaving
    semantics, one step per atomic access. *)
From S2P Require Import Prelude.

Definition maxWindowSize : Z := MaxInt32.
Definition defaultWindowSize : Z := 65535.

(** ** The connection's window *)
Record trInFlow := mkTr { tr_limit : Z; tr_unacked : Z; tr_effectiveWindowSize : Z }.

Definition tr_updateEffectiveWindowSize (f : trInFlow) : trInFlow :=
  mkTr (tr_limit f) (tr_unacked f) (u32 (tr_limit f - tr_unacked f)).

Definition trInFlow_newLimit (f : trInFlow) (n : Z) : trInFlow * Z :=
  let d := u32 (n - tr_limit f) in
  (tr_updateEffectiveWindowSize (mkTr n (tr_unacked f) (tr_effectiveWindowSize f)), d).

Definition trInFlow_onData (f : trInFlow) (n : Z) : trInFlow * Z :=
  let unacked := u32 (tr_unacked f + n) in
  if unacked >=? tr_limit f / 4 then
    (tr_updateEffectiveWindowSize (mkTr (tr_limit f) 0 (tr_effectiveWindowSize f)), unacked)
  else (tr_updateEffectiveWindowSize (mkTr (tr_limit f) unacked (tr_effectiveWindowSize f)), 0).

Definition trInFlow_reset (f : trInFlow) : trInFlow * Z :=
  (tr_updateEffectiveWindowSize (mkTr (tr_limit f) 0 (tr_effectiveWindowSize f)), tr_unacked f).

Definition trInFlow_getSize (f : trInFlow) : Z := tr_effectiveWindowSize f.

(** ** A stream's window *)
Record inFlow := mkIn { limit : Z; pendingData : Z; pendingUpdate : Z; delta : Z }.

Definition inFlow_newLimit (f : inFlow) (n : Z) : inFlow :=
  mkIn n (pendingData f) (pendingUpdate f) (delta f).

Definition inFlow_maybeAdjust (f : inFlow) (n : Z) : inFlow * Z :=
  let n := if n >? MaxInt32 then MaxInt32 else n in
  let estSenderQuota := i32 (u32 (limit f - u32 (pendingData f + pendingUpdate f))) in
  let estUntransmittedData := i32 (u32 (n - pendingData f)) in
  if estUntransmittedData >? estSenderQuota then
    let d := if u32 (limit f + n) >? maxWindowSize then u32 (maxWindowSize - limit f) else n in
    (mkIn (limit f) (pendingData f) (pendingUpdate f) d, d)
  else (f, 0).

(** The error carries the bytes received: [rcvd] of the message. *)
Definition inFlow_onData (f : inFlow) (n : Z) : inFlow * option Z :=
  let f := mkIn (limit f) (u32 (pendingData f + n)) (pendingUpdate f) (delta f) in
  if u32 (pendingData f + pendingUpdate f) >? u32 (limit f + delta f)
  then (f, Some (u32 (pendingData f + pendingUpdate f)))
  else (f, None).

Definition inFlow_onRead (f : inFlow) (n : Z) : inFlow * Z :=
  if pendingData f =? 0 then (f, 0) else
  let pd := u32 (pendingData f - n) in
  let '(n, d) := if n >? delta f then (u32 (n - delta f), 0) else (0, u32 (delta f - n)) in
  let pu := u32 (pendingUpdate f + n) in
  if (pu >=? limit f / 4) || (pu >? 64 * 1024)
  then (mkIn (limit f) pd 0 d, pu)
  else (mkIn (limit f) pd pu d, 0).

(** ** The write quota *)
Record writeQuota := mkWQ { quota : Z; token : bool }.

Definition newWriteQuota (sz : Z) : writeQuota := mkWQ sz false.

(** [realReplenish] run without interruption; [ch] has room for one token. *)
Definition realReplenish (w : writeQuota) (n : Z) : writeQuota :=
  let sz := i32 n in
  let a := i32 (quota w + sz) in
  let b := i32 (a - sz) in
  mkWQ a (token w || ((b <=? 0) && (a >? 0))).

(** [waitOrConsumeQuota] up to the first time it would block: [None] is blocked. *)
Definition tryConsume (w : writeQuota) (sz : Z) : option writeQuota :=
  if sz =? 0 then Some w
  else if quota w >? 0 then Some (mkWQ (i32 (quota w - sz)) (token w)) else None.

(** ** The connection's window: accounting *)

Definition tr_wf (f : trInFlow) : Prop :=
  is_u32 (tr_limit f) /\ 0 <= tr_unacked f /\ (tr_unacked f = 0 \/ tr_unacked f < tr_limit f / 4) /\
  tr_effectiveWindowSize f = tr_limit f - tr_unacked f.

(** What the operations are told and what they answer, over a run. *)
Fixpoint tr_run (f : trInFlow) (ns : list Z) : trInFlow * Z :=
  match ns with
  | [] => (f, 0)
  | n :: ns =>
      let '(f, w) := trInFlow_onData f n in
      let '(f, w') := tr_run f ns in (f, w + w')
  end.

Definition Zsum (l : list Z) : Z := foldr Z.add 0 l.

Lemma tr_onData_ok f n :
  tr_wf f -> 0 <= n -> tr_unacked f + n < 2 ^ 32 ->
  let '(f', w) := trInFlow_onData f n in
  tr_wf f' /\ tr_limit f' = tr_limit f /\ tr_unacked f + n = w + tr_unacked f'.
Proof.
  intros (Hl & Hu & Hq & He) Hn Hb. unfold trInFlow_onData. rewrite (u32_small (tr_unacked f + n)) by lia.
  unfold is_u32 in *. destruct (Z.geb_spec (tr_unacked f + n) (tr_limit f / 4)).
  - unfold tr_wf, is_u32. simpl. rewrite u32_small; lia.
  - assert (tr_limit f / 4 <= tr_limit f) by (Z.to_euclidean_division_equations; lia).
    unfold tr_wf, is_u32. simpl. rewrite u32_small; lia.
Qed.

Lemma tr_run_ok ns : forall f,
  tr_wf f -> Forall (fun n => 0 <= n <= tr_limit f) ns -> tr_limit f < 2 ^ 31 ->
  let '(f', w) := tr_run f ns in
  tr_wf f' /\ tr_limit f' = tr_limit f /\ tr_unacked f + Zsum ns = w + tr_unacked f'.
Proof.
  induction ns as [|n ns IH]; intros f Hf Hns Hl; cbn [tr_run Zsum foldr]; [split_and!; [done|done|lia]|].
  inversion_clear Hns as [|? ? Hn Hns'].
  assert (Hu : tr_unacked f <= tr_limit f).
  { destruct Hf as (Hlim & _ & [Hz|Hlt] & _); unfold is_u32 in *; [lia|].
    Z.to_euclidean_division_equations; lia. }
  pose proof (tr_onData_ok f n Hf ltac:(lia) ltac:(lia)) as H1.
  destruct (trInFlow_onData f n) as [f1 w1]. destruct H1 as (Hf1 & Hl1 & Hs1).
  specialize (IH f1 Hf1). rewrite Hl1 in IH. specialize (IH Hns' Hl).
  destruct (tr_run f1 ns) as [f2 w2]. destruct IH as (? & ? & ?).
  change (foldr Z.add 0 ns) with (Zsum ns). split_and!; [done|congruence|lia].
Qed.

(** ** A stream's window: the receiver's counters are the sender's window *)

(** [W] is the number of bytes the peer may still send. *)
Record books (f : inFlow) (W : Z) : Prop := {
  bk_window : W = limit f + delta f - (pendingData f + pendingUpdate f);
  bk_pos : 0 <= limit f /\ 0 <= delta f /\ 0 <= pendingData f /\ 0 <= pendingUpdate f;
  bk_max : limit f + delta f <= maxWindowSize;
  bk_sent : 0 <= W
}.

(** What happens on a stream: data of a peer that keeps to its window, reads of
    data that has arrived, a read announced to the peer, a larger limit.  Each
    window update returned by an operation reaches the peer. *)
Inductive inFlow_step : inFlow * Z -> inFlow * Z -> Prop :=
| step_data f W n : 0 <= n <= W ->
    inFlow_step (f, W) ((inFlow_onData f n).1, W - n)
| step_read f W n : 0 <= n <= pendingData f ->
    inFlow_step (f, W) ((inFlow_onRead f n).1, W + (inFlow_onRead f n).2)
| step_adjust f W n : is_u32 n -> delta f = 0 ->
    inFlow_step (f, W) ((inFlow_maybeAdjust f n).1, W + (inFlow_maybeAdjust f n).2)
| step_limit f W n : limit f <= n -> n + delta f <= maxWindowSize ->
    inFlow_step (f, W) (inFlow_newLimit f n, W + (n - limit f)).

Inductive inFlow_reach (lim : Z) : inFlow * Z -> Prop :=
| in_init : inFlow_reach lim (mkIn lim 0 0 0, lim)
| in_step s s' : inFlow_reach lim s -> inFlow_step s s' -> inFlow_reach lim s'.

Lemma max_window : maxWindowSize = 2 ^ 31 - 1.
Proof. done. Qed.

Lemma onData_books f W n :
  books f W -> 0 <= n -> pendingData f + pendingUpdate f + n < 2 ^ 32 ->
  inFlow_onData f n =
    (mkIn (limit f) (pendingData f + n) (pendingUpdate f) (delta f),
     if n >? W then Some (pendingData f + pendingUpdate f + n) else None).
Proof.
  intros [HW Hp Hm Hs] Hn Hb. pose proof max_window. unfold inFlow_onData. simpl.
  rewrite (u32_small (pendingData f + n)), (u32_small (limit f + delta f)), u32_small by lia.
  destruct (Z.gtb_spec n W), (Z.gtb_spec (pendingData f + n + pendingUpdate f) (limit f + delta f));
    try lia; [do 2 f_equal; lia|done].
Qed.

Lemma onRead_books f W n :
  books f W -> 0 <= n <= pendingData f -> books (inFlow_onRead f n).1 (W + (inFlow_onRead f n).2).
Proof.
  intros [HW Hp Hm Hs] Hn. pose proof max_window. unfold inFlow_onRead.
  destruct (Z.eqb_spec (pendingData f) 0); [split; simpl; lia|].
  rewrite (u32_small (pendingData f - n)) by lia.
  destruct (Z.gtb_spec n (delta f)).
  - rewrite (u32_small (n - delta f)), u32_small by lia.
    destruct ((_ >=? _) || _); split; simpl; lia.
  - rewrite (u32_small (delta f - n)), u32_small by lia.
    destruct ((_ >=? _) || _); split; simpl; lia.
Qed.

(** [maybeAdjust] when no earlier adjustment is outstanding. *)
Lemma maybeAdjust_eq f W n :
  books f W -> is_u32 n -> delta f = 0 ->
  inFlow_maybeAdjust f n =
    let n := Z.min n MaxInt32 in
    if n - pendingData f >? W then
      let d := Z.min n (maxWindowSize - limit f) in
      (mkIn (limit f) (pendingData f) (pendingUpdate f) d, d)
    else (f, 0).
Proof.
  intros [HW Hp Hm Hs] Hn Hd. pose proof max_window. unfold inFlow_maybeAdjust, is_u32 in *.
  change MaxInt32 with maxWindowSize.
  replace (if n >? maxWindowSize then maxWindowSize else n) with (Z.min n maxWindowSize)
    by (destruct (Z.gtb_spec n maxWindowSize); lia).
  set (m := Z.min n maxWindowSize). assert (0 <= m <= maxWindowSize) by lia.
  rewrite (u32_small (pendingData f + pendingUpdate f)), (u32_small (limit f - _)) by lia.
  rewrite (i32_small (limit f - _)) by (unfold is_i32; lia).
  assert (Hest : i32 (u32 (m - pendingData f)) = m - pendingData f).
  { unfold i32, u32. destruct (Z.le_gt_cases 0 (m - pendingData f)).
    - rewrite (Z.mod_small (m - pendingData f)), Z.mod_small; lia.
    - rewrite <- (Z.mod_add (m - pendingData f) 1), (Z.mod_small (m - pendingData f + 1 * 2 ^ 32)) by lia.
      replace (m - pendingData f + 1 * 2 ^ 32 + 2 ^ 31) with (m - pendingData f + 2 ^ 31 + 1 * 2 ^ 32) by lia.
      rewrite Z.mod_add, Z.mod_small; lia. }
  rewrite Hest. cbn zeta. replace (limit f - (pendingData f + pendingUpdate f)) with W by lia.
  destruct (m - pendingData f >? W); [|done].
  rewrite (u32_small (limit f + m)) by lia.
  destruct (Z.gtb_spec (limit f + m) maxWindowSize).
  - rewrite u32_small by lia. by rewrite Z.min_r by lia.
  - by rewrite Z.min_l by lia.
Qed.

Lemma inFlow_step_books s s' : inFlow_step s s' -> books s.1 s.2 -> books s'.1 s'.2.
Proof.
  intros Hstep Hb. pose proof Hb as [HW Hp Hm Hs]. pose proof max_window.
  destruct Hstep as [f W n Hn|f W n Hn|f W n Hn Hd|f W n Hn Hmax]; cbn [fst snd] in *.
  - rewrite (onData_books f W n) by (done || lia). split; simpl; lia.
  - by apply onRead_books.
  - rewrite (maybeAdjust_eq f W n) by done. cbn zeta. change MaxInt32 with maxWindowSize in *.
    destruct (_ >? W); split; unfold is_u32 in *; simpl; lia.
  - split; simpl; lia.
Qed.

Lemma inFlow_reach_books lim s :
  0 <= lim <= maxWindowSize -> inFlow_reach lim s -> books s.1 s.2.
Proof.
  intros Hl. induction 1 as [|s s' _ IH Hstep]; [split; simpl; lia|by eapply inFlow_step_books].
Qed.

(** ** The write quota under interleaving

    The writer of a stream runs [waitOrConsumeQuota], the loopy goroutine runs
    [realReplenish]; each atomic access and each channel operation is a step. *)
Inductive cpc :=
| CIdle                (** outside the call *)
| CLoad (sz : Z)       (** at the load of the loop *)
| CTake (sz : Z)       (** the load was positive: at the subtraction *)
| CWait (sz : Z).      (** the load was not: in the select *)
Inductive rpc := RIdle | RSend.

(** [out] counts the bytes taken and not yet given back. *)
Record wq_state := mkWS { ws : writeQuota; out : Z; cp : cpc; rp : rpc }.

Inductive wq_step : wq_state -> wq_state -> Prop :=
| c_call w o r sz : 0 <= sz <= MaxInt32 ->
    wq_step (mkWS w o CIdle r) (mkWS w o (if sz =? 0 then CIdle else CLoad sz) r)
| c_load w o r sz :
    wq_step (mkWS w o (CLoad sz) r) (mkWS w o (if quota w >? 0 then CTake sz else CWait sz) r)
| c_take w o r sz :
    wq_step (mkWS w o (CTake sz) r) (mkWS (mkWQ (i32 (quota w - sz)) (token w)) (o + sz) CIdle r)
| c_recv q o r sz :
    wq_step (mkWS (mkWQ q true) o (CWait sz) r) (mkWS (mkWQ q false) o (CLoad sz) r)
| c_done w o r sz : (** [done] is closed: errStreamDone *)
    wq_step (mkWS w o (CWait sz) r) (mkWS w o CIdle r)
| r_add w o c n : 0 < n <= o ->
    let a := i32 (quota w + n) in
    wq_step (mkWS w o c RIdle)
      (mkWS (mkWQ a (token w)) (o - n) c (if (i32 (a - n) <=? 0) && (a >? 0) then RSend else RIdle))
| r_send w o c :
    wq_step (mkWS w o c RSend) (mkWS (mkWQ (quota w) true) o c RIdle).

Inductive wq_reach (init : Z) : wq_state -> Prop :=
| wq_init : wq_reach init (mkWS (newWriteQuota init) 0 CIdle RIdle)
| wq_next s s' : wq_reach init s -> wq_step s s' -> wq_reach init s'.

(** The counter is what is left of the initial value, a pending subtraction
    still to come; a waiting writer whose quota is positive has its wake-up
    sent, or about to be. *)
Record wq_inv (init : Z) (s : wq_state) : Prop := {
  wi_sum : quota (ws s) + out s = init;
  wi_out : 0 <= out s;
  wi_low : - MaxInt32 < quota (ws s);
  wi_take : forall sz, cp s = CTake sz -> 0 < quota (ws s) /\ 0 < sz <= MaxInt32;
  wi_size : forall sz, cp s = CLoad sz \/ cp s = CWait sz -> 0 < sz <= MaxInt32;
  wi_wake : forall sz, cp s = CWait sz -> 0 < quota (ws s) -> token (ws s) = true \/ rp s = RSend
}.

Ltac wq_cases :=
  split; cbn; intros; unfold MaxInt32 in *;
  repeat match goal with H : _ \/ _ |- _ => destruct H end; simplify_eq; try done; try lia.

Lemma wq_step_inv init s s' :
  0 <= init <= MaxInt32 -> wq_step s s' -> wq_inv init s -> wq_inv init s'.
Proof.
  intros Hi Hstep [Hsum Hout Hlow Htake Hsize Hwake]. unfold MaxInt32 in *.
  destruct Hstep as [w o r sz Hsz|w o r sz|w o r sz|q o r sz|w o r sz|w o c n Hn a|w o c];
    cbn [ws out cp rp quota token] in *.
  - destruct (Z.eqb_spec sz 0); unfold MaxInt32 in *; wq_cases.
  - pose proof (Hsize sz (or_introl eq_refl)).
    destruct (Z.gtb_spec (quota w) 0); unfold MaxInt32 in *; wq_cases.
  - destruct (Htake sz eq_refl). rewrite i32_small by (unfold is_i32; lia).
    unfold MaxInt32 in *; wq_cases.
  - pose proof (Hsize sz (or_intror eq_refl)). wq_cases.
  - wq_cases.
  - subst a. rewrite (i32_small (quota w + n)) by (unfold is_i32; lia).
    replace (quota w + n - n) with (quota w) by lia. rewrite i32_small by (unfold is_i32; lia).
    split; cbn; unfold MaxInt32 in *; try done; try lia.
    + intros sz Hc. destruct (Htake sz Hc). lia.
    + intros sz Hc Hq. destruct (Z.leb_spec (quota w) 0), (Z.gtb_spec (quota w + n) 0); try lia; [by right|].
      destruct (Hwake sz Hc); [lia|by left|done].
  - split; cbn; try done. intros; by left.
Qed.

Lemma wq_reach_inv init s : 0 <= init <= MaxInt32 -> wq_reach init s -> wq_inv init s.
Proof.
  intros Hi. induction 1 as [|s s' _ IH Hstep]; [|by eapply wq_step_inv].
  unfold MaxInt32 in *. split; cbn; unfold MaxInt32; try done; try lia. intros ? [|]; simplify_eq.
Qed.

(** The calls as one step, run without interruption, are runs of the steps. *)
Lemma realReplenish_steps w o c n :
  0 < n <= o -> n <= MaxInt32 ->
  rtc wq_step (mkWS w o c RIdle) (mkWS (realReplenish w n) (o - n) c RIdle).
Proof.
  intros Hn Hm. unfold MaxInt32 in *. eapply rtc_l; [by apply r_add|]. cbn zeta. unfold realReplenish.
  rewrite (i32_small n) by (unfold is_i32; lia).
  destruct (_ && _); [|rewrite orb_false_r; apply rtc_refl].
  rewrite orb_true_r. eapply rtc_l; [apply r_send|]. apply rtc_refl.
Qed.

Lemma tryConsume_steps w o r sz w' :
  0 < sz <= MaxInt32 -> tryConsume w sz = Some w' ->
  rtc wq_step (mkWS w o CIdle r) (mkWS w' (o + sz) CIdle r).
Proof.
  intros Hs. unfold tryConsume. destruct (Z.eqb_spec sz 0); [lia|].
  destruct (Z.gtb_spec (quota w) 0); [|done]. intros [= <-].
  eapply rtc_l; [apply (c_call w o r sz); lia|]. rewrite (proj2 (Z.eqb_neq sz 0)) by done.
  eapply rtc_l; [apply c_load|]. rewrite (proj2 (Z.gtb_lt (quota w) 0)) by done.
  eapply rtc_l; [apply c_take|]. apply rtc_refl.
Qed.

(** ** The theorems of flow control *)

(** C32.  The connection acknowledges what it receives: over any run of data
    frames the window updates returned and what is still unacknowledged add up
    to the bytes received, the unacknowledged part stays below a quarter of the
    limit, and the effective window is what is left of the limit. *)
Theorem trInFlow_accounting lim ns :
  0 <= lim < 2 ^ 31 -> Forall (fun n => 0 <= n <= lim) ns ->
  let '(f, w) := tr_run (mkTr lim 0 lim) ns in
  Zsum ns = w + tr_unacked f /\ (tr_unacked f = 0 \/ tr_unacked f < lim / 4) /\
  trInFlow_getSize f = lim - tr_unacked f.
Proof.
  intros Hl Hns. assert (Hwf : tr_wf (mkTr lim 0 lim)) by (unfold tr_wf, is_u32; simpl; lia).
  pose proof (tr_run_ok ns (mkTr lim 0 lim) Hwf Hns ltac:(simpl; lia)) as H.
  destruct (tr_run (mkTr lim 0 lim) ns) as [f w]. destruct H as ((_ & _ & Hq & He) & Hlim & Hs).
  simpl in Hlim, Hs. rewrite Hlim in *. unfold trInFlow_getSize. rewrite He. split_and!; [lia|done|lia].
Qed.

Lemma trInFlow_accounting_witness :
  let '(f, w) := tr_run (mkTr 65535 0 65535) [10000; 10000; 1] in
  Zsum [10000; 10000; 1] = w + tr_unacked f /\ (tr_unacked f = 0 \/ tr_unacked f < 65535 / 4) /\
  trInFlow_getSize f = 65535 - tr_unacked f.
Proof. apply (trInFlow_accounting 65535 [10000; 10000; 1]); [lia|repeat constructor; lia]. Defined.



(** A read that is announced can complete: after [maybeAdjust] the peer
    may send all of the bytes of the message that have not arrived, as far as
    the largest legal window allows. *)
Theorem maybeAdjust_enough lim f W n :
  0 <= lim <= maxWindowSize -> inFlow_reach lim (f, W) -> is_u32 n -> delta f = 0 ->
  let '(f', w) := inFlow_maybeAdjust f n in
  Z.min (Z.min n MaxInt32 - pendingData f) (maxWindowSize - pendingData f - pendingUpdate f) <= W + w /\
  0 <= w /\ W + w <= maxWindowSize.
Proof.
  intros Hl Hr Hn Hd. pose proof (inFlow_reach_books _ _ Hl Hr) as Hb. cbn [fst snd] in Hb.
  rewrite (maybeAdjust_eq f W n) by done. destruct Hb as [HW Hp Hm Hs]. cbn zeta.
  unfold is_u32, maxWindowSize, MaxInt32 in *.
  destruct (Z.gtb_spec (Z.min n (2 ^ 31 - 1) - pendingData f) W); lia.
Qed.

Lemma maybeAdjust_enough_witness :
  let '(f', w) := inFlow_maybeAdjust (mkIn 100 0 0 0) 1000 in
  Z.min (Z.min 1000 MaxInt32 - 0) (maxWindowSize - 0 - 0) <= 100 + w /\
  0 <= w /\ 100 + w <= maxWindowSize.
Proof. apply (maybeAdjust_enough 100); [by vm_compute|constructor|by vm_compute|reflexivity]. Defined.

(** A second announcement before the first one is used up replaces the
    extra window instead of adding to it, so the receiver then refuses data that
    its own window updates allow: with a limit of 100, two reads of 1000 are
    announced, 2100 bytes may be sent and the 1101st is an error. *)
Theorem maybeAdjust_twice :
  let '(f1, w1) := inFlow_maybeAdjust (mkIn 100 0 0 0) 1000 in
  let '(f2, w2) := inFlow_maybeAdjust f1 1000 in
  100 + w1 + w2 = 2100 /\ (inFlow_onData f2 1101).2 = Some 1101.
Proof. vm_compute. split; reflexivity. Qed.


