(* ===== verification/Lists.v ===== *)
(** * The linked lists of h2/controlbuf.go

    [itemList], a singly linked queue with a pointer to its last node, and
    [outStreamList], a doubly linked list between two sentinels from which a
    stream can remove itself.  Both are modelled with their pointers; the
    refinement theorems say that they are the queues and lists the components
    above them take them for: [ControlBuf] and [Loopy] use the abstract lists. *)
From S2P Require Import Prelude.

Definition loc : Type := nat.

(** ** itemList *)
Section ItemList.
Context {A : Type}.

Record itemNode := mkItem { it : A; inext : option loc }.

(** The nodes of one list and its two pointers. *)
Record itemList := mkIL { nodes : gmap loc itemNode; head : option loc; tail : option loc }.

Definition il_new : itemList := mkIL ∅ None None.

(** [&itemNode{it: i}] is a node no pointer reaches yet. *)
Definition il_fresh (il : itemList) : loc := fresh (dom (nodes il)).

Definition il_enqueue (il : itemList) (i : A) : option itemList :=
  let n := il_fresh il in
  let ns := <[n := mkItem i None]> (nodes il) in
  match tail il with
  | None => Some (mkIL ns (Some n) (Some n))
  | Some t =>
      tn ← ns !! t;
      Some (mkIL (<[t := mkItem (it tn) (Some n)]> ns) (head il) (Some n))
  end.

(** [il.head.it] panics on an empty list. *)
Definition il_peek (il : itemList) : option A :=
  h ← head il; n ← nodes il !! h; Some (it n).

Definition il_dequeue (il : itemList) : option (itemList * option A) :=
  match head il with
  | None => Some (il, None)
  | Some h =>
      n ← nodes il !! h;
      Some (mkIL (nodes il) (inext n) (match inext n with None => None | Some _ => tail il end),
            Some (it n))
  end.

Definition il_isEmpty (il : itemList) : bool :=
  match head il with None => true | Some _ => false end.

(** Following the nodes from [p] gives the items [l] at the addresses [ps]. *)
Fixpoint chain (ns : gmap loc itemNode) (p : option loc) (ps : list loc) (l : list A) : Prop :=
  match ps, l with
  | [], [] => p = None
  | a :: ps, i :: l => p = Some a /\ exists n, ns !! a = Some n /\ it n = i /\ chain ns (inext n) ps l
  | _, _ => False
  end.

Definition il_rep (il : itemList) (l : list A) : Prop :=
  exists ps, chain (nodes il) (head il) ps l /\ NoDup ps /\ tail il = last ps.

Lemma chain_dom ns p ps l a : chain ns p ps l -> a ∈ ps -> is_Some (ns !! a).
Proof.
  revert p l. induction ps as [|b ps IH]; intros p [|i l]; simpl; try done.
  { by intros _ ?%not_elem_of_nil. }
  intros (_ & n & Hn & _ & Hc) [->|Ha]%elem_of_cons; [by rewrite Hn|]. by eapply IH.
Qed.

Lemma chain_ext ns ns' p ps l :
  (forall a, a ∈ ps -> ns' !! a = ns !! a) -> chain ns p ps l -> chain ns' p ps l.
Proof.
  revert p l. induction ps as [|b ps IH]; intros p [|i l] H; simpl; try done.
  intros (? & n & Hn & ? & Hc). split; [done|]. exists n.
  split_and!; [rewrite H; [done|by left]|done|]. apply IH; [|done]. intros a Ha. apply H. by right.
Qed.

(** Hanging a new node on the last one. *)
Lemma chain_snoc ns p ps l t tn n i :
  chain ns p ps l -> NoDup ps -> last ps = Some t -> ns !! t = Some tn -> n ∉ ps ->
  chain (<[t := mkItem (it tn) (Some n)]> (<[n := mkItem i None]> ns)) p (ps ++ [n]) (l ++ [i]).
Proof.
  revert p l. induction ps as [|b ps IH]; intros p [|j l] Hc Hnd Hlast Ht Hn; simpl in Hc; try done.
  destruct Hc as (-> & m & Hm & Hj & Hc). apply not_elem_of_cons in Hn as [Hnb Hn].
  apply NoDup_cons in Hnd as [Hb Hnd]. simpl. split; [done|]. destruct ps as [|b' ps'].
  - simpl in Hlast. simplify_eq. destruct l; [|done].
    exists (mkItem (it m) (Some n)). rewrite lookup_insert_eq. split_and!; [done|done|].
    simpl. split; [done|]. exists (mkItem i None).
    by rewrite lookup_insert_ne, lookup_insert_eq by done.
  - assert (Htb : t <> b).
    { intros ->. apply Hb. rewrite last_cons_cons in Hlast. by apply last_Some_elem_of in Hlast. }
    exists m. rewrite !lookup_insert_ne by done. split_and!; [done|done|].
    by apply IH.
Qed.

Lemma il_enqueue_ok il l i :
  il_rep il l -> exists il', il_enqueue il i = Some il' /\ il_rep il' (l ++ [i]).
Proof.
  intros (ps & Hc & Hnd & Ht). unfold il_enqueue. set (n := il_fresh il).
  assert (Hn : n ∉ ps).
  { intros Hin. destruct (chain_dom _ _ _ _ n Hc Hin) as [x Hx%elem_of_dom_2].
    by apply (is_fresh (dom (nodes il))). }
  rewrite Ht. destruct (last ps) as [t|] eqn:Elast.
  - assert (Hin : t ∈ ps) by (by apply last_Some_elem_of).
    destruct (chain_dom _ _ _ _ t Hc Hin) as [tn Htn]. rewrite lookup_insert_ne by (by intros ->).
    rewrite Htn. cbn [mbind option_bind]. eexists. split; [done|]. exists (ps ++ [n]).
    split_and!; [by apply chain_snoc| |by rewrite last_snoc].
    apply NoDup_app. split_and!; [done| |apply NoDup_singleton].
    by intros a Ha ->%list_elem_of_singleton.
  - apply last_None in Elast as ->. destruct l; [|done]. eexists. split; [done|]. exists [n].
    split_and!; [|apply NoDup_singleton|done]. simpl. split; [done|].
    exists (mkItem i None). by rewrite lookup_insert_eq.
Qed.

Lemma il_peek_ok il l : il_rep il l -> il_peek il = hd_error l /\ il_isEmpty il = bool_decide (l = []).
Proof.
  intros ([|a ps] & Hc & _ & _); unfold il_peek, il_isEmpty; destruct l as [|i l]; simpl in Hc; try done.
  - by rewrite Hc.
  - destruct Hc as (-> & n & Hn & <- & _). simpl. by rewrite Hn.
Qed.

Lemma il_dequeue_ok il l :
  il_rep il l -> exists il', il_dequeue il = Some (il', hd_error l) /\ il_rep il' (tl l).
Proof.
  intros ([|a ps] & Hc & Hnd & Ht); unfold il_dequeue; destruct l as [|i l]; simpl in Hc; try done.
  - rewrite Hc. eexists. split; [done|]. by exists [].
  - destruct Hc as (-> & n & Hn & <- & Hc). rewrite Hn. eexists. split; [done|]. exists ps.
    apply NoDup_cons in Hnd as [_ Hnd]. split_and!; [done|done|]. simpl.
    destruct ps as [|b ps], l as [|j l]; simpl in Hc; try done.
    + by rewrite Hc.
    + destruct Hc as (-> & _). by rewrite Ht.
Qed.

Definition il_dequeueAll (il : itemList) : itemList * option loc :=
  (mkIL (nodes il) None None, head il).

(** The loop of [finish] over the nodes that were taken off. *)
Fixpoint il_walk (fuel : nat) (ns : gmap loc itemNode) (p : option loc) : option (list A) :=
  match p, fuel with
  | None, _ => Some []
  | Some a, S fuel => n ← ns !! a; l ← il_walk fuel ns (inext n); Some (it n :: l)
  | _, O => None
  end.

Lemma il_walk_ok ns p ps l fuel :
  chain ns p ps l -> (length l <= fuel)%nat -> il_walk fuel ns p = Some l.
Proof.
  revert p l fuel. induction ps as [|a ps IH]; intros p [|i l] fuel; simpl; try done.
  { intros -> _. by destruct fuel. }
  intros (-> & n & Hn & <- & Hc) Hl. destruct fuel as [|fuel]; [lia|]. simpl. rewrite Hn. simpl.
  rewrite (IH _ _ fuel Hc) by lia. done.
Qed.

Lemma il_dequeueAll_ok il l :
  il_rep il l -> let '(il', h) := il_dequeueAll il in
    il_rep il' [] /\ il_walk (length l) (nodes il) h = Some l.
Proof.
  intros (ps & Hc & _ & _). simpl. split; [|by eapply il_walk_ok].
  exists []. split_and!; [done|constructor|done].
Qed.
End ItemList.
Arguments itemNode : clear implicits.
Arguments itemList : clear implicits.

(** ** Queues as an interface

    What the control buffer asks of its list; [None] is a panic. *)
Class Queue (Q A : Type) := {
  q_new : Q;
  q_enqueue : Q -> A -> option Q;
  q_dequeue : Q -> option (Q * option A);
  q_isEmpty : Q -> bool;
  q_takeAll : Q -> option (Q * list A);
  q_rep : Q -> list A -> Prop;
  q_new_ok : q_rep q_new [];
  q_enqueue_ok : forall q l a, q_rep q l -> exists q', q_enqueue q a = Some q' /\ q_rep q' (l ++ [a]);
  q_dequeue_ok : forall q l, q_rep q l ->
    exists q', q_dequeue q = Some (q', hd_error l) /\ q_rep q' (tl l);
  q_isEmpty_ok : forall q l, q_rep q l -> q_isEmpty q = bool_decide (l = []);
  q_takeAll_ok : forall q l, q_rep q l -> exists q', q_takeAll q = Some (q', l) /\ q_rep q' []
}.

(** [itemList] keeps the promise. *)
Definition il_takeAll {A} (il : itemList A) : option (itemList A * list A) :=
  let '(il', h) := il_dequeueAll il in
  l ← il_walk (size (nodes il)) (nodes il) h; Some (il', l).

Lemma chain_length {A} (ns : gmap loc (itemNode A)) p ps l : chain ns p ps l -> length l = length ps.
Proof.
  revert p l. induction ps as [|a ps IH]; intros p [|i l]; simpl; try done.
  intros (_ & n & _ & _ & Hc). f_equal. by eapply IH.
Qed.

Lemma il_takeAll_ok {A} (il : itemList A) l :
  il_rep il l -> exists il', il_takeAll il = Some (il', l) /\ il_rep il' [].
Proof.
  intros (ps & Hc & Hnd & _). unfold il_takeAll, il_dequeueAll.
  rewrite (il_walk_ok _ _ _ _ _ Hc).
  - eexists. split; [done|]. exists []. split_and!; [done|constructor|done].
  - rewrite (chain_length _ _ _ _ Hc), <- (size_list_to_set (C := gset loc)), <- size_dom by done.
    apply subseteq_size. intros a Ha%elem_of_list_to_set. apply elem_of_dom. by eapply chain_dom.
Qed.

#[export] Instance itemList_Queue A : Queue (itemList A) A := {
  q_new := il_new; q_enqueue := il_enqueue; q_dequeue := il_dequeue; q_isEmpty := il_isEmpty;
  q_takeAll := il_takeAll; q_rep := il_rep;
  q_new_ok := ex_intro _ [] (conj eq_refl (conj (NoDup_nil_2) eq_refl));
  q_enqueue_ok := il_enqueue_ok;
  q_dequeue_ok := il_dequeue_ok;
  q_isEmpty_ok := fun q l H => proj2 (il_peek_ok q l H);
  q_takeAll_ok := il_takeAll_ok
}.

(** ** outStreamList

    The fields [next] and [prev] of all streams and sentinels; a missing entry
    is a nil pointer. *)
Record links := mkLinks { next : gmap loc loc; prev : gmap loc loc }.

Definition set_ptr (m : gmap loc loc) (k : loc) (v : option loc) : gmap loc loc :=
  match v with Some x => <[k := x]> m | None => delete k m end.

Definition deleteSelf (h : links) (s : loc) : links :=
  let h := match prev h !! s with
           | Some p => mkLinks (set_ptr (next h) p (next h !! s)) (prev h)
           | None => h
           end in
  let h := match next h !! s with
           | Some n => mkLinks (next h) (set_ptr (prev h) n (prev h !! s))
           | None => h
           end in
  mkLinks (delete s (next h)) (delete s (prev h)).

Record outStreamList := mkOSL { osl_head : loc; osl_tail : loc }.

(** [new(outStream)] twice: two addresses that are not in use. *)
Definition newOutStreamList (h : links) (hd tl : loc) : links * outStreamList :=
  (mkLinks (<[hd := tl]> (next h)) (<[tl := hd]> (prev h)), mkOSL hd tl).

Definition osl_enqueue (h : links) (l : outStreamList) (s : loc) : option links :=
  e ← prev h !! osl_tail l;
  let h := mkLinks (<[e := s]> (next h)) (prev h) in
  let h := mkLinks (next h) (<[s := e]> (prev h)) in
  let h := mkLinks (<[s := osl_tail l]> (next h)) (prev h) in
  Some (mkLinks (next h) (<[osl_tail l := s]> (prev h))).

Definition osl_dequeue (h : links) (l : outStreamList) : option (links * option loc) :=
  b ← next h !! osl_head l;
  if bool_decide (b = osl_tail l) then Some (h, None) else Some (deleteSelf h b, Some b).

(** From [p] the pointers go through [l] and back. *)
Fixpoint linked (h : links) (p : loc) (l : list loc) : Prop :=
  match l with
  | [] => True
  | q :: l => next h !! p = Some q /\ prev h !! q = Some p /\ linked h q l
  end.

Definition osl_rep (h : links) (l : outStreamList) (xs : list loc) : Prop :=
  linked h (osl_head l) (xs ++ [osl_tail l]) /\ NoDup (osl_head l :: xs ++ [osl_tail l]).

(** A stream that is in no list. *)
Definition detached (h : links) (s : loc) : Prop := next h !! s = None /\ prev h !! s = None.

Lemma linked_app h p l1 q l2 :
  linked h p (l1 ++ q :: l2) <-> linked h p (l1 ++ [q]) /\ linked h q l2.
Proof. revert p. induction l1 as [|a l1 IH]; intros p; simpl; [tauto|]. rewrite IH. tauto. Qed.

(** The end of the way from [p] through [l]. *)
Definition lastof (p : loc) (l : list loc) : loc := default p (last l).

Lemma lastof_cons p q l : lastof p (q :: l) = lastof q l.
Proof.
  unfold lastof. destruct l as [|b l]; [done|]. rewrite last_cons_cons.
  destruct (last (b :: l)) eqn:E; [done|]. by apply last_None in E.
Qed.
Lemma lastof_elem p l : lastof p l ∈ p :: l.
Proof.
  revert p. induction l as [|q l IH]; intros p; [by left|]. rewrite lastof_cons. right. apply IH.
Qed.

Lemma linked_snoc h p l q :
  linked h p (l ++ [q]) <->
  linked h p l /\ next h !! lastof p l = Some q /\ prev h !! q = Some (lastof p l).
Proof.
  revert p. induction l as [|a l IH]; intros p; [simpl; unfold lastof; simpl; tauto|].
  rewrite lastof_cons. simpl. rewrite IH. tauto.
Qed.

Lemma linked_ext h h' p l :
  NoDup (p :: l) ->
  (forall a, a ∈ p :: l -> a <> lastof p l -> next h' !! a = next h !! a) ->
  (forall a, a ∈ l -> prev h' !! a = prev h !! a) ->
  linked h p l -> linked h' p l.
Proof.
  revert p. induction l as [|q l IH]; intros p Hnd Hn Hp; simpl; [done|].
  apply NoDup_cons in Hnd as [Hpq Hnd]. rewrite lastof_cons in Hn.
  intros (H1 & H2 & H3). split_and!.
  - rewrite Hn; [done|by left|]. intros ->. apply Hpq. apply lastof_elem.
  - rewrite Hp; [done|by left].
  - apply IH; [done| | |done]; intros b Hb; [apply Hn|apply Hp]; by right.
Qed.

Lemma osl_new_ok h hd tl : hd <> tl -> let '(h', l) := newOutStreamList h hd tl in osl_rep h' l [].
Proof.
  intros Hne. split; simpl.
  - by rewrite !lookup_insert_eq.
  - apply NoDup_cons. split; [by intros ?%list_elem_of_singleton|apply NoDup_singleton].
Qed.

Lemma osl_enqueue_ok h l xs s :
  osl_rep h l xs -> s ∉ osl_head l :: xs ++ [osl_tail l] ->
  exists h', osl_enqueue h l s = Some h' /\ osl_rep h' l (xs ++ [s]).
Proof.
  intros [Hl Hnd] Hs. destruct l as [hd tl]. cbn [osl_head osl_tail] in *.
  unfold osl_enqueue, osl_rep. cbn [osl_tail osl_head].
  apply linked_snoc in Hl as (Hl & Hn & Hp). rewrite Hp. cbn [mbind option_bind next prev].
  set (e := lastof hd xs) in *. eexists. split; [done|].
  apply (NoDup_app (hd :: xs) [tl]) in Hnd as (Hnd & Hdis & _).
  assert (Htl : tl ∉ hd :: xs) by (intros H; by apply (Hdis tl H), list_elem_of_singleton).
  assert (Hse : (s ∉ hd :: xs) /\ s <> tl) by set_solver. destruct Hse as [Hsx Hst].
  assert (He : e ∈ hd :: xs) by apply lastof_elem.
  assert (Hes : e <> s) by (by intros ->). split.
  - apply linked_snoc. rewrite linked_snoc. fold e.
    replace (lastof hd (xs ++ [s])) with s by (unfold lastof; by rewrite last_snoc).
    cbn [next prev]. split_and!.
    + eapply linked_ext; [exact Hnd| | |exact Hl]; cbn [next prev]; intros a Ha.
      * intros Hae. rewrite !lookup_insert_ne; [done|by apply not_eq_sym|by intros ->].
      * rewrite !lookup_insert_ne; [done|intros ->; apply Hsx; by right|intros ->; apply Htl; by right].
    + by rewrite lookup_insert_ne, lookup_insert_eq.
    + by rewrite lookup_insert_ne, lookup_insert_eq.
    + by rewrite lookup_insert_eq.
    + by rewrite lookup_insert_eq.
  - apply (NoDup_app ((hd :: xs) ++ [s]) [tl]). split_and!; [|set_solver|apply NoDup_singleton].
    apply NoDup_app. split_and!; [done|set_solver|apply NoDup_singleton].
Qed.

(** What [deleteSelf] does to a stream between [p] and [n]. *)
Lemma deleteSelf_between h s p n :
  prev h !! s = Some p -> next h !! s = Some n -> p <> s -> n <> s ->
  deleteSelf h s = mkLinks (delete s (<[p := n]> (next h))) (delete s (<[n := p]> (prev h))).
Proof.
  intros Hp Hn Hps Hns. unfold deleteSelf. rewrite Hp, Hn. cbn [next prev set_ptr].
  rewrite lookup_insert_ne, Hn by done. cbn [next prev]. by rewrite Hp.
Qed.

Lemma deleteSelf_detached h s : detached h s -> deleteSelf h s = h.
Proof.
  intros [Hn Hp]. unfold deleteSelf. rewrite Hp, Hn. destruct h as [nx pv]. simpl in *.
  by rewrite !delete_id.
Qed.

Lemma deleteSelf_ok h l x1 s x2 :
  osl_rep h l (x1 ++ s :: x2) ->
  osl_rep (deleteSelf h s) l (x1 ++ x2) /\ detached (deleteSelf h s) s.
Proof.
  intros [Hl Hnd]. destruct l as [hd tl]. cbn [osl_head osl_tail] in *. unfold osl_rep. cbn [osl_head osl_tail].
  rewrite <- app_assoc in Hl, Hnd |- *. cbn [app] in Hl, Hnd.
  destruct (x2 ++ [tl]) as [|n rest] eqn:E2; [by destruct x2|].
  apply linked_app in Hl as [Hl (Hsn & Hns & Hrest)].
  apply linked_snoc in Hl as (Hl & Hps & Hsp). set (p := lastof hd x1) in *.
  assert (Hp : p ∈ hd :: x1) by apply lastof_elem.
  apply (NoDup_app (hd :: x1) (s :: n :: rest)) in Hnd as (Hnd1 & Hdis & Hnd2).
  apply NoDup_cons in Hnd2 as [Hs Hnd2]. pose proof Hnd2 as [Hnr Hndr]%NoDup_cons.
  assert (Hs1 : s ∉ hd :: x1) by (intros H; apply (Hdis s H); by left).
  assert (Hn1 : n ∉ hd :: x1) by (intros H; apply (Hdis n H); right; by left).
  rewrite (deleteSelf_between h s p n) by (done || by intros ->; set_solver).
  split; [split|by split; cbn; rewrite lookup_delete_eq].
  - apply linked_app. rewrite linked_snoc. fold p. cbn [next prev].
    assert (p <> s /\ n <> s) as [Hps' Hns'] by (split; intros ->; set_solver).
    split_and!.
    + eapply linked_ext; [exact Hnd1| | |exact Hl]; cbn [next prev]; intros a Ha.
      * intros Hap. rewrite lookup_delete_ne, lookup_insert_ne; [done|by apply not_eq_sym|by intros ->].
      * rewrite lookup_delete_ne, lookup_insert_ne; [done|intros ->; set_solver|intros ->; set_solver].
    + by rewrite lookup_delete_ne, lookup_insert_eq.
    + by rewrite lookup_delete_ne, lookup_insert_eq.
    + eapply linked_ext; [exact Hnd2| | |exact Hrest]; cbn [next prev]; intros a Ha.
      * intros _. rewrite lookup_delete_ne, lookup_insert_ne; [done|intros ->|intros ->; set_solver].
        apply (Hdis a Hp). by right.
      * rewrite lookup_delete_ne, lookup_insert_ne; [done|by intros ->|intros ->; set_solver].
  - apply (NoDup_app (hd :: x1) (n :: rest)). split_and!; [done|set_solver|done].
Qed.

Lemma osl_dequeue_ok h l xs :
  osl_rep h l xs -> exists h', osl_dequeue h l = Some (h', hd_error xs) /\ osl_rep h' l (List.tl xs).
Proof.
  intros Hrep. pose proof Hrep as [Hl Hnd]. unfold osl_dequeue. destruct xs as [|b xs]; simpl in Hl.
  - destruct Hl as (-> & _). simpl. rewrite bool_decide_true by done. by eexists.
  - destruct Hl as (-> & _). simpl. rewrite bool_decide_false.
    + eexists. split; [done|]. by apply (deleteSelf_ok h l [] b xs).
    + intros ->. apply NoDup_cons in Hnd as [_ [Hnd _]%NoDup_cons].
      apply Hnd. apply elem_of_app. right. by left.
Qed.

(** ** The theorems of the lists *)

(** The pointers of an [itemList] are a first-in first-out queue: items
    come out, singly or all at once, in the order they were put in, and [peek]
    shows the next one, panicking exactly on the empty list. *)
Theorem itemList_queue {A} (il : itemList A) l :
  il_rep il l ->
  (forall i, exists il', il_enqueue il i = Some il' /\ il_rep il' (l ++ [i])) /\
  (exists il', il_dequeue il = Some (il', hd_error l) /\ il_rep il' (tl l)) /\
  il_peek il = hd_error l /\ il_isEmpty il = bool_decide (l = []) /\
  let '(il', h) := il_dequeueAll il in il_rep il' [] /\ il_walk (length l) (nodes il) h = Some l.
Proof.
  intros H. split_and!; [intros i; by apply il_enqueue_ok|by apply il_dequeue_ok
    |by apply il_peek_ok|by apply il_peek_ok|by apply il_dequeueAll_ok].
Qed.

Lemma itemList_queue_witness :
  il_peek (il_new (A := Z)) = None /\ exists il', il_enqueue il_new 7 = Some il' /\ il_rep il' ([] ++ [7]).
Proof.
  destruct (itemList_queue (il_new (A := Z)) []) as (H1 & _ & H2 & _).
  - exists []. split; [reflexivity|]. split; [constructor|reflexivity].
  - split; [exact H2|apply H1].
Defined.

(** The doubly linked list of active streams is a list: a stream that is
    in no list is added at the end, the first one is taken off, and a stream
    removes itself from wherever it stands without knowing the list, leaving the
    others in order and itself in no list; removing it again changes nothing. *)
Theorem outStreamList_list h l xs :
  osl_rep h l xs ->
  (forall s, s ∉ osl_head l :: xs ++ [osl_tail l] ->
     exists h', osl_enqueue h l s = Some h' /\ osl_rep h' l (xs ++ [s])) /\
  (exists h', osl_dequeue h l = Some (h', hd_error xs) /\ osl_rep h' l (List.tl xs)) /\
  (forall x1 s x2, xs = x1 ++ s :: x2 ->
     osl_rep (deleteSelf h s) l (x1 ++ x2) /\ deleteSelf (deleteSelf h s) s = deleteSelf h s).
Proof.
  intros H. split_and!; [intros s; by apply osl_enqueue_ok|by apply osl_dequeue_ok|].
  intros x1 s x2 ->. destruct (deleteSelf_ok _ _ _ _ _ H) as [? Hd].
  split; [done|by apply deleteSelf_detached].
Qed.

Lemma outStreamList_list_witness :
  exists h', osl_enqueue (mkLinks {[0%nat := 1%nat]} {[1%nat := 0%nat]}) (mkOSL 0%nat 1%nat) 5%nat = Some h' /\
    osl_rep h' (mkOSL 0%nat 1%nat) ([] ++ [5%nat]).
Proof.
  apply (outStreamList_list (mkLinks {[0%nat := 1%nat]} {[1%nat := 0%nat]}) (mkOSL 0%nat 1%nat) []).
  - split; [split; [reflexivity|split; [reflexivity|exact I]]|].
    apply (bool_decide_unpack (NoDup [0%nat; 1%nat])). reflexivity.
  - cbn. intros [H|[H|H%not_elem_of_nil]%elem_of_cons]%elem_of_cons; done.
Defined.
