(* ===== verification/ControlBuf.v ===== *)
(** * The control buffer: h2/controlbuf.go

    The items that reach the loopy writer, and the buffer that carries them:
    [executeAndPut] on the side of the streams and the reader, [get] on the side
    of loopy, [finish] when the connection ends.  Every operation holds the lock,
    so it is one step of [cb_step]; waking the consumer happens after the lock is
    released and is a step of its own.

    Callbacks are names, and calling one is recorded by its caller; a nil
    function is [None].  The list is any [Queue]. *)
From S2P Require Import Prelude HpackTables Frame Lists.

Definition callback : Type := Z.

(** ** Items *)
Record cleanupStream := mkCleanup {
  cl_streamID : Z;
  cl_rst : bool;
  cl_rstCode : ErrCode;
  cl_onWrite : option callback
}.

Record headerFrame := mkHeader {
  hd_streamID : Z;
  hd_hf : list HeaderField;
  hd_endStream : bool;
  hd_initStream : option callback;
  hd_onWrite : option callback;
  hd_wq : loc;
  hd_cleanup : option cleanupStream;
  hd_onOrphaned : option callback
}.

Record dataFrame := mkData {
  df_streamID : Z;
  df_endStream : bool;
  df_d : list Z;
  df_start : Z;
  df_end : Z;
  df_onEachWrite : option callback;
  df_onDone : option callback;
  df_onDoneFunc : option callback
}.

Record goAway := mkGoAway {
  ga_code : ErrCode;
  ga_debugData : list Z;
  ga_headsUp : bool;
  ga_closeConn : bool
}.

Inductive cbItem :=
| ItRegister (streamID : Z) (wq : loc)
| ItHeader (h : headerFrame)
| ItCleanup (c : cleanupStream)
| ItData (d : dataFrame)
| ItInWindowUpdate (streamID increment : Z)
| ItOutWindowUpdate (streamID increment : Z)
| ItInSettings (ss : list Setting)
| ItOutSettings (ss : list Setting)
| ItInGoAway
| ItGoAway (g : goAway)
| ItPing (ack : bool) (data : list Z)
| ItFlowRequest (resp : callback).

Definition isTransportResponseFrame (it : cbItem) : bool :=
  match it with
  | ItHeader h => match hd_cleanup h with Some c => cl_rst c | None => false end
  | ItCleanup c => cl_rst c
  | ItInSettings _ | ItPing _ _ => true
  | _ => false
  end.

Definition maxQueuedTransportResponseFrames : Z := 50.

(** ** The buffer *)
Section ControlBuffer.
Context {Q : Type} `{!Queue Q cbItem}.

(** [trfChan] is the throttling channel when there is one; [closed] are the
    channels closed so far and [made] is the number of channels made. *)
Record controlBuffer := mkCB {
  ch : bool;
  consumerWaiting : bool;
  clist : Q;
  err : bool;
  transportResponseFrames : Z;
  trfChan : option nat;
  closed : gset nat;
  made : nat
}.

Definition newControlBuffer : controlBuffer := mkCB false false q_new false 0 None ∅ 0.

Inductive cbErr := ErrConnClosing.

(** [throttle] returns at once unless there is a channel that is not closed. *)
Definition throttled (c : controlBuffer) : bool :=
  match trfChan c with Some k => negb (bool_decide (k ∈ closed c)) | None => false end.

(** [executeAndPut] under the lock, with the result of [f] ([true] for a nil
    function); the last result is [wakeUp].  [None] is a panic. *)
Definition executeAndPut (f : bool) (it : cbItem) (c : controlBuffer)
    : option (controlBuffer * (bool * option cbErr) * bool) :=
  if err c then Some (c, (false, Some ErrConnClosing), false) else
  if negb f then Some (c, (false, None), false) else
  l ← q_enqueue (clist c) it;
  let n := transportResponseFrames c + 1 in
  let trf := isTransportResponseFrame it in
  let over := trf && (n =? maxQueuedTransportResponseFrames) in
  Some (mkCB (ch c) false l false (if trf then n else transportResponseFrames c)
          (if over then Some (made c) else trfChan c) (closed c)
          (if over then S (made c) else made c),
        (true, None), consumerWaiting c).

(** [execute]: [f] runs under the lock. *)
Definition execute (f : bool) (c : controlBuffer) : bool * option cbErr :=
  if err c then (false, Some ErrConnClosing) else (f, None).

(** [close(ch)] panics on a nil or closed channel. *)
Definition close_chan (k : option nat) (cl : gset nat) : option (gset nat) :=
  k ← k; if bool_decide (k ∈ cl) then None else Some ({[k]} ∪ cl).

Inductive got := Item (it : cbItem) | Nothing | Failed (e : cbErr).

(** One turn of the loop of [get] under the lock: [Nothing] is the nil result of
    a call that does not block, and the wait of one that does. *)
Definition get (block : bool) (c : controlBuffer) : option (controlBuffer * got) :=
  if err c then Some (c, Failed ErrConnClosing) else
  if q_isEmpty (clist c) then
    Some (mkCB (ch c) (consumerWaiting c || block) (clist c) false (transportResponseFrames c)
            (trfChan c) (closed c) (made c), Nothing)
  else
    '(l, h) ← q_dequeue (clist c);
    h ← h;
    if isTransportResponseFrame h then
      if transportResponseFrames c =? maxQueuedTransportResponseFrames then
        cl ← close_chan (trfChan c) (closed c);
        Some (mkCB (ch c) (consumerWaiting c) l false (transportResponseFrames c - 1) None cl (made c), Item h)
      else Some (mkCB (ch c) (consumerWaiting c) l false (transportResponseFrames c - 1)
                   (trfChan c) (closed c) (made c), Item h)
    else Some (mkCB (ch c) (consumerWaiting c) l false (transportResponseFrames c)
                 (trfChan c) (closed c) (made c), Item h).

(** The [onOrphaned] callbacks of the header frames left in the list. *)
Definition orphans (l : list cbItem) : list callback :=
  l ≫= fun it => match it with ItHeader h => option_list (hd_onOrphaned h) | _ => [] end.

Definition finish (c : controlBuffer) : option (controlBuffer * list callback) :=
  if err c then Some (c, []) else
  '(l, items) ← q_takeAll (clist c);
  cl ← (match trfChan c with None => Some (closed c) | Some k => close_chan (Some k) (closed c) end);
  Some (mkCB (ch c) (consumerWaiting c) l true (transportResponseFrames c) None cl (made c), orphans items).

(** [c.ch <- struct{}{}] when there is room, after the lock was released. *)
Definition wake (c : controlBuffer) : controlBuffer :=
  mkCB true (consumerWaiting c) (clist c) (err c) (transportResponseFrames c) (trfChan c) (closed c) (made c).
(** [<-c.ch] *)
Definition receive (c : controlBuffer) : option controlBuffer :=
  if ch c then Some (mkCB false (consumerWaiting c) (clist c) (err c) (transportResponseFrames c)
                       (trfChan c) (closed c) (made c)) else None.

(** ** Invariant *)
Definition responses (l : list cbItem) : Z :=
  Z.of_nat (length (filter (fun it => isTransportResponseFrame it = true) l)).

(** The buffer holds [items]; while it is open, the counter counts the
    transport responses among them and there is an open throttling channel
    exactly when there are too many. *)
Record cb_wf (c : controlBuffer) (items : list cbItem) : Prop := {
  cw_list : q_rep (clist c) items;
  cw_closed : forall k, k ∈ closed c -> (k < made c)%nat;
  cw_chan : forall k, trfChan c = Some k -> (k ∉ closed c) /\ (k < made c)%nat;
  cw_count : err c = false -> transportResponseFrames c = responses items /\
    (is_Some (trfChan c) <-> maxQueuedTransportResponseFrames <= responses items);
  cw_err : err c = true -> items = [] /\ trfChan c = None
}.

Lemma responses_app a b : responses (a ++ b) = responses a + responses b.
Proof. unfold responses. rewrite filter_app, length_app. lia. Qed.
Lemma responses_one it : responses [it] = if isTransportResponseFrame it then 1 else 0.
Proof.
  unfold responses. rewrite filter_cons. case_decide as E; [by rewrite E|].
  by destruct (isTransportResponseFrame it).
Qed.
Lemma responses_nonneg l : 0 <= responses l.
Proof. unfold responses. lia. Qed.

Lemma newControlBuffer_wf : cb_wf newControlBuffer [].
Proof.
  split; simpl; [apply q_new_ok|set_solver|done| |done].
  intros _. split; [done|]. split; [by intros []|by intros []].
Qed.

Lemma executeAndPut_ok f it c items :
  cb_wf c items -> exists c' r w, executeAndPut f it c = Some (c', r, w) /\
    cb_wf c' (if negb (err c) && f then items ++ [it] else items) /\
    r = (if err c then (false, Some ErrConnClosing) else (f, None)) /\
    (negb (err c) && f = true -> w = consumerWaiting c /\ consumerWaiting c' = false /\ err c' = false /\ ch c' = ch c).
Proof.
  intros Hwf. pose proof Hwf as [Hl Hcl Hch Hct He]. unfold executeAndPut.
  destruct (err c) eqn:Ee; [by eexists _, _, _|]. destruct f; [|by eexists _, _, _].
  cbn [negb andb]. destruct (q_enqueue_ok _ _ it Hl) as (q & -> & Hq). cbn [mbind option_bind].
  eexists _, _, _. split; [done|]. split_and!; [|done|done].
  destruct (Hct eq_refl) as [Hn Hc]. pose proof (responses_one it) as H1.
  assert (Hr : responses (items ++ [it]) = responses items + (if isTransportResponseFrame it then 1 else 0))
    by (by rewrite responses_app, H1).
  split; cbn [clist closed made trfChan err transportResponseFrames]; [done| | | |done].
  - intros k Hk%Hcl. case_if; lia.
  - intros k. destruct (isTransportResponseFrame it && _) eqn:Eo.
    + intros [= <-]. split; [intros Hk%Hcl; lia|lia].
    + apply Hch.
  - intros _. rewrite Hr, Hn. destruct (isTransportResponseFrame it); cbn [andb]; [|rewrite Z.add_0_r; done].
    split; [done|]. destruct (Z.eqb_spec (responses items + 1) maxQueuedTransportResponseFrames) as [E|E].
    + split; [lia|done].
    + rewrite Hc. unfold maxQueuedTransportResponseFrames in *. lia.
Qed.

Lemma get_ok block c items :
  cb_wf c items -> exists c' g, get block c = Some (c', g) /\ cb_wf c' (if err c then items else tl items) /\
    g = (if err c then Failed ErrConnClosing
         else match items with [] => Nothing | it :: _ => Item it end) /\
    err c' = err c /\ ch c' = ch c /\
    consumerWaiting c' = (consumerWaiting c || (block && negb (err c) && bool_decide (items = []))).
Proof.
  intros Hwf. pose proof Hwf as [Hl Hcl Hch Hct He]. unfold get.
  destruct (err c) eqn:Ee.
  { eexists _, _. split; [done|]. by rewrite Ee, andb_false_r, orb_false_r. }
  rewrite (q_isEmpty_ok _ _ Hl). destruct (Hct eq_refl) as [Hn Hc]. destruct items as [|it items].
  { rewrite bool_decide_true by done. eexists _, _. split; [done|]. rewrite !andb_true_r. by split_and!. }
  rewrite bool_decide_false by done. destruct (q_dequeue_ok _ _ Hl) as (q & -> & Hq).
  cbn [hd_error tl mbind option_bind] in *. rewrite !andb_false_r, orb_false_r.
  pose proof (responses_one it) as H1. pose proof (responses_nonneg items).
  assert (Hr : responses (it :: items) = responses items + (if isTransportResponseFrame it then 1 else 0)).
  { change (it :: items) with ([it] ++ items). rewrite responses_app. lia. }
  rewrite Hr in Hc, Hn. destruct (isTransportResponseFrame it).
  - rewrite Hn. destruct (Z.eqb_spec (responses items + 1) maxQueuedTransportResponseFrames) as [E|E].
    + destruct (trfChan c) as [k|] eqn:Ek; [|exfalso; apply (is_Some_None (A := nat)), Hc; lia].
      destruct (Hch k eq_refl) as [Hk1 Hk2]. unfold close_chan. cbn [mbind option_bind].
      rewrite bool_decide_false by done. cbn [mbind option_bind]. eexists _, _. split; [done|].
      split_and!; try done. split; cbn; try done; [set_solver by lia|]. intros _. split; [lia|].
      split; [by intros []|]. unfold maxQueuedTransportResponseFrames in *. lia.
    + eexists _, _. split; [done|]. split_and!; try done. split; cbn; try done.
      intros _. split; [lia|]. rewrite Hc. unfold maxQueuedTransportResponseFrames in *. lia.
  - eexists _, _. split; [done|]. split_and!; try done. split; cbn; try done.
    intros _. rewrite Z.add_0_r in *. done.
Qed.

Lemma finish_ok c items :
  cb_wf c items -> exists c' cbs, finish c = Some (c', cbs) /\ cb_wf c' [] /\ err c' = true /\
    throttled c' = false /\ cbs = (if err c then [] else orphans items).
Proof.
  intros Hwf. pose proof Hwf as [Hl Hcl Hch Hct He]. unfold finish.
  destruct (err c) eqn:Ee.
  { destruct (He eq_refl) as [-> Hn]. eexists _, _. split; [done|]. split_and!; try done.
    unfold throttled. by rewrite Hn. }
  destruct (q_takeAll_ok _ _ Hl) as (q & -> & Hq). cbn [mbind option_bind].
  assert (exists cl, (match trfChan c with None => Some (closed c) | Some k => close_chan (Some k) (closed c) end)
    = Some cl /\ forall k, k ∈ cl -> (k < made c)%nat) as (cl & -> & Hcl').
  { destruct (trfChan c) as [k|]; [|by eexists]. destruct (Hch k eq_refl). unfold close_chan.
    cbn [mbind option_bind]. rewrite bool_decide_false by done. eexists. split; [done|]. set_solver by lia. }
  eexists _, _. split; [done|]. by split_and!.
Qed.

(** ** Producers and the consumer *)
Inductive consumer := Running | Waiting.

(** [pend] counts the producers that released the lock and still have to wake
    the consumer; [accepted] and [received] are the items that went in and out. *)
Record cb_state := mkCS {
  buf : controlBuffer;
  pend : nat;
  cons_pc : consumer;
  accepted : list cbItem;
  received : list cbItem
}.

Inductive cb_step : cb_state -> cb_state -> Prop :=
| cb_put f it b n pc acc rcv b' r w :
    executeAndPut f it b = Some (b', r, w) ->
    cb_step (mkCS b n pc acc rcv)
      (mkCS b' (if (w : bool) then S n else n) pc (if (r.1 : bool) then acc ++ [it] else acc) rcv)
| cb_wake b n pc acc rcv :
    cb_step (mkCS b (S n) pc acc rcv) (mkCS (wake b) n pc acc rcv)
| cb_get block b n acc rcv b' g :
    get block b = Some (b', g) ->
    cb_step (mkCS b n Running acc rcv)
      (mkCS b' n (match g with Nothing => if (block : bool) then Waiting else Running | _ => Running end) acc
         (match g with Item it => rcv ++ [it] | _ => rcv end))
| cb_receive b n acc rcv b' :
    receive b = Some b' -> cb_step (mkCS b n Waiting acc rcv) (mkCS b' n Running acc rcv)
| cb_finish b n pc acc rcv b' cbs :
    finish b = Some (b', cbs) -> cb_step (mkCS b n pc acc rcv) (mkCS b' n pc acc rcv).

Inductive cb_reach : cb_state -> Prop :=
| cb_init : cb_reach (mkCS newControlBuffer 0 Running [] [])
| cb_next s s' : cb_reach s -> cb_step s s' -> cb_reach s'.

Record cb_inv (s : cb_state) (items : list cbItem) : Prop := {
  ci_wf : cb_wf (buf s) items;
  ci_fifo : err (buf s) = false -> accepted s = received s ++ items;
  ci_wake : cons_pc s = Waiting -> err (buf s) = true \/ ch (buf s) = true \/ (0 < pend s)%nat \/
    (items = [] /\ consumerWaiting (buf s) = true)
}.

Lemma cb_wf_ext c c' items :
  clist c' = clist c -> err c' = err c -> transportResponseFrames c' = transportResponseFrames c ->
  trfChan c' = trfChan c -> closed c' = closed c -> made c' = made c -> cb_wf c items -> cb_wf c' items.
Proof. intros E1 E2 E3 E4 E5 E6 []. split; rewrite ?E1, ?E2, ?E3, ?E4, ?E5, ?E6; done. Qed.

Lemma cb_step_inv s s' items : cb_step s s' -> cb_inv s items -> exists items', cb_inv s' items'.
Proof.
  intros Hstep [Hwf Hfifo Hwake].
  destruct Hstep as [f it b n pc acc rcv b' r w E|b n pc acc rcv|block b n acc rcv b' g E
    |b n acc rcv b' E|b n pc acc rcv b' cbs E]; cbn [buf pend cons_pc accepted received] in *.
  - destruct (executeAndPut_ok f it b items Hwf) as (b1 & r1 & w1 & E1 & Hwf1 & Hr & Hw).
    rewrite E1 in E. injection E as -> -> ->. eexists. split; [exact Hwf1| |];
      cbn [buf pend cons_pc accepted received]; rewrite ?Hr; destruct (err b) eqn:Ee; cbn [negb andb fst] in *.
    + unfold executeAndPut in E1. rewrite Ee in E1. simplify_eq. by rewrite Ee.
    + specialize (Hfifo eq_refl). destruct f; [|done]. intros _. by rewrite Hfifo, app_assoc.
    + intros _. left. unfold executeAndPut in E1. rewrite Ee in E1. by simplify_eq.
    + intros Hpc. destruct (Hwake Hpc) as [?|Hrest]; [done|]. right. destruct f.
      * destruct (Hw eq_refl) as (-> & Hcw & _ & Hch). rewrite Hch.
        destruct Hrest as [?|[?|[_ Hc]]]; [by left| |]; right; left; [destruct (consumerWaiting b); lia|].
        rewrite Hc. lia.
      * unfold executeAndPut in E1. rewrite Ee in E1. cbn [negb] in E1. by injection E1 as <- <- <-.
  - exists items. split; [by eapply cb_wf_ext; [..|exact Hwf]|done|]. intros _. right. by left.
  - destruct (get_ok block b items Hwf) as (b1 & g1 & E1 & Hwf1 & Hg & He & Hch & Hcw).
    rewrite E1 in E. injection E as -> ->. eexists. split; [exact Hwf1| |];
      cbn [buf pend cons_pc accepted received]; rewrite ?He, ?Hch, ?Hcw, Hg.
    + intros Ee. rewrite Ee in *. rewrite (Hfifo eq_refl). destruct items as [|it items]; [done|].
      cbn [tl]. by rewrite <- app_assoc.
    + destruct (err b) eqn:Ee; [by left|]. destruct items as [|it items]; [|done].
      destruct block; [|done]. intros _. right; right; right. split; [done|].
      rewrite bool_decide_true by done. by rewrite orb_true_r.
  - unfold receive in E. destruct (ch b); [|done]. injection E as <-.
    exists items. split; [by eapply cb_wf_ext; [..|exact Hwf]|done|done].
  - destruct (finish_ok b items Hwf) as (b1 & cbs1 & E1 & Hwf1 & He & _ & _).
    rewrite E1 in E. injection E as -> ->. exists []. split; [done| |]; cbn; rewrite He; [done|by left].
Qed.

Lemma cb_reach_inv s : cb_reach s -> exists items, cb_inv s items.
Proof.
  induction 1 as [|s s' _ [items IH] Hstep]; [|by eapply cb_step_inv].
  exists []. by split; [apply newControlBuffer_wf| |].
Qed.

(** ** The theorems of the control buffer *)

(** No operation of the buffer panics, in particular none closes a nil or
    closed channel, and the throttle is exact: in every reachable state of an
    open buffer the readers are held back when and only when fifty or more
    responses to the peer are queued; a closed buffer holds nobody back. *)
Theorem controlBuffer_throttle s :
  cb_reach s ->
  (forall f it, is_Some (executeAndPut f it (buf s))) /\ (forall b, is_Some (get b (buf s))) /\
  is_Some (finish (buf s)) /\
  exists items, q_rep (clist (buf s)) items /\
    (throttled (buf s) = true <->
       err (buf s) = false /\ maxQueuedTransportResponseFrames <= responses items).
Proof.
  intros (items & [Hwf _ _])%cb_reach_inv. split_and!.
  - intros f it. destruct (executeAndPut_ok f it _ _ Hwf) as (? & ? & ? & -> & _). done.
  - intros b. destruct (get_ok b _ _ Hwf) as (? & ? & -> & _). done.
  - destruct (finish_ok _ _ Hwf) as (? & ? & -> & _). done.
  - exists items. destruct Hwf as [Hl _ Hch Hct He]. split; [done|]. unfold throttled.
    destruct (err (buf s)) eqn:Ee.
    + destruct (He eq_refl) as [_ ->]. split; [done|by intros []].
    + destruct (Hct eq_refl) as [_ <-]. destruct (trfChan (buf s)) as [k|] eqn:Ek.
      * destruct (Hch k eq_refl). rewrite bool_decide_false by done. split; [|done].
        intros _. split; [done|by eexists].
      * split; [done|]. by intros [_ []].
Qed.

End ControlBuffer.
Arguments controlBuffer : clear implicits.

Arguments cb_state : clear implicits.

Lemma controlBuffer_throttle_witness :
  exists items, il_rep (clist (buf (mkCS (Q := itemList cbItem) newControlBuffer 0 Running [] []))) items /\
    (throttled (buf (mkCS (Q := itemList cbItem) newControlBuffer 0 Running [] [])) = true <->
     false = false /\ maxQueuedTransportResponseFrames <= responses items).
Proof.
  destruct (controlBuffer_throttle (Q := itemList cbItem) (mkCS newControlBuffer 0 Running [] []) cb_init)
    as (_ & _ & _ & H). exact H.
Defined.

