(* ===== verification/Loopy.v ===== *)
(** * The loopy writer: h2/controlbuf.go

    The goroutine that takes the items of the control buffer and writes frames:
    [handle] is one item, [processData] one turn of the round robin over the
    streams with data to send.  [loopyWriter] is its state; streams and write
    quotas live in a store and are referred to by address, as the code's
    pointers.  A handler returns the new state and its error, [None] is a panic.

    Outside of it are the writer below the framer ([wr]), the callbacks of the
    items (calls of which are logged, [initStream] also returns) and the
    server's handler of outgoing GOAWAY frames ([ssGoAway]). *)
From S2P Require Import Prelude HpackTables HpackCodec HpackBlocks Frame FlowControl Lists ControlBuf.

Inductive side := clientSide | serverSide.
#[export] Instance side_eq_dec : EqDecision side.
Proof. solve_decision. Defined.

Inductive outStreamState := active | empty | waitingOnStreamQuota.
#[export] Instance outStreamState_eq_dec : EqDecision outStreamState.
Proof. solve_decision. Defined.

Record outStream := mkOS {
  os_id : Z;
  os_state : outStreamState;
  os_itl : list cbItem;
  bytesOutStanding : Z;  (** an [int]: 64 bits, changed by less than 2^32 at a time *)
  os_wq : loc
}.

Inductive loopyErr := LFrame (e : frameErr) | LWriter (e : ioErr) | LConnClosing | LGoAway (n : Z).

(** What loopy does besides changing its state. *)
Inductive event :=
| EvFrame (c : writeCall)          (** a frame was handed to the writer *)
| EvCall (f : callback)            (** a callback was called *)
| EvInit (f : callback) (id : Z)   (** [initStream] was called *)
| EvDone (c : callback) (d : dataFrame)
| EvQuota (resp : callback) (q : Z)
| EvTimesnap (data : list Z)
| EvGoAway (g : goAway)
| EvMuxGoAway.

Section Loopy.
Context {W : Type} (wr : W -> list Z -> W * option ioErr).
Context (initStream : callback -> Z -> option loopyErr).
Context (ssGoAway : option (goAway -> bool * option loopyErr)).
(** The order in which a map is ranged over, which is not fixed. *)
Context (rangeOrder : gmap Z loc -> list loc).

Record loopyWriter := mkLoopy {
  lside : side;
  sendQuota : Z;
  oiws : Z;
  estdStreams : gmap Z loc;
  streams : gmap loc outStream;
  activeStreams : list loc;
  hEnc : Encoder;
  draining : bool;
  lmaxFrameSize : Z;
  wqs : gmap loc writeQuota;
  lw : W;
  log : list event
}.

Definition set_sendQuota (l : loopyWriter) (q : Z) : loopyWriter :=
  mkLoopy (lside l) q (oiws l) (estdStreams l) (streams l) (activeStreams l) (hEnc l) (draining l)
    (lmaxFrameSize l) (wqs l) (lw l) (log l).
Definition set_oiws (l : loopyWriter) (v : Z) : loopyWriter :=
  mkLoopy (lside l) (sendQuota l) v (estdStreams l) (streams l) (activeStreams l) (hEnc l) (draining l)
    (lmaxFrameSize l) (wqs l) (lw l) (log l).
Definition set_estd (l : loopyWriter) (m : gmap Z loc) : loopyWriter :=
  mkLoopy (lside l) (sendQuota l) (oiws l) m (streams l) (activeStreams l) (hEnc l) (draining l)
    (lmaxFrameSize l) (wqs l) (lw l) (log l).
Definition set_streams (l : loopyWriter) (m : gmap loc outStream) : loopyWriter :=
  mkLoopy (lside l) (sendQuota l) (oiws l) (estdStreams l) m (activeStreams l) (hEnc l) (draining l)
    (lmaxFrameSize l) (wqs l) (lw l) (log l).
Definition set_active (l : loopyWriter) (a : list loc) : loopyWriter :=
  mkLoopy (lside l) (sendQuota l) (oiws l) (estdStreams l) (streams l) a (hEnc l) (draining l)
    (lmaxFrameSize l) (wqs l) (lw l) (log l).
Definition set_hEnc (l : loopyWriter) (e : Encoder) : loopyWriter :=
  mkLoopy (lside l) (sendQuota l) (oiws l) (estdStreams l) (streams l) (activeStreams l) e (draining l)
    (lmaxFrameSize l) (wqs l) (lw l) (log l).
Definition set_draining (l : loopyWriter) (b : bool) : loopyWriter :=
  mkLoopy (lside l) (sendQuota l) (oiws l) (estdStreams l) (streams l) (activeStreams l) (hEnc l) b
    (lmaxFrameSize l) (wqs l) (lw l) (log l).
Definition set_wqs (l : loopyWriter) (m : gmap loc writeQuota) : loopyWriter :=
  mkLoopy (lside l) (sendQuota l) (oiws l) (estdStreams l) (streams l) (activeStreams l) (hEnc l) (draining l)
    (lmaxFrameSize l) m (lw l) (log l).
Definition set_lw (l : loopyWriter) (w : W) : loopyWriter :=
  mkLoopy (lside l) (sendQuota l) (oiws l) (estdStreams l) (streams l) (activeStreams l) (hEnc l) (draining l)
    (lmaxFrameSize l) (wqs l) w (log l).
Definition say (l : loopyWriter) (ev : event) : loopyWriter :=
  mkLoopy (lside l) (sendQuota l) (oiws l) (estdStreams l) (streams l) (activeStreams l) (hEnc l) (draining l)
    (lmaxFrameSize l) (wqs l) (lw l) (log l ++ [ev]).

Definition newLoopyWriter (s : side) (enc : Encoder) (w : W) (maxFrame : Z) : loopyWriter :=
  mkLoopy s defaultWindowSize defaultWindowSize ∅ ∅ [] enc false maxFrame ∅ w [].

(** ** Results *)
Definition res : Type := option (loopyWriter * option loopyErr).
Definition ok (l : loopyWriter) : res := Some (l, None).
Definition fails (l : loopyWriter) (e : loopyErr) : res := Some (l, Some e).

(** Go on unless there was an error. *)
Definition rbind (m : res) (k : loopyWriter -> res) : res :=
  '(l, e) ← m; match e with None => k l | Some e => fails l e end.

(** A callback that may be nil. *)
Definition call (l : loopyWriter) (f : option callback) : loopyWriter :=
  match f with Some f => say l (EvCall f) | None => l end.

(** A write method of the framer. *)
Definition fr_write (l : loopyWriter) (c : writeCall) : res :=
  match write false c with
  | Panic => None
  | Fail e => fails l (LFrame e)
  | Ret b =>
      let '(w, e) := wr (lw l) b in
      Some (say (set_lw l w) (EvFrame c), LWriter <$> e)
  end.

(** ** Handlers *)
Definition outgoingWindowUpdateHandler (l : loopyWriter) (streamID increment : Z) : res :=
  fr_write l (CallWindowUpdate streamID increment).

Definition set_state (s : outStream) (st : outStreamState) : outStream :=
  mkOS (os_id s) st (os_itl s) (bytesOutStanding s) (os_wq s).
Definition set_itl (s : outStream) (itl : list cbItem) : outStream :=
  mkOS (os_id s) (os_state s) itl (bytesOutStanding s) (os_wq s).
Definition set_out (s : outStream) (n : Z) : outStream :=
  mkOS (os_id s) (os_state s) (os_itl s) n (os_wq s).

Definition put_stream (l : loopyWriter) (p : loc) (s : outStream) : loopyWriter :=
  set_streams l (<[p := s]> (streams l)).

(** [str.state = active; l.activeStreams.enqueue(str)] *)
Definition activate (l : loopyWriter) (p : loc) (s : outStream) : loopyWriter :=
  set_active (put_stream l p (set_state s active)) (activeStreams l ++ [p]).

Definition incomingWindowUpdateHandler (l : loopyWriter) (streamID increment : Z) : res :=
  if streamID =? 0 then ok (set_sendQuota l (u32 (sendQuota l + increment))) else
  match estdStreams l !! streamID with
  | None => ok l
  | Some p =>
      s ← streams l !! p;
      let s := set_out s (bytesOutStanding s - increment) in
      let strQuota := oiws l - bytesOutStanding s in
      if (strQuota >? 0) && bool_decide (os_state s = waitingOnStreamQuota)
      then ok (activate l p s) else ok (put_stream l p s)
  end.

Definition outgoingSettingsHandler (l : loopyWriter) (ss : list Setting) : res :=
  fr_write l (CallSettings ss).

(** The streams that waited for quota become active. *)
Definition wakeStreams (l : loopyWriter) : option loopyWriter :=
  foldl (fun l p =>
    l ← l; s ← streams l !! p;
    if bool_decide (os_state s = waitingOnStreamQuota) then Some (activate l p s) else Some l)
    (Some l) (rangeOrder (estdStreams l)).

Definition applySetting (l : loopyWriter) (s : Setting) : option loopyWriter :=
  if ID s =? SettingInitialWindowSize then
    let o := oiws l in
    let l := set_oiws l (Val s) in
    if o <? oiws l then wakeStreams l else Some l
  else if ID s =? SettingHeaderTableSize then
    e ← SetMaxDynamicTableSizeLimit (hEnc l) (Val s); Some (set_hEnc l e)
  else Some l.

Definition applySettings (l : loopyWriter) (ss : list Setting) : option loopyWriter :=
  foldl (fun l s => l ← l; applySetting l s) (Some l) ss.

Definition incomingSettingsHandler (l : loopyWriter) (ss : list Setting) : res :=
  l ← applySettings l ss; fr_write l CallSettingsAck.

(** [&outStream{...}]: an address that is not in use. *)
Definition new_stream (l : loopyWriter) : loc := fresh (dom (streams l)).

Definition registerStreamHandler (l : loopyWriter) (streamID : Z) (wq : loc) : res :=
  let p := new_stream l in
  let l := put_stream l p (mkOS streamID empty [] 0 wq) in
  ok (set_estd l (<[streamID := p]> (estdStreams l))).

(** The loop of [writeHeader] over the encoded block.  Every frame but the last
    takes [maxFrameSize] bytes, so its length is enough fuel. *)
Fixpoint writeBlock (fuel : nat) (l : loopyWriter) (streamID : Z) (endStream first : bool)
    (hBuf : list Z) : res :=
  match fuel with
  | O => None
  | S fuel =>
      let size := len hBuf in
      let '(size, endHeaders) :=
        if size >? lmaxFrameSize l then (lmaxFrameSize l, false) else (size, true) in
      let frag := take (Z.to_nat size) hBuf in
      let hBuf := drop (Z.to_nat size) hBuf in
      rbind (fr_write l (if first
               then CallHeaders (mkHFP streamID frag endStream endHeaders 0 PriorityParam_zero)
               else CallContinuation streamID endHeaders frag)) (fun l =>
      if endHeaders then ok l else writeBlock fuel l streamID endStream false hBuf)
  end.

(** [hEnc] writes into [hBuf], which never fails. *)
Definition writeHeader (l : loopyWriter) (streamID : Z) (endStream : bool) (hf : list HeaderField)
    (onWrite : option callback) : res :=
  let l := call l onWrite in
  '(e, hBuf) ← encodeFields (hEnc l) hf;
  writeBlock (S (length hBuf)) (set_hEnc l e) streamID endStream true hBuf.

(** [c.onWrite()] panics when it is nil. *)
Definition cleanupStreamHandler (l : loopyWriter) (c : cleanupStream) : res :=
  f ← cl_onWrite c;
  let l := say l (EvCall f) in
  let l := match estdStreams l !! cl_streamID c with
           | None => l
           | Some p => set_active (set_estd l (delete (cl_streamID c) (estdStreams l)))
                         (filter (.≠ p) (activeStreams l))
           end in
  rbind (if cl_rst c then fr_write l (CallRSTStream (cl_streamID c) (cl_rstCode c)) else ok l) (fun l =>
  if bool_decide (lside l = clientSide) && draining l && bool_decide (estdStreams l = ∅)
  then fails l LConnClosing else ok l).

Definition headerHandler (l : loopyWriter) (h : headerFrame) : res :=
  if bool_decide (lside l = serverSide) && (hd_streamID h mod 2 =? 1) then
    match estdStreams l !! hd_streamID h with
    | None => ok l
    | Some p =>
        if negb (hd_endStream h)
        then writeHeader l (hd_streamID h) (hd_endStream h) (hd_hf h) (hd_onWrite h) else
        s ← streams l !! p;
        if negb (bool_decide (os_state s = empty))
        then ok (put_stream l p (set_itl s (os_itl s ++ [ItHeader h]))) else
        rbind (writeHeader l (hd_streamID h) (hd_endStream h) (hd_hf h) (hd_onWrite h)) (fun l =>
        c ← hd_cleanup h; cleanupStreamHandler l c)
    end
  else
    let '(l, ierr) :=
      match hd_initStream h with
      | None => (l, None)
      | Some f => (say l (EvInit f (hd_streamID h)), initStream f (hd_streamID h))
      end in
    match ierr with
    | Some LConnClosing => fails l LConnClosing
    | Some _ => ok l
    | None =>
        rbind (writeHeader l (hd_streamID h) (hd_endStream h) (hd_hf h) (hd_onWrite h)) (fun l =>
        registerStreamHandler l (hd_streamID h) (hd_wq h))
    end.

Definition preprocessData (l : loopyWriter) (df : dataFrame) : res :=
  match estdStreams l !! df_streamID df with
  | None => ok l
  | Some p =>
      s ← streams l !! p;
      let s := set_itl s (os_itl s ++ [ItData df]) in
      if bool_decide (os_state s = empty) then ok (activate l p s) else ok (put_stream l p s)
  end.

Definition pingHandler (l : loopyWriter) (ack : bool) (data : list Z) : res :=
  let l := if negb ack then say l (EvTimesnap data) else l in
  fr_write l (CallPing ack data).

Definition outFlowControlSizeRequestHandler (l : loopyWriter) (resp : callback) : res :=
  ok (say l (EvQuota resp (sendQuota l))).

Definition incomingGoAwayHandler (l : loopyWriter) : res :=
  if bool_decide (lside l = clientSide) then
    let l := set_draining l true in
    if bool_decide (estdStreams l = ∅) then fails l LConnClosing else ok l
  else ok l.

Definition goAwayHandler (l : loopyWriter) (g : goAway) : res :=
  match ssGoAway with
  | Some h =>
      let '(d, e) := h g in
      let l := say l (EvGoAway g) in
      match e with
      | Some e => fails l e
      | None => ok (say (set_draining l d) EvMuxGoAway)
      end
  | None => ok (say l EvMuxGoAway)
  end.

Definition handle (l : loopyWriter) (i : cbItem) : res :=
  match i with
  | ItInWindowUpdate sid inc => incomingWindowUpdateHandler l sid inc
  | ItOutWindowUpdate sid inc => outgoingWindowUpdateHandler l sid inc
  | ItInSettings ss => incomingSettingsHandler l ss
  | ItOutSettings ss => outgoingSettingsHandler l ss
  | ItHeader h => headerHandler l h
  | ItRegister sid wq => registerStreamHandler l sid wq
  | ItCleanup c => cleanupStreamHandler l c
  | ItInGoAway => incomingGoAwayHandler l
  | ItData d => preprocessData l d
  | ItPing ack d => pingHandler l ack d
  | ItGoAway g => goAwayHandler l g
  | ItFlowRequest r => outFlowControlSizeRequestHandler l r
  end.

(** ** Data *)
Definition set_d (df : dataFrame) (d : list Z) : dataFrame :=
  mkData (df_streamID df) (df_endStream df) d (df_start df) (df_end df) (df_onEachWrite df)
    (df_onDone df) (df_onDoneFunc df).

Definition done (l : loopyWriter) (f : option callback) (df : dataFrame) : loopyWriter :=
  match f with Some f => say l (EvDone f df) | None => l end.

(** What happens to the stream after its first item: [swallow] is the branch for
    an empty data frame, which drops an error of [cleanupStreamHandler]. *)
Definition afterItem (l : loopyWriter) (p : loc) (swallow : bool) : res :=
  s ← streams l !! p;
  match os_itl s with
  | [] => ok (put_stream l p (set_state s empty))
  | ItHeader trailer :: _ =>
      rbind (writeHeader l (hd_streamID trailer) (hd_endStream trailer) (hd_hf trailer) (hd_onWrite trailer))
        (fun l => c ← hd_cleanup trailer;
                  '(l, e) ← cleanupStreamHandler l c;
                  Some (l, if swallow then None else e))
  | _ =>
      if negb swallow && (oiws l - bytesOutStanding s <=? 0)
      then ok (put_stream l p (set_state s waitingOnStreamQuota))
      else ok (set_active l (activeStreams l ++ [p]))
  end.

Definition dataSize (df : dataFrame) : Z :=
  if negb (df_end df =? 0) then df_end df - df_start df else len (df_d df).

(** How much of the item may be sent now; [None] when the stream has no quota. *)
Definition sendSize (l : loopyWriter) (s : outStream) (df : dataFrame) : option Z :=
  let strQuota := oiws l - bytesOutStanding s in
  if strQuota <=? 0 then None else
  let maxSize := if lmaxFrameSize l >? strQuota then strQuota else lmaxFrameSize l in
  let maxSize := if maxSize >? sendQuota l then sendQuota l else maxSize in
  Some (Z.min maxSize (dataSize df)).

(** The branch for an empty item; [items] are those after it. *)
Definition sendEmpty (l : loopyWriter) (p : loc) (s : outStream) (df : dataFrame) (items : list cbItem) : res :=
  rbind (fr_write l (CallData (df_streamID df) (df_endStream df) [] None)) (fun l =>
  let l := put_stream l p (set_itl s items) in
  let l := done l (df_onDone df) df in
  let l := done l (df_onDoneFunc df) df in
  afterItem l p true).

(** The branch that sends [size] bytes; [d[dSize:]] panics outside of the slice
    ([buf[:size]] only outside of its capacity, and then [d[dSize:]] does). *)
Definition sendChunk (l : loopyWriter) (p : loc) (s : outStream) (df : dataFrame) (items : list cbItem)
    (size : Z) : res :=
  q ← wqs l !! os_wq s;
  let l := set_wqs l (<[os_wq s := realReplenish q size]> (wqs l)) in
  let endStream := df_endStream df && (dataSize df <=? size) in
  let l := call l (df_onEachWrite df) in
  if (size <? 0) || (size >? len (df_d df)) then None else
  rbind (fr_write l (CallData (df_streamID df) endStream (take (Z.to_nat size) (df_d df)) None)) (fun l =>
  let d := drop (Z.to_nat size) (df_d df) in
  let df := set_d df d in
  let s := set_out s (bytesOutStanding s + size) in
  let l := set_sendQuota l (u32 (sendQuota l - u32 size)) in
  let l := put_stream l p (set_itl s (if len d =? 0 then items else ItData df :: items)) in
  let l := if len d =? 0 then done l (df_onDone df) df else l in
  afterItem l p false).

(** The first result is [true] when there is nothing to do. *)
Definition processData (l : loopyWriter) : option (loopyWriter * (bool * option loopyErr)) :=
  let ret r := '(l, e) ← r; Some (l, (false, e)) in
  if sendQuota l =? 0 then Some (l, (true, None)) else
  match activeStreams l with
  | [] => Some (l, (true, None))
  | p :: rest =>
      let l := set_active l rest in
      s ← streams l !! p;
      match os_itl s with
      | ItData df :: items =>
          if dataSize df =? 0 then ret (sendEmpty l p s df items) else
          match sendSize l s df with
          | None => ret (ok (put_stream l p (set_state s waitingOnStreamQuota)))
          | Some size => ret (sendChunk l p s df items size)
          end
      | _ => None
      end
  end.

(** ** What the handlers leave alone *)
Definition sched_eq (l l' : loopyWriter) : Prop :=
  lside l' = lside l /\ sendQuota l' = sendQuota l /\ oiws l' = oiws l /\
  estdStreams l' = estdStreams l /\ streams l' = streams l /\ activeStreams l' = activeStreams l /\
  draining l' = draining l /\ lmaxFrameSize l' = lmaxFrameSize l /\ wqs l' = wqs l.

Lemma sched_eq_refl l : sched_eq l l.
Proof. by split_and!. Qed.
Lemma sched_eq_trans l1 l2 l3 : sched_eq l1 l2 -> sched_eq l2 l3 -> sched_eq l1 l3.
Proof. unfold sched_eq. intuition congruence. Qed.

(** The DATA frames among the frames written: stream, end of stream, bytes. *)
Definition call_data (c : writeCall) : list (Z * bool * list Z) :=
  match c with CallData sid es d _ => [(sid, es, d)] | _ => [] end.
Definition ev_data (ev : event) : list (Z * bool * list Z) :=
  match ev with EvFrame c => call_data c | _ => [] end.
Definition datas (evs : list event) : list (Z * bool * list Z) := evs ≫= ev_data.

Lemma datas_app a b : datas (a ++ b) = datas a ++ datas b.
Proof. apply bind_app. Qed.
Lemma datas_one ev : datas [ev] = ev_data ev.
Proof. apply app_nil_r. Qed.

(** A step that may write frames but no DATA. *)
Definition quiet (l l' : loopyWriter) : Prop := datas (log l') = datas (log l).

Lemma endWrite_safe b : endWrite b <> Panic.
Proof. unfold endWrite. by case_if. Qed.

Lemma write_safe c : write false c <> Panic.
Proof.
  destruct c; cbn [write]; unfold WriteDataPadded, WriteHeaders, WritePriority, WriteRSTStream, WriteSettings,
    WriteSettingsAck, WritePushPromise, WritePing, WriteGoAway, WriteWindowUpdate, WriteContinuation,
    WriteRawFrame; repeat case_if; try done; apply endWrite_safe.
Qed.

Lemma fr_write_ok l c :
  exists l' e, fr_write l c = Some (l', e) /\ sched_eq l l' /\ hEnc l' = hEnc l /\
    (e = None -> datas (log l') = datas (log l) ++ call_data c) /\
    (call_data c = [] -> quiet l l').
Proof.
  unfold fr_write. pose proof (write_safe c). destruct (write false c) as [b|e|]; [| |done].
  - destruct (wr (lw l) b) as [w e]. eexists _, _. split; [done|]. unfold quiet. cbn [log say set_lw].
    rewrite datas_app, datas_one. cbn [ev_data]. split_and!; [by split_and!|done|done|]. intros ->. apply app_nil_r.
  - eexists _, _. split; [done|]. by split_and!; [apply sched_eq_refl|..].
Qed.

(** ** The encoder of header blocks *)
Definition enc_ok (e : Encoder) : Prop := dyn_wf (eDynTab e) /\ maxSize (eDynTab e) < 2 ^ 31.

(** A decoder with the same table, to which the one-field theorem applies. *)
Definition twin (e : Encoder) : Decoder :=
  mkDecoder (mkDyn (table (eDynTab e)) (size (eDynTab e)) (maxSize (eDynTab e)) (maxSize (eDynTab e)))
    true 0 [] true.

Lemma twin_synced e : dyn_wf (eDynTab e) -> synced e (twin e).
Proof. intros Hd. pose proof Hd as [? ? ?]. split; simpl; [done|by split|done|done|lia]. Qed.

Lemma encodeSizeUpdate_safe e : dyn_wf (eDynTab e) -> 0 <= minSize e ->
  exists e' u, encodeSizeUpdate e = Some (e', u) /\ eDynTab e' = eDynTab e /\
    tableSizeUpdate e' = false /\ 0 <= minSize e' /\ bytes_ok u.
Proof.
  intros Hd Hm. unfold encodeSizeUpdate. destruct (tableSizeUpdate e) eqn:Eu; cycle 1.
  { eexists _, _. split; [done|]. split_and!; try done. constructor. }
  pose proof (dwf_max _ Hd). pose proof (dwf_size _ Hd). pose proof (sum_size_nonneg (ents (table (eDynTab e)))).
  assert (Hone : forall dst v, bytes_ok dst -> 0 <= v -> exists u, appendTableSize dst v = Some u /\ bytes_ok u).
  { intros dst v Hdst Hv. unfold appendTableSize. rewrite appendVarInt_eq, or_at_mid by lia.
    eexists. split; [done|]. apply bytes_ok_app. split; [done|].
    apply bytes_ok_cons; [by apply flag_byte_ok; [lia|lia|]|apply vi_tail_bytes]. }
  assert (exists u0, (if minSize e <? maxSize (eDynTab e) then appendTableSize [] (minSize e) else Some [])
    = Some u0 /\ bytes_ok u0) as (u0 & -> & Hu0).
  { case_if; [apply Hone; [constructor|done]|]. eexists. split; [done|constructor]. }
  cbn [mbind option_bind]. destruct (Hone u0 (maxSize (eDynTab e)) Hu0) as (u & -> & Hu); [lia|].
  eexists _, _. split; [done|]. by split_and!.
Qed.

Lemma encodeFields_safe fs : forall e,
  enc_ok e -> 0 <= minSize e -> added (eDynTab e) + len fs < 2 ^ 62 -> Forall field_ok fs ->
  exists e' b, encodeFields e fs = Some (e', b) /\ enc_ok e' /\ 0 <= minSize e' /\
    added (eDynTab e') <= added (eDynTab e) + len fs.
Proof.
  induction fs as [|f fs IH]; intros e [Hd Hmax] Hm Hadd Hfs; cbn [encodeFields].
  { eexists _, _. split; [done|]. split; [by split|]. split; [done|]. unfold len. simpl. lia. }
  rewrite len_cons in Hadd. pose proof (len_nonneg fs). inversion_clear Hfs as [|? ? Hf Hfs'].
  destruct (encodeSizeUpdate_safe e Hd Hm) as (e1 & u & Hu & He1 & Hup & Hm1 & Hub).
  assert (Hd1 : dyn_wf (eDynTab e1)) by (by rewrite He1).
  assert (Hr : room (eDynTab e1) 1) by (rewrite He1; unfold room; lia).
  destruct (encodeRepr_ok collect e1 (twin e1) u f) as (e2 & b & dt & [Henc _ Hs2 _ [Ha2 Hmx2] _]); try done;
    [by apply twin_synced|by left|by left|].
  unfold encodeField. rewrite Hu. cbn [mbind option_bind]. rewrite Henc. cbn [mbind option_bind].
  assert (Hm2 : 0 <= minSize e2).
  { unfold encodeRepr in Henc. destruct (searchTable e1 f) as [[i m]|]; [|done].
    cbn [mbind option_bind] in Henc. destruct m.
    - destruct (appendIndexed u i); [|done]. cbn in Henc. by simplify_eq.
    - destruct (if shouldIndex e1 f then _ else _); [|done]. cbn [mbind option_bind] in Henc.
      destruct (if i =? 0 then _ else _); [|done]. cbn in Henc. by simplify_eq. }
  rewrite He1 in Ha2, Hmx2.
  destruct (IH e2) as (e3 & b' & -> & Hok & Hm3 & Ha3); [|done|lia|done|].
  { split; [apply Hs2|lia]. }
  eexists _, _. split; [done|]. split; [done|]. split; [done|]. rewrite len_cons. lia.
Qed.

(** ** Invariant *)

(** An item of the queue of stream [sid]: data that is sent from its start, or
    trailers with the clean-up that follows them. *)
Definition fields_ok (fs : list HeaderField) : Prop := Forall field_ok fs /\ len fs < 2 ^ 32.
Definition closes (h : headerFrame) (sid : Z) : Prop :=
  exists c, hd_cleanup h = Some c /\ is_Some (cl_onWrite c) /\ cl_streamID c = sid.
Definition queued_ok (sid : Z) (i : cbItem) : Prop :=
  match i with
  | ItData df => df_end df = 0 /\ df_streamID df = sid
  | ItHeader h => fields_ok (hd_hf h) /\ hd_streamID h = sid /\ closes h sid
  | _ => False
  end.

Definition head_data (itl : list cbItem) : Prop := exists df items, itl = ItData df :: items.

(** Where an established stream stands: it is scheduled; or it has nothing to
    send; or it has data and no quota. *)
Definition est_ok (l : loopyWriter) (p : loc) (s : outStream) : Prop :=
  match os_state s with
  | active => p ∈ activeStreams l
  | empty => os_itl s = [] /\ p ∉ activeStreams l
  | waitingOnStreamQuota => head_data (os_itl s) /\ oiws l - bytesOutStanding s <= 0 /\ p ∉ activeStreams l
  end.

Definition stream_ok (l : loopyWriter) (s : outStream) : Prop :=
  Forall (queued_ok (os_id s)) (os_itl s) /\ is_Some (wqs l !! os_wq s).

(** [x] is the stream that [processData] took from the list and has not put
    back, if there is one. *)
Record lp_wf_but (x : option loc) (l : loopyWriter) : Prop := {
  lw_estd : forall id p, estdStreams l !! id = Some p ->
    exists s, streams l !! p = Some s /\ os_id s = id /\ (x <> Some p -> est_ok l p s);
  lw_active : forall p, p ∈ activeStreams l ->
    exists s, streams l !! p = Some s /\ estdStreams l !! os_id s = Some p /\
      os_state s = active /\ head_data (os_itl s);
  lw_nodup : NoDup (activeStreams l);
  lw_out : forall p, x = Some p -> p ∉ activeStreams l;
  lw_queued : forall p s, streams l !! p = Some s -> stream_ok l s;
  lw_enc : enc_ok (hEnc l) /\ 0 <= minSize (hEnc l);
  lw_quota : is_u32 (sendQuota l) /\ is_u32 (oiws l) /\ 0 < lmaxFrameSize l < 2 ^ 24
}.
Abbreviation lp_wf := (lp_wf_but None).

(** The encoder's 64-bit count of table entries is far from its end. *)
Definition enc_room (l : loopyWriter) : Prop := added (eDynTab (hEnc l)) + 2 ^ 32 < 2 ^ 62.

Lemma lp_wf_sched x l l' :
  sched_eq l l' -> enc_ok (hEnc l') -> 0 <= minSize (hEnc l') -> lp_wf_but x l -> lp_wf_but x l'.
Proof.
  intros (_ & E1 & E2 & E3 & E4 & E5 & _ & E6 & E7) He Hm [H1 H2 H3 H4 H5 _ H7].
  split; rewrite ?E1, ?E2, ?E3, ?E4, ?E5, ?E6; try done.
  - intros id p (s & Hs & Hid & Hok)%H1. exists s. split_and!; [done|done|]. intros Hx. specialize (Hok Hx).
    unfold est_ok in *. by rewrite E2, E5.
  - intros p s Hs. unfold stream_ok. rewrite E7. by apply (H5 p).
Qed.

Lemma rbind_ok m k (P : loopyWriter -> Prop) l e :
  m = Some (l, e) -> (e = None -> exists l' e', k l = Some (l', e') /\ (e' = None -> P l')) ->
  exists l' e', rbind m k = Some (l', e') /\ (e' = None -> P l').
Proof. intros -> H. unfold rbind. cbn [mbind option_bind]. destruct e; [by eexists _, _|]. by apply H. Qed.

Lemma writeBlock_ok fuel : forall l sid es first b,
  0 < lmaxFrameSize l -> (length b < fuel)%nat ->
  exists l' e, writeBlock fuel l sid es first b = Some (l', e) /\ sched_eq l l' /\ hEnc l' = hEnc l /\ quiet l l'.
Proof.
  induction fuel as [|fuel IH]; intros l sid es first b Hm Hf; [lia|]. cbn [writeBlock].
  assert (Hstep : forall (first : bool) n (b' : bool), exists l' e, fr_write l
    (if first then CallHeaders (mkHFP sid (take n b) es b' 0 PriorityParam_zero)
     else CallContinuation sid b' (take n b)) = Some (l', e) /\ sched_eq l l' /\ hEnc l' = hEnc l /\ quiet l l').
  { intros fs n b'. edestruct (fr_write_ok l) as (l' & e & Hw & Hs & He & _ & Hq). eexists _, _. split; [exact Hw|].
    split; [done|]. split; [done|]. apply Hq. by destruct fs. }
  destruct (Z.gtb_spec (len b) (lmaxFrameSize l)) as [Hgt|Hle].
  - destruct (Hstep first (Z.to_nat (lmaxFrameSize l)) false) as (l1 & e & -> & Hs & He & Hq).
    unfold rbind. cbn [mbind option_bind]. destruct e; [by eexists _, _|].
    destruct (IH l1 sid es false (drop (Z.to_nat (lmaxFrameSize l)) b)) as (l2 & e2 & -> & Hs2 & He2 & Hq2).
    + destruct Hs as (_ & _ & _ & _ & _ & _ & _ & -> & _). done.
    + rewrite length_drop. unfold len in Hgt. lia.
    + eexists _, _. split; [done|]. split; [by eapply sched_eq_trans|]. unfold quiet in *. split; congruence.
  - destruct (Hstep first (Z.to_nat (len b)) true) as (l1 & e & -> & Hs & He & Hq).
    unfold rbind. cbn [mbind option_bind]. destruct e; by eexists _, _.
Qed.

Lemma call_ok_sched l f : sched_eq l (call l f) /\ hEnc (call l f) = hEnc l /\ quiet l (call l f).
Proof.
  destruct f; cbn [call]; [|by split_and!]. unfold quiet. cbn [log say]. rewrite datas_app.
  split; [by split_and!|]. split; [done|apply app_nil_r].
Qed.

Lemma writeHeader_ok x l sid es fs f :
  lp_wf_but x l -> enc_room l -> fields_ok fs ->
  exists l' e, writeHeader l sid es fs f = Some (l', e) /\ sched_eq l l' /\ quiet l l' /\ lp_wf_but x l'.
Proof.
  intros Hwf Hr [Hfs Hl]. unfold writeHeader. destruct (call_ok_sched l f) as (Hc & He & Hq).
  rewrite He. destruct (lw_enc _ _ Hwf) as [Hok Hmin]. unfold enc_room in Hr.
  destruct (encodeFields_safe fs (hEnc l) Hok Hmin) as (e' & b & -> & Hok' & Hmin' & _); [lia|done|].
  cbn [mbind option_bind].
  destruct (writeBlock_ok (S (length b)) (set_hEnc (call l f) e') sid es true b) as (l' & e & -> & Hs & He' & Hq').
  - destruct Hc as (_ & _ & _ & _ & _ & _ & _ & H & _). cbn [lmaxFrameSize set_hEnc]. rewrite H. apply Hwf.
  - lia.
  - assert (Hsl : sched_eq l l') by (eapply sched_eq_trans; [exact Hc|exact Hs]).
    eexists _, _. split; [done|]. split; [done|]. split; [unfold quiet in *; by rewrite Hq'|].
    eapply lp_wf_sched; [exact Hsl|by rewrite He'|by rewrite He'|done].
Qed.

(** ** The moves of a stream *)

(** The stream changes, and stands where its new state says. *)
Lemma put_stream_wf x l p s0 s :
  lp_wf_but x l -> x = None \/ x = Some p -> streams l !! p = Some s0 -> os_id s = os_id s0 -> stream_ok l s ->
  est_ok l p s -> (p ∈ activeStreams l -> os_state s = active /\ head_data (os_itl s)) ->
  lp_wf (put_stream l p s).
Proof.
  intros [H1 H2 H3 H4 H5 H6 H7] Hx Hs0 Hid Hok Hest Hact. split; cbn; try done.
  - intros id q Hq. destruct (H1 id q Hq) as (s' & Hs' & Hid' & Hest').
    destruct (decide (p = q)) as [<-|Hne].
    + exists s. rewrite lookup_insert_eq. simplify_eq. done.
    + rewrite lookup_insert_ne by done. exists s'. split_and!; [done|done|]. intros _. apply Hest'.
      destruct Hx; congruence.
  - intros q Hq. destruct (decide (p = q)) as [<-|Hne].
    + exists s. rewrite lookup_insert_eq. destruct (H2 p Hq) as (? & ? & ? & _). simplify_eq.
      rewrite Hid. by split_and!; [..|apply Hact|apply Hact].
    + rewrite lookup_insert_ne by done. by apply H2.
  - intros q s'. destruct (decide (p = q)) as [<-|Hne].
    + rewrite lookup_insert_eq. by intros [= <-].
    + rewrite lookup_insert_ne by done. apply H5.
Qed.

(** The stream changes while it is out of the list. *)
Lemma put_out_wf l p s0 s :
  lp_wf_but (Some p) l -> streams l !! p = Some s0 -> os_id s = os_id s0 -> stream_ok l s ->
  lp_wf_but (Some p) (put_stream l p s).
Proof.
  intros [H1 H2 H3 H4 H5 H6 H7] Hs0 Hid Hok. specialize (H4 p eq_refl) as Hp. split; cbn; try done.
  - intros id q Hq. destruct (H1 id q Hq) as (s' & Hs' & Hid' & Hest').
    destruct (decide (p = q)) as [<-|Hne].
    + exists s. rewrite lookup_insert_eq. simplify_eq. by split_and!.
    + rewrite lookup_insert_ne by done. by exists s'.
  - intros q Hq. rewrite lookup_insert_ne by (by intros ->). by apply H2.
  - intros q s'. destruct (decide (p = q)) as [<-|Hne].
    + rewrite lookup_insert_eq. by intros [= <-].
    + rewrite lookup_insert_ne by done. apply H5.
Qed.

(** The stream enters the list of active streams, at the end. *)
Lemma enlist_wf x l p s :
  lp_wf_but x l -> x = None \/ x = Some p -> streams l !! p = Some s ->
  estdStreams l !! os_id s = Some p -> head_data (os_itl s) -> os_state s = active -> p ∉ activeStreams l ->
  lp_wf (set_active l (activeStreams l ++ [p])).
Proof.
  intros [H1 H2 H3 H4 H5 H6 H7] Hx Hs He Hhd Hst Hp. split; cbn; try done.
  - intros id q Hq. destruct (H1 id q Hq) as (s' & Hs' & Hid' & Hest'). exists s'. split_and!; [done|done|].
    intros _. destruct (decide (p = q)) as [<-|Hne].
    + simplify_eq. unfold est_ok. rewrite Hst. cbn. set_solver.
    + assert (Hest : est_ok l q s') by (apply Hest'; destruct Hx; congruence).
      unfold est_ok in *. cbn. destruct (os_state s'); set_solver.
  - intros q [Hq|Hq%list_elem_of_singleton]%elem_of_app; [by apply H2|]. subst q. by exists s.
  - apply NoDup_app. split; [done|]. split; [|apply NoDup_singleton].
    by intros q Hq ->%list_elem_of_singleton.
Qed.

(** A stream may leave the list as long as it is remembered. *)
Lemma suspend_wf l p rest :
  lp_wf l -> activeStreams l = p :: rest -> lp_wf_but (Some p) (set_active l rest).
Proof.
  intros [H1 H2 H3 H4 H5 H6 H7] Ha. rewrite Ha in H2, H3. apply NoDup_cons in H3 as [Hp Hnd].
  split; cbn; try done.
  - intros id q Hq. destruct (H1 id q Hq) as (s & Hs & Hid & Hest). exists s. split_and!; [done|done|].
    intros Hne. specialize (Hest ltac:(done)). unfold est_ok in *. cbn. rewrite Ha in Hest.
    assert (q <> p) by congruence. destruct (os_state s); set_solver.
  - intros q Hq. apply H2. by right.
  - by intros q [= <-].
Qed.

Lemma activate_wf l p s0 s :
  lp_wf l -> streams l !! p = Some s0 -> estdStreams l !! os_id s = Some p ->
  os_id s = os_id s0 -> stream_ok l s -> head_data (os_itl s) ->
  p ∉ activeStreams l -> lp_wf (activate l p s).
Proof.
  intros Hwf Hs0 He Hid Hok Hhd Hp. apply (enlist_wf (Some p) (put_stream l p (set_state s active)) p (set_state s active));
    [|by right|apply lookup_insert_eq|done..].
  apply (put_out_wf l p s0); [|done..]. destruct Hwf as [H1 H2 H3 H4 H5 H6 H7]. split; try done; [|by intros ? [= <-]].
  intros id q Hq. destruct (H1 id q Hq) as (s' & ? & ? & Hest). exists s'. split_and!; [done|done|].
  intros _. by apply Hest.
Qed.

(** ** The handlers *)
Definition conn_credit (i : cbItem) : Z :=
  match i with ItInWindowUpdate 0 inc => inc | _ => 0 end.

(** What the transport puts into the buffer. *)
Definition item_ok (l : loopyWriter) (i : cbItem) : Prop :=
  match i with
  | ItRegister sid wq => is_Some (wqs l !! wq) /\ estdStreams l !! sid = None
  | ItHeader h =>
      fields_ok (hd_hf h) /\
      (if bool_decide (lside l = serverSide) && (hd_streamID h mod 2 =? 1)
       then hd_endStream h = true -> closes h (hd_streamID h) else is_Some (wqs l !! hd_wq h) /\ estdStreams l !! hd_streamID h = None)
  | ItCleanup c => is_Some (cl_onWrite c)
  | ItData df => df_end df = 0
  | ItInWindowUpdate _ inc => is_u32 inc
  | ItInSettings ss => Forall (fun s => is_u32 (Val s)) ss
  | _ => True
  end.

(** The bytes in the queue of a stream. *)
Definition item_bytes (i : cbItem) : list Z := match i with ItData df => df_d df | _ => [] end.
Definition pending (s : outStream) : list Z := os_itl s ≫= item_bytes.

(** What is queued on the streams grows by [f]. *)
Definition kept (f : loc -> list Z) (l l' : loopyWriter) : Prop :=
  forall p s, streams l !! p = Some s ->
    exists s', streams l' !! p = Some s' /\ os_id s' = os_id s /\ pending s' = pending s ++ f p.

(** No DATA was sent, the connection's quota grew by [c] and the queues by [f]. *)
Definition post (x : option loc) (l l' : loopyWriter) (c : Z) (f : loc -> list Z) : Prop :=
  lp_wf_but x l' /\ quiet l l' /\ sendQuota l' = u32 (sendQuota l + c) /\ kept f l l'.
Definition nothing (p : loc) : list Z := [].
Definition post0 (x : option loc) (l l' : loopyWriter) : Prop := post x l l' 0 nothing.

Lemma kept_streams l l' : streams l' = streams l -> kept nothing l l'.
Proof. intros E p s Hs. exists s. rewrite E, app_nil_r. done. Qed.
Lemma kept_trans f l1 l2 l3 : kept nothing l1 l2 -> kept f l2 l3 -> kept f l1 l3.
Proof.
  intros Hk Hk' p s (s2 & (s3 & Hs3 & Hid3 & Hp3)%Hk' & Hid2 & Hp2)%Hk. exists s3. split_and!; [done|congruence|].
  by rewrite Hp3, Hp2, app_nil_r.
Qed.
Lemma kept_put f l p s s' :
  streams l !! p = Some s -> os_id s' = os_id s -> pending s' = pending s ++ f p ->
  (forall q, q <> p -> f q = []) -> kept f l (put_stream l p s').
Proof.
  intros Hs Hid Hp Hf q t Ht. cbn. destruct (decide (p = q)) as [<-|Hne].
  - simplify_eq. exists s'. by rewrite lookup_insert_eq.
  - rewrite lookup_insert_ne by done. exists t. rewrite Hf by done. by rewrite app_nil_r.
Qed.
Lemma kept_put0 l p s s' :
  streams l !! p = Some s -> os_id s' = os_id s -> os_itl s' = os_itl s -> kept nothing l (put_stream l p s').
Proof. intros Hs Hid Hp. eapply kept_put; [done|done| |done]. unfold pending. by rewrite Hp, app_nil_r. Qed.

Lemma quota_same x l l' : lp_wf_but x l -> sendQuota l' = sendQuota l -> sendQuota l' = u32 (sendQuota l + 0).
Proof. intros Hwf ->. destruct (lw_quota _ _ Hwf) as [[] _]. rewrite u32_small; lia. Qed.

(** The quota is the same. *)
Lemma post_same x f l l' :
  lp_wf_but x l' -> quiet l l' -> sendQuota l' = sendQuota l -> kept f l l' -> post x l l' 0 f.
Proof. intros Hw Hq Hs Hk. split; [done|]. split; [done|]. split; [|done]. rewrite <- Hs. by eapply quota_same. Qed.

Lemma sched_post x l l' : sched_eq l l' -> quiet l l' -> lp_wf_but x l' -> post0 x l l'.
Proof. intros (_ & Hq & _ & _ & Hst & _) Hs Hw. by apply post_same, kept_streams. Qed.

Lemma post_refl x l : lp_wf_but x l -> post0 x l l.
Proof. intros. by apply post_same, kept_streams. Qed.

Lemma post_trans x y l1 l2 l3 c f : post0 x l1 l2 -> lp_wf_but x l1 -> post y l2 l3 c f -> post y l1 l3 c f.
Proof.
  intros (Hw & Hq & Hs & Hk) Hw1 (Hw' & Hq' & Hs' & Hk'). split; [done|].
  split; [unfold quiet in *; congruence|]. split.
  - rewrite Hs', Hs. destruct (lw_quota _ _ Hw1) as [[] _]. by rewrite Z.add_0_r, (u32_small (sendQuota l1)).
  - by eapply kept_trans.
Qed.

Lemma fr_write_post x l c :
  lp_wf_but x l -> call_data c = [] ->
  exists l' e, fr_write l c = Some (l', e) /\ sched_eq l l' /\ hEnc l' = hEnc l /\ post0 x l l'.
Proof.
  intros Hwf Hc. destruct (fr_write_ok l c) as (l' & e & -> & Hs & He & _ & Hq).
  eexists _, _. split; [done|]. split; [done|]. split; [done|]. destruct (lw_enc _ _ Hwf).
  apply sched_post; [done|by apply Hq|]. eapply lp_wf_sched; [done|by rewrite He..|done].
Qed.

Lemma say_wf x l ev : lp_wf_but x l -> lp_wf_but x (say l ev).
Proof. intros Hwf. destruct (lw_enc _ _ Hwf). by eapply lp_wf_sched; [|..|exact Hwf]; [by split_and!|..]. Qed.

Lemma say_post x l ev : lp_wf_but x l -> ev_data ev = [] -> post0 x l (say l ev).
Proof.
  intros Hwf Hev. apply sched_post; [by split_and!| |by apply say_wf].
  unfold quiet. cbn [log say]. by rewrite datas_app, datas_one, Hev, app_nil_r.
Qed.

(** A new stream is registered. *)
Lemma register_wf l sid wq :
  lp_wf l -> is_Some (wqs l !! wq) -> estdStreams l !! sid = None ->
  exists l', registerStreamHandler l sid wq = Some (l', None) /\ post0 None l l'.
Proof.
  intros Hwf Hwq Hsid. unfold registerStreamHandler. set (p := new_stream l).
  assert (Hp : streams l !! p = None) by (apply not_elem_of_dom; exact (is_fresh (dom (streams l)))).
  pose proof Hwf as [H1 H2 H3 H4 H5 H6 H7].
  assert (Hpa : p ∉ activeStreams l) by (intros (s & Hs & _)%H2; congruence).
  eexists. split; [done|]. apply post_same; [|done|done|]; cycle 1.
  { intros q s Hs. exists s. cbn. rewrite lookup_insert_ne by congruence. rewrite app_nil_r. done. }
  split; cbn; try done.
  - intros id q [[<- <-]|[Hne Hq]]%lookup_insert_Some.
    + eexists. rewrite lookup_insert_eq. split; [done|]. by split.
    + destruct (H1 id q Hq) as (s & Hs & ? & Hok). rewrite lookup_insert_ne by congruence. by exists s.
  - intros q Hq. destruct (H2 q Hq) as (s & Hs & ? & ?). exists s. by rewrite !lookup_insert_ne by congruence.
  - intros q s [[<- <-]|[_ Hs]]%lookup_insert_Some; [|by eapply H5]. split; [constructor|done].
Qed.

Lemma windowUpdate_ok l sid inc :
  lp_wf l -> is_u32 inc -> exists l', incomingWindowUpdateHandler l sid inc = Some (l', None) /\
    post None l l' (conn_credit (ItInWindowUpdate sid inc)) nothing.
Proof.
  intros Hwf Hinc. unfold incomingWindowUpdateHandler. pose proof Hwf as [H1 H2 H3 H4 H5 H6 H7].
  destruct (Z.eqb_spec sid 0) as [->|Hne].
  { eexists. split; [done|]. split; [|by split_and!; [..|apply kept_streams]].
    split; cbn; try done. destruct H7 as (? & ? & ?). split; [apply u32_range|done]. }
  replace (conn_credit _) with 0 by (cbn; destruct sid; congruence).
  destruct (estdStreams l !! sid) as [p|] eqn:Ep; [|eexists; split; [done|]; by apply post_refl].
  destruct (H1 sid p Ep) as (s & Hs & Hid & Hest). specialize (Hest ltac:(done)). rewrite Hs. cbn [mbind option_bind].
  assert (Hok : stream_ok l (set_out s (bytesOutStanding s - inc))) by (by apply (H5 p s)).
  unfold est_ok in Hest. cbn [os_state set_out bytesOutStanding] in *.
  assert (Hput : est_ok l p (set_out s (bytesOutStanding s - inc)) ->
    post0 None l (put_stream l p (set_out s (bytesOutStanding s - inc)))).
  { intros Hest'. apply post_same; [|done|done|by eapply kept_put0].
    apply (put_stream_wf None l p s); [done|by left|done|done|done|done|].
    intros Hp. destruct (H2 p Hp) as (s' & Hs' & _ & ? & ?). by simplify_eq. }
  destruct (os_state s) eqn:Es.
  1,2: rewrite bool_decide_false, andb_false_r by done; eexists; (split; [done|]); apply Hput;
    unfold est_ok; cbn; by rewrite Es.
  destruct Hest as (Hhd & Hq & Hp). rewrite bool_decide_true, andb_true_r by done.
  destruct (Z.gtb_spec (oiws l - (bytesOutStanding s - inc)) 0); (eexists; split; [done|]).
  - apply post_same; [|done|done|by eapply kept_put0]. eapply activate_wf; try done. cbn. by rewrite Hid.
  - apply Hput. unfold est_ok. cbn. rewrite Es. split_and!; [done|lia|done].
Qed.

Lemma pending_snoc s i : pending (set_itl s (os_itl s ++ [i])) = pending s ++ item_bytes i.
Proof. unfold pending. cbn [os_itl set_itl]. rewrite bind_app. cbn. by rewrite app_nil_r. Qed.

(** The bytes an item adds to the queue of the stream at [p]. *)
Definition fed (l : loopyWriter) (i : cbItem) (p : loc) : list Z :=
  match i with
  | ItData df => if bool_decide (estdStreams l !! df_streamID df = Some p) then df_d df else []
  | _ => []
  end.

(** An item is put at the end of a stream's queue; what is at its head stays. *)
Lemma append_wf f l p s i :
  lp_wf l -> streams l !! p = Some s -> est_ok l p s -> os_state s <> empty -> queued_ok (os_id s) i ->
  f p = item_bytes i -> (forall q, q <> p -> f q = []) ->
  post None l (put_stream l p (set_itl s (os_itl s ++ [i]))) 0 f.
Proof.
  intros Hwf Hs Hest Hst Hi Hfp Hf.
  apply post_same; [|done|done|eapply kept_put; [done|done|by rewrite Hfp; apply pending_snoc|done]]. destruct (lw_queued _ _ Hwf p s Hs) as [Hq Hwq].
  assert (Hgrow : head_data (os_itl s) -> head_data (os_itl s ++ [i])).
  { intros (d & items & ->). by exists d, (items ++ [i]). }
  apply (put_stream_wf None l p s); [done|by left|done|done| | |].
  - split; [|done]. apply Forall_app. split; [done|]. by apply Forall_singleton.
  - unfold est_ok in *. cbn. destruct (os_state s); [done|done|]. destruct Hest as (? & ? & ?). by split_and!; [apply Hgrow|..].
  - intros Hp. destruct (lw_active _ _ Hwf p Hp) as (s' & Hs' & _ & ? & ?). simplify_eq. split; [done|]. by apply Hgrow.
Qed.

Lemma preprocessData_ok l df :
  lp_wf l -> df_end df = 0 -> exists l', preprocessData l df = Some (l', None) /\
    post None l l' 0 (fed l (ItData df)).
Proof.
  intros Hwf Hdf. unfold preprocessData.
  destruct (estdStreams l !! df_streamID df) as [p|] eqn:Ep; cycle 1.
  { eexists; split; [done|]. apply post_same; [done|done|done|]. intros q s Hs. exists s. split_and!; [done|done|].
    cbn [fed]. rewrite Ep. by rewrite bool_decide_false, app_nil_r. }
  assert (Hfp : fed l (ItData df) p = df_d df) by (cbn [fed]; by rewrite bool_decide_true).
  assert (Hfq : forall q, q <> p -> fed l (ItData df) q = []).
  { intros q Hq. cbn [fed]. rewrite bool_decide_false by congruence. done. }
  destruct (lw_estd _ _ Hwf _ p Ep) as (s & Hs & Hid & Hest). specialize (Hest ltac:(done)).
  rewrite Hs. cbn [mbind option_bind os_state set_itl].
  case_bool_decide as Hst; eexists; (split; [done|]); [|by apply append_wf].
  unfold est_ok in Hest. rewrite Hst in Hest. destruct Hest as [Hnil Hp].
  apply post_same; [|done|done|eapply kept_put; [done|done|by rewrite Hfp; apply pending_snoc|done]].
  apply (activate_wf l p s); [done|done|by cbn; rewrite Hid|done| | |done]; cbn; rewrite Hnil; [|by exists df, []].
  split; cbn; [|by apply (lw_queued _ _ Hwf p s)]. by apply Forall_singleton.
Qed.

(** Deleting a stream. *)
Lemma delete_wf x l sid p :
  lp_wf_but x l -> estdStreams l !! sid = Some p ->
  lp_wf_but x (set_active (set_estd l (delete sid (estdStreams l))) (filter (.≠ p) (activeStreams l))).
Proof.
  intros [H1 H2 H3 H4 H5 H6 H7] Hp. destruct (H1 sid p Hp) as (s0 & Hs0 & Hid0 & _). split; cbn; try done.
  - intros id q [Hne Hq]%lookup_delete_Some. destruct (H1 id q Hq) as (s & Hs & Hid & Hok).
    exists s. split_and!; [done|done|]. intros Hx. specialize (Hok Hx).
    assert (Hqp : q <> p) by (intros ->; simplify_eq; congruence).
    unfold est_ok in *. cbn. destruct (os_state s); rewrite ?list_elem_of_filter; tauto.
  - intros q [Hne Hq]%list_elem_of_filter. destruct (H2 q Hq) as (s & Hs & He & ?). exists s.
    split; [done|]. split; [|done]. rewrite lookup_delete_ne; [done|]. intros ->. congruence.
  - by apply NoDup_filter.
  - intros q Hx [_ Hq]%list_elem_of_filter. by eapply H4.
Qed.

(** With the stream gone there is nothing to put back. *)
Lemma gone_wf l p sid s :
  lp_wf_but (Some p) l -> streams l !! p = Some s -> os_id s = sid -> estdStreams l !! sid = None -> lp_wf l.
Proof.
  intros [H1 H2 H3 H4 H5 H6 H7] Hs Hid Hn. split; try done.
  intros id q Hq. destruct (H1 id q Hq) as (s' & Hs' & Hid' & Hok). exists s'. split_and!; [done|done|].
  intros _. apply Hok. intros [= ->]. simplify_eq.
Qed.

Lemma cleanup_ok x l c :
  lp_wf_but x l -> is_Some (cl_onWrite c) ->
  exists l' e, cleanupStreamHandler l c = Some (l', e) /\ post0 x l l' /\
    streams l' = streams l /\ estdStreams l' = delete (cl_streamID c) (estdStreams l) /\
    (forall p, estdStreams l !! cl_streamID c = Some p -> activeStreams l' = filter (.≠ p) (activeStreams l)).
Proof.
  intros Hwf [f Hf]. unfold cleanupStreamHandler. rewrite Hf. cbn [mbind option_bind].
  set (l1 := match estdStreams (say l (EvCall f)) !! cl_streamID c with Some p => _ | None => _ end).
  assert (Hl1 : lp_wf_but x l1 /\ quiet l l1 /\ sendQuota l1 = sendQuota l /\ streams l1 = streams l /\
    estdStreams l1 = delete (cl_streamID c) (estdStreams l) /\
    (forall p, estdStreams l !! cl_streamID c = Some p -> activeStreams l1 = filter (.≠ p) (activeStreams l))).
  { destruct (say_post x l (EvCall f) Hwf eq_refl) as (Hw & Hq & _ & _). unfold l1. cbn [estdStreams say].
    destruct (estdStreams l !! cl_streamID c) as [p|] eqn:Ep.
    - split_and!; [by apply (delete_wf x (say l (EvCall f)))|done..|]. by intros ? [= <-].
    - split_and!; [done..| |done]. cbn. by rewrite delete_id. }
  destruct Hl1 as (Hw1 & Hq1 & Hs1 & Hst1 & Hd1 & Ha1).
  assert (Hrst : exists l2 e, (if cl_rst c then fr_write l1 (CallRSTStream (cl_streamID c) (cl_rstCode c)) else ok l1)
    = Some (l2, e) /\ sched_eq l1 l2 /\ post0 x l1 l2).
  { destruct (cl_rst c).
    - destruct (fr_write_post x l1 (CallRSTStream (cl_streamID c) (cl_rstCode c)) Hw1 eq_refl)
        as (l2 & e & ? & ? & ? & ?). by exists l2, e.
    - eexists _, _. split; [done|]. split; [apply sched_eq_refl|]. by apply post_refl. }
  destruct Hrst as (l2 & e & -> & (_ & _ & _ & E3 & E4 & E5 & _) & (Hw2 & Hq2 & Hs2 & _)). unfold rbind. cbn [mbind option_bind].
  assert (Hpost : post0 x l l2).
  { split; [done|]. split; [unfold quiet in *; congruence|].
    split; [by rewrite Hs2, Hs1|]. apply kept_streams. congruence. }
  destruct e; [|case_if]; (eexists _, _; split; [done|]; split; [done|]; by rewrite E3, E4, E5).
Qed.

(** ** Settings *)

(** What is in the table only leaves it, so room is kept. *)
Lemma limit_ok e v :
  enc_ok e -> 0 <= minSize e -> 0 <= v ->
  exists e', SetMaxDynamicTableSizeLimit e v = Some e' /\ enc_ok e' /\ 0 <= minSize e' /\
    added (eDynTab e') = added (eDynTab e).
Proof.
  intros [Hd Hmx] Hm Hv. unfold SetMaxDynamicTableSizeLimit.
  destruct (Z.gtb_spec (maxSize (eDynTab e)) v) as [Hgt|Hle].
  - destruct (dyn_setMaxSize_ok (eDynTab e) v Hd) as (dt & -> & Hw & Hmv & _ & _ & Ha); [lia|].
    cbn [mbind option_bind]. eexists. split; [done|]. split; [split; [done|cbn; lia]|done].
  - eexists. split; [done|]. by split; [split|].
Qed.

Definition wakeStep (l : option loopyWriter) (p : loc) : option loopyWriter :=
  l ← l; s ← streams l !! p;
  if bool_decide (os_state s = waitingOnStreamQuota) then Some (activate l p s) else Some l.

(** Waking streams does not look at the initial window. *)
Lemma wake_oiws v ps : forall l,
  foldl wakeStep (Some (set_oiws l v)) ps = l ← foldl wakeStep (Some l) ps; Some (set_oiws l v).
Proof.
  induction ps as [|p ps IH]; intros l; [done|]. cbn [foldl].
  assert (Hn : forall qs, foldl wakeStep None qs = None) by (induction qs; done).
  unfold wakeStep at 2 4. cbn [mbind option_bind streams set_oiws].
  destruct (streams l !! p) as [s|]; cbn [mbind option_bind]; [|by rewrite !Hn].
  case_bool_decide; [exact (IH (activate l p s))|apply IH].
Qed.

(** Waking keeps the invariant (for the window before the change) and leaves
    none of the streams it looked at waiting. *)
Definition not_waiting (l : loopyWriter) (p : loc) : Prop :=
  forall s, streams l !! p = Some s -> os_state s <> waitingOnStreamQuota.

Lemma wakeStep_ok l p :
  lp_wf l -> (exists id, estdStreams l !! id = Some p) ->
  exists l', wakeStep (Some l) p = Some l' /\ lp_wf l' /\ not_waiting l' p /\
    (forall q, not_waiting l q -> not_waiting l' q) /\
    estdStreams l' = estdStreams l /\ log l' = log l /\ sendQuota l' = sendQuota l /\ hEnc l' = hEnc l /\
    kept nothing l l'.
Proof.
  intros Hwf [id Hid]. destruct (lw_estd _ _ Hwf id p Hid) as (s & Hs & Hsid & Hest). specialize (Hest ltac:(done)). unfold wakeStep.
  cbn [mbind option_bind]. rewrite Hs. cbn [mbind option_bind]. case_bool_decide as Hst.
  - unfold est_ok in Hest. rewrite Hst in Hest. destruct Hest as (Hhd & _ & Hp).
    eexists. split; [done|].
    split; [apply (activate_wf l p s); try done; [by rewrite Hsid|by apply (lw_queued _ _ Hwf p s)]|].
    split; [|split; [|by split_and!; [..|eapply kept_put0]]].
    + intros s'. cbn. rewrite lookup_insert_eq. by intros [= <-].
    + intros q Hq s'. cbn. rewrite lookup_insert_Some. intros [[_ <-]|[_ ?]]; [done|by apply Hq].
  - eexists. split; [done|]. split; [done|]. split; [intros s' Hs'; by simplify_eq|].
    by split_and!; [..|apply kept_streams].
Qed.

Lemma wakeFold_ok ps : forall l,
  lp_wf l -> (forall p, p ∈ ps -> exists id, estdStreams l !! id = Some p) ->
  exists l', foldl wakeStep (Some l) ps = Some l' /\ lp_wf l' /\
    (forall p, p ∈ ps -> not_waiting l' p) /\ (forall q, not_waiting l q -> not_waiting l' q) /\
    estdStreams l' = estdStreams l /\ log l' = log l /\ sendQuota l' = sendQuota l /\ hEnc l' = hEnc l /\
    kept nothing l l'.
Proof.
  induction ps as [|p ps IH]; intros l Hwf Hps.
  { eexists. split; [done|]. split; [done|]. split; [set_solver|]. by split_and!; [..|apply kept_streams]. }
  destruct (wakeStep_ok l p Hwf) as (l1 & E1 & Hwf1 & Hp & Hkeep & Ee & El & Eq & Eh & Ew).
  { apply Hps. by left. }
  cbn [foldl]. rewrite E1.
  destruct (IH l1 Hwf1) as (l2 & E2 & Hwf2 & Hps2 & Hkeep2 & Ee2 & El2 & Eq2 & Eh2 & Ew2).
  { intros q Hq. rewrite Ee. apply Hps. by right. }
  eexists. split; [done|]. split; [done|]. split; [|split; [by auto|]]; cycle 1.
  { rewrite Ee2, El2, Eq2, Eh2. split_and!; [done..|by eapply kept_trans]. }
  intros q [->|Hq]%elem_of_cons; [by apply Hkeep2|by apply Hps2].
Qed.

(** A map is ranged over in some order, every entry once. *)
Hypothesis rangeOrder_all : forall m, rangeOrder m ≡ₚ (map_to_list m).*2.

Lemma rangeOrder_spec m p : p ∈ rangeOrder m <-> exists id, m !! id = Some p.
Proof.
  rewrite (rangeOrder_all m), list_elem_of_fmap. split.
  - intros ([id q] & -> & H%elem_of_map_to_list). by exists id.
  - intros [id H]. exists (id, p). by rewrite elem_of_map_to_list.
Qed.

(** The window can change when no stream that waits would have quota. *)
Lemma set_oiws_wf l v :
  lp_wf l -> is_u32 v ->
  (v <= oiws l \/ forall p, (exists id, estdStreams l !! id = Some p) -> not_waiting l p) -> lp_wf (set_oiws l v).
Proof.
  intros [H1 H2 H3 H4 H5 H6 H7] Hv Hor. split; cbn; try done; [|by destruct H7 as (? & ? & ?)].
  intros id p Hp. destruct (H1 id p Hp) as (s & Hs & Hid & Hest). exists s. split_and!; [done|done|].
  intros _. specialize (Hest ltac:(done)). unfold est_ok in *. cbn. destruct (os_state s) eqn:Es; [done|done|].
  destruct Hor as [Hle|Hnw]; [by split_and!; [..|lia|]; try apply Hest|].
  by destruct (Hnw p (ex_intro _ id Hp) s Hs).
Qed.

Lemma applySetting_ok l st :
  lp_wf l -> is_u32 (Val st) ->
  exists l', applySetting l st = Some l' /\ post0 None l l' /\
    added (eDynTab (hEnc l')) = added (eDynTab (hEnc l)).
Proof.
  intros Hwf Hv. unfold applySetting. case_if.
  - cbn [oiws set_oiws]. destruct (Z.ltb_spec (oiws l) (Val st)) as [Hlt|Hge].
    + unfold wakeStreams. cbn [estdStreams set_oiws].
      change (fun (l0 : option loopyWriter) (p : loc) => _) with wakeStep. rewrite wake_oiws.
      destruct (wakeFold_ok (rangeOrder (estdStreams l)) l Hwf) as (l' & -> & Hwf' & Hps & _ & Ee & El & Eq & Eh & Ew).
      { intros p. by rewrite rangeOrder_spec. }
      cbn [mbind option_bind]. eexists. split; [done|]. cbn. split; [|by rewrite Eh].
      apply post_same; [|unfold quiet; cbn [log set_oiws]; by rewrite El|done|exact Ew].
      apply set_oiws_wf; [done|done|]. right. intros p [id Hp]. apply Hps, rangeOrder_spec.
      rewrite Ee in Hp. by exists id.
    + eexists. split; [done|]. cbn. split; [|done]. apply post_same; [|done|done|by apply kept_streams].
      apply set_oiws_wf; [done|done|]. by left.
  - case_if; cycle 1.
    { eexists. split; [done|]. split; [by apply post_refl|done]. }
    destruct (lw_enc _ _ Hwf) as [He Hm].
    destruct (limit_ok (hEnc l) (Val st) He Hm) as (e' & -> & He' & Hm' & Ha); [apply Hv|].
    cbn [mbind option_bind]. eexists. split; [done|]. cbn. split; [|done].
    apply sched_post; [by split_and!|done|]. by eapply lp_wf_sched; [|..|exact Hwf]; [by split_and!|..].
Qed.

Lemma applySettings_ok ss : forall l,
  lp_wf l -> Forall (fun s => is_u32 (Val s)) ss -> exists l', applySettings l ss = Some l' /\ post0 None l l'.
Proof.
  unfold applySettings. induction ss as [|st ss IH]; intros l Hwf Hss.
  { eexists. split; [done|]. by apply post_refl. }
  inversion_clear Hss as [|? ? Hst Hss'].
  destruct (applySetting_ok l st Hwf Hst) as (l1 & E1 & Hp1 & _). cbn [foldl mbind option_bind]. rewrite E1.
  destruct (IH l1 ltac:(apply Hp1) Hss') as (l2 & -> & Hp2). eexists. split; [done|]. by eapply post_trans.
Qed.

(** A handler that does not panic, and what holds when it has no error. *)
Definition handles (x : option loc) (r : res) (l : loopyWriter) (c : Z) (f : loc -> list Z) : Prop :=
  exists l' e, r = Some (l', e) /\ (e = None -> post x l l' c f).
Definition handles0 (r : res) (l : loopyWriter) : Prop := handles None r l 0 nothing.

Lemma handles_ok x l l' c f : post x l l' c f -> handles x (ok l') l c f.
Proof. intros. by eexists _, _. Qed.
Lemma handles_fails x l l' e c f : handles x (fails l' e) l c f.
Proof. by eexists _, _. Qed.

Lemma fr_write_handles l l1 c : post0 None l l1 -> lp_wf l -> call_data c = [] -> handles0 (fr_write l1 c) l.
Proof.
  intros Hp Hwf Hc. destruct (fr_write_post None l1 c ltac:(apply Hp) Hc) as (l2 & e & -> & _ & _ & Hp2).
  eexists _, _. split; [done|]. intros _. by eapply post_trans.
Qed.

Lemma say_trans x l l1 ev : post0 x l l1 -> ev_data ev = [] -> post0 x l (say l1 ev).
Proof.
  intros (Hw & Hq & Hs) Hev. split; [by apply say_wf|]. split; [|done].
  unfold quiet in *. cbn [log say]. by rewrite datas_app, datas_one, Hev, app_nil_r.
Qed.

Lemma draining_post x l l1 b c f : post x l l1 c f -> post x l (set_draining l1 b) c f.
Proof. intros ([] & ? & ? & ?). by split; [split|]. Qed.

(** Headers, then what comes after them. *)
Lemma writeHeader_then l l1 sid es fs f k :
  lp_wf l -> post0 None l l1 -> enc_room l1 -> fields_ok fs ->
  (forall l2, sched_eq l1 l2 -> lp_wf l2 -> handles0 (k l2) l2) ->
  handles0 (rbind (writeHeader l1 sid es fs f) k) l.
Proof.
  intros Hwf Hp Hr Hfs Hk.
  destruct (writeHeader_ok None l1 sid es fs f ltac:(apply Hp) Hr Hfs) as (l2 & e & -> & Hs & Hq & Hw2).
  unfold rbind. cbn [mbind option_bind]. destruct e as [e|]; [apply handles_fails|].
  destruct (Hk l2 Hs Hw2) as (l3 & e & -> & Hp3). eexists _, _. split; [done|]. intros He.
  eapply post_trans; [exact Hp|done|]. eapply post_trans; [by apply sched_post|apply Hp|by apply Hp3].
Qed.

Lemma headerHandler_ok l h :
  lp_wf l -> enc_room l -> item_ok l (ItHeader h) -> handles0 (headerHandler l h) l.
Proof.
  intros Hwf Hr [Hfs Hitem]. unfold headerHandler. pose proof (post_refl None l Hwf) as Hp0. revert Hitem.
  destruct (bool_decide (lside l = serverSide) && (hd_streamID h mod 2 =? 1)) eqn:Hsrv; clear Hsrv.
  - intros Hcl. destruct (estdStreams l !! hd_streamID h) as [p|] eqn:Ep; [|by apply handles_ok].
    destruct (lw_estd _ _ Hwf _ p Ep) as (s & Hs & Hid & Hest). specialize (Hest ltac:(done)).
    destruct (hd_endStream h) eqn:Ees; cbn [negb].
    + rewrite Hs. cbn [mbind option_bind]. destruct (Hcl eq_refl) as (c & Hc & Hcw & Hcs).
      case_bool_decide as Hst; cbn [negb].
      * apply writeHeader_then; [done..|]. intros l2 _ Hw2. rewrite Hc. cbn [mbind option_bind].
        destruct (cleanup_ok None l2 c Hw2 Hcw) as (l3 & e & -> & Hp & _). by eexists _, _.
      * apply handles_ok, append_wf; [done|done|done|done| |done|done].
        rewrite Hid. split; [done|]. split; [done|]. by exists c.
    + destruct (writeHeader_ok None l (hd_streamID h) false (hd_hf h) (hd_onWrite h) Hwf Hr Hfs)
        as (l2 & e & -> & Hs2 & Hq & Hw2). eexists _, _. split; [done|]. intros _. by apply sched_post.
  - intros [Hwq Hnone].
    assert (Hnew : forall l1, post0 None l l1 -> enc_room l1 -> wqs l1 = wqs l -> estdStreams l1 = estdStreams l -> handles0
      (rbind (writeHeader l1 (hd_streamID h) (hd_endStream h) (hd_hf h) (hd_onWrite h)) (fun l =>
         registerStreamHandler l (hd_streamID h) (hd_wq h))) l).
    { intros l1 Hp1 Hr1 Hw1 He1. apply writeHeader_then; [done..|].
      intros l2 (_ & _ & _ & Ee & _ & _ & _ & _ & Ew) Hw2.
      destruct (register_wf l2 (hd_streamID h) (hd_wq h) Hw2) as (l3 & -> & ?);
        [by rewrite Ew, Hw1|by rewrite Ee, He1|]. by apply handles_ok. }
    destruct (hd_initStream h) as [f|]; [|by apply Hnew].
    pose proof (say_post None l (EvInit f (hd_streamID h)) Hwf eq_refl) as Hp1.
    destruct (initStream f (hd_streamID h)) as [[]|]; try by apply handles_ok.
    + by apply handles_fails.
    + by apply Hnew.
Qed.

(** No item the transport sends makes the writer panic. *)
Lemma handle_ok l i :
  lp_wf l -> enc_room l -> item_ok l i -> handles None (handle l i) l (conn_credit i) (fed l i).
Proof.
  intros Hwf Hr Hi. pose proof (post_refl None l Hwf) as Hp0. destruct i; cbn [handle conn_credit]; cbn [item_ok] in Hi.
  - destruct Hi as [Hwq Hn]. destruct (register_wf l streamID wq Hwf Hwq Hn) as (l' & -> & ?). by apply handles_ok.
  - by apply headerHandler_ok.
  - destruct (cleanup_ok None l c Hwf Hi) as (l' & e & -> & ? & _). by eexists _, _.
  - destruct (preprocessData_ok l d Hwf Hi) as (l' & -> & ?). by apply handles_ok.
  - destruct (windowUpdate_ok l streamID increment Hwf Hi) as (l' & -> & ?). by apply handles_ok.
  - by apply fr_write_handles.
  - unfold incomingSettingsHandler. destruct (applySettings_ok ss l Hwf Hi) as (l' & -> & Hp).
    by apply fr_write_handles.
  - by apply fr_write_handles.
  - unfold incomingGoAwayHandler. case_bool_decide; [|by apply handles_ok].
    cbn zeta. case_bool_decide; [apply handles_fails|]. by apply handles_ok, draining_post.
  - unfold goAwayHandler. destruct ssGoAway as [hd|]; [|by apply handles_ok, say_post].
    destruct (hd g) as [b [e|]]; [apply handles_fails|]. apply handles_ok, say_trans; [|done].
    by apply draining_post, say_post.
  - unfold pingHandler. apply fr_write_handles; [|done|done]. destruct ack; cbn [negb]; [done|]. by apply say_post.
  - by apply handles_ok, say_post.
Qed.

(** ** A turn of the round robin *)

Lemma filter_out (p : loc) (a : list loc) : p ∉ a -> filter (.≠ p) a = a.
Proof.
  induction a as [|q a IH]; [done|]. intros Hp. apply not_elem_of_cons in Hp as [Hne Hp].
  rewrite filter_cons_True by done. by rewrite IH.
Qed.

(** Only the state of the stream at [p] may differ. *)
Definition restates (p : loc) (l l' : loopyWriter) : Prop :=
  (forall q, q <> p -> streams l' !! q = streams l !! q) /\
  (forall s, streams l !! p = Some s -> exists st, streams l' !! p = Some (set_state s st)).

Lemma restates_put p l s st : streams l !! p = Some s -> restates p l (put_stream l p (set_state s st)).
Proof.
  intros Hs. split; cbn.
  - intros q Hq. by rewrite lookup_insert_ne.
  - intros s' Hs'. simplify_eq. exists st. by rewrite lookup_insert_eq.
Qed.
Lemma restates_streams p l l' : streams l' = streams l -> restates p l l'.
Proof. intros E. split; rewrite E; [done|]. intros s Hs. exists (os_state s). rewrite Hs. by destruct s. Qed.

(** The stream at [p] went to the end of the list or left it. *)
Definition moves (p : loc) (more a : list loc) : Prop := a = more \/ a = more ++ [p].

Lemma afterItem_ok l p s swallow :
  lp_wf_but (Some p) l -> enc_room l -> streams l !! p = Some s -> estdStreams l !! os_id s = Some p ->
  os_state s = active -> exists l' e, afterItem l p swallow = Some (l', e) /\
    (e = None -> post0 None l l' /\ restates p l l' /\ moves p (activeStreams l) (activeStreams l')).
Proof.
  intros Hwf Hr Hs He Hst. unfold afterItem. rewrite Hs. cbn [mbind option_bind].
  destruct (lw_queued _ _ Hwf p s Hs) as [Hq Hwq]. pose proof (lw_out _ _ Hwf p eq_refl) as Hp.
  destruct (os_itl s) as [|[] items] eqn:Ei; try (by apply Forall_cons in Hq as [[] _]).
  - eexists _, _. split; [done|]. intros _. split; [|by split; [apply restates_put|left]].
    apply post_same; [|done|done|by eapply kept_put0].
    apply (put_stream_wf (Some p) l p s); [done|by right|done|done| | |done].
    + split; [|done]. cbn. rewrite Ei. constructor.
    + split; cbn; [done|done].
  - apply Forall_cons in Hq as [(Hfs & Hsid & c & Hc & Hcw & Hcs) _].
    destruct (writeHeader_ok (Some p) l (hd_streamID h) (hd_endStream h) (hd_hf h) (hd_onWrite h) Hwf Hr Hfs)
      as (l2 & e & -> & Hsc & Hq2 & Hw2). unfold rbind. cbn [mbind option_bind].
    destruct e; [by eexists _, _|]. rewrite Hc. cbn [mbind option_bind].
    destruct (cleanup_ok (Some p) l2 c Hw2 Hcw) as (l3 & e & -> & Hp3 & Es & Ee & Ea). cbn [mbind option_bind].
    pose proof Hsc as (_ & _ & _ & E3 & E4 & E5 & _).
    eexists _, _. split; [done|]. intros _. split; [|split; [apply restates_streams; congruence|]]; cycle 1.
    { left. rewrite (Ea p) by (by rewrite E3, Hcs). rewrite E5. by apply filter_out. }
    eapply post_trans; [by apply sched_post|done|]. destruct Hp3 as (Hw3 & ?). split; [|done].
    eapply (gone_wf l3 p (os_id s) s); [done|by rewrite Es, E4|done|].
    by rewrite Ee, Hcs, lookup_delete_eq.
  - destruct (negb swallow && (oiws l - bytesOutStanding s <=? 0)) eqn:Hc; (eexists _, _; split; [done|]; intros _).
    + split; [|by split; [apply restates_put|left]]. apply post_same; [|done|done|by eapply kept_put0].
      apply andb_true_iff in Hc as [_ Hc]. apply Z.leb_le in Hc.
      apply (put_stream_wf (Some p) l p s); [done|by right|done|done| | |done].
      * split; [|done]. cbn. by rewrite Ei.
      * split; cbn; [|done]. rewrite Ei. by exists d, items.
    + split; [|by split; [apply restates_streams|right]]. apply post_same; [|done|done|by apply kept_streams].
      apply (enlist_wf (Some p) l p s); [done|by right|done|done| |done|done]. rewrite Ei. by exists d, items.
Qed.

(** What a turn sends: [chunk], from the head of the queue of the first active
    stream; nothing else changes that the peer or another stream can see. *)
Record sends (l l' : loopyWriter) (p : loc) (s : outStream) (df : dataFrame) (chunk rest : list Z) : Prop := {
  sn_first : exists more, activeStreams l = p :: more /\ moves p more (activeStreams l');
  sn_stream : streams l !! p = Some s;
  sn_head : exists items, os_itl s = ItData df :: items;
  sn_split : df_d df = chunk ++ rest;
  sn_frame : datas (log l') = datas (log l) ++
    [(os_id s, df_endStream df && bool_decide (rest = []), chunk)];
  sn_bounds : len chunk <= lmaxFrameSize l /\ len chunk <= sendQuota l /\
    (chunk <> [] -> bytesOutStanding s + len chunk <= oiws l);
  sn_progress : chunk = [] -> df_d df = [];
  sn_quota : sendQuota l' = sendQuota l - len chunk;
  sn_queue : exists s', streams l' !! p = Some s' /\ os_id s' = os_id s /\
    bytesOutStanding s' = bytesOutStanding s + len chunk /\ pending s = chunk ++ pending s';
  sn_others : forall q, q <> p -> streams l' !! q = streams l !! q
}.

Lemma quota_wf x l q : lp_wf_but x l -> is_u32 q -> lp_wf_but x (set_sendQuota l q).
Proof. intros [H1 H2 H3 H4 H5 H6 (H7 & H8 & H9)] Hq. by split. Qed.

(** Other goroutines use and replenish write quotas, and make new ones. *)
Lemma wqs_wf x l m : lp_wf_but x l -> (forall w, is_Some (wqs l !! w) -> is_Some (m !! w)) -> lp_wf_but x (set_wqs l m).
Proof.
  intros [H1 H2 H3 H4 H5 H6 H7] Hm. split; try done. intros p s Hs. destruct (H5 p s Hs) as [Hq Hw].
  split; [done|]. by apply Hm.
Qed.

Lemma done_sched l f df : sched_eq l (done l f df) /\ hEnc (done l f df) = hEnc l /\ quiet l (done l f df).
Proof.
  destruct f; cbn [done]; [|by split_and!]. split; [by split_and!|]. split; [done|].
  unfold quiet. cbn [log say]. rewrite datas_app. apply app_nil_r.
Qed.

(** The end of a turn, after the frame was written: [l2] has the connection's
    quota reduced, [s1] is the stream without the bytes that were sent. *)
Lemma finish_turn l l2 l3 p more s s1 df items chunk rest swallow :
  lp_wf l -> enc_room l -> activeStreams l = p :: more -> streams l !! p = Some s -> os_itl s = ItData df :: items ->
  df_d df = chunk ++ rest -> activeStreams l2 = more ->
  lp_wf_but (Some p) l2 -> streams l2 = streams l -> estdStreams l2 = estdStreams l -> hEnc l2 = hEnc l ->
  datas (log l2) = datas (log l) ++ [(os_id s, df_endStream df && bool_decide (rest = []), chunk)] ->
  sendQuota l2 = sendQuota l - len chunk ->
  len chunk <= lmaxFrameSize l -> len chunk <= sendQuota l -> (chunk <> [] -> bytesOutStanding s + len chunk <= oiws l) ->
  (chunk = [] -> df_d df = []) ->
  os_id s1 = os_id s -> os_state s1 = os_state s -> os_wq s1 = os_wq s ->
  bytesOutStanding s1 = bytesOutStanding s + len chunk ->
  os_itl s1 = (if bool_decide (rest = []) then items else ItData (set_d df rest) :: items) ->
  sched_eq (put_stream l2 p s1) l3 -> hEnc l3 = hEnc l2 -> quiet l2 l3 ->
  exists l' e, afterItem l3 p swallow = Some (l', e) /\ (e = None -> lp_wf l' /\ sends l l' p s df chunk rest).
Proof.
  intros Hwf Hr Ha Hs Hi Hd Ha2 Hw2 Es Ee Eh Hdat Hsq B1 B2 B3 B4 Hid Hst Hwq Hout Hitl Hsc Eh3 Hq3.
  destruct (lw_active _ _ Hwf p) as (s' & Hs' & Hest & Hact & _); [rewrite Ha; by left|].
  rewrite Hs in Hs'. injection Hs' as <-.
  destruct (lw_queued _ _ Hw2 p s) as [Hqs Hqw]; [by rewrite Es|].
  assert (Hpend : pending s = chunk ++ pending s1).
  { unfold pending. rewrite Hi, Hitl. cbn [mbind list_bind item_bytes]. rewrite Hd.
    case_bool_decide as E; [subst rest; by rewrite app_nil_r|]. cbn. by rewrite app_assoc. }
  assert (Hok1 : stream_ok l2 s1).
  { split; [|by rewrite Hwq]. rewrite Hid, Hitl. rewrite Hi in Hqs. apply Forall_cons in Hqs as [Hhd Htl].
    case_bool_decide; [done|]. by apply Forall_cons. }
  assert (Hw3 : lp_wf_but (Some p) l3).
  { destruct (lw_enc _ _ Hw2). eapply lp_wf_sched; [exact Hsc|by rewrite Eh3..|].
    apply (put_out_wf l2 p s); [done|by rewrite Es|done|done]. }
  destruct Hsc as (_ & Eq3 & _ & Ee3 & Es3 & Ea3 & _). cbn in Eq3, Ee3, Es3, Ea3.
  destruct (afterItem_ok l3 p s1 swallow) as (l' & e & Haft & Hpost); [done| | | |congruence|].
  { unfold enc_room in *. by rewrite Eh3, Eh. }
  { by rewrite Es3, lookup_insert_eq. }
  { by rewrite Ee3, Ee, Hid. }
  exists l', e. split; [done|]. intros He. destruct (Hpost He) as ((Hw' & Hq' & Hs' & _) & (Hoth & Hthis) & Hmv).
  split; [done|]. destruct (Hthis s1) as [st Hst']; [by rewrite Es3, lookup_insert_eq|].
  split; try done; [exists more; by rewrite Ea3, Ha2 in Hmv|by eexists|..].
  - by rewrite Hq', Hq3.
  - rewrite Hs', Eq3, Hsq, Z.add_0_r, u32_small; [done|]. destruct (lw_quota _ _ Hwf) as [[] _].
    pose proof (len_nonneg chunk). lia.
  - eexists. split; [exact Hst'|]. cbn. split_and!; [done|done|]. exact Hpend.
  - intros q Hq. rewrite Hoth, Es3, lookup_insert_ne, Es by done. done.
Qed.

(** What a turn may do: nothing but rescheduling, or sending from one stream. *)
Definition turn (l l' : loopyWriter) : Prop :=
  lp_wf l' /\ ((post0 None l l' /\ (forall p more, activeStreams l = p :: more ->
                   sendQuota l = 0 \/ activeStreams l' = more)) \/
              exists p s df chunk rest, sends l l' p s df chunk rest).
Definition turns (r : res) (l : loopyWriter) : Prop := exists l' e, r = Some (l', e) /\ (e = None -> turn l l').

Lemma finish_turns l r p s df chunk rest :
  (exists l' e, r = Some (l', e) /\ (e = None -> lp_wf l' /\ sends l l' p s df chunk rest)) -> turns r l.
Proof.
  intros (l' & e & -> & H). exists l', e. split; [done|]. intros [Hw Hs]%H. split; [done|]. right. by eexists _, _, _, _, _.
Qed.

Lemma len_pos {A} (k : list A) : k <> [] <-> 0 < len k.
Proof. destruct k; unfold len; cbn; [split; [done|lia]|split; [lia|done]]. Qed.

Section Turn.
Context (l : loopyWriter) (p : loc) (more : list loc) (s : outStream) (df : dataFrame) (items : list cbItem).
Context (Hwf : lp_wf l) (Hr : enc_room l) (Ha : activeStreams l = p :: more) (Hs : streams l !! p = Some s)
  (Hi : os_itl s = ItData df :: items).

Lemma head_item : df_end df = 0 /\ df_streamID df = os_id s /\ is_Some (wqs l !! os_wq s).
Proof.
  destruct (lw_queued _ _ Hwf p s Hs) as [Hq Hw]. rewrite Hi in Hq. apply Forall_cons in Hq as [[] _]. done.
Qed.

Lemma sendEmpty_turns : df_d df = [] -> turns (sendEmpty (set_active l more) p s df items) l.
Proof.
  intros Hnil. unfold sendEmpty. destruct head_item as (_ & Hsid & _).
  pose proof (suspend_wf l p more Hwf Ha) as Hw1.
  destruct (fr_write_ok (set_active l more) (CallData (df_streamID df) (df_endStream df) [] None))
    as (l2 & e & -> & Hsc & Eh & Hdat & _).
  unfold rbind. cbn [mbind option_bind]. destruct e as [e|]; [by eexists _, _|]. specialize (Hdat eq_refl).
  set (l3 := put_stream l2 p (set_itl s items)).
  destruct (done_sched l3 (df_onDone df) df) as (Hd1 & Eh1 & Hq1).
  destruct (done_sched (done l3 (df_onDone df) df) (df_onDoneFunc df) df) as (Hd2 & Eh2 & Hq2).
  pose proof Hsc as (_ & Eq & _ & Ee & Es & Ea & _). destruct (lw_enc _ _ Hwf) as [Henc Hmin].
  destruct (lw_quota _ _ Hwf) as ([] & _ & ?).
  apply (finish_turns l _ p s df [] []).
  eapply (finish_turn l l2 _ p more s (set_itl s items) df items); try done;
    cbn [os_id os_state os_wq set_itl bytesOutStanding os_itl]; unfold len; cbn [length]; try lia.
  - eapply lp_wf_sched; [exact Hsc|by rewrite Eh..|done].
  - by rewrite Hdat, <- Hsid, andb_true_r.
  - rewrite Eq. cbn. lia.
  - by eapply sched_eq_trans.
  - by rewrite Eh2, Eh1.
  - unfold quiet in *. by rewrite Hq2, Hq1.
Qed.

Lemma sendChunk_turns size :
  0 < size -> size <= len (df_d df) -> size <= lmaxFrameSize l -> size <= sendQuota l ->
  bytesOutStanding s + size <= oiws l -> turns (sendChunk (set_active l more) p s df items size) l.
Proof.
  intros Hpos Hlen Hmf Hsq Hq. unfold sendChunk. destruct head_item as (Hend & Hsid & [w Hw]).
  cbn [wqs set_active]. rewrite Hw. cbn [mbind option_bind].
  set (l1 := set_wqs _ _). destruct (call_ok_sched l1 (df_onEachWrite df)) as (Hc1 & Ehc & Hqc).
  destruct (lw_enc _ _ Hwf) as [Henc Hmin]. destruct (lw_quota _ _ Hwf) as ([Hq0 Hq32] & _ & ?).
  assert (Hw1 : lp_wf_but (Some p) (call l1 (df_onEachWrite df))).
  { eapply lp_wf_sched; [exact Hc1|by rewrite Ehc..|]. apply wqs_wf; [by apply suspend_wf|].
    intros k Hk. cbn. destruct (decide (os_wq s = k)) as [<-|?]; [by rewrite lookup_insert_eq; eauto|].
    by rewrite lookup_insert_ne. }
  rewrite (proj2 (Z.ltb_ge size 0)) by lia. destruct (Z.gtb_spec size (len (df_d df))) as [?|_]; [lia|]. cbn [orb].
  set (chunk := take (Z.to_nat size) (df_d df)). set (rest := drop (Z.to_nat size) (df_d df)).
  assert (Hsplit : df_d df = chunk ++ rest) by (symmetry; apply take_drop).
  assert (Hck : len chunk = size) by (unfold chunk, len in *; rewrite length_take; lia).
  assert (Hrest : len rest = len (df_d df) - size) by (rewrite Hsplit, len_app; lia).
  assert (Hds : (dataSize df <=? size) = bool_decide (rest = [])).
  { unfold dataSize. rewrite Hend. cbn. case_bool_decide as E.
    - rewrite E, len_nil in Hrest. apply Z.leb_le. lia.
    - apply Z.leb_gt. apply len_pos in E. lia. }
  destruct (fr_write_ok (call l1 (df_onEachWrite df)) (CallData (df_streamID df) (df_endStream df && (dataSize df <=? size)) chunk None))
    as (l2 & e & -> & Hsc & Eh & Hdat & _).
  unfold rbind. cbn [mbind option_bind]. destruct e as [e|]; [by eexists _, _|]. specialize (Hdat eq_refl).
  assert (Hl2 : sched_eq l1 l2) by (by eapply sched_eq_trans). pose proof Hl2 as (_ & Eq & _ & Ee & Es & Ea & _).
  assert (Hsq2 : u32 (sendQuota l2 - u32 size) = sendQuota l - size).
  { rewrite Eq. cbn. rewrite (u32_small size), u32_small by lia. done. }
  rewrite Hsq2. set (l2q := set_sendQuota l2 (sendQuota l - size)).
  assert (Hempty : (len rest =? 0) = bool_decide (rest = [])).
  { case_bool_decide as E; [by rewrite E|]. apply len_pos in E. apply Z.eqb_neq. lia. }
  rewrite Hempty. set (s1 := set_itl _ _). set (l3 := put_stream l2q p s1).
  assert (Hl3 : exists l3', (if bool_decide (rest = []) then done l3 (df_onDone (set_d df rest)) (set_d df rest) else l3) = l3' /\
    sched_eq l3 l3' /\ hEnc l3' = hEnc l3 /\ quiet l3 l3').
  { eexists. split; [done|]. case_bool_decide; [apply done_sched|]. by split_and!. }
  destruct Hl3 as (l3' & -> & Hsc3 & Eh3 & Hq3).
  apply (finish_turns l _ p s df chunk rest).
  apply (finish_turn l l2q l3' p more s s1 df items); try done; rewrite ?Hck; try done.
  - apply quota_wf; [|split; lia]. eapply lp_wf_sched; [exact Hsc|by rewrite Eh, Ehc..|done].
  - cbn. by rewrite Eh, Ehc.
  - change (log l2q) with (log l2). unfold quiet in Hqc. by rewrite Hdat, Hqc, <- Hsid, <- Hds.
  - intros E. rewrite E, len_nil in Hck. lia.
Qed.
End Turn.

Lemma processData_ok l :
  lp_wf l -> enc_room l ->
  exists l' b e, processData l = Some (l', (b, e)) /\ (e = None -> turn l l') /\
    (b = true <-> sendQuota l = 0 \/ activeStreams l = []) /\ (b = true -> l' = l /\ e = None).
Proof.
  intros Hwf Hr. unfold processData. pose proof (post_refl None l Hwf) as Hp0.
  
  destruct (Z.eqb_spec (sendQuota l) 0) as [Hz|Hnz].
  { eexists _, _, _. split; [done|]. split; [|by split; [split; [left|]|]].
    intros _. split; [done|]. left. split; [done|]. by left. }
  destruct (activeStreams l) as [|p more] eqn:Ha.
  { eexists _, _, _. split; [done|]. split; [|by split; [split; [right|]|]].
    intros _. split; [done|]. left. split; [done|]. congruence. }
  destruct (lw_active _ _ Hwf p) as (s & Hs & He & Hst & df & items & Hi); [rewrite Ha; by left|].
  cbn [streams set_active]. rewrite Hs. cbn [mbind option_bind]. rewrite Hi.
  assert (Hgoal : forall r : res, turns r l ->
    exists l' b e, ('(l, e) ← r; Some (l, (false, e))) = Some (l', (b, e)) /\ (e = None -> turn l l') /\
    (b = true <-> sendQuota l = 0 \/ p :: more = []) /\ (b = true -> l' = l /\ e = None)).
  { intros r (l' & e & -> & H). cbn [mbind option_bind]. exists l', false, e. split; [done|]. split; [done|].
    split; [|done]. split; [done|]. by intros []. }
  destruct (head_item l p s df items Hwf Hs Hi) as (Hend & Hsid & Hwq).
  assert (Hsize : dataSize df = len (df_d df)) by (unfold dataSize; by rewrite Hend).
  rewrite Hsize. destruct (Z.eqb_spec (len (df_d df)) 0) as [Hz|Hlen].
  { apply Hgoal, sendEmpty_turns; try done. apply nil_length_inv. unfold len in Hz. lia. }
  unfold sendSize. cbn [oiws set_active lmaxFrameSize sendQuota]. rewrite Hsize.
  destruct (lw_quota _ _ Hwf) as ([] & _ & ?). pose proof (len_nonneg (df_d df)).
  destruct (Z.leb_spec (oiws l - bytesOutStanding s) 0) as [Hno|Hq].
  { apply Hgoal. eexists _, _. split; [done|]. intros _.
    assert (Hp : p ∉ more) by (pose proof (lw_nodup _ _ Hwf) as Hnd; rewrite Ha in Hnd; by apply NoDup_cons in Hnd as [? _]).
    assert (Hw : lp_wf (put_stream (set_active l more) p (set_state s waitingOnStreamQuota))).
    { apply (put_stream_wf (Some p) (set_active l more) p s); try done.
      - by apply suspend_wf.
      - by right.
      - by apply (lw_queued _ _ Hwf p s Hs).
      - cbn. split_and!; [rewrite Hi; by eexists _, _|done|done]. }
    split; [done|]. left. split; [|intros ? ?; rewrite Ha; intros [= <- <-]; by right].
    apply post_same; [done|done|done|]. by apply (kept_put0 (set_active l more) p s). }
  apply Hgoal, sendChunk_turns; try done.
  all: destruct (Z.gtb_spec (lmaxFrameSize l) (oiws l - bytesOutStanding s));
    destruct (Z.gtb_spec (oiws l - bytesOutStanding s) (sendQuota l));
    destruct (Z.gtb_spec (lmaxFrameSize l) (sendQuota l)); try lia.
Qed.
End Loopy.
Arguments loopyWriter : clear implicits.
Arguments res : clear implicits.
