(* ===== verification/LoopyRun.v ===== *)
(** * Runs of the loopy writer: h2/controlbuf.go, [run]

    What holds in every state the writer gets into, as a step relation over the
    handlers and turns of [Loopy]: it does not panic, it respects and uses up the
    connection's window, no stream is forgotten, and every stream's bytes leave
    in the order in which they came. *)
From S2P Require Import Prelude HpackTables HpackCodec HpackBlocks Frame FlowControl Lists ControlBuf Loopy.

(** The DATA bytes written, in all and on one stream. *)
Definition bytes_of (fs : list (Z * bool * list Z)) : Z := foldr (fun f n => len f.2 + n) 0 fs.
Definition sent_on (sid : Z) (fs : list (Z * bool * list Z)) : list Z :=
  fs ≫= fun f => if f.1.1 =? sid then f.2 else [].

Lemma bytes_of_app a b : bytes_of (a ++ b) = bytes_of a + bytes_of b.
Proof. induction a as [|x a IH]; simpl; [done|]. lia. Qed.
Lemma sent_on_app sid a b : sent_on sid (a ++ b) = sent_on sid a ++ sent_on sid b.
Proof. apply bind_app. Qed.

Section Run.
Context {W : Type} (wr : W -> list Z -> W * option ioErr).
Context (rangeOrder : gmap Z loc -> list loc).
Hypothesis rangeOrder_all : forall m, rangeOrder m ≡ₚ (map_to_list m).*2.

Local Abbreviation handle init goAway := (handle wr init goAway rangeOrder).
Local Abbreviation processData := (processData wr).
Local Abbreviation no_init := (fun (_ : callback) (_ : Z) => @None loopyErr).

Inductive label := Handled (i : cbItem) | Turn | Quotas | Flushed.

(** An item is handled, whatever [initStream] and the handler of GOAWAY then do; a
    turn of the round robin; other goroutines change write quotas; the write buffer
    is flushed.  Only steps without an error: [run] ends with the first one. *)
Inductive lp_step (l : loopyWriter W) : label -> loopyWriter W -> Prop :=
| st_handle init goAway i l' : item_ok l i -> enc_room l -> handle init goAway l i = Some (l', None) -> lp_step l (Handled i) l'
| st_turn b l' : enc_room l -> processData l = Some (l', (b, None)) -> lp_step l Turn l'
| st_quotas m : (forall w, is_Some (wqs l !! w) -> is_Some (m !! w)) -> lp_step l Quotas (set_wqs l m)
| st_flush w : lp_step l Flushed (set_lw l w).

Definition credit (lab : label) : Z := match lab with Handled i => conn_credit i | _ => 0 end.
Definition fed_by (l : loopyWriter W) (lab : label) (p : loc) : list Z :=
  match lab with Handled i => fed l i p | _ => [] end.

(** [c] is the credit the peer gave for the connection so far; [fair], that it
    never made the window larger than 32 bits hold (RFC 7540 has 31). *)
Inductive lp_reach : loopyWriter W -> Z -> bool -> Prop :=
| reach_new s enc w mf : NewEncoder = Some enc -> 0 < mf < 2 ^ 24 -> lp_reach (newLoopyWriter s enc w mf) 0 true
| reach_step l c fair lab l' :
    lp_reach l c fair -> lp_step l lab l' ->
    lp_reach l' (c + credit lab) (fair && (sendQuota l + credit lab <? 2 ^ 32)).

(** ** The invariant of runs *)
Lemma new_wf s enc w mf : NewEncoder = Some enc -> 0 < mf < 2 ^ 24 -> lp_wf_but None (newLoopyWriter s enc w mf : loopyWriter W).
Proof.
  intros He Hmf. split; cbn; try done; [intros p Hp; by apply elem_of_nil in Hp|constructor|].
  unfold NewEncoder in He.
  destruct (dyn_setMaxSize_ok dyn_init initialHeaderTableSize dyn_init_wf) as (dt & Hdt & Hw & Hm & _); [done|].
  rewrite Hdt in He. cbn [mbind option_bind] in He. injection He as <-. cbn.
  split; [|done]. split; cbn; [done|]. rewrite Hm. done.
Qed.

Lemma credit_nonneg l i : item_ok (W := W) l i -> 0 <= conn_credit i.
Proof. destruct i; cbn; try done. intros [? _]. by destruct streamID. Qed.

(** Every step keeps the invariant, and either sends or does not. *)
Lemma step_cases l lab l' :
  lp_wf_but None l -> lp_step l lab l' ->
  lp_wf_but None l' /\
  (post None l l' (credit lab) (fed_by l lab) \/
   credit lab = 0 /\ (forall p, fed_by l lab p = []) /\ exists p s df chunk rest, sends l l' p s df chunk rest).
Proof.
  intros Hwf [init ga i l1 Hi Hr Hh|b l1 Hr Hh|m Hm|w].
  - destruct (handle_ok wr init ga rangeOrder rangeOrder_all l i Hwf Hr Hi) as (l2 & e & Hh2 & Hp).
    rewrite Hh in Hh2. injection Hh2 as <- <-. specialize (Hp eq_refl). split; [apply Hp|by left].
  - destruct (processData_ok wr no_init l Hwf Hr) as (l2 & b2 & e & Hh2 & Ht & _). rewrite Hh in Hh2. injection Hh2 as <- <- <-.
    destruct (Ht eq_refl) as (Hw & [[Hp _]|Hs]); (split; [done|]); [by left|by right].
  - assert (Hw : lp_wf_but None (set_wqs l m)) by (by apply wqs_wf). split; [done|]. left.
    apply post_same; [done|done|done|by apply kept_streams].
  - destruct (lw_enc _ _ Hwf). assert (Hw : lp_wf_but None (set_lw l w)) by (by eapply lp_wf_sched; [|..|exact Hwf]; [by split_and!|..]).
    split; [done|]. left. apply post_same; [done|done|done|by apply kept_streams].
Qed.

Lemma reach_wf l c fair : lp_reach l c fair -> lp_wf_but None l /\ 0 <= c.
Proof.
  induction 1 as [|l c fair lab l' _ [Hwf Hc] Hstep]; [by split; [apply new_wf|]|].
  split; [by apply (step_cases l lab l' Hwf Hstep)|].
  destruct Hstep as [? ? i l' Hi|? ? ?|? ?|?]; cbn [credit]; [|lia..]. pose proof (credit_nonneg l i Hi). lia.
Qed.

Lemma u32_le n : 0 <= n -> u32 n <= n.
Proof. intros. unfold u32. apply Z.mod_le; lia. Qed.

Lemma flow_inv l c fair :
  lp_reach l c fair ->
  bytes_of (datas (log l)) + sendQuota l <= defaultWindowSize + c /\
  (fair = true -> bytes_of (datas (log l)) + sendQuota l = defaultWindowSize + c).
Proof.
  induction 1 as [|l c fair lab l' Hreach [IHle IHeq] Hstep]; [done|].
  destruct (reach_wf _ _ _ Hreach) as [Hwf Hc]. destruct (lw_quota _ _ Hwf) as [[Hq0 Hq] _].
  assert (Hcr : 0 <= credit lab).
  { destruct Hstep as [? ? i l' Hi|? ? ?|? ?|?]; [by eapply credit_nonneg|done..]. }
  destruct (step_cases l lab l' Hwf Hstep) as [_ [(_ & Hqt & Hsq & _)|(Hcr0 & _ & p & s & df & chunk & rest & Hs)]].
  - rewrite Hqt, Hsq. pose proof (u32_le (sendQuota l + credit lab)). split; [lia|].
    intros [Hf%IHeq Hlt%Z.ltb_lt]%andb_true_iff. rewrite u32_small by lia. lia.
  - rewrite (sn_frame _ _ _ _ _ _ _ Hs), bytes_of_app, (sn_quota _ _ _ _ _ _ _ Hs), Hcr0. cbn [bytes_of foldr snd].
    split; [lia|]. intros [Hf%IHeq _]%andb_true_iff. lia.
Qed.

(** [k] turns without an error, each with quota left for the connection. *)
Inductive lp_turns : nat -> loopyWriter W -> loopyWriter W -> Prop :=
| turns_none l : lp_turns 0 l l
| turns_more k l l1 l' : sendQuota l <> 0 -> lp_step l Turn l1 -> lp_turns k l1 l' -> lp_turns (S k) l l'.

(** A turn moves everyone behind the first stream up by one. *)
Lemma turn_moves l l' p more :
  lp_wf_but None l -> lp_step l Turn l' -> sendQuota l <> 0 -> activeStreams l = p :: more ->
  lp_wf_but None l' /\ moves p more (activeStreams l').
Proof.
  intros Hwf Hstep Hnz Ha. inversion Hstep as [|b l2 Hr Hh E1 E2| |]; subst.
  destruct (processData_ok wr no_init l Hwf Hr) as (l2 & b2 & e & Hh2 & Ht & _).
  rewrite Hh in Hh2. injection Hh2 as <- <- <-. destruct (Ht eq_refl) as (Hw & [[_ Hm]|(p' & s & df & ck & rest & Hs)]).
  - split; [done|]. destruct (Hm _ _ Ha); [done|]. by left.
  - split; [done|]. destruct (sn_first _ _ _ _ _ _ _ Hs) as (more' & Ha' & Hmv). rewrite Ha in Ha'. by simplify_eq.
Qed.

Lemma turns_move k : forall l l' q,
  lp_wf_but None l -> lp_turns k l l' -> activeStreams l !! k = Some q ->
  exists more, activeStreams l' = q :: more.
Proof.
  induction k as [|k IH]; intros l l' q Hwf Ht Hq; inversion Ht as [|? ? l1 ? Hnz Hstep Ht1]; subst.
  - destruct (activeStreams l') as [|p more]; [done|]. injection Hq as ->. by exists more.
  - destruct (activeStreams l) as [|p more] eqn:Ha; [done|]. cbn in Hq.
    destruct (turn_moves l l1 p more Hwf Hstep Hnz Ha) as [Hw1 Hmv]. apply (IH l1 l' q Hw1 Ht1).
    destruct Hmv as [-> | ->]; [done|]. by apply lookup_app_l_Some.
Qed.

(** Over a step, what was written on a stream followed by what is queued on it
    grows by the bytes of the item handled. *)
Lemma step_delivery l lab l' sid p s :
  lp_wf_but None l -> lp_step l lab l' -> estdStreams l !! sid = Some p -> streams l !! p = Some s ->
  exists s', streams l' !! p = Some s' /\
    sent_on sid (datas (log l')) ++ pending s' = sent_on sid (datas (log l)) ++ pending s ++ fed_by l lab p.
Proof.
  intros Hwf Hstep Hp Hs. destruct (lw_estd _ _ Hwf sid p Hp) as (s0 & Hs0 & Hid & _). simplify_eq.
  destruct (step_cases l lab l' Hwf Hstep) as [_ [(_ & Hq & _ & Hk)|(_ & Hfed & q & sq & df & ck & rest & Hsn)]].
  - destruct (Hk p s Hs) as (s' & Hs' & _ & Hpend). exists s'. split; [done|]. unfold quiet in Hq. by rewrite Hq, Hpend.
  - rewrite (sn_frame _ _ _ _ _ _ _ Hsn), sent_on_app, Hfed, app_nil_r. cbn [sent_on mbind list_bind fst snd].
    rewrite app_nil_r. destruct (decide (q = p)) as [->|Hne].
    + pose proof (sn_stream _ _ _ _ _ _ _ Hsn). simplify_eq.
      destruct (sn_queue _ _ _ _ _ _ _ Hsn) as (s' & Hs' & _ & _ & Hpend). exists s'. split; [done|].
      by rewrite Z.eqb_refl, Hpend, app_assoc.
    + exists s. rewrite (sn_others _ _ _ _ _ _ _ Hsn) by done. split; [done|].
      destruct (sn_first _ _ _ _ _ _ _ Hsn) as (more & Ha & _).
      destruct (lw_active _ _ Hwf q) as (sq' & Hsq' & Hest & _); [rewrite Ha; by left|].
      pose proof (sn_stream _ _ _ _ _ _ _ Hsn). simplify_eq.
      destruct (Z.eqb_spec (os_id sq') (os_id s)) as [E|_]; [rewrite E in Hest; congruence|]. by rewrite app_nil_r.
Qed.

(** ** Properties *)

(** In every state the writer can get into, handling an item that the
    transport may send does not panic, whatever [initStream] and the handler of
    GOAWAY return, and neither does a turn of the round
    robin; the turn says that there was nothing to do exactly when the
    connection has no quota or no stream is active, and then changes nothing. *)
Theorem loopy_safe l c fair init goAway i :
  lp_reach l c fair -> enc_room l -> item_ok l i ->
  is_Some (handle init goAway l i) /\
  exists l' b e, processData l = Some (l', (b, e)) /\
    (b = true <-> sendQuota l = 0 \/ activeStreams l = []) /\ (b = true -> l' = l /\ e = None).
Proof.
  intros [Hwf _]%reach_wf Hr Hi. split.
  - destruct (handle_ok wr init goAway rangeOrder rangeOrder_all l i Hwf Hr Hi) as (l' & e & -> & _). eauto.
  - destruct (processData_ok wr no_init l Hwf Hr) as (l' & b & e & ? & _ & ?). by exists l', b, e.
Qed.

(** C3.  The DATA bytes written so far and the connection's quota are never more
    than the initial window and the credit the peer gave since; and exactly
    that as long as the peer kept the window within 32 bits, so no quota is
    lost. *)
Theorem loopy_flow l c fair :
  lp_reach l c fair ->
  bytes_of (datas (log l)) <= defaultWindowSize + c /\
  bytes_of (datas (log l)) + sendQuota l <= defaultWindowSize + c /\
  (fair = true -> sendQuota l = defaultWindowSize + c - bytes_of (datas (log l))).
Proof.
  intros H. destruct (flow_inv l c fair H) as [Hle Heq]. destruct (reach_wf _ _ _ H) as [Hwf _].
  destruct (lw_quota _ _ Hwf) as [[] _]. split_and!; [lia|done|]. intros Hf. specialize (Heq Hf). lia.
Qed.

(** C29.  A turn without an error either writes no DATA and leaves every queue and
    the connection's quota as they were, or it writes one DATA frame with the
    first bytes of the first item of the first active stream ([sends]): at most
    a frame, the connection's quota and the stream's window, all of it taken
    from the queue and from the quotas, with END_STREAM exactly on the item's
    last bytes. *)
Theorem processData_turn l c fair l' b :
  lp_reach l c fair -> enc_room l -> processData l = Some (l', (b, None)) ->
  (datas (log l') = datas (log l) /\ sendQuota l' = sendQuota l /\ kept nothing l l') \/
  exists p s df chunk rest, sends l l' p s df chunk rest.
Proof.
  intros [Hwf _]%reach_wf Hr Hd. destruct (processData_ok wr no_init l Hwf Hr) as (l2 & b2 & e & Hh2 & Ht & _).
  rewrite Hd in Hh2. injection Hh2 as <- <- <-. destruct (Ht eq_refl) as (Hw & [[(_ & Hq & Hs & Hk) _]|Hs]).
  - left. split_and!; [done| |done]. rewrite Hs. destruct (lw_quota _ _ Hwf) as [[] _].
    by rewrite Z.add_0_r, u32_small.
  - by right.
Qed.

(** No stream is forgotten: an established stream with something to send
    is on the list of active streams, once, or has used up its window. *)
Theorem loopy_scheduled l c fair sid p s :
  lp_reach l c fair -> estdStreams l !! sid = Some p -> streams l !! p = Some s -> os_itl s <> [] ->
  (p ∈ activeStreams l /\ NoDup (activeStreams l)) \/ oiws l <= bytesOutStanding s.
Proof.
  intros [Hwf _]%reach_wf Hp Hs Hne. destruct (lw_estd _ _ Hwf sid p Hp) as (s' & Hs' & _ & Hest).
  simplify_eq. specialize (Hest ltac:(done)). unfold est_ok in Hest. destruct (os_state s).
  - left. split; [done|apply Hwf].
  - by destruct Hest.
  - right. destruct Hest as (_ & ? & _). lia.
Qed.


(** Bytes leave a stream in the order in which they came, none lost, added
    or sent twice: over a step, what was written on the stream followed by
    what is queued on it grows by exactly the bytes of the item handled. *)
Theorem loopy_delivery l c fair lab l' sid p s :
  lp_reach l c fair -> lp_step l lab l' -> estdStreams l !! sid = Some p -> streams l !! p = Some s ->
  exists s', streams l' !! p = Some s' /\
    sent_on sid (datas (log l')) ++ pending s' = sent_on sid (datas (log l)) ++ pending s ++ fed_by l lab p.
Proof. intros [Hwf _]%reach_wf. by apply step_delivery. Qed.

(** C40.  Trailers whose clean-up has no [onWrite], as [writeTrailer] makes them,
    take the server down: when they are handled on a stream that has nothing
    else to send, the writer writes them and then calls a nil function. *)
Theorem trailers_panic init goAway l h c l' p s :
  lside l = serverSide -> hd_streamID h mod 2 = 1 -> hd_endStream h = true ->
  estdStreams l !! hd_streamID h = Some p -> streams l !! p = Some s -> os_state s = empty ->
  hd_cleanup h = Some c -> cl_onWrite c = None ->
  writeHeader wr l (hd_streamID h) true (hd_hf h) (hd_onWrite h) = Some (l', None) ->
  handle init goAway l (ItHeader h) = None.
Proof.
  intros Hside Hodd Hes Hp Hs Hst Hc Hn Hw. cbn [Loopy.handle]. unfold headerHandler.
  rewrite bool_decide_true, Hodd by done. cbn [andb Z.eqb Pos.eqb]. rewrite Hp, Hes. cbn [negb]. rewrite Hs. cbn [mbind option_bind].
  rewrite bool_decide_true by done. cbn [negb]. rewrite Hw. unfold rbind. cbn [mbind option_bind].
  rewrite Hc. cbn [mbind option_bind]. unfold cleanupStreamHandler. by rewrite Hn.
Qed.
End Run.

(** ** Which streams a step opens

    Whatever a handler does, it stays on its side, loses no write quota, and
    establishes no stream but those its item opens. *)
Section Opening.
Context {W : Type} (wr : W -> list Z -> W * option ioErr).
Context (init : callback -> Z -> option loopyErr) (goAway : option (ControlBuf.goAway -> bool * option loopyErr)).
Context (rangeOrder : gmap Z loc -> list loc).

Definition opens_only (ids : list Z) (l l' : loopyWriter W) : Prop :=
  lside l' = lside l /\ (forall w, is_Some (wqs l !! w) -> is_Some (wqs l' !! w)) /\
  (forall id, is_Some (estdStreams l' !! id) -> is_Some (estdStreams l !! id) \/ id ∈ ids).
Definition opening (ids : list Z) (r : res W) (l : loopyWriter W) : Prop :=
  forall l' e, r = Some (l', e) -> opens_only ids l l'.

(** The streams an item opens at a writer. *)
Definition item_opens (s : side) (it : cbItem) : list Z :=
  match it with
  | ItRegister id _ => [id]
  | ItHeader h => if bool_decide (s = serverSide) && (hd_streamID h mod 2 =? 1) then [] else [hd_streamID h]
  | _ => []
  end.

Lemma opens_refl ids l : opens_only ids l l.
Proof. split_and!; auto. Qed.
Lemma opens_trans ids l1 l2 l3 : opens_only [] l1 l2 -> opens_only ids l2 l3 -> opens_only ids l1 l3.
Proof.
  intros (H1 & H2 & H3) (H1' & H2' & H3'). split_and!; [congruence|auto|].
  intros id [H|H]%H3'; [|by right]. apply H3 in H as [H|H]; [by left|]. by apply elem_of_nil in H.
Qed.
(** Nothing the relation looks at changes. *)
Lemma opens_same ids l l' : lside l' = lside l -> wqs l' = wqs l -> estdStreams l' = estdStreams l -> opens_only ids l l'.
Proof. intros H1 H2 H3. unfold opens_only. rewrite H1, H2, H3. split_and!; auto. Qed.

Lemma opening_ok ids l l' : opens_only ids l l' -> opening ids (ok l') l.
Proof. by intros H l1 e [= <- <-]. Qed.
Lemma opening_fails ids l l' e : opens_only ids l l' -> opening ids (fails l' e) l.
Proof. by intros H l1 e1 [= <- <-]. Qed.
Lemma opening_from ids r l l1 : opens_only [] l l1 -> opening ids r l1 -> opening ids r l.
Proof. intros H1 H2 l' e E. eapply opens_trans; [exact H1|by eapply H2]. Qed.
Lemma opening_rbind ids m k l :
  opening [] m l -> (forall l1, opens_only [] l l1 -> opening ids (k l1) l1) -> opening ids (rbind m k) l.
Proof.
  intros Hm Hk l' e. unfold rbind. destruct m as [[l1 [e1|]]|]; cbn [mbind option_bind]; [| |done].
  - intros [= <- <-]. eapply opens_trans; [by eapply Hm|apply opens_refl].
  - intros E. eapply opens_trans; [by eapply Hm|]. eapply Hk; [by eapply Hm|done].
Qed.
Lemma opening_lift {A} ids (o : option A) (k : A -> option (loopyWriter W * option loopyErr)) l :
  (forall x, opening ids (k x) l) -> opening ids (x ← o; k x) l.
Proof. intros Hk. destruct o; [apply Hk|by intros ? ?]. Qed.

Lemma fr_write_opens ids l c : opening ids (fr_write wr l c) l.
Proof.
  destruct (fr_write_ok wr l c) as (l' & e & E & (H1 & _ & _ & H2 & _ & _ & _ & _ & H3) & _). intros l1 e1 E1.
  rewrite E in E1. injection E1 as <- <-. by apply opens_same.
Qed.
Lemma writeBlock_opens fuel : forall l sid es first b, opening [] (writeBlock wr fuel l sid es first b) l.
Proof.
  induction fuel as [|fuel IH]; intros l sid es first b; [by intros ? ?|]. cbn [writeBlock].
  destruct (if len b >? lmaxFrameSize l then _ else _) as [n endH]. apply opening_rbind; [apply fr_write_opens|].
  intros l1 _. destruct endH; [apply opening_ok, opens_refl|apply IH].
Qed.
Lemma call_opens ids l f : opens_only ids l (call l f).
Proof. destruct f; by apply opens_same. Qed.
Lemma writeHeader_opens l sid es fs f : opening [] (writeHeader wr l sid es fs f) l.
Proof.
  unfold writeHeader. eapply opening_from; [apply (call_opens [] l f)|]. apply opening_lift. intros [e hb].
  eapply opening_from; [|apply writeBlock_opens]. by apply opens_same.
Qed.
Lemma cleanup_opens ids l c : opening ids (cleanupStreamHandler wr l c) l.
Proof.
  unfold cleanupStreamHandler. apply opening_lift. intros f. cbv zeta.
  match goal with |- opening _ (rbind (if _ then fr_write _ ?x _ else _) _) _ => assert (H : opens_only [] l x) end.
  { cbn [estdStreams say]. destruct (estdStreams l !! cl_streamID c); [|by apply opens_same].
    split_and!; [done|done|]. cbn. intros id [q Hq]. apply lookup_delete_Some in Hq as [_ Hq]. left. by eexists. }
  eapply opening_from; [exact H|]. apply opening_rbind.
  - destruct (cl_rst c); [apply fr_write_opens|apply opening_ok, opens_refl].
  - intros l1 _. case_if; [apply opening_fails, opens_refl|apply opening_ok, opens_refl].
Qed.
Lemma register_opens l id wq : opening [id] (registerStreamHandler l id wq) l.
Proof.
  apply opening_ok. split_and!; [done|done|]. cbn. intros i [q Hq]. apply lookup_insert_Some in Hq as [[-> _]|[_ Hq]].
  - right. by left.
  - left. by eexists.
Qed.

Lemma headerHandler_opens l h : opening (item_opens (lside l) (ItHeader h)) (headerHandler wr init l h) l.
Proof.
  unfold headerHandler. cbn [item_opens]. destruct (_ && _).
  - destruct (estdStreams l !! hd_streamID h) as [p|]; [|apply opening_ok, opens_refl].
    destruct (negb _); [apply writeHeader_opens|]. apply opening_lift. intros s.
    destruct (negb _); [by apply opening_ok, opens_same|]. apply opening_rbind; [apply writeHeader_opens|].
    intros l1 _. apply opening_lift. intros c. apply cleanup_opens.
  - assert (Hr : forall l1, opens_only [] l l1 -> opening [hd_streamID h]
      (rbind (writeHeader wr l1 (hd_streamID h) (hd_endStream h) (hd_hf h) (hd_onWrite h)) (fun l =>
         registerStreamHandler l (hd_streamID h) (hd_wq h))) l).
    { intros l1 H1. eapply opening_from; [exact H1|]. apply opening_rbind; [apply writeHeader_opens|]. intros l2 _. apply register_opens. }
    destruct (hd_initStream h) as [f|]; [|apply Hr, opens_refl].
    assert (H1 : forall ids, opens_only ids l (say l (EvInit f (hd_streamID h)))) by (intros; by apply opens_same).
    destruct (init f (hd_streamID h)) as [[]|]; first [by apply opening_ok|by apply opening_fails|by apply Hr].
Qed.

Lemma wakeStreams_opens l l' : wakeStreams rangeOrder l = Some l' -> opens_only [] l l'.
Proof.
  unfold wakeStreams. change (fun (l0 : option (loopyWriter W)) (p : loc) => _) with (@wakeStep W).
  generalize (rangeOrder (estdStreams l)) as ps. intros ps. revert l.
  assert (Hn : forall qs, foldl (@wakeStep W) None qs = None) by (induction qs; done).
  induction ps as [|p ps IH]; intros l; cbn [foldl]; [intros [= <-]; apply opens_refl|].
  unfold wakeStep at 2. cbn [mbind option_bind]. destruct (streams l !! p) as [s|]; cbn [mbind option_bind]; [|by rewrite Hn].
  case_bool_decide; [|apply IH]. intros H'%IH. eapply opens_trans; [|exact H']. by apply opens_same.
Qed.
Lemma applySettings_opens ss : forall l l', applySettings rangeOrder l ss = Some l' -> opens_only [] l l'.
Proof.
  unfold applySettings.
  assert (Hn : forall ss, foldl (fun l s => l ← l; applySetting rangeOrder l s) (None : option (loopyWriter W)) ss = None) by (induction ss0; done).
  induction ss as [|s ss IH]; intros l l'; cbn [foldl mbind option_bind]; [intros [= <-]; apply opens_refl|].
  destruct (applySetting rangeOrder l s) as [l1|] eqn:E; [|by rewrite Hn].
  intros H'%IH. eapply opens_trans; [|exact H']. revert E. unfold applySetting. case_if; cbv zeta.
  - case_if; [|intros [= <-]; by apply opens_same]. intros H1%wakeStreams_opens. eapply opens_trans; [|exact H1]. by apply opens_same.
  - case_if; [|intros [= <-]; apply opens_refl]. destruct (SetMaxDynamicTableSizeLimit _ _); [|done]. cbn. intros [= <-]. by apply opens_same.
Qed.

Lemma handle_opens l i : opening (item_opens (lside l) i) (handle wr init goAway rangeOrder l i) l.
Proof.
  destruct i; cbn [handle item_opens].
  - apply register_opens.
  - apply headerHandler_opens.
  - apply cleanup_opens.
  - unfold preprocessData. destruct (estdStreams l !! _); [|apply opening_ok, opens_refl]. apply opening_lift. intros s.
    cbv zeta. case_bool_decide; by apply opening_ok, opens_same.
  - unfold incomingWindowUpdateHandler. case_if; [by apply opening_ok, opens_same|].
    destruct (estdStreams l !! _); [|apply opening_ok, opens_refl]. apply opening_lift. intros s. cbv zeta.
    case_if; by apply opening_ok, opens_same.
  - apply fr_write_opens.
  - unfold incomingSettingsHandler. destruct (applySettings rangeOrder l ss) as [l1|] eqn:E; [|by intros ? ?].
    cbn [mbind option_bind]. eapply opening_from; [by eapply applySettings_opens|apply fr_write_opens].
  - apply fr_write_opens.
  - unfold incomingGoAwayHandler. case_bool_decide; [|apply opening_ok, opens_refl]. cbv zeta.
    case_bool_decide; [by apply opening_fails, opens_same|by apply opening_ok, opens_same].
  - unfold goAwayHandler. destruct goAway as [h|]; [|by apply opening_ok, opens_same]. destruct (h g) as [d [e|]];
      [by apply opening_fails, opens_same|by apply opening_ok, opens_same].
  - unfold pingHandler. eapply opening_from; [|apply fr_write_opens]. destruct ack; by apply opens_same.
  - by apply opening_ok, opens_same.
Qed.

Lemma afterItem_opens l p swallow : opening [] (afterItem wr l p swallow) l.
Proof.
  unfold afterItem. apply opening_lift. intros s.
  destruct (os_itl s) as [|[] items]; try (by apply opening_ok, opens_same);
    try (case_if; by apply opening_ok, opens_same).
  apply opening_rbind; [apply writeHeader_opens|]. intros l1 _. apply opening_lift. intros c.
  pose proof (cleanup_opens [] l1 c) as Hc. destruct (cleanupStreamHandler wr l1 c) as [[l2 e]|]; [|by intros ? ?].
  cbn [mbind option_bind]. intros l3 e3 [= <- <-]. by eapply Hc.
Qed.
Lemma done_opens ids l f df : opens_only ids l (done l f df).
Proof. destruct f; by apply opens_same. Qed.

Lemma processData_opens l l' x : processData wr l = Some (l', x) -> opens_only [] l l'.
Proof.
  assert (Hret : forall r l1, opens_only [] l l1 -> opening [] r l1 -> ('(l, e) ← r; Some (l, (false, e))) = Some (l', x) -> opens_only [] l l').
  { intros r l1 H1 Hr. destruct r as [[l2 e]|]; [|done]. cbn [mbind option_bind]. intros [= <- _].
    eapply opens_trans; [exact H1|by eapply Hr]. }
  unfold processData. cbv zeta. case_if; [intros [= <- _]; apply opens_refl|].
  destruct (activeStreams l) as [|p more]; [intros [= <- _]; apply opens_refl|]. cbn [streams set_active].
  assert (H1 : opens_only [] l (set_active l more)) by (by apply opens_same).
  destruct (streams l !! p) as [s|]; [|done]. cbn [mbind option_bind].
  destruct (os_itl s) as [|[| | |df| | | | | | | |] items]; try done. case_if.
  - apply (Hret _ _ H1). unfold sendEmpty. apply opening_rbind; [apply fr_write_opens|]. intros l1 _. cbv zeta.
    eapply opening_from; [|apply afterItem_opens]. eapply opens_trans; [|apply done_opens]. eapply opens_trans; [|apply done_opens].
    by apply opens_same.
  - destruct (sendSize _ s df) as [n|]; [|apply (Hret _ _ H1); by apply opening_ok, opens_same].
    apply (Hret _ _ H1). unfold sendChunk. apply opening_lift. intros q. cbv zeta.
    match goal with |- opening _ (if _ then _ else rbind (fr_write _ ?y _) _) _ => assert (H2 : opens_only [] (set_active l more) y) end.
    { eapply opens_trans; [|apply call_opens]. split_and!; [done| |by left]. intros w Hw. cbn in *.
      destruct (decide (os_wq s = w)) as [->|?]; [by rewrite lookup_insert_eq|by rewrite lookup_insert_ne]. }
    case_if; [by intros ? ?|]. eapply opening_from; [exact H2|]. apply opening_rbind; [apply fr_write_opens|]. intros l1 _.
    eapply opening_from; [|apply afterItem_opens]. case_if; [|by apply opens_same].
    eapply opens_trans; [|apply done_opens]. by apply opens_same.
Qed.
End Opening.

(** ** A run

    A client with one stream to which twelve bytes are given, over a writer that
    keeps what it is given and frames of at most five bytes. *)
Module Demo.
Definition wr (w b : list Z) : list Z * option ioErr := (w ++ b, None).
Definition initStream (f : callback) (id : Z) : option loopyErr := None.
Definition ssGoAway : option (goAway -> bool * option loopyErr) := None.
Definition rangeOrder (m : gmap Z loc) : list loc := (map_to_list m).*2.

Lemma rangeOrder_all m : rangeOrder m ≡ₚ (map_to_list m).*2.
Proof. done. Qed.

Definition enc : Encoder := default (mkEncoder dyn_init 0 0 false) NewEncoder.
Definition next (r : res (list Z)) (l : loopyWriter (list Z)) : loopyWriter (list Z) :=
  match r with Some (l, _) => l | None => l end.
Definition serve := Loopy.handle wr initStream ssGoAway rangeOrder.

Definition item : cbItem := ItData (mkData 1 true (str "hello tunnel") 0 0 None None None).
Definition l0 : loopyWriter (list Z) := newLoopyWriter clientSide enc [] 5.
Definition l1 := set_wqs l0 {[1%nat := newWriteQuota 100]}.
Definition l2 := next (serve l1 (ItRegister 1 1%nat)) l1.
Definition l3 := next (serve l2 item) l2.
Definition turn (l : loopyWriter (list Z)) : loopyWriter (list Z) :=
  match processData wr l with Some (l, _) => l | None => l end.
Definition l4 := turn l3.

Lemma reach1 : lp_reach wr rangeOrder l1 0 true.
Proof.
  apply (reach_step _ _ l0 0 true Quotas l1); [|by apply st_quotas; intros ? [? ?]].
  apply reach_new; [by vm_compute|done].
Qed.
Lemma reach3 : lp_reach wr rangeOrder l3 0 true.
Proof.
  apply (reach_step _ _ l2 0 true (Handled item) l3); [|by apply (st_handle _ _ _ initStream ssGoAway); vm_compute].
  apply (reach_step _ _ l1 0 true (Handled (ItRegister 1 1%nat)) l2); [apply reach1|].
  apply (st_handle _ _ _ initStream ssGoAway); [split; [by eexists; vm_compute|by vm_compute]|by vm_compute|by vm_compute].
Qed.
Lemma step4 : lp_step wr rangeOrder l3 Turn l4.
Proof. by apply (st_turn _ _ l3 false); vm_compute. Qed.
Lemma reach4 : lp_reach wr rangeOrder l4 0 true.
Proof. apply (reach_step _ _ l3 0 true Turn l4); [apply reach3|apply step4]. Qed.
End Demo.
Import Demo.

Lemma loopy_safe_witness : is_Some (serve l4 item) /\
  exists l' b e, processData wr l4 = Some (l', (b, e)) /\
    (b = true <-> sendQuota l4 = 0 \/ activeStreams l4 = []) /\ (b = true -> l' = l4 /\ e = None).
Proof.
  apply (loopy_safe wr rangeOrder rangeOrder_all l4 0 true initStream ssGoAway item);
    [apply reach4|by vm_compute|reflexivity].
Defined.

Lemma loopy_flow_witness : bytes_of (datas (log l4)) = 5 /\ sendQuota l4 = defaultWindowSize + 0 - bytes_of (datas (log l4)).
Proof.
  split; [by vm_compute|].
  apply (loopy_flow wr rangeOrder rangeOrder_all l4 0 true); [apply reach4|reflexivity].
Defined.

Lemma processData_turn_witness :
  (datas (log (turn l4)) = datas (log l4) /\ sendQuota (turn l4) = sendQuota l4 /\ kept nothing l4 (turn l4)) \/
  exists p s df chunk rest, sends l4 (turn l4) p s df chunk rest.
Proof.
  apply (processData_turn wr rangeOrder rangeOrder_all l4 0 true (turn l4) false);
    [apply reach4|by vm_compute|by vm_compute].
Defined.

Lemma loopy_scheduled_witness : (0%nat ∈ activeStreams l4 /\ NoDup (activeStreams l4)) \/ 65535 <= 5.
Proof.
  apply (loopy_scheduled wr rangeOrder rangeOrder_all l4 0 true 1 0%nat
    (mkOS 1 active [ItData (mkData 1 true (str " tunnel") 0 0 None None None)] 5 1%nat));
    [apply reach4|by vm_compute|by vm_compute|done].
Defined.


Lemma loopy_delivery_witness : exists s', streams l4 !! 0%nat = Some s' /\
  sent_on 1 (datas (log l4)) ++ pending s' = str "hello tunnel".
Proof.
  apply (loopy_delivery wr rangeOrder rangeOrder_all l3 0 true Turn l4 1 0%nat
    (mkOS 1 active [item] 0 1%nat)); [apply reach3|apply step4|by vm_compute|by vm_compute].
Defined.

(** A server with one stream. *)
Definition server : loopyWriter (list Z) :=
  next (serve (set_wqs (newLoopyWriter serverSide enc [] 16384) {[1%nat := newWriteQuota 100]})
          (ItRegister 1 1%nat)) l0.
Definition trailer : headerFrame :=
  mkHeader 1 [hf "grpc-status" "0"] true None None 1%nat (Some (mkCleanup 1 false 0 None)) None.

Lemma trailers_panic_witness : serve server (ItHeader trailer) = None.
Proof.
  apply (trailers_panic wr rangeOrder initStream ssGoAway server trailer (mkCleanup 1 false 0 None)
    (next (writeHeader wr server 1 true (hd_hf trailer) None) l0) 0%nat (mkOS 1 empty [] 0 1%nat)); by vm_compute.
Defined.

(** A buffer given to [SendRaw] whole ([start] 0, [end] its length) that does
    not fit into one frame makes the writer panic: the first turn sends 16384
    bytes and cuts them off the buffer, but [end] stays, so the second turn
    takes as many bytes again from the 3616 that are left. *)
Theorem SendRaw_panics :
  let big := ItData (mkData 1 true (replicate 20000 120) 0 20000 None None None) in
  let l := next (serve server big) l0 in
  bytes_of (datas (log (turn l))) = 16384 /\ processData wr (turn l) = None.
Proof. by vm_compute. Qed.
