(* ===== verification/BufWriter.v ===== *)
(** * The write buffer below the framer: h2/http_util.go, [bufWriter]

    [Write] copies into a buffer of twice the batch size and flushes it to the
    connection when a batch is full.  The connection is a parameter, with what
    it received so far; its [Write] returns how many bytes it took. *)
From S2P Require Import Prelude Frame.

Section BufWriter.
Context {C : Type} (connWrite : C -> list Z -> C * (Z * option ioErr)).

(** [flushes] counts the calls of [onFlush]. *)
Record bufWriter := mkBW {
  buf : list Z;
  offset : Z;
  batchSize : Z;
  conn : C;
  werr : option ioErr;
  flushes : nat
}.

Definition newBufWriter (c : C) (batch : Z) : bufWriter :=
  mkBW (replicate (Z.to_nat (batch * 2)) 0) 0 batch c None 0.

Definition Flush (w : bufWriter) : bufWriter * option ioErr :=
  match werr w with
  | Some e => (w, Some e)
  | None =>
      if offset w =? 0 then (w, None) else
      let '(c, (_, e)) := connWrite (conn w) (take (Z.to_nat (offset w)) (buf w)) in
      (mkBW (buf w) 0 (batchSize w) c e (S (flushes w)), e)
  end.

(** [copy(w.buf[w.offset:], b)] *)
Definition copyIn (w : bufWriter) (b : list Z) : Z * list Z :=
  let nn := Z.min (len (buf w) - offset w) (len b) in
  (nn, take (Z.to_nat (offset w)) (buf w) ++ take (Z.to_nat nn) b ++ drop (Z.to_nat (offset w + nn)) (buf w)).

(** The loop of [Write]; [None] when it is not done after [fuel] rounds. *)
Fixpoint writeRounds (fuel : nat) (w : bufWriter) (b : list Z) (n : Z) (err : option ioErr)
    : option (bufWriter * (Z * option ioErr)) :=
  match b, fuel with
  | [], _ => Some (w, (n, err))
  | _, O => None
  | _, S fuel =>
      let '(nn, buf') := copyIn w b in
      let b := drop (Z.to_nat nn) b in
      let w := mkBW buf' (offset w + nn) (batchSize w) (conn w) (werr w) (flushes w) in
      if offset w >=? batchSize w
      then let '(w, e) := Flush w in writeRounds fuel w b (n + nn) e
      else writeRounds fuel w b (n + nn) err
  end.

Definition Write (fuel : nat) (w : bufWriter) (b : list Z) : option (bufWriter * (Z * option ioErr)) :=
  match werr w with
  | Some e => Some (w, (0, Some e))
  | None =>
      if batchSize w =? 0 then
        let '(c, r) := connWrite (conn w) b in
        Some (mkBW (buf w) (offset w) (batchSize w) c (werr w) (flushes w), r)
      else writeRounds fuel w b 0 None
  end.

(** ** What is in the buffer *)
Definition buffered (w : bufWriter) : list Z := take (Z.to_nat (offset w)) (buf w).

(** Between calls there is less than a batch in the buffer. *)
Record bw_wf (w : bufWriter) : Prop := {
  bw_len : len (buf w) = 2 * batchSize w;
  bw_batch : 0 < batchSize w;
  bw_off : 0 <= offset w < batchSize w;
  bw_err : werr w = None
}.

Lemma copyIn_ok w b nn buf' :
  0 <= offset w <= len (buf w) -> copyIn w b = (nn, buf') ->
  nn = Z.min (len (buf w) - offset w) (len b) /\ len buf' = len (buf w) /\
  take (Z.to_nat (offset w + nn)) buf' = buffered w ++ take (Z.to_nat nn) b.
Proof.
  intros Ho [= <- <-]. set (nn := Z.min _ _). pose proof (len_nonneg b).
  assert (Hnn : 0 <= nn <= len b /\ offset w + nn <= len (buf w)) by lia. unfold buffered.
  assert (L1 : length (take (Z.to_nat (offset w)) (buf w)) = Z.to_nat (offset w))
    by (rewrite length_take; unfold len in *; lia).
  assert (L2 : length (take (Z.to_nat nn) b) = Z.to_nat nn) by (rewrite length_take; unfold len in *; lia).
  split; [done|]. split.
  - unfold len in *. rewrite !length_app, L1, L2, length_drop. lia.
  - rewrite app_assoc, take_app_length'; [done|]. rewrite length_app, L1, L2. lia.
Qed.

(** ** A connection that fails *)

(** With the error set and the buffer full, a round does nothing. *)
Lemma stuck fuel : forall w b n err e,
  b <> [] -> werr w = Some e -> 0 < batchSize w -> len (buf w) = 2 * batchSize w -> offset w = len (buf w) ->
  writeRounds fuel w b n err = None.
Proof.
  induction fuel as [|fuel IH]; intros w b n err e Hb He Hbs Hl Ho; destruct b as [|x b']; try done.
  set (b := x :: b') in *. cbn [writeRounds]. destruct (copyIn w b) as [nn buf'] eqn:Ec.
  destruct (copyIn_ok w b nn buf') as (Hnn & Hl' & _); [pose proof (len_nonneg (buf w)); lia|done|].
  assert (nn = 0) as -> by (pose proof (len_nonneg b); lia).
  cbn [offset batchSize]. destruct (Z.geb_spec (offset w + 0) (batchSize w)); [|lia].
  unfold Flush. cbn [werr]. rewrite He. change (drop (Z.to_nat 0) b) with b.
  by apply (IH _ _ _ _ e); [..|cbn; lia|cbn; lia].
Qed.

(** One round with more bytes than there is room for fills the buffer. *)
Lemma fill fuel w b n err :
  0 < batchSize w -> len (buf w) = 2 * batchSize w -> 0 <= offset w < len (buf w) -> len (buf w) - offset w < len b ->
  exists buf', len buf' = len (buf w) /\
    writeRounds (S fuel) w b n err =
      let '(w', e) := Flush (mkBW buf' (len buf') (batchSize w) (conn w) (werr w) (flushes w)) in
      writeRounds fuel w' (drop (Z.to_nat (len (buf w) - offset w)) b) (n + (len (buf w) - offset w)) e.
Proof.
  intros Hbs Hl Ho Hb. destruct b as [|x b']; [rewrite len_nil in Hb; lia|]. set (b := x :: b') in *.
  cbn [writeRounds]. destruct (copyIn w b) as [nn buf'] eqn:Ec.
  destruct (copyIn_ok w b nn buf') as (Hnn & Hl' & _); [lia|done|].
  exists buf'. split; [done|]. assert (nn = len (buf w) - offset w) as -> by lia.
  cbn [offset batchSize]. replace (offset w + (len (buf w) - offset w)) with (len buf') by lia.
  by destruct (Z.geb_spec (len buf') (batchSize w)); [|lia].
Qed.

(** When the connection fails under a write of more than four batches, the
    write does not return, however long it runs: the error is kept, the buffer
    fills up again, and with no room left the loop copies nothing for ever. *)
Theorem bufWriter_hang w b e fuel :
  bw_wf w -> (forall c d, exists c' k, connWrite c d = (c', (k, Some e))) -> 4 * batchSize w < len b + offset w ->
  Write fuel w b = None.
Proof.
  intros [Hl Hbs Ho He] Hfail Hlong. unfold Write. rewrite He, (proj2 (Z.eqb_neq (batchSize w) 0)) by lia.
  assert (Hdrop : forall (l : list Z) k, 0 <= k <= len l -> len (drop (Z.to_nat k) l) = len l - k)
    by (intros; unfold len in *; rewrite length_drop; lia).
  destruct fuel as [|fuel]; [destruct b; [rewrite len_nil in Hlong; lia|done]|].
  destruct (fill fuel w b 0 None Hbs Hl) as (buf1 & L1 & ->); [lia|lia|].
  unfold Flush at 1. cbn [werr offset conn buf batchSize flushes]. rewrite He.
  rewrite (proj2 (Z.eqb_neq (len buf1) 0)) by lia.
  destruct (Hfail (conn w) (take (Z.to_nat (len buf1)) buf1)) as (c' & k & ->).
  set (b1 := drop _ b). assert (L : len b1 = len b - (len (buf w) - offset w)) by (apply Hdrop; lia).
  set (w1 := mkBW buf1 0 (batchSize w) c' (Some e) (S (flushes w))).
  destruct fuel as [|fuel]; [destruct b1; [rewrite len_nil in L; lia|done]|].
  destruct (fill fuel w1 b1 (0 + (len (buf w) - offset w)) (Some e)) as (buf2 & L2 & ->); [done|cbn; lia|cbn; lia|cbn; lia|].
  unfold Flush. cbn [werr w1]. apply (stuck _ _ _ _ _ e); [|done|done|cbn in *; lia|done].
  intros Hnil. pose proof (f_equal len Hnil) as Hz. change (len (buf w1) - offset w1) with (len buf1 - 0) in Hz.
  rewrite (Hdrop b1) in Hz by lia. pose proof (@len_nil Z). lia.
Qed.

(** ** A connection that takes everything *)
Context (received : C -> list Z).
Hypothesis connWrite_ok : forall c b, exists c', connWrite c b = (c', (len b, None)) /\ received c' = received c ++ b.

(** What was given to the writer so far. *)
Definition written (w : bufWriter) : list Z := received (conn w) ++ buffered w.

Lemma Flush_ok w :
  len (buf w) = 2 * batchSize w -> 0 < batchSize w -> 0 <= offset w <= len (buf w) -> werr w = None ->
  exists w', Flush w = (w', None) /\ bw_wf w' /\ written w' = written w /\ buffered w' = [] /\
    batchSize w' = batchSize w.
Proof.
  intros Hl Hb Ho He. unfold Flush. rewrite He. destruct (Z.eqb_spec (offset w) 0) as [Hz|Hnz].
  { exists w. split; [done|]. split; [by split; [..|lia|]|]. unfold buffered. by rewrite Hz. }
  destruct (connWrite_ok (conn w) (buffered w)) as (c' & E & Hr). unfold buffered in E. rewrite E.
  eexists. split; [done|]. split; [by split; cbn; [..|lia|]|]. unfold written, buffered. cbn.
  rewrite app_nil_r, Hr. done.
Qed.

Lemma writeRounds_ok fuel : forall w b n,
  bw_wf w -> (length b <= fuel)%nat ->
  exists w', writeRounds fuel w b n None = Some (w', (n + len b, None)) /\ bw_wf w' /\
    written w' = written w ++ b /\ batchSize w' = batchSize w.
Proof.
  induction fuel as [|fuel IH]; intros w b n Hw Hf.
  { destruct b; [|cbn in Hf; lia]. exists w. cbn [writeRounds]. rewrite len_nil, Z.add_0_r, app_nil_r. done. }
  destruct b as [|x b']; [exists w; cbn [writeRounds]; rewrite len_nil, Z.add_0_r, app_nil_r; done|].
  set (b := x :: b') in *. cbn [writeRounds]. destruct (copyIn w b) as [nn buf'] eqn:Ec.
  pose proof Hw as [Hl Hbs Ho He].
  destruct (copyIn_ok w b nn buf') as (Hnn & Hl' & Ht); [lia|done|].
  assert (Hpos : 0 < nn) by (unfold b in *; rewrite len_cons in Hnn; pose proof (len_nonneg b'); lia).
  assert (Hdrop : len (drop (Z.to_nat nn) b) = len b - nn) by (unfold len in *; rewrite length_drop; lia).
  set (w1 := mkBW buf' (offset w + nn) (batchSize w) (conn w) (werr w) (flushes w)).
  assert (Hw1 : written w1 = written w ++ take (Z.to_nat nn) b).
  { unfold written. change (buffered w1) with (take (Z.to_nat (offset w + nn)) buf'). rewrite Ht. cbn. by rewrite app_assoc. }
  assert (Hnext : forall w2, bw_wf w2 -> written w2 = written w1 -> batchSize w2 = batchSize w ->
    exists w', writeRounds fuel w2 (drop (Z.to_nat nn) b) (n + nn) None = Some (w', (n + len b, None)) /\ bw_wf w' /\
      written w' = written w ++ b /\ batchSize w' = batchSize w).
  { intros w2 Hw2 E2 Eb. destruct (IH w2 (drop (Z.to_nat nn) b) (n + nn) Hw2) as (w' & -> & Hw' & E' & Eb').
    { unfold len in *. lia. }
    exists w'. split; [do 3 f_equal; lia|]. split; [done|]. split; [|congruence].
    by rewrite E', E2, Hw1, <- app_assoc, take_drop. }
  change (offset w1) with (offset w + nn). change (batchSize w1) with (batchSize w).
  destruct (Z.geb_spec (offset w + nn) (batchSize w)) as [Hge|Hlt].
  - destruct (Flush_ok w1) as (w2 & -> & Hw2 & E2 & _ & Eb2); [cbn; lia|done|cbn; lia|done|]. by apply Hnext.
  - apply Hnext; [|done|done]. split; cbn; lia || done.
Qed.

Inductive op := OpWrite (b : list Z) | OpFlush.
Definition op_bytes (o : op) : list Z := match o with OpWrite b => b | OpFlush => [] end.

(** A run of operations; [None] if one of them does not return or fails. *)
Fixpoint runOps (w : bufWriter) (ops : list op) : option bufWriter :=
  match ops with
  | [] => Some w
  | OpWrite b :: ops =>
      match Write (length b) w b with Some (w, (_, None)) => runOps w ops | _ => None end
  | OpFlush :: ops => match Flush w with (w, None) => runOps w ops | _ => None end
  end.

Lemma runOps_ok ops : forall w, bw_wf w ->
  exists w', runOps w ops = Some w' /\ bw_wf w' /\ written w' = written w ++ (ops ≫= op_bytes) /\
    batchSize w' = batchSize w.
Proof.
  induction ops as [|[b|] ops IH]; intros w Hw; cbn [runOps].
  - exists w. cbn. by rewrite app_nil_r.
  - unfold Write. rewrite (bw_err _ Hw). pose proof (bw_batch _ Hw).
    rewrite (proj2 (Z.eqb_neq (batchSize w) 0)) by lia.
    destruct (writeRounds_ok (length b) w b 0 Hw) as (w1 & -> & Hw1 & E1 & B1); [done|].
    destruct (IH w1 Hw1) as (w2 & -> & Hw2 & E2 & B2). exists w2. split; [done|]. split; [done|].
    cbn. by rewrite E2, E1, <- app_assoc, B2.
  - destruct (Flush_ok w) as (w1 & -> & Hw1 & E1 & _ & B1); [apply Hw|apply Hw|destruct Hw; lia|apply Hw|].
    destruct (IH w1 Hw1) as (w2 & -> & Hw2 & E2 & B2). exists w2. split; [done|]. split; [done|]. by rewrite E2, E1, B2.
Qed.

(** C38.  Over a connection that takes what it is given, every call returns and
    the connection receives exactly the bytes written, in order, up to the last
    ones: they are in the buffer, fewer than a batch, until the next flush. *)
Theorem bufWriter_stream c batch ops :
  0 < batch ->
  exists w, runOps (newBufWriter c batch) ops = Some w /\
    received (conn w) ++ buffered w = received c ++ (ops ≫= op_bytes) /\ len (buffered w) < batch /\
    exists w', Flush w = (w', None) /\ received (conn w') = received c ++ (ops ≫= op_bytes).
Proof.
  intros Hb. assert (Hw : bw_wf (newBufWriter c batch)).
  { split; cbn; [|done|lia|done]. unfold len. rewrite length_replicate. lia. }
  destruct (runOps_ok ops _ Hw) as (w & Hrun & Hw' & E & B). exists w. split; [done|].
  unfold written in E. change (buffered (newBufWriter c batch)) with (@nil Z) in E. rewrite app_nil_r in E.
  split; [done|]. split.
  { pose proof Hw' as [? ? ? ?]. unfold buffered, len in *. rewrite length_take. cbn in B. lia. }
  destruct (Flush_ok w) as (w2 & Hf & _ & E2 & Hn & _); [apply Hw'|apply Hw'|destruct Hw'; lia|apply Hw'|].
  exists w2. split; [done|]. unfold written in E2. rewrite Hn, app_nil_r in E2. by rewrite E2.
Qed.
End BufWriter.

(** A connection that records what it receives. *)
Definition good (c b : list Z) : list Z * (Z * option ioErr) := (c ++ b, (len b, None)).

Lemma bufWriter_stream_witness : exists w,
  runOps good (newBufWriter [] 2) [OpWrite (str "hello"); OpFlush; OpWrite (str "h")] = Some w /\
  conn w ++ buffered w = str "helloh".
Proof.
  destruct (bufWriter_stream good id (fun c b => ex_intro _ (c ++ b) (conj eq_refl eq_refl)) [] 2
    [OpWrite (str "hello"); OpFlush; OpWrite (str "h")]) as (w & Hw & E & _); [done|]. by exists w.
Defined.

(** A connection that is gone. *)
Definition gone (c b : list Z) : list Z * (Z * option ioErr) := (c, (0, Some EOF)).

Lemma bufWriter_hang_witness : Write gone 1000 (newBufWriter [] 2) (str "123456789") = None.
Proof.
  apply (bufWriter_hang gone (newBufWriter [] 2) (str "123456789") EOF 1000);
    [by split|intros; by eexists _, _|reflexivity].
Defined.
