(* ===== verification/Timeout.v ===== *)
(** * Timeouts in headers: h2/grpcutil/encode_duration.go, h2/http_util.go

    [EncodeDuration] prints a duration in at most eight digits and a unit,
    [decodeTimeout] reads it.  A [time.Duration] is a 64-bit count of
    nanoseconds.  Of package strconv, [FormatInt] of a positive number and
    [ParseInt] in base ten are modelled, as the code uses them. *)
From S2P Require Import Prelude.

(** ** strconv *)
Definition isDigit (c : Z) : bool := (48 <=? c) && (c <=? 57).

(** The digits of [n], put before [acc]; one unit of fuel a digit. *)
Fixpoint digits (fuel : nat) (n : Z) (acc : list Z) : list Z :=
  match fuel with
  | O => acc
  | S fuel =>
      let acc := 48 + n mod 10 :: acc in
      if n <? 10 then acc else digits fuel (n / 10) acc
  end.
(** [FormatInt(n, 10)] for [0 <= n]: an int64 has at most 19 digits. *)
Definition FormatInt (n : Z) : list Z := digits 19 n [].

Fixpoint parseDigits (l : list Z) (n : Z) : option Z :=
  match l with
  | [] => Some n
  | c :: l => if isDigit c then parseDigits l (10 * n + (c - 48)) else None
  end.

(** [ParseInt(s, 10, 64)]; an error is [None]. *)
Definition ParseInt (s : list Z) : option Z :=
  let '(neg, s) := match s with
                   | c :: t => if c =? 43 then (false, t) else if c =? 45 then (true, t) else (false, s)
                   | [] => (false, s)
                   end in
  if bool_decide (s = []) then None else
  un ← parseDigits s 0;
  if negb neg && (un >=? 2 ^ 63) then None else
  if neg && (un >? 2 ^ 63) then None else
  Some (if (neg : bool) then - un else un).

(** ** Encoding *)
Definition maxTimeoutValue : Z := 100000000 - 1.

Definition Nanosecond : Z := 1.
Definition Microsecond : Z := 1000 * Nanosecond.
Definition Millisecond : Z := 1000 * Microsecond.
Definition Second : Z := 1000 * Millisecond.
Definition Minute : Z := 60 * Second.
Definition Hour : Z := 60 * Minute.

(** Go's division and remainder truncate. *)
Definition div (d r : Z) : Z := if Z.rem d r >? 0 then i64 (Z.quot d r + 1) else Z.quot d r.

Definition EncodeDuration (t : Z) : list Z :=
  if t <=? 0 then str "0n" else
  if div t Nanosecond <=? maxTimeoutValue then FormatInt (div t Nanosecond) ++ str "n" else
  if div t Microsecond <=? maxTimeoutValue then FormatInt (div t Microsecond) ++ str "u" else
  if div t Millisecond <=? maxTimeoutValue then FormatInt (div t Millisecond) ++ str "m" else
  if div t Second <=? maxTimeoutValue then FormatInt (div t Second) ++ str "S" else
  if div t Minute <=? maxTimeoutValue then FormatInt (div t Minute) ++ str "M" else
  FormatInt (div t Hour) ++ str "H".

(** ** Decoding *)
Definition timeoutUnitToDuration (u : Z) : option Z :=
  if u =? 72 then Some Hour else
  if u =? 77 then Some Minute else
  if u =? 83 then Some Second else
  if u =? 109 then Some Millisecond else
  if u =? 117 then Some Microsecond else
  if u =? 110 then Some Nanosecond else None.

Inductive timeoutErr := TooShort | TooLong | BadUnit | BadNumber.

Definition maxHours : Z := MaxInt64 / Hour.

Definition decodeTimeout (s : list Z) : timeoutErr + Z :=
  let size := length s in
  if (size <? 2)%nat then inl TooShort else
  if (9 <? size)%nat then inl TooLong else
  match timeoutUnitToDuration (default 0 (last s)) with
  | None => inl BadUnit
  | Some d =>
      match ParseInt (take (size - 1) s) with
      | None => inl BadNumber
      | Some t => if (d =? Hour) && (t >? maxHours) then inr MaxInt64 else inr (i64 (d * t))
      end
  end.

Example encode_second : EncodeDuration 1500000001 = str "1500001u".
Proof. reflexivity. Qed.
Example decode_second : decodeTimeout (str "1500001u") = inr 1500001000.
Proof. reflexivity. Qed.

(** ** Numbers *)
Lemma digits_app fuel : forall n acc, digits fuel n acc = digits fuel n [] ++ acc.
Proof.
  induction fuel as [|fuel IH]; intros n acc; cbn [digits]; [done|]. case_if; [done|].
  rewrite IH, (IH _ [_]), <- app_assoc. done.
Qed.

Lemma parse_app a : forall n b, parseDigits (a ++ b) n = m ← parseDigits a n; parseDigits b m.
Proof. induction a as [|c a IH]; intros n b; cbn [parseDigits app]; [done|]. case_if; [apply IH|done]. Qed.

(** A number below [10 ^ k] is printed with at most [k] digits and read back. *)
Lemma digits_parse k : forall n, 0 <= n < 10 ^ Z.of_nat k -> (0 < k)%nat ->
  parseDigits (digits k n []) 0 = Some n /\ (length (digits k n []) <= k)%nat /\
  exists c l, digits k n [] = c :: l /\ 48 <= c <= 57.
Proof.
  induction k as [|k IH]; intros n Hn Hk; [lia|]. cbn [digits].
  assert (Hd : forall m, 0 <= m < 10 -> isDigit (48 + m) = true) by (intros; unfold isDigit; lia).
  assert (Hm : 0 <= n mod 10 < 10) by (apply Z.mod_pos_bound; lia).
  destruct (Z.ltb_spec n 10) as [Hlt|Hge].
  { cbn [parseDigits length]. rewrite Z.mod_small, Hd by lia.
    split_and!; [f_equal; lia|lia|]. eexists _, _. split; [done|lia]. }
  rewrite Nat2Z.inj_succ, Z.pow_succ_r in Hn by lia.
  destruct (IH (n / 10)) as (Hp & Hl & c & l & Hc & Hr).
  { split; [apply Z.div_pos; lia|]. apply Z.div_lt_upper_bound; lia. }
  { destruct k; [cbn in Hn; lia|lia]. }
  rewrite digits_app, parse_app, Hp. cbn [mbind option_bind parseDigits]. rewrite Hd by lia. split_and!.
  - f_equal. pose proof (Z.div_mod n 10). lia.
  - rewrite length_app. cbn. lia.
  - exists c, (l ++ [48 + n mod 10]). rewrite Hc. done.
Qed.

(** More fuel does not change the digits. *)
Lemma digits_fuel k : forall n acc, 0 <= n < 10 ^ Z.of_nat k -> (0 < k)%nat ->
  forall k', (k <= k')%nat -> digits k' n acc = digits k n acc.
Proof.
  induction k as [|k IH]; intros n acc Hn Hk k' Hle; [lia|]. destruct k' as [|k']; [lia|]. cbn [digits].
  destruct (Z.ltb_spec n 10) as [Hlt|Hge]; [done|].
  rewrite Nat2Z.inj_succ, Z.pow_succ_r in Hn by lia.
  apply IH; [|destruct k; [cbn in Hn; lia|lia]|lia].
  split; [apply Z.div_pos; lia|]. apply Z.div_lt_upper_bound; lia.
Qed.

Lemma FormatInt_parse n : 0 <= n <= maxTimeoutValue ->
  ParseInt (FormatInt n) = Some n /\ (0 < length (FormatInt n) <= 8)%nat.
Proof.
  intros Hn. unfold FormatInt, maxTimeoutValue in *.
  rewrite (digits_fuel 8) by (cbn; lia). destruct (digits_parse 8 n) as (Hp & Hl & c & l & Hc & Hr); [cbn; lia|lia|].
  rewrite Hc in *. split; [|cbn [length] in *; lia]. unfold ParseInt.
  rewrite (proj2 (Z.eqb_neq c 43)), (proj2 (Z.eqb_neq c 45)) by lia.
  rewrite bool_decide_false, Hp by done. cbn [mbind option_bind negb andb].
  destruct (Z.geb_spec n (2 ^ 63)); [lia|done].
Qed.

(** ** What is printed and read *)
Lemma decode_printed n u d :
  0 <= n <= maxTimeoutValue -> timeoutUnitToDuration u = Some d ->
  decodeTimeout (FormatInt n ++ [u]) =
    if (d =? Hour) && (n >? maxHours) then inr MaxInt64 else inr (i64 (d * n)).
Proof.
  intros Hn Hu. destruct (FormatInt_parse n Hn) as [Hp Hl]. unfold decodeTimeout.
  rewrite length_app. cbn [length].
  destruct (Nat.ltb_spec (length (FormatInt n) + 1) 2) as [?|_]; [lia|].
  destruct (Nat.ltb_spec 9 (length (FormatInt n) + 1)) as [?|_]; [lia|].
  rewrite last_snoc. cbn [default]. unfold id. rewrite Hu.
  replace (length (FormatInt n) + 1 - 1)%nat with (length (FormatInt n)) by lia.
  by rewrite take_app_length, Hp.
Qed.

(** Rounding up. *)
Lemma div_up t r : 0 < t <= MaxInt64 -> 0 < r -> t <= div t r * r < t + r /\ 0 < div t r.
Proof.
  intros Ht Hr. unfold div. pose proof (Z.quot_rem' t r). pose proof (Z.rem_bound_pos t r).
  rewrite Z.quot_div_nonneg, Z.rem_mod_nonneg in * by lia. unfold MaxInt64 in *.
  assert (0 <= t / r <= t) by (split; [apply Z.div_pos; lia|apply Z.div_le_upper_bound; nia]).
  destruct (Z.gtb_spec (t mod r) 0).
  - rewrite i64_small; [nia|]. split; [lia|]. destruct (Z.eq_dec r 1) as [->|?]; [rewrite Z.mod_1_r in *; lia|].
    assert (t / r <= t / 2) by (apply Z.div_le_compat_l; lia). assert (t / 2 < 2 ^ 62) by (apply Z.div_lt_upper_bound; lia). lia.
  - assert (t mod r = 0) by lia. split; nia.
Qed.

(** A unit below hours: the result is the duration rounded up to it. *)
Lemma unit_ok t r u :
  0 < t <= MaxInt64 -> timeoutUnitToDuration u = Some r -> 0 < r <= Minute -> div t r <= maxTimeoutValue ->
  decodeTimeout (FormatInt (div t r) ++ [u]) = inr (div t r * r).
Proof.
  intros Ht Hu Hr Hd. destruct (div_up t r Ht) as [Hb Hpos]; [lia|].
  rewrite (decode_printed _ u r) by (done || lia). rewrite (proj2 (Z.eqb_neq r Hour)) by (unfold Hour; lia). cbn [andb].
  rewrite Z.mul_comm, i64_small; [done|]. unfold maxTimeoutValue, Hour, Minute, Second, Millisecond, Microsecond, Nanosecond, MaxInt64 in *.
  nia.
Qed.

(** Rounding up to a unit loses little when a smaller unit was too small. *)
Lemma rounding t q r :
  0 < t <= MaxInt64 -> 0 < q -> 0 < r <= 1000 * q -> maxTimeoutValue < div t q ->
  t <= div t r * r /\ (div t r * r - t) * 99999 <= t.
Proof.
  intros Ht Hq Hr Hd. destruct (div_up t r Ht) as [Hb _]; [lia|]. destruct (div_up t q Ht Hq) as [Hb' _].
  unfold maxTimeoutValue in *. nia.
Qed.

(** Hours, of which an int64 has few enough to print them all. *)
Lemma hours_ok t :
  0 < t <= MaxInt64 -> maxTimeoutValue < div t Minute ->
  exists d, decodeTimeout (FormatInt (div t Hour) ++ [72]) = inr d /\ d <= MaxInt64 /\
    t <= d /\ (d - t) * 99999 <= t.
Proof.
  intros Ht Hd. destruct (rounding t Minute Hour Ht) as [Hle Herr]; [done|done|done|].
  destruct (div_up t Hour Ht) as [Hb Hpos]; [done|].
  assert (Hh : div t Hour <= 2562048) by (unfold Hour, Minute, Second, Millisecond, Microsecond, Nanosecond, MaxInt64 in *; lia).
  rewrite (decode_printed _ 72 Hour) by (done || (unfold maxTimeoutValue; lia)). cbn [andb].
  rewrite Z.eqb_refl. cbn [andb]. change maxHours with 2562047. destruct (Z.gtb_spec (div t Hour) 2562047) as [Hgt|Hle'].
  - exists MaxInt64. split; [done|]. split; [done|]. split; [lia|].
    unfold Hour, Minute, Second, Millisecond, Microsecond, Nanosecond, MaxInt64, maxTimeoutValue in *. lia.
  - exists (div t Hour * Hour).
    assert (div t Hour * Hour <= MaxInt64)
      by (unfold Hour, Minute, Second, Millisecond, Microsecond, Nanosecond, MaxInt64 in *; lia).
    rewrite Z.mul_comm, i64_small; [done|]. unfold MaxInt64 in *. lia.
Qed.

Lemma timeout_decoded t :
  t <= MaxInt64 ->
  exists d, decodeTimeout (EncodeDuration t) = inr d /\ d <= MaxInt64 /\
    (t <= 0 -> d = 0) /\ (0 < t <= maxTimeoutValue -> d = t) /\
    (0 < t -> t <= d /\ (d - t) * 99999 <= t).
Proof.
  intros Ht. unfold EncodeDuration. destruct (Z.leb_spec t 0) as [Hneg|Hpos].
  { exists 0. split; [reflexivity|]. unfold MaxInt64. lia. }
  assert (Hp : 0 < t <= MaxInt64) by lia.
  assert (Hns : div t Nanosecond = t) by (destruct (div_up t Nanosecond Hp); unfold Nanosecond in *; lia).
  rewrite Hns. destruct (Z.leb_spec t maxTimeoutValue) as [H1|H1].
  { exists t. pose proof (unit_ok t Nanosecond 110 Hp eq_refl) as E. rewrite Hns in E.
    change (str "n") with [110]. rewrite E; [|done|lia]. unfold Nanosecond. split; [f_equal; lia|lia]. }
  rewrite <- Hns in H1.
  assert (Hmid : forall q r u, 0 < q -> 0 < r <= 1000 * q -> r <= Minute -> maxTimeoutValue < div t q ->
    timeoutUnitToDuration u = Some r -> div t r <= maxTimeoutValue ->
    exists d, decodeTimeout (FormatInt (div t r) ++ [u]) = inr d /\ d <= MaxInt64 /\
    (t <= 0 -> d = 0) /\ (0 < t <= maxTimeoutValue -> d = t) /\ (0 < t -> t <= d /\ (d - t) * 99999 <= t)).
  { intros q r u Hq Hr Hrm Hgt Hu Hle. destruct (rounding t q r Hp Hq Hr Hgt). exists (div t r * r).
    rewrite unit_ok by (done || lia). split; [done|]. rewrite Hns in H1.
    split; [unfold maxTimeoutValue, MaxInt64, Minute, Second, Millisecond, Microsecond, Nanosecond in *; nia|].
    split; [lia|]. split; [lia|]. done. }
  destruct (Z.leb_spec (div t Microsecond) maxTimeoutValue) as [H2|H2]; [by apply (Hmid Nanosecond)|].
  destruct (Z.leb_spec (div t Millisecond) maxTimeoutValue) as [H3|H3]; [by apply (Hmid Microsecond)|].
  destruct (Z.leb_spec (div t Second) maxTimeoutValue) as [H4|H4]; [by apply (Hmid Millisecond)|].
  destruct (Z.leb_spec (div t Minute) maxTimeoutValue) as [H5|H5]; [by apply (Hmid Second)|].
  destruct (hours_ok t Hp H5) as (d & ? & ? & ? & ?). exists d. rewrite Hns in H1. split; [done|]. lia.
Qed.

(** C37.  A timeout survives the header: what [decodeTimeout] reads from
    [EncodeDuration t] is never shorter than [t], and longer by at most a
    99999th of it; a timeout of at most 99999999 ns is read back exactly, and
    one that is not positive as zero. *)
Theorem timeout_roundtrip t :
  t <= MaxInt64 ->
  exists d, decodeTimeout (EncodeDuration t) = inr d /\ d <= MaxInt64 /\
    (t <= 0 -> d = 0) /\ (0 < t <= maxTimeoutValue -> d = t) /\
    (0 < t -> t <= d /\ (d - t) * 99999 <= t).
Proof. apply timeout_decoded. Qed.

Lemma timeout_roundtrip_witness : exists d, decodeTimeout (EncodeDuration MaxInt64) = inr d /\ MaxInt64 <= d.
Proof. destruct (timeout_roundtrip MaxInt64) as (d & H & _ & _ & _ & Hd); [done|]. exists d. split; [exact H|]. by apply Hd. Defined.
