(* ===== verification/Metadata.v ===== *)
(** * Text in headers: h2/http_util.go

    The percent-encoding of status messages and the base64 encoding of binary
    metadata.  Of package unicode/utf8, [DecodeRuneInString] and the conversion
    of a rune to a string are modelled with the package's table of first bytes;
    of strconv, [ParseUint] of two characters in base 16; of encoding/base64,
    the standard alphabet with and without padding. *)
From S2P Require Import Prelude Bits.

(** ** unicode/utf8 *)
Definition RuneError : Z := 0xFFFD.

(** The size of the sequence a byte starts and the range of the byte after it. *)
Definition first (p0 : Z) : option (nat * Z * Z) :=
  if p0 <? 0xC2 then None else
  if p0 <? 0xE0 then Some (2%nat, 0x80, 0xBF) else
  if p0 =? 0xE0 then Some (3%nat, 0xA0, 0xBF) else
  if p0 =? 0xED then Some (3%nat, 0x80, 0x9F) else
  if p0 <? 0xF0 then Some (3%nat, 0x80, 0xBF) else
  if p0 =? 0xF0 then Some (4%nat, 0x90, 0xBF) else
  if p0 <? 0xF4 then Some (4%nat, 0x80, 0xBF) else
  if p0 =? 0xF4 then Some (4%nat, 0x80, 0x8F) else None.

Definition within (lo hi b : Z) : bool := (lo <=? b) && (b <=? hi).

(** The rune and its size; an invalid sequence is [RuneError] of size 1. *)
Definition DecodeRune (s : list Z) : Z * nat :=
  match s with
  | [] => (RuneError, 0%nat)
  | p0 :: s =>
      if p0 <? 0x80 then (p0, 1%nat) else
      match first p0, s with
      | Some (2%nat, lo, hi), b1 :: _ =>
          if within lo hi b1
          then (Z.lor (Z.shiftl (Z.land p0 0x1F) 6) (Z.land b1 0x3F), 2%nat) else (RuneError, 1%nat)
      | Some (3%nat, lo, hi), b1 :: b2 :: _ =>
          if within lo hi b1 && within 0x80 0xBF b2
          then (Z.lor (Z.shiftl (Z.land p0 0x0F) 12)
                  (Z.lor (Z.shiftl (Z.land b1 0x3F) 6) (Z.land b2 0x3F)), 3%nat) else (RuneError, 1%nat)
      | Some (4%nat, lo, hi), b1 :: b2 :: b3 :: _ =>
          if within lo hi b1 && within 0x80 0xBF b2 && within 0x80 0xBF b3
          then (Z.lor (Z.shiftl (Z.land p0 0x07) 18)
                  (Z.lor (Z.shiftl (Z.land b1 0x3F) 12)
                     (Z.lor (Z.shiftl (Z.land b2 0x3F) 6) (Z.land b3 0x3F))), 4%nat) else (RuneError, 1%nat)
      | _, _ => (RuneError, 1%nat)
      end
  end.

(** [[]byte(string(r))] *)
Definition EncodeRune (r : Z) : list Z :=
  let low k := Z.lor 0x80 (Z.land (Z.shiftr r k) 0x3F) in
  if (0 <=? r) && (r <? 0x80) then [r] else
  if (0 <=? r) && (r <? 0x800) then [Z.lor 0xC0 (Z.shiftr r 6); low 0] else
  if (r <? 0) || (0x10FFFF <? r) || within 0xD800 0xDFFF r then [0xEF; 0xBF; 0xBD] else
  if r <? 0x10000 then [Z.lor 0xE0 (Z.shiftr r 12); low 6; low 0] else
  [Z.lor 0xF0 (Z.shiftr r 18); low 12; low 6; low 0].

(** ** Status messages *)
Definition spaceByte : Z := 32.
Definition tildeByte : Z := 126.
Definition percentByte : Z := 37.

Definition plain (c : Z) : bool := within spaceByte tildeByte c && negb (c =? percentByte).

Definition hexDigit (n : Z) : Z := if n <? 10 then 48 + n else 55 + n.
(** [Sprintf("%%%02X", b)] *)
Definition percent (b : Z) : list Z := [percentByte; hexDigit (b / 16); hexDigit (b mod 16)].

(** The loop of [encodeGrpcMessageUnchecked]; a rune takes a byte at least, so
    the length of the message is enough fuel. *)
Fixpoint encodeLoop (fuel : nat) (msg : list Z) : list Z :=
  match fuel, msg with
  | S fuel, _ :: _ =>
      let '(r, size) := DecodeRune msg in
      (EncodeRune r ≫= fun b =>
         if (1 <? size)%nat then percent b else if plain b then [b] else percent b)
      ++ encodeLoop fuel (drop size msg)
  | _, _ => []
  end.
Definition encodeGrpcMessageUnchecked (msg : list Z) : list Z := encodeLoop (length msg) msg.

Definition encodeGrpcMessage (msg : list Z) : list Z :=
  if forallb plain msg then msg else encodeGrpcMessageUnchecked msg.

Definition hexValue (c : Z) : option Z :=
  if within 48 57 c then Some (c - 48) else
  if within 97 102 c then Some (c - 87) else
  if within 65 70 c then Some (c - 55) else None.
(** [ParseUint(s, 16, 8)] of two characters. *)
Definition ParseHex (h l : Z) : option Z := h ← hexValue h; l ← hexValue l; Some (16 * h + l).

Fixpoint decodeGrpcMessageUnchecked (msg : list Z) : list Z :=
  match msg with
  | [] => []
  | c :: rest =>
      match rest with
      | h :: l :: rest' =>
          if c =? percentByte then
            match ParseHex h l with
            | Some b => b :: decodeGrpcMessageUnchecked rest'
            | None => c :: decodeGrpcMessageUnchecked rest
            end
          else c :: decodeGrpcMessageUnchecked rest
      | _ => c :: decodeGrpcMessageUnchecked rest
      end
  end.

(** Is there a percent sign with two characters after it? *)
Fixpoint escaped (msg : list Z) : bool :=
  match msg with
  | c :: rest => ((c =? percentByte) && (1 <? length rest)%nat) || escaped rest
  | [] => false
  end.

Definition decodeGrpcMessage (msg : list Z) : list Z :=
  if escaped msg then decodeGrpcMessageUnchecked msg else msg.

Example encode_euro : encodeGrpcMessage ([0xE2; 0x82; 0xAC; 32; 37; 255] ++ str "a")
  = str "%E2%82%AC %25%EF%BF%BDa".
Proof. reflexivity. Qed.
Example decode_bad : decodeGrpcMessage (str "%zz%4") = str "%zz%4".
Proof. reflexivity. Qed.

(** What the encoding keeps of a message: its runes, with every byte that is
    not part of one replaced by the replacement character. *)
Fixpoint valid_utf8 (fuel : nat) (msg : list Z) : list Z :=
  match fuel, msg with
  | S fuel, c :: rest =>
      match DecodeRune msg with
      | (_, S (S n)) => take (S (S n)) msg ++ valid_utf8 fuel (drop (S (S n)) msg)
      | _ => (if c <? 0x80 then [c] else [0xEF; 0xBF; 0xBD]) ++ valid_utf8 fuel rest
      end
  | _, _ => []
  end.
Definition sanitize (msg : list Z) : list Z := valid_utf8 (length msg) msg.

(** ** Runes *)
Lemma land_mod a k m : 0 <= k -> m = Z.ones k -> Z.land a m = a mod 2 ^ k.
Proof. intros Hk ->. by apply Z.land_ones. Qed.

Lemma within_spec lo hi b : within lo hi b = true <-> lo <= b <= hi.
Proof. unfold within. rewrite andb_true_iff, !Z.leb_le. done. Qed.

(** The bytes of a sequence, from their payloads. *)
Lemma low_byte r k b : 0 <= k -> (r / 2 ^ k) mod 64 = b -> 0 <= b < 64 -> Z.lor 0x80 (Z.land (Z.shiftr r k) 0x3F) = 0x80 + b.
Proof.
  intros Hk Hb Hr. rewrite Z.shiftr_div_pow2, (land_mod _ 6) by done. change (2 ^ 6) with 64. rewrite Hb.
  change 0x80 with (Z.shiftl 2 6) at 1. by rewrite add_lor.
Qed.

Lemma EncodeRune_2 a b : 2 <= a < 32 -> 0 <= b < 64 -> EncodeRune (a * 64 + b) = [0xC0 + a; 0x80 + b].
Proof.
  intros Ha Hb. set (r := a * 64 + b). unfold EncodeRune.
  assert (r / 64 = a /\ r mod 64 = b) as [E1 E2] by (unfold r; Z.to_euclidean_division_equations; lia).
  destruct (Z.leb_spec 0 r); [|lia]. destruct (Z.ltb_spec r 0x80); [lia|]. destruct (Z.ltb_spec r 0x800); [|lia]. cbn [andb].
  rewrite (low_byte r 0 b) by (rewrite ?Z.div_1_r; done || lia).
  rewrite Z.shiftr_div_pow2 by done. change (2 ^ 6) with 64. rewrite E1.
  change 0xC0 with (Z.shiftl 6 5) at 1. by rewrite add_lor by lia.
Qed.

Lemma EncodeRune_3 a b c :
  0 <= a < 16 -> 0 <= b < 64 -> 0 <= c < 64 -> (a = 0 -> 32 <= b) -> (a = 13 -> b < 32) ->
  EncodeRune (a * 4096 + b * 64 + c) = [0xE0 + a; 0x80 + b; 0x80 + c].
Proof.
  intros Ha Hb Hc H0 H13. set (r := a * 4096 + b * 64 + c). unfold EncodeRune.
  assert (r / 4096 = a /\ (r / 64) mod 64 = b /\ r mod 64 = c) as (E1 & E2 & E3)
    by (unfold r; Z.to_euclidean_division_equations; lia).
  destruct (Z.leb_spec 0 r); [|lia]. destruct (Z.ltb_spec r 0x80); [lia|]. destruct (Z.ltb_spec r 0x800); [lia|]. cbn [andb].
  destruct (Z.ltb_spec r 0); [lia|]. destruct (Z.ltb_spec 0x10FFFF r); [lia|]. cbn [orb].
  destruct (within 0xD800 0xDFFF r) eqn:Hs; [apply within_spec in Hs; lia|].
  destruct (Z.ltb_spec r 0x10000); [|lia].
  rewrite (low_byte r 0 c), (low_byte r 6 b) by (rewrite ?Z.div_1_r; done || lia).
  rewrite Z.shiftr_div_pow2 by done. change (2 ^ 12) with 4096. rewrite E1.
  change 0xE0 with (Z.shiftl 14 4) at 1. by rewrite add_lor by lia.
Qed.

Lemma EncodeRune_4 a b c d :
  0 <= a <= 4 -> 0 <= b < 64 -> 0 <= c < 64 -> 0 <= d < 64 -> (a = 0 -> 16 <= b) -> (a = 4 -> b < 16) ->
  EncodeRune (a * 262144 + b * 4096 + c * 64 + d) = [0xF0 + a; 0x80 + b; 0x80 + c; 0x80 + d].
Proof.
  intros Ha Hb Hc Hd H0 H4. set (r := a * 262144 + b * 4096 + c * 64 + d). unfold EncodeRune.
  assert (r / 262144 = a /\ (r / 4096) mod 64 = b /\ (r / 64) mod 64 = c /\ r mod 64 = d) as (E1 & E2 & E3 & E4)
    by (unfold r; Z.to_euclidean_division_equations; lia).
  destruct (Z.leb_spec 0 r); [|lia]. destruct (Z.ltb_spec r 0x80); [lia|]. destruct (Z.ltb_spec r 0x800); [lia|]. cbn [andb].
  destruct (Z.ltb_spec r 0); [lia|]. destruct (Z.ltb_spec 0x10FFFF r); [lia|]. cbn [orb].
  destruct (within 0xD800 0xDFFF r) eqn:Hs; [apply within_spec in Hs; lia|].
  destruct (Z.ltb_spec r 0x10000); [lia|].
  rewrite (low_byte r 0 d), (low_byte r 6 c), (low_byte r 12 b) by (rewrite ?Z.div_1_r; done || lia).
  rewrite Z.shiftr_div_pow2 by done. change (2 ^ 18) with 262144. rewrite E1.
  change 0xF0 with (Z.shiftl 30 3) at 1. by rewrite add_lor by lia.
Qed.

(** The payload of a byte after the first. *)
Lemma payload b : 0x80 <= b <= 0xBF -> Z.land b 0x3F = b - 0x80.
Proof. intros. rewrite (land_mod _ 6) by done. change (2 ^ 6) with 64. Z.to_euclidean_division_equations; lia. Qed.

Lemma first_spec p0 n lo hi :
  first p0 = Some (n, lo, hi) -> 0x80 <= lo /\ hi <= 0xBF /\
  ((n = 2%nat /\ 0xC2 <= p0 <= 0xDF) \/
   (n = 3%nat /\ 0xE0 <= p0 <= 0xEF /\ (p0 = 0xE0 -> lo = 0xA0) /\ (p0 = 0xED -> hi = 0x9F)) \/
   (n = 4%nat /\ 0xF0 <= p0 <= 0xF4 /\ (p0 = 0xF0 -> lo = 0x90) /\ (p0 = 0xF4 -> hi = 0x8F))).
Proof. unfold first. repeat (case_if; [try done; intros [= <- <- <-]; lia|]). done. Qed.

Lemma DecodeRune_spec p0 s r n :
  is_u8 p0 -> DecodeRune (p0 :: s) = (r, n) ->
  (n = 1%nat /\ EncodeRune r = if p0 <? 0x80 then [p0] else [0xEF; 0xBF; 0xBD]) \/
  ((1 < n <= length (p0 :: s))%nat /\ EncodeRune r = take n (p0 :: s)).
Proof.
  intros Hp0. cbn [DecodeRune]. destruct (Z.ltb_spec p0 0x80) as [Hlt|Hge].
  { intros [= <- <-]. left. split; [done|]. unfold EncodeRune, is_u8 in *.
    destruct (Z.leb_spec 0 p0); [|lia]. by destruct (Z.ltb_spec p0 0x80); [|lia]. }
  assert (Herr : (RuneError, 1%nat) = (r, n) -> n = 1%nat /\ EncodeRune r = [0xEF; 0xBF; 0xBD]) by (by intros [= <- <-]).
  destruct (first p0) as [[[k lo] hi]|] eqn:Ef; [|by intros H%Herr; left].
  apply first_spec in Ef as (Hlo & Hhi & [[-> Hr]|[(-> & Hr & H0 & HD)|(-> & Hr & H0 & H4)]]).
  - destruct s as [|b1 s]; [by intros H%Herr; left|].
    destruct (within lo hi b1) eqn:W1; [|by intros H%Herr; left]. apply within_spec in W1.
    intros [= <- <-]. right. split; [cbn; lia|]. rewrite (payload b1), (land_mod p0 5) by (done || lia).
    replace (p0 mod 2 ^ 5) with (p0 - 0xC0) by (change (2 ^ 5) with 32; Z.to_euclidean_division_equations; lia).
    rewrite add_lor by lia. change (2 ^ 6) with 64. rewrite EncodeRune_2 by lia. cbn. f_equal; [lia|f_equal; lia].
  - destruct s as [|b1 [|b2 s]]; [by intros H%Herr; left..|].
    destruct (within lo hi b1) eqn:W1; [|by intros H%Herr; left].
    destruct (within 0x80 0xBF b2) eqn:W2; [|by intros H%Herr; left]. apply within_spec in W1, W2.
    intros [= <- <-]. right. split; [cbn; lia|]. rewrite (payload b1), (payload b2), (land_mod p0 4) by (done || lia).
    replace (p0 mod 2 ^ 4) with (p0 - 0xE0) by (change (2 ^ 4) with 16; Z.to_euclidean_division_equations; lia).
    rewrite (add_lor (b1 - _)), add_lor by lia. change (2 ^ 6) with 64. change (2 ^ 12) with 4096.
    rewrite Z.add_assoc, EncodeRune_3 by lia. cbn. repeat (f_equal; [lia|]). f_equal. lia.
  - destruct s as [|b1 [|b2 [|b3 s]]]; [by intros H%Herr; left..|].
    destruct (within lo hi b1) eqn:W1; [|by intros H%Herr; left].
    destruct (within 0x80 0xBF b2) eqn:W2; [|by intros H%Herr; left].
    destruct (within 0x80 0xBF b3) eqn:W3; [|by intros H%Herr; left]. apply within_spec in W1, W2, W3.
    intros [= <- <-]. right. split; [cbn; lia|].
    rewrite (payload b1), (payload b2), (payload b3), (land_mod p0 3) by (done || lia).
    replace (p0 mod 2 ^ 3) with (p0 - 0xF0) by (change (2 ^ 3) with 8; Z.to_euclidean_division_equations; lia).
    rewrite (add_lor (b2 - _)), (add_lor (b1 - _)), add_lor by lia.
    change (2 ^ 6) with 64. change (2 ^ 12) with 4096. change (2 ^ 18) with 262144.
    rewrite !Z.add_assoc, EncodeRune_4 by lia. cbn. repeat (f_equal; [lia|]). f_equal. lia.
Qed.

(** ** Percent signs *)
Lemma hex_roundtrip b : is_u8 b -> ParseHex (hexDigit (b / 16)) (hexDigit (b mod 16)) = Some b.
Proof.
  intros Hb.
  set (p b := match ParseHex (hexDigit (b / 16)) (hexDigit (b mod 16)) with Some c => c =? b | None => false end).
  assert (H : p b = true) by (by apply (forall_bytes_spec p); [vm_compute|]). unfold p in H.
  destruct (ParseHex _ _); [|done]. apply Z.eqb_eq in H. by subst.
Qed.

Lemma decode_percent b rest : is_u8 b ->
  decodeGrpcMessageUnchecked (percent b ++ rest) = b :: decodeGrpcMessageUnchecked rest.
Proof.
  intros Hb. cbn [percent app decodeGrpcMessageUnchecked]. rewrite Z.eqb_refl. by rewrite hex_roundtrip.
Qed.

Lemma decode_plain c rest : plain c = true ->
  decodeGrpcMessageUnchecked (c :: rest) = c :: decodeGrpcMessageUnchecked rest.
Proof.
  unfold plain. intros [_ Hc%negb_true_iff]%andb_true_iff. cbn [decodeGrpcMessageUnchecked].
  destruct rest as [|h [|l rest]]; [done|done|]. by rewrite Hc.
Qed.

(** What the loop writes for one byte is read back as that byte. *)
Definition escape (many : bool) (b : Z) : list Z := if many then percent b else if plain b then [b] else percent b.

Lemma decode_escape many bs rest : bytes_ok bs ->
  decodeGrpcMessageUnchecked ((bs ≫= escape many) ++ rest) = bs ++ decodeGrpcMessageUnchecked rest.
Proof.
  induction 1 as [|b bs Hb Hbs IH]; [done|]. cbn [mbind list_bind app]. rewrite <- app_assoc. unfold escape at 1.
  destruct many; [by rewrite decode_percent, IH|]. destruct (plain b) eqn:Ep; [|by rewrite decode_percent, IH].
  cbn [app]. by rewrite decode_plain, IH.
Qed.

(** Only printable ASCII is written. *)
Lemma escape_printable many bs : bytes_ok bs -> Forall (fun c => spaceByte <= c <= tildeByte) (bs ≫= escape many).
Proof.
  assert (Hp : forall b, is_u8 b -> Forall (fun c => spaceByte <= c <= tildeByte) (percent b)).
  { intros b Hb. set (p b := forallb (within spaceByte tildeByte) (percent b)).
    assert (H : p b = true) by (by apply (forall_bytes_spec p); [vm_compute|]). apply Forall_forall.
    intros c Hc%list_elem_of_In. unfold p in H. rewrite forallb_forall in H. by apply within_spec, H. }
  induction 1 as [|b bs Hb Hbs IH]; [constructor|]. cbn [mbind list_bind]. apply Forall_app. split; [|done].
  unfold escape. destruct many; [by apply Hp|]. destruct (plain b) eqn:Ep; [|by apply Hp].
  unfold plain in Ep. apply andb_true_iff in Ep as [Ep%within_spec _]. by apply Forall_singleton.
Qed.

Lemma EncodeRune_bytes p0 s r n : bytes_ok (p0 :: s) -> DecodeRune (p0 :: s) = (r, n) -> bytes_ok (EncodeRune r).
Proof.
  intros Hok Hd. inversion Hok as [|? ? Hp0 Hs]; subst.
  destruct (DecodeRune_spec p0 s r n Hp0 Hd) as [[_ ->]|[_ ->]]; [|by apply Forall_take].
  case_if; [by apply Forall_singleton|]. by repeat constructor.
Qed.

(** The loop: it writes printable characters, and they are read back as the
    message with its invalid bytes replaced. *)
Lemma encodeLoop_ok fuel : forall msg, bytes_ok msg -> (length msg <= fuel)%nat ->
  decodeGrpcMessageUnchecked (encodeLoop fuel msg) = valid_utf8 fuel msg /\
  Forall (fun c => spaceByte <= c <= tildeByte) (encodeLoop fuel msg).
Proof.
  induction fuel as [|fuel IH]; intros [|c msg] Hok Hf; try by split.
  cbn [encodeLoop valid_utf8]. destruct (DecodeRune (c :: msg)) as [r n] eqn:Ed.
  pose proof (EncodeRune_bytes c msg r n Hok Ed) as Hr. inversion Hok as [|? ? Hc Hmsg]; subst.
  change (fun b => if (1 <? n)%nat then percent b else if plain b then [b] else percent b) with (escape (1 <? n)%nat).
  rewrite decode_escape by done. cbn [length] in Hf.
  destruct (DecodeRune_spec c msg r n Hc Ed) as [[-> He]|[Hn He]].
  - cbn [drop]. rewrite drop_0. destruct (IH msg Hmsg) as [-> Hpr]; [lia|]. rewrite He. split; [done|].
    apply Forall_app. split; [|done]. apply escape_printable. by rewrite <- He.
  - destruct (IH (drop n (c :: msg))) as [Hdec Hpr].
    { by apply Forall_drop. }
    { rewrite length_drop. cbn [length]. lia. }
    rewrite Hdec, He. destruct n as [|[|n]]; [lia|lia|]. split; [done|].
    apply Forall_app. split; [|done]. apply escape_printable. by rewrite <- He.
Qed.

(** A message of plain characters is its own encoding, so the check before the
    loop only saves work. *)
Lemma encodeLoop_plain fuel : forall msg, forallb plain msg = true -> (length msg <= fuel)%nat ->
  encodeLoop fuel msg = msg.
Proof.
  induction fuel as [|fuel IH]; intros [|c msg] Hp Hf; cbn [length] in Hf; try done; [lia|].
  cbn [forallb] in Hp. apply andb_true_iff in Hp as [Hc Hp]. cbn [encodeLoop].
  pose proof Hc as Hc'. unfold plain in Hc'. apply andb_true_iff in Hc' as [Hr%within_spec _].
  unfold spaceByte, tildeByte in Hr.
  assert (DecodeRune (c :: msg) = (c, 1%nat)) as ->.
  { cbn [DecodeRune]. by destruct (Z.ltb_spec c 0x80); [|lia]. }
  assert (EncodeRune c = [c]) as ->.
  { unfold EncodeRune. destruct (Z.leb_spec 0 c); [|lia]. by destruct (Z.ltb_spec c 0x80); [|lia]. }
  cbn [mbind list_bind Nat.ltb Nat.leb drop]. rewrite Hc, app_nil_r. cbn [app]. rewrite drop_0, IH; [done|done|lia].
Qed.

Lemma encode_unchecked msg : encodeGrpcMessage msg = encodeGrpcMessageUnchecked msg.
Proof. unfold encodeGrpcMessage. case_if; [|done]. symmetry. by apply encodeLoop_plain. Qed.

Lemma decode_unchecked msg : decodeGrpcMessage msg = decodeGrpcMessageUnchecked msg.
Proof.
  unfold decodeGrpcMessage. destruct (escaped msg) eqn:E; [done|].
  induction msg as [|c msg IH]; [done|]. cbn [escaped] in E. apply orb_false_iff in E as [Ec E].
  specialize (IH E). cbn [decodeGrpcMessageUnchecked].
  destruct msg as [|h [|l msg]]; [done|by rewrite <- IH|]. rewrite andb_true_r in Ec. by rewrite Ec, <- IH.
Qed.

(** A status message survives the header: the encoding is printable ASCII,
    and decoding it gives the message back with the bytes that are not valid
    UTF-8 replaced by the replacement character. *)
Theorem grpcMessage_roundtrip msg :
  bytes_ok msg ->
  Forall (fun c => spaceByte <= c <= tildeByte) (encodeGrpcMessage msg) /\
  decodeGrpcMessage (encodeGrpcMessage msg) = sanitize msg.
Proof.
  intros Hok. rewrite encode_unchecked, decode_unchecked. unfold encodeGrpcMessageUnchecked, sanitize.
  by destruct (encodeLoop_ok (length msg) msg Hok) as [-> Hp].
Qed.

Lemma grpcMessage_roundtrip_witness :
  decodeGrpcMessage (encodeGrpcMessage ([0xE2; 0x82; 0xAC; 255] ++ str "50%")) = [0xE2; 0x82; 0xAC; 0xEF; 0xBF; 0xBD] ++ str "50%".
Proof.
  refine (proj2 (grpcMessage_roundtrip ([0xE2; 0x82; 0xAC; 255] ++ str "50%") _)). by repeat constructor.
Defined.

(** ** encoding/base64 *)
Definition alphabet : list Z := str "ABCDEFGHIJKLMNOPQRSTUVWXYZabcdefghijklmnopqrstuvwxyz0123456789+/".
Definition b64char (n : Z) : Z := default 0 (alphabet !! Z.to_nat n).
Definition b64val (c : Z) : option Z := Z.of_nat <$> (fst <$> list_find (c =.) alphabet).

(** The four characters of a group of three bytes. *)
Definition b64chars (a b c : Z) : list Z :=
  let v := Z.lor (Z.shiftl a 16) (Z.lor (Z.shiftl b 8) c) in
  (fun k => b64char (Z.land (Z.shiftr v k) 0x3F)) <$> [18; 12; 6; 0].

(** [RawStdEncoding.EncodeToString] *)
Fixpoint EncodeRaw (l : list Z) : list Z :=
  match l with
  | a :: b :: c :: l => b64chars a b c ++ EncodeRaw l
  | [a; b] => take 3 (b64chars a b 0)
  | [a] => take 2 (b64chars a 0 0)
  | [] => []
  end.

Definition b64bytes (w x y z : Z) : list Z :=
  let v := Z.lor (Z.shiftl w 18) (Z.lor (Z.shiftl x 12) (Z.lor (Z.shiftl y 6) z)) in
  (fun k => u8 (Z.shiftr v k)) <$> [16; 8; 0].

Definition padChar : Z := 61.

(** Decoding without newlines, which are skipped wherever they are; with
    [padded], the last group is filled up with padding characters. *)
Fixpoint decodeGroups (padded : bool) (l : list Z) : option (list Z) :=
  match l with
  | [] => Some []
  | c0 :: c1 :: c2 :: c3 :: rest =>
      w ← b64val c0; x ← b64val c1;
      if padded && (c2 =? padChar) then
        if (c3 =? padChar) && bool_decide (rest = []) then Some (take 1 (b64bytes w x 0 0)) else None
      else
        y ← b64val c2;
        if padded && (c3 =? padChar) then
          if bool_decide (rest = []) then Some (take 2 (b64bytes w x y 0)) else None
        else
          z ← b64val c3; bs ← decodeGroups padded rest; Some (b64bytes w x y z ++ bs)
  | [c0; c1; c2] =>
      if padded then None else
      w ← b64val c0; x ← b64val c1; y ← b64val c2; Some (take 2 (b64bytes w x y 0))
  | [c0; c1] => if padded then None else w ← b64val c0; x ← b64val c1; Some (take 1 (b64bytes w x 0 0))
  | [_] => None
  end.
Definition DecodeString (padded : bool) (s : list Z) : option (list Z) :=
  decodeGroups padded (filter (fun c => c <> 10 /\ c <> 13) s).

(** ** Metadata *)
Definition encodeBinHeader (v : list Z) : list Z := EncodeRaw v.

Definition decodeBinHeader (v : list Z) : option (list Z) :=
  if len v mod 4 =? 0 then DecodeString true v else DecodeString false v.

Definition binHdrSuffix : list Z := str "-bin".
Definition HasSuffix (s suffix : list Z) : bool :=
  (length suffix <=? length s)%nat && bool_decide (drop (length s - length suffix) s = suffix).

Definition encodeMetadataHeader (k v : list Z) : list Z :=
  if HasSuffix k binHdrSuffix then encodeBinHeader v else v.
Definition decodeMetadataHeader (k v : list Z) : option (list Z) :=
  if HasSuffix k binHdrSuffix then decodeBinHeader v else Some v.

Example base64_padded : decodeBinHeader (str "aGJvbmU=") = Some (str "hbone").
Proof. reflexivity. Qed.
Example base64_raw : encodeBinHeader (str "hbone") = str "aGJvbmU".
Proof. reflexivity. Qed.

(** A character of the alphabet is its value, and not a newline or padding. *)
Lemma b64_ok n : 0 <= n < 64 ->
  b64val (b64char n) = Some n /\ b64char n <> 10 /\ b64char n <> 13 /\ (b64char n =? padChar) = false.
Proof.
  intros Hn. set (p n := bool_decide (b64val (b64char n) = Some n) && negb (b64char n =? 10) &&
    negb (b64char n =? 13) && negb (b64char n =? padChar)).
  assert (H : p n = true) by (apply (forall_below_spec 64 p); [by vm_compute|lia]). unfold p in H.
  rewrite !andb_true_iff, !negb_true_iff, bool_decide_eq_true, !Z.eqb_neq in H. destruct H as [[[? ?] ?] ?].
  rewrite Z.eqb_neq. done.
Qed.

(** The three bytes of a group as four numbers of six bits. *)
Lemma b64chars_eq a b c :
  is_u8 a -> is_u8 b -> is_u8 c -> exists w x y z,
    b64chars a b c = b64char <$> [w; x; y; z] /\ Forall (fun n => 0 <= n < 64) [w; x; y; z] /\
    a = 4 * w + x / 16 /\ b = 16 * (x mod 16) + y / 4 /\ c = 64 * (y mod 4) + z.
Proof.
  unfold is_u8. change (2 ^ 8) with 256. intros Ha Hb Hc. unfold b64chars.
  rewrite (add_lor b), (add_lor a) by (change (2 ^ 8) with 256; change (2 ^ 16) with 65536; lia).
  change (2 ^ 8) with 256. change (2 ^ 16) with 65536. set (v := _ + _).
  exists (v / 262144 mod 64), (v / 4096 mod 64), (v / 64 mod 64), (v mod 64). split.
  { cbn [fmap list_fmap]. rewrite !Z.shiftr_div_pow2 by lia. rewrite !(land_mod _ 6 0x3F) by done.
    by rewrite Z.div_1_r. }
  split; [repeat constructor; apply Z.mod_pos_bound; lia|].
  unfold v. Z.to_euclidean_division_equations; lia.
Qed.

Lemma b64bytes_eq w x y z :
  0 <= w < 64 -> 0 <= x < 64 -> 0 <= y < 64 -> 0 <= z < 64 ->
  b64bytes w x y z = [4 * w + x / 16; 16 * (x mod 16) + y / 4; 64 * (y mod 4) + z].
Proof.
  intros Hw Hx Hy Hz. unfold b64bytes.
  rewrite (add_lor y), (add_lor x), (add_lor w) by (change (2 ^ 6) with 64; change (2 ^ 12) with 4096; change (2 ^ 18) with 262144; lia).
  change (2 ^ 6) with 64. change (2 ^ 12) with 4096. change (2 ^ 18) with 262144. set (v := _ + _).
  cbn [fmap list_fmap]. rewrite !Z.shiftr_div_pow2 by done. unfold u8.
  change (2 ^ 16) with 65536. change (2 ^ 8) with 256. change (2 ^ 0) with 1.
  do 3 (apply (f_equal2 cons); [unfold v; Z.to_euclidean_division_equations; lia|]). done.
Qed.

(** Induction by groups of three. *)
Lemma group_ind (P : list Z -> Prop) :
  P [] -> (forall a, P [a]) -> (forall a b, P [a; b]) -> (forall a b c l, P l -> P (a :: b :: c :: l)) -> forall l, P l.
Proof.
  intros H0 H1 H2 H3. fix IH 1. intros [|a [|b [|c l]]]; [done|apply H1|apply H2|]. apply H3, IH.
Qed.

(** Encoding gives characters of the alphabet, which decode to the bytes
    without padding, and with padding when there are whole groups only. *)
Lemma EncodeRaw_ok l : bytes_ok l ->
  Forall (fun c => c <> 10 /\ c <> 13) (EncodeRaw l) /\
  decodeGroups false (EncodeRaw l) = Some l /\
  (len (EncodeRaw l) mod 4 = 0 -> decodeGroups true (EncodeRaw l) = Some l).
Proof.
  assert (Hz : is_u8 0) by done.
  induction l as [|a|a b|a b c l IH] using group_ind; intros Hok.
  - split; [constructor|done].
  - inversion_clear Hok as [|? ? Ha _]. cbn [EncodeRaw].
    destruct (b64chars_eq a 0 0 Ha Hz Hz) as (w & x & y & z & -> & Hr & Ea & Eb & Ec).
    inversion_clear Hr as [|? ? Hw Hr']; inversion_clear Hr' as [|? ? Hx _].
    destruct (b64_ok w Hw) as (Vw & Nw & Nw' & _), (b64_ok x Hx) as (Vx & Nx & Nx' & _).
    cbn [fmap list_fmap take]. split; [by repeat constructor|]. split; [|done].
    cbn [decodeGroups]. rewrite Vw, Vx. cbn [mbind option_bind]. rewrite b64bytes_eq by (done || lia). cbn. by rewrite Ea.
  - inversion_clear Hok as [|? ? Ha Hok']; inversion_clear Hok' as [|? ? Hb _]. cbn [EncodeRaw].
    destruct (b64chars_eq a b 0 Ha Hb Hz) as (w & x & y & z & -> & Hr & Ea & Eb & Ec).
    inversion_clear Hr as [|? ? Hw Hr']; inversion_clear Hr' as [|? ? Hx Hr]; inversion_clear Hr as [|? ? Hy _].
    destruct (b64_ok w Hw) as (Vw & Nw & Nw' & _), (b64_ok x Hx) as (Vx & Nx & Nx' & _), (b64_ok y Hy) as (Vy & Ny & Ny' & _).
    cbn [fmap list_fmap take]. split; [by repeat constructor|]. split; [|done].
    cbn [decodeGroups]. rewrite Vw, Vx, Vy. cbn [mbind option_bind]. rewrite b64bytes_eq by (done || lia). cbn. by rewrite Ea, Eb.
  - inversion_clear Hok as [|? ? Ha Hok']; inversion_clear Hok' as [|? ? Hb Hok]; inversion_clear Hok as [|? ? Hc Hl].
    destruct (IH Hl) as (Hn & Hd & Hp). cbn [EncodeRaw].
    destruct (b64chars_eq a b c Ha Hb Hc) as (w & x & y & z & -> & Hr & Ea & Eb & Ec).
    apply Forall_cons in Hr as [Hw Hr]. apply Forall_cons in Hr as [Hx Hr]. apply Forall_cons in Hr as [Hy Hr].
    apply Forall_cons in Hr as [Hz' _].
    destruct (b64_ok w Hw) as (Vw & Nw & Nw' & _), (b64_ok x Hx) as (Vx & Nx & Nx' & _),
      (b64_ok y Hy) as (Vy & Ny & Ny' & Py), (b64_ok z Hz') as (Vz & Nz & Nz' & Pz).
    cbn [fmap list_fmap app]. split; [by repeat (constructor; [done|])|].
    cbn [decodeGroups]. rewrite Vw, Vx, Vy, Vz, Py, Pz. cbn [mbind option_bind andb].
    rewrite b64bytes_eq by done. split; [rewrite Hd; cbn; by rewrite Ea, Eb, Ec|].
    rewrite !len_cons. intros Hm. rewrite Hp; [cbn; by rewrite Ea, Eb, Ec|].
    Z.to_euclidean_division_equations; lia.
Qed.

Lemma filter_all (P : Z -> Prop) `{!forall c, Decision (P c)} l : Forall P l -> filter P l = l.
Proof. induction 1 as [|c l Hc Hl IH]; [done|]. by rewrite filter_cons_True, IH. Qed.

(** Metadata survives the header: whatever the key and the bytes of the
    value, what is sent for them decodes to the value, binary headers (sent in
    base64 without padding, and read with or without it) included. *)
Theorem metadata_roundtrip k v :
  bytes_ok v -> decodeMetadataHeader k (encodeMetadataHeader k v) = Some v.
Proof.
  intros Hv. unfold decodeMetadataHeader, encodeMetadataHeader. destruct (HasSuffix k binHdrSuffix); [|done].
  unfold encodeBinHeader, decodeBinHeader, DecodeString. destruct (EncodeRaw_ok v Hv) as (Hn & Hd & Hp).
  rewrite filter_all by done. destruct (Z.eqb_spec (len (EncodeRaw v) mod 4) 0); [by apply Hp|done].
Qed.

Lemma metadata_roundtrip_witness :
  decodeMetadataHeader (str "trace-bin") (encodeMetadataHeader (str "trace-bin") [0; 255; 7; 61]) = Some [0; 255; 7; 61].
Proof. apply (metadata_roundtrip (str "trace-bin") [0; 255; 7; 61]). by repeat constructor. Defined.
