(* ===== verification/FrameText.v ===== *)
(** * Names, error messages and log lines: h2/frame/errors.go, http2.go, frame.go

    The text the frame layer makes: the names of error codes, frame types, flags
    and settings, the messages of its errors, the line that describes a frame
    ([summarizeFrame]), and the log of written frames, for which a framer reads
    its own output back ([logWrite]).  Text is a list of bytes.  Of package fmt
    the verbs %d, %x, %s, %v and %q are modelled; which runes from 0x80 on are
    printable is a table of package strconv, the parameter [isPrint]. *)
From S2P Require Import Prelude Bits HpackTables Timeout Metadata Frame HpackBlocks FrameRead FrameTyped.

(** ** Numbers and quoted strings *)

(** [%x] of an unsigned 32-bit number. *)
Definition lowerHex (n : Z) : Z := if n <? 10 then 48 + n else 87 + n.
Fixpoint hexDigits (fuel : nat) (n : Z) (acc : list Z) : list Z :=
  match fuel with
  | O => acc
  | S fuel =>
      let acc := lowerHex (n mod 16) :: acc in
      if n <? 16 then acc else hexDigits fuel (n / 16) acc
  end.
Definition FormatHex (n : Z) : list Z := hexDigits 8 n [].

(** [n] hexadecimal digits, the last ones of [r]. *)
Fixpoint hexFixed (n : nat) (r : Z) : list Z :=
  match n with
  | O => []
  | S n => lowerHex (Z.land (Z.shiftr r (4 * Z.of_nat n)) 15) :: hexFixed n r
  end.

Section Quote.
Context (isPrint : Z -> bool).

Definition printable (r : Z) : bool := if r <? 0x80 then (0x20 <=? r) && (r <? 0x7F) else isPrint r.
Definition validRune (r : Z) : bool := within 0 0xD7FF r || within 0xE000 0x10FFFF r.

(** [strconv.appendEscapedRune] for a double quote. *)
Definition appendEscapedRune (r : Z) : list Z :=
  if (r =? 34) || (r =? 92) then [92; r] else
  if printable r then EncodeRune r else
  if r =? 7 then [92; 97] else
  if r =? 8 then [92; 98] else
  if r =? 12 then [92; 102] else
  if r =? 10 then [92; 110] else
  if r =? 13 then [92; 114] else
  if r =? 9 then [92; 116] else
  if r =? 11 then [92; 118] else
  if (r <? 0x20) || (r =? 0x7F) then [92; 120] ++ hexFixed 2 r else
  let r := if validRune r then r else RuneError in
  if r <? 0x10000 then [92; 117] ++ hexFixed 4 r else [92; 85] ++ hexFixed 8 r.

(** Every turn takes at least a byte, so the length is fuel enough. *)
Fixpoint quoteLoop (fuel : nat) (s : list Z) : list Z :=
  match fuel, s with
  | S fuel, b :: _ =>
      let '(r, width) := DecodeRune s in
      (if (width =? 1)%nat && (r =? RuneError) then [92; 120] ++ hexFixed 2 b else appendEscapedRune r)
        ++ quoteLoop fuel (drop width s)
  | _, _ => []
  end.
(** [%q] *)
Definition Quote (s : list Z) : list Z := [34] ++ quoteLoop (length s) s ++ [34].

(** ** Names *)

(** A map from numbers to names; a name that is missing is [None]. *)
Definition nameOf (m : list (Z * list Z)) (k : Z) : option (list Z) :=
  snd <$> (snd <$> list_find (fun e => e.1 = k) m).

Definition errCodeName : list (Z * list Z) :=
  [(ErrCodeNo, str "NO_ERROR"); (ErrCodeProtocol, str "PROTOCOL_ERROR");
   (ErrCodeInternal, str "INTERNAL_ERROR"); (ErrCodeFlowControl, str "FLOW_CONTROL_ERROR");
   (ErrCodeSettingsTimeout, str "SETTINGS_TIMEOUT"); (ErrCodeStreamClosed, str "STREAM_CLOSED");
   (ErrCodeFrameSize, str "FRAME_SIZE_ERROR"); (ErrCodeRefusedStream, str "REFUSED_STREAM");
   (ErrCodeCancel, str "CANCEL"); (ErrCodeCompression, str "COMPRESSION_ERROR");
   (ErrCodeConnect, str "CONNECT_ERROR"); (ErrCodeEnhanceYourCalm, str "ENHANCE_YOUR_CALM");
   (ErrCodeInadequateSecurity, str "INADEQUATE_SECURITY"); (ErrCodeHTTP11Required, str "HTTP_1_1_REQUIRED")].

Definition ErrCode_String (e : ErrCode) : list Z :=
  match nameOf errCodeName e with
  | Some s => s
  | None => str "unknown error code 0x" ++ FormatHex e
  end.
Definition stringToken (e : ErrCode) : list Z :=
  match nameOf errCodeName e with
  | Some s => s
  | None => str "ERR_UNKNOWN_" ++ FormatInt e
  end.

Definition settingName : list (Z * list Z) :=
  [(SettingHeaderTableSize, str "HEADER_TABLE_SIZE"); (SettingEnablePush, str "ENABLE_PUSH");
   (SettingMaxConcurrentStreams, str "MAX_CONCURRENT_STREAMS");
   (SettingInitialWindowSize, str "INITIAL_WINDOW_SIZE"); (SettingMaxFrameSize, str "MAX_FRAME_SIZE");
   (SettingMaxHeaderListSize, str "MAX_HEADER_LIST_SIZE")].
Definition SettingID_String (s : Z) : list Z :=
  match nameOf settingName s with
  | Some v => v
  | None => str "UNKNOWN_SETTING_" ++ FormatInt s
  end.
Definition Setting_String (s : Setting) : list Z :=
  str "[" ++ SettingID_String (ID s) ++ str " = " ++ FormatInt (Val s) ++ str "]".

Definition frameName : list (Z * list Z) :=
  [(FrameData, str "DATA"); (FrameHeaders, str "HEADERS"); (FramePriority, str "PRIORITY");
   (FrameRSTStream, str "RST_STREAM"); (FrameSettings, str "SETTINGS");
   (FramePushPromise, str "PUSH_PROMISE"); (FramePing, str "PING"); (FrameGoAway, str "GOAWAY");
   (FrameWindowUpdate, str "WINDOW_UPDATE"); (FrameContinuation, str "CONTINUATION")].
Definition FrameType_String (t : Z) : list Z :=
  match nameOf frameName t with
  | Some s => s
  | None => str "UNKNOWN_FRAME_TYPE_" ++ FormatInt t
  end.

Definition flagName (t : Z) : list (Z * list Z) :=
  if t =? FrameData then [(FlagDataEndStream, str "END_STREAM"); (FlagDataPadded, str "PADDED")] else
  if t =? FrameHeaders then
    [(FlagHeadersEndStream, str "END_STREAM"); (FlagHeadersEndHeaders, str "END_HEADERS");
     (FlagHeadersPadded, str "PADDED"); (FlagHeadersPriority, str "PRIORITY")] else
  if t =? FrameSettings then [(FlagSettingsAck, str "ACK")] else
  if t =? FramePing then [(FlagPingAck, str "ACK")] else
  if t =? FrameContinuation then [(FlagContinuationEndHeaders, str "END_HEADERS")] else
  if t =? FramePushPromise then
    [(FlagPushPromiseEndHeaders, str "END_HEADERS"); (FlagPushPromisePadded, str "PADDED")] else [].

(** [streamState.String] panics outside of the array. *)
Definition stateName : list (list Z) :=
  [str "Idle"; str "Open"; str "HalfClosedLocal"; str "HalfClosedRemote"; str "Closed"].
Definition streamState_String (st : Z) : option (list Z) :=
  if st <? 0 then None else stateName !! Z.to_nat st.

(** ** Error messages *)

(** What [connError] and the header checks say. *)
Definition reason_text (r : reason) : list Z :=
  match r with
  | DataOnStream0 => str "DATA frame with stream muxID 0"
  | PadTooLarge => str "pad size larger than data payload"
  | HeadersOnStream0 => str "HEADERS frame with stream muxID 0"
  | PriorityOnStream0 => str "PRIORITY frame with stream muxID 0"
  | PriorityBadLength n => str "PRIORITY frame payload size was " ++ FormatInt n ++ str "; want 5"
  | ContinuationOnStream0 => str "CONTINUATION frame with stream muxID 0"
  | WantedContinuation gotType gotStream lastType lastStream =>
      str "got " ++ FrameType_String gotType ++ str " for stream " ++ FormatInt gotStream
      ++ str "; expected CONTINUATION following " ++ FrameType_String lastType
      ++ str " for stream " ++ FormatInt lastStream
  | WrongContinuation gotStream lastStream =>
      str "got CONTINUATION for stream " ++ FormatInt gotStream ++ str "; expected stream " ++ FormatInt lastStream
  | UnexpectedContinuation gotStream => str "unexpected CONTINUATION for stream " ++ FormatInt gotStream
  | PseudoAfterRegular => str "pseudo header field after regular"
  | InvalidFieldName name => str "invalid header field name " ++ Quote name
  | PseudoHeaderError name => str "invalid pseudo-header " ++ Quote name
  | DuplicatePseudoHeader name => str "duplicate pseudo-header " ++ Quote name
  | MixPseudoHeaderTypes => str "mix of request and response pseudo headers"
  end.

(** [Error()] of the errors of the package; [ioText] is the message of an error of
    the connection itself. *)
Definition Error (ioText : Z -> list Z) (e : frameErr) : list Z :=
  match e with
  | ConnectionError code => str "connection error: " ++ ErrCode_String code
  | StreamError id code cause =>
      str "stream error: stream WorkloadID " ++ FormatInt id ++ str "; " ++ ErrCode_String code
      ++ match cause with Some r => str "; " ++ reason_text r | None => [] end
  | connError code why => str "http2: connection error: " ++ ErrCode_String code ++ str ": " ++ reason_text why
  | ErrFrameTooLarge => str "http2: frame too large"
  | errStreamID => str "invalid stream muxID"
  | errDepStreamID => str "invalid dependent stream muxID"
  | errPadLength => str "pad length too large"
  | errPadBytes => str "padding bytes must all be zeros unless AllowIllegalWrites is enabled"
  | errWindowIncrement => str "illegal window increment value"
  | errIllegalUse => str "illegal use of AllowIllegalReads with ReadMetaHeaders"
  | IOErr EOF => str "EOF"
  | IOErr ErrUnexpectedEOF => str "unexpected EOF"
  | IOErr ErrShortWrite => str "short write"
  | IOErr (OtherIO n) => ioText n
  end.

Definition goAwayFlowError_Error : list Z := str "connection exceeded flow control window size".

(** [terminalReadFrameError]; a nil error is [None]. *)
Definition terminalReadFrameError (err : option frameErr) : bool :=
  match err with
  | Some (StreamError _ _ _) => false
  | Some _ => true
  | None => false
  end.

(** ** Package hpack *)
Definition HeaderField_String (hf : HeaderField) : list Z :=
  str "header field " ++ Quote (Name hf) ++ str " = " ++ Quote (HpackTables.Value hf)
  ++ (if Sensitive hf then str " (sensitive)" else []).
Definition InvalidIndexError_Error (e : Z) : list Z := str "invalid indexed representation index " ++ FormatInt e.

(** ** Accessors: [None] is the panic of [checkValid] *)
Definition checkValid {A} (fh : FrameHeader) (a : A) : option A := if valid fh then Some a else None.
Definition Data (fh : FrameHeader) (data : list Z) : option (list Z) := checkValid fh data.
Definition DebugData (fh : FrameHeader) (debugData : list Z) : option (list Z) := checkValid fh debugData.
Definition Payload (fh : FrameHeader) (p : list Z) : option (list Z) := checkValid fh p.
Definition HeaderBlockFragment (fh : FrameHeader) (headerFragBuf : list Z) : option (list Z) := checkValid fh headerFragBuf.

Definition StreamEnded (f : Frame) : bool :=
  match f with
  | DataFrame fh _ => Has (Flags fh) FlagDataEndStream
  | HeadersFrame fh _ _ => Has (Flags fh) FlagHeadersEndStream
  | _ => false
  end.
Definition HeadersEnded (f : Frame) : bool :=
  match f with
  | HeadersFrame fh _ _ => Has (Flags fh) FlagHeadersEndHeaders
  | ContinuationFrame fh _ => Has (Flags fh) FlagContinuationEndHeaders
  | PushPromiseFrame fh _ _ => Has (Flags fh) FlagPushPromiseEndHeaders
  | _ => false
  end.
Definition HasPriority (f : Frame) : bool :=
  match f with HeadersFrame fh _ _ => Has (Flags fh) FlagHeadersPriority | _ => false end.
Definition IsAck (f : Frame) : bool :=
  match f with
  | SettingsFrame fh _ => Has (Flags fh) FlagSettingsAck
  | PingFrame fh _ => Has (Flags fh) FlagPingAck
  | _ => false
  end.

(** ** The line that describes a frame *)

(** The loop over the bits; [set] counts those found. *)
Fixpoint flagsText (t flags : Z) (n : nat) (i set : Z) : list Z :=
  match n with
  | O => []
  | S n =>
      if Z.land flags (Z.shiftl 1 i) =? 0 then flagsText t flags n (i + 1) set else
      (if set + 1 >? 1 then str "|" else [])
        ++ match nameOf (flagName t) (Z.shiftl 1 i) with
           | Some name => name
           | None => str "0x" ++ FormatHex (Z.shiftl 1 i)
           end
        ++ flagsText t flags n (i + 1) (set + 1)
  end.

Definition writeDebug (h : FrameHeader) : list Z :=
  FrameType_String (Type_ h)
  ++ (if negb (Flags h =? 0) then str " flags=" ++ flagsText (Type_ h) (Flags h) 8 0 0 else [])
  ++ (if negb (StreamID h =? 0) then str " stream=" ++ FormatInt (StreamID h) else [])
  ++ str " len=" ++ FormatInt (Length h).
Definition FrameHeader_String (h : FrameHeader) : list Z := str "[FrameHeader " ++ writeDebug h ++ str "]".

Definition summaryMax : Z := 256.
Definition clip (max : Z) (data : list Z) : list Z := if len data >? max then take (Z.to_nat max) data else data.

(** The function [summarizeFrame] gives to [ForeachSetting]: the count and the text. *)
Definition summarizeSetting (st : Z * list Z) (s : Setting) : (Z * list Z) * option frameErr :=
  let n := st.1 + 1 in
  ((n, st.2 ++ (if n =? 1 then str ", settings:" else [])
         ++ str " " ++ SettingID_String (ID s) ++ str "=" ++ FormatInt (Val s) ++ str ","), None).

Definition summarizeFrame (f : Frame) : option (list Z) :=
  let buf := writeDebug (Header f) in
  match f with
  | SettingsFrame fh p =>
      match ForeachSetting fh p summarizeSetting (0, buf) with
      | Ret ((n, buf), _) => Some (if n >? 0 then take (length buf - 1) buf else buf)
      | _ => None
      end
  | DataFrame fh d =>
      data ← Data fh d;
      Some (buf ++ str " data=" ++ Quote (clip summaryMax data)
        ++ (if len data >? summaryMax then str " (" ++ FormatInt (len data - summaryMax) ++ str " bytes omitted)" else []))
  | WindowUpdateFrame fh inc =>
      Some (buf ++ (if StreamID fh =? 0 then str " (conn)" else []) ++ str " incr=" ++ FormatInt inc)
  | PingFrame fh d => Some (buf ++ str " ping=" ++ Quote d)
  | GoAwayFrame fh l c d =>
      Some (buf ++ str " LastStreamID=" ++ FormatInt l ++ str " ErrCode=" ++ ErrCode_String c ++ str " Debug=" ++ Quote d)
  | RSTStreamFrame fh c => Some (buf ++ str " ErrCode=" ++ ErrCode_String c)
  | _ => Some buf
  end.

(** ** The log of written frames *)

(** What is logged: the line of the frame, or that it could not be decoded. *)
Inductive writeLog := LogWrote (line : list Z) | LogUndecoded.

(** The framer that reads the output back; its buffer is empty between calls. *)
Definition debugFramer : Framer :=
  let fr := NewFramer (mkReader [] EOF) in
  mkFramer (fr_r fr) (lastFrame fr) (errDetail fr) (lastHeaderStream fr) (maxReadSize fr) true
    (ReadMetaHeaders fr) (FrameRead.MaxHeaderListSize fr).

(** [logWrite]: the debug framer is made at the first call; a panic is [None].
    Without [ReadMetaHeaders] it returns plain frames only. *)
Definition logWrite (chunkCap : Z -> Z) (dbg : option Framer) (wbuf : list Z) : option (Framer * writeLog) :=
  let fr := default debugFramer dbg in
  let fr := set_r fr (mkReader (rdata (fr_r fr) ++ wbuf) EOF) in
  match ReadFrame chunkCap fr with
  | (_, Panic) => None
  | (fr, Fail _) => Some (fr, LogUndecoded)
  | (fr, Ret (Plain f)) => line ← summarizeFrame f; Some (fr, LogWrote line)
  | (fr, Ret (Meta mh)) => line ← summarizeFrame (HeadersFrame (mh_header mh) (mh_priority mh) []);
                           Some (fr, LogWrote line)
  end.

(** What [WriteDataNC] logs of its own. *)
Definition logDataNC (data : list Z) (start end_ : Z) : list Z :=
  let ldata := clip 64 (take (Z.to_nat (end_ - start)) (drop (Z.to_nat start) data)) in
  FormatInt (end_ - start) ++ str " " ++ str " data=" ++ Quote ldata.
End Quote.

(** ** Examples *)
Example summarize_settings :
  summarizeFrame (fun _ => false) (SettingsFrame (mkFH true FrameSettings 0 12 0)
    (setting_bytes (mkSetting 4 65535) ++ setting_bytes (mkSetting 9 1)))
  = Some (str "SETTINGS len=12, settings: INITIAL_WINDOW_SIZE=65535, UNKNOWN_SETTING_9=1").
Proof. reflexivity. Qed.
Example summarize_headers :
  writeDebug (mkFH true FrameHeaders 0x15 3 7) = str "HEADERS flags=END_STREAM|END_HEADERS|0x10 stream=7 len=3".
Proof. reflexivity. Qed.
Example quote_bytes : Quote (fun _ => false) [104; 10; 34; 0; 195; 169; 255] =
  [34; 104; 92; 110; 92; 34; 92; 120; 48; 48; 92; 117; 48; 48; 101; 57; 92; 120; 102; 102; 34].
Proof. reflexivity. Qed.

(** ** Numbers are read back *)
Lemma FormatInt_inj a b : 0 <= a < 10 ^ 19 -> 0 <= b < 10 ^ 19 -> FormatInt a = FormatInt b -> a = b.
Proof.
  intros Ha Hb E. destruct (digits_parse 19 a) as [Pa _]; [cbn; lia|lia|].
  destruct (digits_parse 19 b) as [Pb _]; [cbn; lia|lia|]. unfold FormatInt in E. congruence.
Qed.

Lemma hexDigits_app fuel : forall n acc, hexDigits fuel n acc = hexDigits fuel n [] ++ acc.
Proof.
  induction fuel as [|fuel IH]; intros n acc; cbn [hexDigits]; [done|]. case_if; [done|].
  rewrite IH, (IH _ [_]), <- app_assoc. done.
Qed.
Lemma lowerHex_inj a b : 0 <= a < 16 -> 0 <= b < 16 -> lowerHex a = lowerHex b -> a = b.
Proof. unfold lowerHex. do 2 case_if; lia. Qed.
Lemma hexDigits_cons k n : (0 < k)%nat -> hexDigits k n [] <> [].
Proof.
  destruct k; [lia|]. intros _. cbn [hexDigits]. case_if; [done|]. rewrite hexDigits_app. by destruct (hexDigits k _ []).
Qed.
Lemma hexDigits_inj k : forall a b, 0 <= a < 16 ^ Z.of_nat k -> 0 <= b < 16 ^ Z.of_nat k -> (0 < k)%nat ->
  hexDigits k a [] = hexDigits k b [] -> a = b.
Proof.
  induction k as [|k IH]; intros a b Ha Hb Hk; [lia|]. cbn [hexDigits].
  rewrite Nat2Z.inj_succ, Z.pow_succ_r in Ha, Hb by lia.
  assert (Hm : forall x, 0 <= x mod 16 < 16) by (intros; apply Z.mod_pos_bound; lia).
  assert (Hlast : forall x y : Z, forall l l', l ++ [x] = l' ++ [y] -> l = l' /\ x = y) by (intros; by apply app_inj_tail).
  destruct (Z.ltb_spec a 16), (Z.ltb_spec b 16); rewrite ?(hexDigits_app k _ [_]).
  - intros [= E]. apply lowerHex_inj in E; [|done..]. rewrite !Z.mod_small in E by lia. done.
  - intros E. change [lowerHex (a mod 16)] with ([] ++ [lowerHex (a mod 16)]) in E. apply Hlast in E as [E _].
    destruct k; [cbn in Hb; lia|]. symmetry in E. by apply hexDigits_cons in E; [|lia].
  - intros E. change [lowerHex (b mod 16)] with ([] ++ [lowerHex (b mod 16)]) in E. apply Hlast in E as [E _].
    destruct k; [cbn in Ha; lia|]. by apply hexDigits_cons in E; [|lia].
  - intros E. apply Hlast in E as [E1 E2]. apply lowerHex_inj in E2; [|done..].
    destruct k; [cbn in Ha; lia|]. apply IH in E1; [| | |lia].
    + pose proof (Z.div_mod a 16). pose proof (Z.div_mod b 16). lia.
    + split; [apply Z.div_pos; lia|]. apply Z.div_lt_upper_bound; lia.
    + split; [apply Z.div_pos; lia|]. apply Z.div_lt_upper_bound; lia.
Qed.
Lemma FormatHex_inj a b : is_u32 a -> is_u32 b -> FormatHex a = FormatHex b -> a = b.
Proof. intros Ha Hb. apply hexDigits_inj; [done..|lia]. Qed.

(** ** Names tell the numbers apart *)
Definition text_of (m : list (Z * list Z)) (prefix : list Z) (fmt : Z -> list Z) (k : Z) : list Z :=
  match nameOf m k with Some s => s | None => prefix ++ fmt k end.

(** No two names are equal and none starts like the text of a number without one. *)
Definition names_ok (m : list (Z * list Z)) (prefix : list Z) : Prop :=
  NoDup m.*2 /\ Forall (fun s => take (length prefix) s <> prefix) m.*2.
#[export] Instance names_ok_dec m prefix : Decision (names_ok m prefix).
Proof. apply _. Defined.

Lemma nameOf_in m k s : nameOf m k = Some s -> exists i, m !! i = Some (k, s).
Proof.
  unfold nameOf. destruct (list_find _ m) as [[i [k' s']]|] eqn:E; [|done]. simpl. intros [= <-].
  apply list_find_Some in E as (Hi & Hk & _). simpl in Hk. subst. eauto.
Qed.

Lemma text_of_inj m prefix fmt (dom : Z -> Prop) :
  names_ok m prefix -> (forall a b, dom a -> dom b -> fmt a = fmt b -> a = b) ->
  forall a b, dom a -> dom b -> text_of m prefix fmt a = text_of m prefix fmt b -> a = b.
Proof.
  intros [Hd Hp] Hf a b Ha Hb. rewrite Forall_forall in Hp.
  assert (Hno : forall k s x, nameOf m k = Some s -> s <> prefix ++ fmt x).
  { intros k s x Hn ->. apply nameOf_in in Hn as [i Hi]. apply (Hp (prefix ++ fmt x)).
    - apply list_elem_of_fmap. eexists (k, _). split; [done|]. by eapply list_elem_of_lookup_2.
    - by rewrite take_app_length. }
  unfold text_of. destruct (nameOf m a) as [sa|] eqn:Ea, (nameOf m b) as [sb|] eqn:Eb.
  - intros ->. apply nameOf_in in Ea as [i Hi], Eb as [j Hj].
    assert (i = j) as ->. { eapply NoDup_lookup; [exact Hd|..]; by rewrite list_lookup_fmap, ?Hi, ?Hj. }
    congruence.
  - intros E. by destruct (Hno a sa b).
  - intros E. by destruct (Hno b sb a).
  - intros E. apply app_inv_head in E. by apply Hf.
Qed.

Ltac decided := apply (bool_decide_unpack _); vm_compute; exact I.

(** No two error codes, settings or frame types have the same name. *)
Lemma ErrCode_String_inj a b : is_u32 a -> is_u32 b -> ErrCode_String a = ErrCode_String b -> a = b.
Proof. apply (text_of_inj errCodeName _ FormatHex is_u32); [decided|apply FormatHex_inj]. Qed.
Lemma decimal_inj m prefix a b :
  names_ok m prefix -> is_u32 a -> is_u32 b -> text_of m prefix FormatInt a = text_of m prefix FormatInt b -> a = b.
Proof.
  intros H. apply (text_of_inj m prefix FormatInt is_u32); [done|].
  intros x y Hx Hy. unfold is_u32 in *. apply FormatInt_inj; lia.
Qed.
Lemma stringToken_inj a b : is_u32 a -> is_u32 b -> stringToken a = stringToken b -> a = b.
Proof. apply (decimal_inj errCodeName). decided. Qed.
Lemma SettingID_String_inj a b : is_u32 a -> is_u32 b -> SettingID_String a = SettingID_String b -> a = b.
Proof. apply (decimal_inj settingName). decided. Qed.
Lemma FrameType_String_inj a b : is_u32 a -> is_u32 b -> FrameType_String a = FrameType_String b -> a = b.
Proof. apply (decimal_inj frameName). decided. Qed.

(** ** Log lines and messages hold no control characters *)
Definition clean (b : Z) : Prop := 32 <= b /\ b <> 127.
#[export] Instance clean_dec b : Decision (clean b).
Proof. apply _. Defined.
Definition clean_text (l : list Z) : Prop := Forall clean l.
#[export] Instance clean_text_dec l : Decision (clean_text l).
Proof. apply Forall_dec, _. Defined.

Create HintDb text discriminated.

Lemma clean_app a b : clean_text a -> clean_text b -> clean_text (a ++ b).
Proof. intros. by apply Forall_app. Qed.
Lemma clean_nil : clean_text [].
Proof. constructor. Qed.
Lemma clean_if (c : bool) a b : clean_text a -> clean_text b -> clean_text (if c then a else b).
Proof. by destruct c. Qed.
#[export] Hint Resolve clean_app clean_nil clean_if : text.
#[export] Hint Extern 0 (clean_text (str _)) => decided : text.

Lemma digits_clean fuel : forall n acc, clean_text acc -> clean_text (digits fuel n acc).
Proof.
  induction fuel as [|fuel IH]; intros n acc H; cbn [digits]; [done|].
  assert (clean_text (48 + n mod 10 :: acc)).
  { constructor; [|done]. pose proof (Z.mod_pos_bound n 10). unfold clean. lia. }
  case_if; [done|by apply IH].
Qed.
Lemma lowerHex_clean n : 0 <= n < 16 -> clean (lowerHex n).
Proof. unfold lowerHex, clean. case_if; lia. Qed.
Lemma hexDigits_clean fuel : forall n acc, clean_text acc -> clean_text (hexDigits fuel n acc).
Proof.
  induction fuel as [|fuel IH]; intros n acc H; cbn [hexDigits]; [done|].
  assert (clean_text (lowerHex (n mod 16) :: acc)).
  { constructor; [|done]. apply lowerHex_clean, Z.mod_pos_bound. lia. }
  case_if; [done|by apply IH].
Qed.
Lemma FormatInt_clean n : clean_text (FormatInt n).
Proof. apply digits_clean, clean_nil. Qed.
Lemma FormatHex_clean n : clean_text (FormatHex n).
Proof. apply hexDigits_clean, clean_nil. Qed.
Lemma hexFixed_clean n r : clean_text (hexFixed n r).
Proof.
  induction n as [|n IH]; [constructor|]. cbn [hexFixed]. constructor; [|done]. apply lowerHex_clean.
  change 15 with (Z.ones 4). rewrite Z.land_ones by lia. by apply Z.mod_pos_bound.
Qed.
#[export] Hint Resolve FormatInt_clean FormatHex_clean hexFixed_clean : text.

(** The bytes of a rune that is not ASCII are at least 0x80. *)
Lemma lor_ge a b : 0 <= b -> a <= Z.lor a b.
Proof.
  intros Hb. assert (Z.lor a b = a + Z.ldiff b a) as ->.
  { rewrite Z.add_nocarry_lxor, Z.lxor_lor; (apply Z.bits_inj'; intros i Hi);
      rewrite ?Z.land_spec, ?Z.lor_spec, ?Z.ldiff_spec, ?Z.bits_0; by destruct (Z.testbit a i), (Z.testbit b i). }
  enough (0 <= Z.ldiff b a) by lia. apply Z.ldiff_nonneg. by left.
Qed.
Lemma high_clean a b : 128 <= a -> 0 <= b -> clean (Z.lor a b).
Proof. intros Ha Hb. pose proof (lor_ge a b Hb). unfold clean. lia. Qed.

Lemma EncodeRune_clean r : 0x80 <= r \/ clean r -> clean_text (EncodeRune r).
Proof.
  intros Hr. assert (Hl : forall k, clean (Z.lor 0x80 (Z.land (Z.shiftr r k) 0x3F))).
  { intros k. apply high_clean; [done|]. apply Z.land_nonneg. by right. }
  assert (Hs : forall a k, 128 <= a -> 0 <= r -> clean (Z.lor a (Z.shiftr r k))).
  { intros a k Ha Hr0. apply high_clean; [done|]. by apply Z.shiftr_nonneg. }
  assert (0 <= r) by (unfold clean in Hr; lia).
  unfold EncodeRune. destruct ((0 <=? r) && (r <? 0x80)) eqn:E1.
  { constructor; [|constructor]. destruct Hr; [lia|done]. }
  unfold clean_text.
  case_if; [repeat apply Forall_cons_2; first [apply Hl|by apply Hs|apply Forall_nil_2]|]. case_if; [decided|].
  case_if; repeat apply Forall_cons_2; first [apply Hl|by apply Hs|apply Forall_nil_2].
Qed.

Section Clean.
Context (isPrint : Z -> bool).

Lemma appendEscapedRune_clean r : clean_text (appendEscapedRune isPrint r).
Proof.
  unfold appendEscapedRune. destruct ((r =? 34) || (r =? 92)) eqn:E1.
  { repeat constructor; unfold clean; lia. }
  destruct (printable isPrint r) eqn:Ep.
  { apply EncodeRune_clean. unfold printable in Ep. destruct (Z.ltb_spec r 0x80); [right; unfold clean|left]; lia. }
  do 7 (case_if; [decided|]). do 2 (case_if; [apply clean_app; [decided|apply hexFixed_clean]|]).
  apply clean_app; [decided|apply hexFixed_clean].
Qed.

Lemma quoteLoop_clean fuel : forall s, clean_text (quoteLoop isPrint fuel s).
Proof.
  induction fuel as [|fuel IH]; intros [|b s]; try constructor. cbn [quoteLoop].
  destruct (DecodeRune (b :: s)) as [r w]. apply clean_app; [|apply IH].
  apply clean_if; [apply clean_app; [decided|apply hexFixed_clean]|apply appendEscapedRune_clean].
Qed.
Lemma Quote_clean s : clean_text (Quote isPrint s).
Proof. unfold Quote. apply clean_app; [decided|]. apply clean_app; [apply quoteLoop_clean|decided]. Qed.
Hint Resolve Quote_clean : text.

Lemma nameOf_clean m k s : Forall clean_text m.*2 -> nameOf m k = Some s -> clean_text s.
Proof.
  intros Hm Hn. apply nameOf_in in Hn as [i Hi]. rewrite Forall_forall in Hm. apply Hm.
  apply list_elem_of_fmap. exists (k, s). split; [done|]. by eapply list_elem_of_lookup_2.
Qed.
Lemma text_of_clean m prefix fmt k :
  Forall clean_text m.*2 -> clean_text prefix -> clean_text (fmt k) -> clean_text (text_of m prefix fmt k).
Proof.
  intros Hm Hp Hf. unfold text_of. destruct (nameOf m k) eqn:E; [by eapply nameOf_clean|by apply clean_app].
Qed.
Lemma ErrCode_String_clean e : clean_text (ErrCode_String e).
Proof. apply (text_of_clean errCodeName); [decided|decided|auto with text]. Qed.
Lemma SettingID_String_clean s : clean_text (SettingID_String s).
Proof. apply (text_of_clean settingName); [decided|decided|auto with text]. Qed.
Lemma FrameType_String_clean t : clean_text (FrameType_String t).
Proof. apply (text_of_clean frameName); [decided|decided|auto with text]. Qed.
Hint Resolve ErrCode_String_clean SettingID_String_clean FrameType_String_clean : text.

Lemma reason_text_clean r : clean_text (reason_text isPrint r).
Proof. destruct r; cbn [reason_text]; auto 20 with text. Qed.
Hint Resolve reason_text_clean : text.

Lemma Error_clean ioText e : (forall n, clean_text (ioText n)) -> clean_text (Error isPrint ioText e).
Proof.
  intros Hio. destruct e as [| ? ? [?|] | | | | | | | | | [| | |] ]; cbn [Error]; auto 20 with text.
Qed.

Lemma flagName_clean t : Forall clean_text (flagName t).*2.
Proof. unfold flagName. do 6 (case_if; [decided|]). constructor. Qed.
Lemma flagsText_clean t flags n : forall i set, clean_text (flagsText t flags n i set).
Proof.
  induction n as [|n IH]; intros i set; cbn [flagsText]; [constructor|]. case_if; [apply IH|].
  apply clean_app; [auto with text|]. apply clean_app; [|apply IH].
  apply (text_of_clean (flagName t) (str "0x") FormatHex); [apply flagName_clean|auto with text..].
Qed.
Hint Resolve flagsText_clean : text.
Lemma writeDebug_clean h : clean_text (writeDebug h).
Proof. unfold writeDebug. auto 20 with text. Qed.
Hint Resolve writeDebug_clean : text.

Lemma summarizeSettings_clean l : forall st, clean_text st.2 -> clean_text (foreach summarizeSetting st l).1.2.
Proof.
  induction l as [|s l IH]; intros st Hst; cbn [foreach]; [done|].
  apply IH. cbn [fst snd]. auto 30 with text.
Qed.
Lemma summarizeFrame_clean f line : summarizeFrame isPrint f = Some line -> clean_text line.
Proof.
  destruct f; cbn [summarizeFrame]; try (intros <-%(inj Some); auto 20 with text).
  - unfold Data, checkValid. destruct (valid _); [|done]. cbn [mbind option_bind]. intros <-%(inj Some).
    auto 30 with text.
  - unfold ForeachSetting. destruct (valid _); [|done]. cbn [negb]. destruct (settings p) as [l|e|]; [|done..].
    cbn [obind]. pose proof (summarizeSettings_clean l (0, writeDebug (Header (SettingsFrame fh p))) (writeDebug_clean _)) as H.
    destruct (foreach _ _ l) as [[n buf] oe]. intros <-%(inj Some). apply clean_if; [|done]. by apply Forall_take.
Qed.

(** A frame that was just read can be described. *)
Lemma summarizeFrame_total f : valid (Header f) = true -> exists line, summarizeFrame isPrint f = Some line.
Proof.
  intros Hv. destruct f; cbn [Header summarizeFrame] in *; eauto.
  - unfold Data, checkValid. rewrite Hv. simpl. eauto.
  - unfold ForeachSetting. rewrite Hv. destruct (settings_safe p) as [l ->]. cbn [negb obind].
    destruct (foreach _ _ l) as [[n buf] oe]. eauto.
Qed.
End Clean.

(** ** The log of written frames *)

(** The debug framer between two calls. *)
Record debug_ready (fr : Framer) : Prop := {
  dr_r : fr_r fr = mkReader [] EOF;
  dr_illegal : AllowIllegalReads fr = true;
  dr_meta : ReadMetaHeaders fr = None;
  dr_max : maxReadSize fr = maxFrameSize
}.
Lemma debugFramer_ready : debug_ready debugFramer.
Proof. by split. Qed.

Lemma wire_typed b f : wire b f -> header_typed (Header f).
Proof.
  intros Hw. destruct (wire_header b f Hw) as (p & _ & _ & Hh). destruct Hw as (_ & _ & _ & _ & Hb & _).
  eapply readFrameHeader_typed; [|apply (Hh [] EOF)|done]. cbn [rdata]. by rewrite app_nil_r.
Qed.

Lemma debug_reads chunkCap fr b f :
  (forall n, n <= chunkCap n) -> debug_ready fr -> wire b f ->
  exists fr', ReadFrame chunkCap (set_r fr (mkReader b EOF)) = (fr', Ret (Plain f)) /\ debug_ready fr'.
Proof.
  intros Hc [Hr Hi Hm Hx] Hw. pose proof (wire_typed b f Hw) as Ht. unfold ReadFrame. cbn [ReadFrameN].
  rewrite (readOrdered_wire chunkCap _ b f []); [|done|done|by rewrite app_nil_r|].
  - unfold checkFrameOrder. cbn [AllowIllegalReads set_r set_lastFrame set_errDetail]. rewrite Hi. cbn [obind].
    cbn [ReadMetaHeaders set_r set_lastFrame set_errDetail]. rewrite Hm.
    destruct f; (eexists; split; [reflexivity|by split]).
  - cbn [maxReadSize set_r]. rewrite Hx. unfold header_typed, maxFrameSize in *. lia.
Qed.

Lemma wire_valid b f : wire b f -> valid (Header f) = true.
Proof.
  intros Hw. destruct (wire_header b f Hw) as (p & _ & _ & Hh).
  destruct (readFrameHeader_spec (mkReader (b ++ []) EOF)) as (r' & o & E & _ & _ & Hv).
  rewrite Hh in E. injection E as _ <-. by apply (Hv _ eq_refl).
Qed.

(** With [logWrites] on, every frame written with legal arguments is logged as
    itself: the debug framer, whatever it has read before, decodes the bytes, and
    the line is the description of the frame the peer will read. *)
Lemma logWrite_reads isPrint chunkCap dbg c :
  (forall n, n <= chunkCap n) -> (forall fr, dbg = Some fr -> debug_ready fr) -> call_ok c ->
  exists b line fr', write false c = Ret b /\ summarizeFrame isPrint (call_frame c) = Some line /\
    logWrite isPrint chunkCap dbg b = Some (fr', LogWrote line) /\ debug_ready fr'.
Proof.
  intros Hc Hd Hok. destruct (call_roundtrips c Hok) as (b & Hb & Hw).
  destruct (summarizeFrame_total isPrint (call_frame c)) as [line Hline]; [by eapply wire_valid|].
  assert (Hr : debug_ready (default debugFramer dbg)).
  { destruct dbg; [by apply Hd|apply debugFramer_ready]. }
  destruct (debug_reads chunkCap _ b _ Hc Hr Hw) as (fr' & HR & Hr'). exists b, line, fr'.
  split_and!; [done|done| |done]. unfold logWrite. rewrite (dr_r _ Hr). cbn [rdata app]. by rewrite HR, Hline.
Qed.

(** ** The theorem *)


