(* ===== verification/FrameUtil.v ===== *)
(** * Helpers of the frame package: h2/frame/http2.go

    The sorted keys of a header ([sorter]), the writer that borrows a buffer from
    a pool while it has data ([bufferedWriter], over the [bufio.Writer] of the
    standard library), [closeWaiter] and small checks.  A panic is [None]. *)
From stdpp Require Import sorting.
From S2P Require Import Prelude Timeout Frame.

(** ** Small checks *)

(** [strconv.Itoa] *)
Definition Itoa (n : Z) : list Z := if n <? 0 then 45 :: FormatInt (- n) else FormatInt n.
Definition httpCodeString (code : Z) : list Z :=
  if code =? 200 then str "200" else if code =? 404 then str "404" else Itoa code.

Definition mustUint31 (v : Z) : option Z := if (v <? 0) || (v >? 2147483647) then None else Some (u32 v).

Definition bodyAllowedForStatus (status : Z) : bool :=
  if (status >=? 100) && (status <=? 199) then false else
  if status =? 204 then false else
  if status =? 304 then false else true.

Definition validPseudoPath (v : list Z) : bool :=
  match v with b :: _ => b =? 47 | [] => false end || bool_decide (v = str "*").

Lemma httpCodeString_Itoa code : httpCodeString code = Itoa code.
Proof. unfold httpCodeString. destruct (Z.eqb_spec code 200) as [->|]; [done|]. by destruct (Z.eqb_spec code 404) as [->|]. Qed.

Lemma mustUint31_spec v : is_i32 v -> mustUint31 v = if 0 <=? v then Some v else None.
Proof.
  unfold is_i32, mustUint31. intros H. destruct (Z.ltb_spec v 0), (Z.leb_spec 0 v); try lia; [done|].
  destruct (Z.gtb_spec v 2147483647); [lia|]. cbn [orb]. unfold u32. by rewrite Z.mod_small by lia.
Qed.

(** ** closeWaiter *)
Inductive closeWaiter := cwNil | cwOpen | cwClosed.
Definition cw_Init (_ : closeWaiter) : closeWaiter := cwOpen.
(** [close] panics on a channel that is nil or closed. *)
Definition cw_Close (cw : closeWaiter) : option closeWaiter :=
  match cw with cwOpen => Some cwClosed | _ => None end.
(** Does [Wait] return? *)
Definition cw_Wait (cw : closeWaiter) : bool := match cw with cwClosed => true | _ => false end.

Lemma closeWaiter_cycle cw :
  cw_Wait (cw_Init cw) = false /\
  exists cw', cw_Close (cw_Init cw) = Some cw' /\ cw_Wait cw' = true /\ cw_Close cw' = None.
Proof. split; [done|]. by exists cwClosed. Qed.

(** ** sorter *)

(** The order of strings is that of their bytes. *)
Fixpoint string_le (a b : list Z) : Prop :=
  match a, b with
  | [], _ => True
  | _, [] => False
  | x :: a, y :: b => x < y \/ x = y /\ string_le a b
  end.
#[export] Instance string_le_dec : RelDecision string_le.
Proof.
  intros a. induction a as [|x a IH]; intros [|y b]; cbn [string_le]; try (by left); [right; tauto|].
  destruct (IH b); destruct (decide (x < y)), (decide (x = y)); first [left; tauto|right; tauto].
Defined.
#[export] Instance string_le_total : Total string_le.
Proof.
  intros a. induction a as [|x a IH]; intros [|y b]; cbn [string_le]; auto.
  destruct (Z.lt_trichotomy x y) as [|[->|]]; [auto| |auto]. destruct (IH b); auto.
Qed.
#[export] Instance string_le_trans : Transitive string_le.
Proof.
  intros a. induction a as [|x a IH]; intros [|y b] [|z c]; cbn [string_le]; try done.
  intros [?|[-> ?]] [?|[-> ?]]; [left; lia|by left|by left|]. right. split; [done|]. by eapply IH.
Qed.
#[export] Instance string_le_antisym : AntiSymm (=) string_le.
Proof.
  intros a. induction a as [|x a IH]; intros [|y b]; cbn [string_le]; try done.
  intros [?|[-> ?]] [?|[? ?]]; try lia. f_equal. by apply IH.
Qed.

Record sorter := mkSorter { sv : list (list Z) }.
(** [sort.Sort] orders the slice by [Less] (with [Swap] only, so it permutes it). *)
Definition Sort (s : sorter) : sorter := mkSorter (merge_sort string_le (sv s)).

(** [Keys] of a header, whose keys come in the order [h] of the range. *)
Definition Keys (s : sorter) (h : list (list Z)) : sorter * list (list Z) :=
  let keys := foldl (fun keys k => keys ++ [k]) (take 0 (sv s)) h in
  let s := Sort (mkSorter keys) in
  (s, sv s).
(** [SortStrings] sorts the caller's slice, its second result. *)
Definition SortStrings (s : sorter) (ss : list (list Z)) : sorter * list (list Z) :=
  let save := sv s in
  let s := Sort (mkSorter ss) in
  (mkSorter save, sv s).

Lemma Sort_spec s : Sorted string_le (sv (Sort s)) /\ sv (Sort s) ≡ₚ sv s.
Proof. split; [apply Sorted_merge_sort, _|apply merge_sort_Permutation]. Qed.

Lemma Sort_perm a b : a ≡ₚ b -> Sort (mkSorter a) = Sort (mkSorter b).
Proof.
  intros Hp. unfold Sort. f_equal. cbn [sv]. apply (Sorted_unique string_le); [apply Sorted_merge_sort, _..|].
  by rewrite !merge_sort_Permutation.
Qed.

Lemma Keys_eq s h : Keys s h = (Sort (mkSorter h), sv (Sort (mkSorter h))).
Proof.
  unfold Keys. enough (forall acc, foldl (fun keys k => keys ++ [k]) acc h = acc ++ h) as -> by done.
  induction h as [|k h IH]; intros acc; cbn [foldl]; [by rewrite app_nil_r|]. rewrite IH. by rewrite <- app_assoc.
Qed.

(** The keys are all those of the header, in order, whatever the order of the
    range was and whatever the sorter was used for before. *)
Lemma Keys_sorted s s' h h' : h ≡ₚ h' ->
  (Keys s h).2 = (Keys s' h').2 /\ Sorted string_le (Keys s h).2 /\ (Keys s h).2 ≡ₚ h.
Proof.
  intros Hp. rewrite !Keys_eq. cbn [snd]. split; [by rewrite (Sort_perm h h')|]. apply Sort_spec.
Qed.
Lemma SortStrings_spec s ss :
  (SortStrings s ss).1 = s /\ Sorted string_le (SortStrings s ss).2 /\ (SortStrings s ss).2 ≡ₚ ss.
Proof. destruct s. split; [done|]. apply (Sort_spec (mkSorter ss)). Qed.

(** ** bufferedWriter *)
Section BufferedWriter.
(** The writer below: its state, and what a [Write] takes and returns. *)
Context {W : Type} (write : W -> list Z -> W * (Z * option ioErr)).

(** A [bufio.Writer]: the bytes in its buffer, its error, and whether it has a
    writer (those in the pool have none). *)
Record bufioWriter := mkBufio { b_buf : list Z; b_err : option ioErr; b_wr : bool }.

Definition bufWriterPoolBufferSize : Z := Z.shiftl 4 10.
Definition NewWriterSize : bufioWriter := mkBufio [] None false.
Definition bufio_Reset (wr : bool) (b : bufioWriter) : bufioWriter := mkBufio [] None wr.
Definition bufio_Available (b : bufioWriter) : Z := bufWriterPoolBufferSize - len (b_buf b).

Definition bufio_Flush (w : W) (b : bufioWriter) : option (W * bufioWriter * option ioErr) :=
  match b_err b with
  | Some e => Some (w, b, Some e)
  | None =>
      if len (b_buf b) =? 0 then Some (w, b, None) else
      if negb (b_wr b) then None else
      let '(w, (n, e)) := write w (b_buf b) in
      let e := match e with None => if n <? len (b_buf b) then Some ErrShortWrite else None | e => e end in
      match e with
      | Some _ => Some (w, mkBufio (drop (Z.to_nat n) (b_buf b)) e (b_wr b), e)
      | None => Some (w, mkBufio [] None (b_wr b), None)
      end
  end.

(** [bufio.Writer.Write]: a buffer that is empty is bypassed.  [nn] counts the
    bytes taken so far. *)
Fixpoint bufio_Write (fuel : nat) (w : W) (b : bufioWriter) (p : list Z) (nn : Z)
    : option (W * bufioWriter * (Z * option ioErr)) :=
  match b_err b with
  | Some e => Some (w, b, (nn, Some e))
  | None =>
      let avail := bufio_Available b in
      if len p <=? avail then
        Some (w, mkBufio (b_buf b ++ p) None (b_wr b), (nn + len p, None))
      else
        match fuel with
        | O => None
        | S fuel =>
            if len (b_buf b) =? 0 then
              if negb (b_wr b) then None else
              let '(w, (n, e)) := write w p in
              bufio_Write fuel w (mkBufio (b_buf b) e (b_wr b)) (drop (Z.to_nat n) p) (nn + n)
            else
              '(w, b, _) ← bufio_Flush w (mkBufio (b_buf b ++ take (Z.to_nat avail) p) None (b_wr b));
              bufio_Write fuel w b (drop (Z.to_nat avail) p) (nn + avail)
        end
  end.

(** The writer below, the buffer while there is one, and the pool. *)
Record bufferedWriter := mkBuffered { bfw_w : W; bfw_bw : option bufioWriter; bfw_pool : list bufioWriter }.

Definition newBufferedWriter (w : W) (pool : list bufioWriter) : bufferedWriter := mkBuffered w None pool.

(** [sync.Pool.Get] returns one of those put back, or a new one. *)
Definition poolGet (i : nat) (pool : list bufioWriter) : bufioWriter * list bufioWriter :=
  match pool !! i with Some b => (b, delete i pool) | None => (NewWriterSize, pool) end.

Definition Available (w : bufferedWriter) : Z :=
  match bfw_bw w with None => bufWriterPoolBufferSize | Some b => bufio_Available b end.

(** [i] says which buffer the pool gives. *)
Definition Write (i : nat) (w : bufferedWriter) (p : list Z) : option (bufferedWriter * (Z * option ioErr)) :=
  let '(bw, pool) := match bfw_bw w with
                     | Some bw => (bw, bfw_pool w)
                     | None => let '(bw, pool) := poolGet i (bfw_pool w) in (bufio_Reset true bw, pool)
                     end in
  '(u, bw, r) ← bufio_Write (S (S (length p))) (bfw_w w) bw p 0;
  Some (mkBuffered u (Some bw) pool, r).

Definition Flush (w : bufferedWriter) : option (bufferedWriter * option ioErr) :=
  match bfw_bw w with
  | None => Some (w, None)
  | Some bw =>
      '(u, bw, e) ← bufio_Flush (bfw_w w) bw;
      Some (mkBuffered u None (bufio_Reset false bw :: bfw_pool w), e)
  end.

(** A run of calls; it ends when one of them reports an error. *)
Inductive bufferedOp := OpWrite (i : nat) (p : list Z) | OpFlush.
Fixpoint runOps (w : bufferedWriter) (l : list bufferedOp) : option (bufferedWriter * option ioErr) :=
  match l with
  | [] => Some (w, None)
  | op :: l =>
      '(w, e) ← match op with
                | OpWrite i p => '(w, (_, e)) ← Write i w p; Some (w, e)
                | OpFlush => Flush w
                end;
      match e with None => runOps w l | Some e => Some (w, Some e) end
  end.

(** *** What arrives *)

(** What io.Writer documents: [Write] takes a prefix of the bytes, and all of them
    unless it returns an error.  [sent] is what it took so far. *)
Context (sent : W -> list Z).
Hypothesis write_takes : forall w p w' n e, write w p = (w', (n, e)) ->
  0 <= n <= len p /\ sent w' = sent w ++ take (Z.to_nat n) p /\ (n < len p -> e <> None).

(** Everything taken is below or in the buffer, unless there was an error. *)
Record bufio_ok (w : W) (b : bufioWriter) (total : list Z) : Prop := {
  bo_len : len (b_buf b) <= bufWriterPoolBufferSize;
  bo_wr : b_wr b = true;
  bo_all : b_err b = None -> sent w ++ b_buf b = total
}.

Lemma write_all w p w' n : write w p = (w', (n, None)) -> n = len p /\ sent w' = sent w ++ p.
Proof.
  intros E. destruct (write_takes _ _ _ _ _ E) as (Hn & Hs & He).
  assert (n = len p) as -> by (destruct (decide (n < len p)) as [H|]; [by destruct (He H)|lia]).
  split; [done|]. rewrite Hs. unfold len. by rewrite Nat2Z.id, firstn_all.
Qed.

Lemma bufio_Flush_ok w b total : bufio_ok w b total ->
  exists w' b' e, bufio_Flush w b = Some (w', b', e) /\ bufio_ok w' b' total /\ b_err b' = e /\
    (e = None -> b_buf b' = [] /\ sent w' = total).
Proof.
  intros [Hl Hw Ha]. unfold bufio_Flush. destruct (b_err b) as [e|] eqn:Ee.
  { eexists _, _, _. split; [done|]. split; [|done]. split; [done|done|]. by rewrite Ee. }
  destruct (Z.eqb_spec (len (b_buf b)) 0) as [H0|H0].
  { assert (Hnil : b_buf b = []) by (destruct (b_buf b); [done|rewrite len_cons in H0; pose proof (len_nonneg l); lia]).
    eexists _, _, _. split; [done|]. split; [by split; auto|]. split; [done|]. intros _. split; [done|].
    rewrite <- Ha by done. by rewrite Hnil, app_nil_r. }
  rewrite Hw. cbn [negb]. destruct (write w (b_buf b)) as [w' [n e]] eqn:E.
  pose proof (write_takes _ _ _ _ _ E) as (Hn & Hs & He).
  destruct e as [e|].
  { eexists _, _, _. split; [done|]. split; [|done]. split; [|done|done]. cbn [b_buf]. unfold len in *.
    rewrite length_drop. lia. }
  apply write_all in E as [-> Hs']. rewrite Z.ltb_irrefl.
  eexists _, _, _. split; [done|]. split_and!; [|done|].
  - split; [done|done|]. intros _. cbn [b_buf]. by rewrite app_nil_r, Hs', Ha.
  - intros _. split; [done|]. by rewrite Hs', Ha.
Qed.

(** The result of [bufio.Writer.Write] for the bytes [p]. *)
Definition bufio_wrote (total p : list Z) (nn : Z) (r : option (W * bufioWriter * (Z * option ioErr))) : Prop :=
  exists w' b' n e, r = Some (w', b', (n, e)) /\ bufio_ok w' b' (total ++ p) /\ b_err b' = e /\
    (e = None -> n = nn + len p).

Lemma bufio_Write_fits fuel w b p total nn :
  bufio_ok w b total -> b_err b = None -> len p <= bufio_Available b ->
  bufio_wrote total p nn (bufio_Write fuel w b p nn).
Proof.
  intros [Hl Hw Ha] He Hp. destruct fuel; cbn [bufio_Write]; rewrite He;
    destruct (Z.leb_spec (len p) (bufio_Available b)); try lia.
  all: eexists _, _, _, _; split; [done|]; split_and!; [|done|done]; split; [|done|];
    [cbn [b_buf]; rewrite len_app; unfold bufio_Available in *; lia|intros _; cbn [b_buf]; by rewrite app_assoc, Ha].
Qed.

(** After an error nothing more is written. *)
Lemma bufio_Write_failed fuel w b q nn' total p nn e :
  bufio_ok w b total -> b_err b = Some e -> bufio_wrote total p nn (bufio_Write fuel w b q nn').
Proof.
  intros [Hl Hw Ha] He. exists w, b, nn', (Some e). destruct fuel; cbn [bufio_Write]; rewrite He;
    (split; [done|]; split_and!; [|done|done]; split; [done|done|by rewrite He]).
Qed.

Lemma bufio_Write_empty fuel w b p total nn :
  bufio_ok w b total -> b_err b = None -> b_buf b = [] ->
  bufio_wrote total p nn (bufio_Write (S fuel) w b p nn).
Proof.
  intros Hok He Hb. destruct (Z.leb_spec (len p) (bufio_Available b)); [by apply bufio_Write_fits|].
  destruct Hok as [Hl Hw Ha]. cbn [bufio_Write]. rewrite He, Hb, Hw.
  destruct (Z.leb_spec (len p) (bufio_Available b)); [lia|]. change (len [] =? 0) with true. cbn [negb].
  rewrite Hb, app_nil_r in Ha. destruct (write w p) as [w' [n [e|]]] eqn:E.
  - apply (bufio_Write_failed _ _ _ _ _ _ _ _ e); [|done].
    split; [done|done|done].
  - apply write_all in E as [-> Hs]. assert (Z.to_nat (len p) = length p) as -> by (unfold len; lia). rewrite drop_all.
    destruct (bufio_Write_fits fuel w' (mkBufio [] None true) [] (total ++ p) (nn + len p)) as (w2 & b2 & n & e & -> & Hok & He2 & Hn).
    + split; [done|done|]. intros _. cbn [b_buf]. by rewrite app_nil_r, Hs, Ha.
    + done.
    + done.
    + exists w2, b2, n, e. rewrite app_nil_r in Hok. split_and!; [done|done|done|].
      intros H1. rewrite (Hn H1). rewrite len_nil. lia.
Qed.

(** Two rounds are enough: one fills and flushes the buffer, one bypasses it. *)
Lemma bufio_Write_ok fuel w b p total nn :
  bufio_ok w b total -> bufio_wrote total p nn (bufio_Write (S (S fuel)) w b p nn).
Proof.
  intros Hok. destruct (b_err b) as [e|] eqn:He; [by eapply bufio_Write_failed|].
  destruct (Z.leb_spec (len p) (bufio_Available b)) as [|Hp]; [by apply bufio_Write_fits|].
  destruct (Z.eqb_spec (len (b_buf b)) 0) as [H0|H0].
  { apply bufio_Write_empty; [done|done|]. by apply nil_length_inv, Nat2Z.inj. }
  remember (S fuel) as fuel1 eqn:Ef. cbn [bufio_Write]. rewrite He.
  destruct (Z.leb_spec (len p) (bufio_Available b)); [lia|]. destruct (Z.eqb_spec (len (b_buf b)) 0); [lia|].
  set (av := bufio_Available b) in *. assert (Hav : 0 <= av) by (unfold av, bufio_Available; destruct Hok; lia).
  assert (Htk : len (take (Z.to_nat av) p) = av) by (unfold len in *; rewrite length_take; lia).
  destruct (bufio_Flush_ok w (mkBufio (b_buf b ++ take (Z.to_nat av) p) None (b_wr b)) (total ++ take (Z.to_nat av) p))
    as (w1 & b1 & e & -> & Hok1 & He1 & Hn1).
  { destruct Hok as [Hl Hw Ha]. split; cbn [b_buf b_wr b_err]; [|done|].
    - rewrite len_app, Htk. unfold av, bufio_Available. lia.
    - intros _. by rewrite app_assoc, Ha. }
  cbn [mbind option_bind]. destruct e as [e|].
  { destruct Hok1. apply (bufio_Write_failed _ _ _ _ _ _ _ _ e); [|done]. split; [done|done|by rewrite He1]. }
  destruct (Hn1 eq_refl) as [Hb1 _]. subst fuel1.
  destruct (bufio_Write_empty fuel w1 b1 (drop (Z.to_nat av) p) _ (nn + av) Hok1 He1 Hb1)
    as (w2 & b2 & n2 & e & -> & Hok2 & He2 & Hn2).
  rewrite <- app_assoc, take_drop in Hok2. exists w2, b2, n2, e. split_and!; [done|done|done|].
  intros H1. rewrite (Hn2 H1). unfold len in *. rewrite length_drop. lia.
Qed.

(** *** Runs *)
Definition op_bytes (op : bufferedOp) : list Z := match op with OpWrite _ p => p | OpFlush => [] end.

Record bfw_ok (w : bufferedWriter) (total : list Z) : Prop := {
  fo_none : bfw_bw w = None -> sent (bfw_w w) = total;
  fo_some : forall b, bfw_bw w = Some b -> bufio_ok (bfw_w w) b total /\ b_err b = None
}.
Lemma newBufferedWriter_ok w pool : bfw_ok (newBufferedWriter w pool) (sent w).
Proof. by split. Qed.

Lemma Write_ok i w p total : bfw_ok w total ->
  exists w' n e, Write i w p = Some (w', (n, e)) /\ (e = None -> n = len p /\ bfw_ok w' (total ++ p)).
Proof.
  intros [Hn Hs]. unfold Write.
  destruct (match bfw_bw w with Some _ => _ | None => _ end) as [bw pool] eqn:E.
  assert (Hok : bufio_ok (bfw_w w) bw total).
  { destruct (bfw_bw w) as [b|] eqn:Eb.
    - injection E as <- _. by apply Hs.
    - destruct (poolGet i (bfw_pool w)). injection E as <- _. split; [done|done|].
      intros _. cbn [b_buf bufio_Reset]. rewrite app_nil_r. by apply Hn. }
  destruct (bufio_Write_ok (length p) _ _ p _ 0 Hok) as (u & b & n & e & -> & Hok' & He & Hlen).
  cbn [mbind option_bind]. eexists _, n, e. split; [done|]. intros ->. split; [by rewrite Hlen by done|].
  split; cbn [bfw_bw bfw_w]; [done|]. by intros ? [= <-].
Qed.

Lemma bfw_Flush_ok w total : bfw_ok w total ->
  exists w' e, Flush w = Some (w', e) /\ bfw_bw w' = None /\ (e = None -> sent (bfw_w w') = total).
Proof.
  intros [Hn Hs]. unfold Flush. destruct (bfw_bw w) as [b|] eqn:Eb.
  - destruct (Hs b eq_refl) as [Hok _]. destruct (bufio_Flush_ok _ _ _ Hok) as (u & b' & e & -> & _ & _ & He).
    cbn [mbind option_bind]. eexists _, e. split; [done|]. split; [done|]. intros H. by apply He.
  - eexists _, _. split; [done|]. split; [done|]. intros _. by apply Hn.
Qed.

(** The bytes written come out in order, whatever buffers the pool gives and
    however the writes and flushes are mixed: when no call reported an error, they
    are below or in the buffer, and after a flush all are below. *)
Lemma bufferedWriter_stream w total l : bfw_ok w total ->
  exists w' e, runOps w l = Some (w', e) /\
    (e = None -> bfw_ok w' (total ++ (l ≫= op_bytes)) /\
       exists w'' e', Flush w' = Some (w'', e') /\ (e' = None -> sent (bfw_w w'') = total ++ (l ≫= op_bytes))).
Proof.
  revert w total. induction l as [|op l IH]; intros w total Hok; cbn [runOps mbind list_bind].
  { eexists _, _. split; [done|]. intros _. rewrite app_nil_r. split; [done|].
    destruct (bfw_Flush_ok w total Hok) as (w' & e & H & _ & He). eauto. }
  destruct op as [i p|]; cbn [op_bytes].
  - destruct (Write_ok i w p total Hok) as (w1 & n & e & -> & He). cbn [mbind option_bind].
    destruct e as [e|]; [by eexists _, _|]. rewrite app_assoc. apply IH. by apply He.
  - destruct (bfw_Flush_ok w total Hok) as (w1 & e & -> & Hb & He). cbn [mbind option_bind app].
    destruct e as [e|]; [by eexists _, _|]. apply IH. split; [intros _; by apply He|]. by rewrite Hb.
Qed.
End BufferedWriter.
