(* ===== verification/Events.v ===== *)
(** * Connection events: h2/events.go

    The handlers registered for the events of a transport.  A handler is an
    [EventHandlerFunc], known by its name, or an [eventChain] of handlers; firing
    an event gives the names of the functions called, in order.  A slice that is
    nil is [None]; an index out of range panics, which is [None] too. *)
From S2P Require Import Prelude ControlBuf.

Definition EventType : Type := Z.
Definition Event_Unknown : EventType := 0.
Definition Event_Connect_Start : EventType := 1.
Definition Event_Connect_Done : EventType := 2.
Definition Event_Settings : EventType := 3.
Definition Event_GoAway : EventType := 4.
Definition Event_ConnClose : EventType := 5.
Definition Event_Response : EventType := 6.
Definition EventStreamRequestStart : EventType := 7.
Definition EventStreamStart : EventType := 8.
Definition Event_WroteHeaders : EventType := 9.
Definition EventGotFirstResponseByte : EventType := 10.
Definition EventSendDone : EventType := 11.
Definition EventReceiveDone : EventType := 12.
Definition EventStreamClosed : EventType := 13.
Definition Event_FrameReceived : EventType := 14.
Definition Event_FrameSent : EventType := 15.
Definition EventLAST : EventType := 16.

Inductive EventHandler :=
| EventHandlerFunc (f : callback)
| eventChain (chain : list EventHandler).

(** A chain calls its handlers in order. *)
Fixpoint HandleEvent (eh : EventHandler) : list callback :=
  match eh with
  | EventHandlerFunc f => [f]
  | eventChain chain => mbind HandleEvent chain
  end.

Record Events := mkEvents { eventHandlers : option (list (option EventHandler)) }.
Definition no_events : Events := mkEvents None.

(** [s[i]] panics outside of the slice. *)
Definition index {A} (s : list A) (i : Z) : option A := if i <? 0 then None else s !! Z.to_nat i.
Definition set_index {A} (s : list A) (i : Z) (v : A) : option (list A) :=
  _ ← index s i; Some (<[Z.to_nat i := v]> s).

Definition GetHandler (e : Events) (t : EventType) : option (option EventHandler) :=
  match eventHandlers e with
  | None => Some None
  | Some s => index s t
  end.

(** [make([]EventHandler, EventLAST)] *)
Definition no_handlers : list (option EventHandler) := replicate (Z.to_nat EventLAST) None.

(** [ec] is a copy of the chain: the slice [append] makes is stored in the copy
    only.  A chain has as many handlers as room for them (it is written as a
    literal), so [append] does not write into the shared array either. *)
Definition OnEvent (e : Events) (t : EventType) (eh : option EventHandler) : option Events :=
  if t >? EventLAST then Some e else
  let s := default no_handlers (eventHandlers e) in
  match eh with
  | None => Some (mkEvents (Some s))
  | Some eh =>
      oeh ← index s t;
      match oeh with
      | None => s ← set_index s t (Some eh); Some (mkEvents (Some s))
      | Some (eventChain chain) => Some (mkEvents (Some s))
      | Some oeh => s ← set_index s t (Some (eventChain [oeh; eh])); Some (mkEvents (Some s))
      end
  end.

Definition Add (e events : Events) : option Events :=
  foldl (fun e ih => e ← e; OnEvent e (ih.1 : Z) ih.2) (Some e)
    (imap (fun i eh => (Z.of_nat i, eh)) (default [] (eventHandlers events))).

(** [MuxEvent] and [streamEvent] call the handler of the event, if there is one:
    the names of the functions called, or a panic. *)
Definition fire (e : Events) (t : EventType) : option (list callback) :=
  eh ← GetHandler e t; Some (default [] (HandleEvent <$> eh)).

(** ** Registration *)
Lemma no_handlers_at i o : no_handlers !! i = Some o -> o = None.
Proof. intros H. by apply lookup_replicate in H as [-> _]. Qed.

Definition registered (e : Events) (t : EventType) : list callback := default [] (fire e t).

(** The slice has an entry for each event, and chains have two handlers. *)
Definition two (eh : EventHandler) : Prop :=
  match eh with EventHandlerFunc _ => True | eventChain l => length (HandleEvent (eventChain l)) = 2%nat end.
Record ev_wf (e : Events) : Prop := {
  ew_len : forall s, eventHandlers e = Some s -> length s = Z.to_nat EventLAST;
  ew_two : forall s i eh, eventHandlers e = Some s -> s !! i = Some (Some eh) -> two eh
}.

Definition valid_event (t : EventType) : Prop := 0 <= t < EventLAST.

Lemma no_events_wf : ev_wf no_events.
Proof. by split. Qed.

(** The slice a registration works on. *)
Definition slots (e : Events) : list (option EventHandler) :=
  default no_handlers (eventHandlers e).

Lemma slots_length e : ev_wf e -> length (slots e) = Z.to_nat EventLAST.
Proof.
  intros [Hl _]. unfold slots. destruct (eventHandlers e); [by apply Hl|done].
Qed.
Lemma slots_two e i eh : ev_wf e -> slots e !! i = Some (Some eh) -> two eh.
Proof.
  intros [_ Ht] H. unfold slots in H. destruct (eventHandlers e) eqn:E; simpl in H.
  - by eapply Ht.
  - by apply no_handlers_at in H.
Qed.
Lemma slot_at e t : ev_wf e -> valid_event t -> exists o, slots e !! Z.to_nat t = Some o.
Proof.
  intros He Ht. apply lookup_lt_is_Some. rewrite slots_length by done. unfold valid_event in Ht. lia.
Qed.
Lemma index_at {A} (s : list A) t : 0 <= t -> index s t = s !! Z.to_nat t.
Proof. intros. unfold index. destruct (Z.ltb_spec t 0); [lia|done]. Qed.

Lemma fire_slots e t : ev_wf e -> valid_event t ->
  exists o, slots e !! Z.to_nat t = Some o /\ fire e t = Some (default [] (HandleEvent <$> o)).
Proof.
  intros He Ht. destruct (slot_at e t He Ht) as [o Ho]. exists o. split; [done|].
  unfold fire, GetHandler, slots in *. destruct (eventHandlers e); simpl in *.
  - rewrite index_at by apply Ht. by rewrite Ho.
  - by apply no_handlers_at in Ho as ->.
Qed.

Definition with_slot (e : Events) (t : EventType) (o : option EventHandler) : Events :=
  mkEvents (Some (<[Z.to_nat t := o]> (slots e))).

Lemma OnEvent_cases e t f : ev_wf e -> valid_event t ->
  exists o, slots e !! Z.to_nat t = Some o /\
    OnEvent e t (Some (EventHandlerFunc f)) =
      Some (match o with
            | None => with_slot e t (Some (EventHandlerFunc f))
            | Some (eventChain _) => mkEvents (Some (slots e))
            | Some (EventHandlerFunc g) =>
                with_slot e t (Some (eventChain [EventHandlerFunc g; EventHandlerFunc f]))
            end).
Proof.
  intros He Ht. destruct (slot_at e t He Ht) as [o Ho]. exists o. split; [done|].
  unfold OnEvent. destruct Ht as [H0 HL].
  destruct (Z.gtb_spec t EventLAST); [lia|]. fold (slots e).
  unfold set_index. rewrite index_at, Ho by done. simpl. by destruct o as [[|]|].
Qed.

Lemma with_slot_wf e t o : ev_wf e -> (forall eh, o = Some eh -> two eh) -> ev_wf (with_slot e t o).
Proof.
  intros He Ho. split; simpl; intros s.
  - intros [= <-]. rewrite length_insert. by apply slots_length.
  - intros i eh [= <-] H. destruct (decide (i = Z.to_nat t)) as [->|Hi].
    + destruct (decide (Z.to_nat t < length (slots e))%nat).
      * rewrite list_lookup_insert_eq in H by done. apply Ho. congruence.
      * rewrite list_insert_ge in H by lia. by eapply slots_two.
    + rewrite list_lookup_insert_ne in H by done. by eapply slots_two.
Qed.
Lemma slots_wf e : ev_wf e -> ev_wf (mkEvents (Some (slots e))).
Proof.
  intros He. split; simpl; intros s.
  - intros [= <-]. by apply slots_length.
  - intros i eh [= <-] H. by eapply slots_two.
Qed.

Lemma registered_slot e t o : ev_wf e -> valid_event t -> slots e !! Z.to_nat t = Some o ->
  registered e t = default [] (HandleEvent <$> o).
Proof.
  intros He Ht Ho. unfold registered. destruct (fire_slots e t He Ht) as (o' & Ho' & ->).
  simpl. congruence.
Qed.

(** Registering a function: the event calls it too unless it has two handlers
    already, and no other event changes. *)
Lemma OnEvent_registered e t f : ev_wf e -> valid_event t ->
  exists e', OnEvent e t (Some (EventHandlerFunc f)) = Some e' /\ ev_wf e' /\
    registered e' t = take 2 (registered e t ++ [f]) /\
    (forall t', valid_event t' -> t' <> t -> registered e' t' = registered e t').
Proof.
  intros He Ht. destruct (OnEvent_cases e t f He Ht) as (o & Ho & ->).
  eexists. split; [done|].
  assert (Hlen : (Z.to_nat t < length (slots e))%nat) by (eapply lookup_lt_Some; eauto).
  assert (Hre := registered_slot e t o He Ht Ho).
  assert (Hother : forall o' t', valid_event t' -> t' <> t ->
    ev_wf (with_slot e t o') -> registered (with_slot e t o') t' = registered e t').
  { intros o' t' Ht' Hne Hwf. destruct (slot_at e t' He Ht') as [o'' Ho''].
    rewrite (registered_slot e t' o'') by done. apply registered_slot; [done..|].
    unfold slots at 1. simpl. rewrite list_lookup_insert_ne; [done|].
    destruct Ht, Ht'. lia. }
  assert (Hsame : forall o', ev_wf (with_slot e t o') ->
    registered (with_slot e t o') t = default [] (HandleEvent <$> o')).
  { intros o' Hwf. apply registered_slot; [done..|]. unfold slots at 1. simpl.
    by rewrite list_lookup_insert_eq. }
  destruct o as [[g|l]|]; rewrite Hre.
  - assert (ev_wf (with_slot e t (Some (eventChain [EventHandlerFunc g; EventHandlerFunc f])))) as Hwf
      by (apply with_slot_wf; [done|by intros eh [= <-]]).
    split; [done|]. rewrite (Hsame _ Hwf). split; [done|]. intros. by apply Hother.
  - assert (Hwf := slots_wf e He).
    assert (Hl : length (HandleEvent (eventChain l)) = 2%nat) by (eapply (slots_two e _ _ He Ho)).
    split; [done|]. split.
    + rewrite (registered_slot _ _ (Some (eventChain l))) by done.
      simpl fmap. simpl default. rewrite take_app_le by (simpl in *; lia).
      symmetry. apply take_ge. simpl in *. lia.
    + intros t' Ht' _. destruct (slot_at e t' He Ht') as [o'' Ho''].
      rewrite (registered_slot e t' o'') by done. by apply registered_slot.
  - assert (ev_wf (with_slot e t (Some (EventHandlerFunc f)))) as Hwf
      by (apply with_slot_wf; [done|by intros eh [= <-]]).
    split; [done|]. rewrite (Hsame _ Hwf). split; [done|]. intros. by apply Hother.
Qed.

(** A sequence of registrations. *)
Fixpoint register (e : Events) (l : list (EventType * callback)) : option Events :=
  match l with
  | [] => Some e
  | (t, f) :: l => e ← OnEvent e t (Some (EventHandlerFunc f)); register e l
  end.

Definition handlers_for (t : EventType) (l : list (EventType * callback)) : list callback :=
  (filter (fun r => r.1 = t) l).*2.

Lemma take2_app (a b : list callback) : take 2 (take 2 a ++ b) = take 2 (a ++ b).
Proof. destruct a as [|? [|? ?]]; [done|done|]. by destruct b. Qed.

Lemma register_from e l t : ev_wf e -> Forall (fun r => valid_event r.1) l -> valid_event t ->
  exists e', register e l = Some e' /\ ev_wf e' /\
    take 2 (registered e' t) = take 2 (registered e t ++ handlers_for t l).
Proof.
  revert e. induction l as [|[t' f] l IH]; intros e He Hl Ht; simpl.
  - exists e. rewrite app_nil_r. done.
  - inversion Hl as [|? ? Ht' Hl']; subst. simpl in Ht'.
    destruct (OnEvent_registered e t' f He Ht') as (e1 & -> & He1 & Hsame & Hother). simpl.
    destruct (IH e1 He1 Hl' Ht) as (e' & ? & ? & Hr). exists e'. split; [done|]. split; [done|].
    rewrite Hr. unfold handlers_for. rewrite filter_cons. simpl.
    destruct (decide (t' = t)) as [->|Hne].
    + rewrite Hsame, take2_app. simpl. by rewrite <- app_assoc.
    + by rewrite Hother.
Qed.

(** However many functions are registered for the events of a connection, in
    whatever order, an event calls the first two registered for it, in the order
    of registration, and no other: a third one is dropped. *)
Theorem events_called (l : list (EventType * callback)) (t : EventType) :
  Forall (fun r => valid_event r.1) l -> valid_event t ->
  exists e, register no_events l = Some e /\ fire e t = Some (take 2 (handlers_for t l)).
Proof.
  intros Hl Ht.
  destruct (register_from no_events l t no_events_wf Hl Ht) as (e & He & Hwf & Hr).
  exists e. split; [done|].
  destruct (fire_slots e t Hwf Ht) as (o & Ho & Hf). rewrite Hf. f_equal.
  rewrite (registered_slot e t o Hwf Ht Ho) in Hr.
  assert (registered no_events t = []) as Hn.
  { unfold registered, fire, GetHandler. simpl. done. }
  rewrite Hn in Hr. simpl app in Hr. rewrite <- Hr. symmetry. apply take_ge.
  destruct o as [eh|]; [|simpl; lia]. pose proof (slots_two e _ eh Hwf Ho) as H2.
  destruct eh; simpl in *; lia.
Qed.

Example events_called_witness :
  exists e, register no_events [(Event_GoAway, 7); (Event_Settings, 8); (Event_GoAway, 9); (Event_GoAway, 10)] = Some e
    /\ fire e Event_GoAway = Some [7; 9].
Proof.
  apply (events_called [(Event_GoAway, 7); (Event_Settings, 8); (Event_GoAway, 9); (Event_GoAway, 10)] Event_GoAway).
  - repeat constructor; vm_compute; congruence.
  - vm_compute. intuition congruence.
Defined.

(** [EventLAST] itself passes the guard of [OnEvent] and panics. *)
Lemma OnEvent_last f : OnEvent no_events EventLAST (Some (EventHandlerFunc f)) = None.
Proof. reflexivity. Qed.

(** [Add] copies the handlers of a configuration into a new transport. *)
Lemma Add_empty_loop (s : list (option EventHandler)) (k : nat) (r : list (option EventHandler)) :
  (k + length s = Z.to_nat EventLAST)%nat -> length r = k ->
  foldl (fun e ih => e ← e; OnEvent e (ih.1 : Z) ih.2)
    (Some (mkEvents (Some (r ++ replicate (length s) None))))
    (imap (fun i eh => (Z.of_nat (k + i), eh)) s) = Some (mkEvents (Some (r ++ s))).
Proof.
  revert k r. induction s as [|o s IH]; intros k r Hk Hr; simpl; [done|].
  assert (HL : Z.to_nat EventLAST = 16%nat) by done.
  assert (OnEvent (mkEvents (Some (r ++ None :: replicate (length s) None))) (Z.of_nat (k + 0)) o
    = Some (mkEvents (Some ((r ++ [o]) ++ replicate (length s) None)))) as ->.
  { unfold OnEvent. destruct (Z.gtb_spec (Z.of_nat (k + 0)) EventLAST).
    { unfold EventLAST in *. simpl in Hk. lia. }
    simpl. destruct o as [eh|].
    - unfold set_index. rewrite index_at by lia. rewrite Nat2Z.id, Nat.add_0_r, <- Hr.
      rewrite list_lookup_middle by done. simpl. rewrite insert_app_r_alt by lia.
      rewrite Nat.sub_diag. simpl. by rewrite <- app_assoc.
    - by rewrite <- app_assoc. }
  change (imap ((fun i eh => (Z.of_nat (k + i), eh)) ∘ S) s)
    with (imap (fun i eh => (Z.of_nat (k + S i), eh)) s).
  rewrite (imap_ext _ (fun i eh => (Z.of_nat (S k + i), eh))) by (intros; simpl; do 2 f_equal; lia).
  rewrite (IH (S k) (r ++ [o])).
  - by rewrite <- app_assoc.
  - simpl in *. lia.
  - rewrite length_app. simpl. lia.
Qed.

(** A new transport starts with the handlers of its configuration. *)
Lemma Add_fresh e s : ev_wf e -> eventHandlers e = Some s -> Add no_events e = Some e.
Proof.
  intros He Hs. pose proof (ew_len e He s Hs) as Hl. unfold Add. rewrite Hs. simpl default.
  pose proof (Add_empty_loop s 0 [] Hl eq_refl) as H. simpl app in H.
  rewrite Hl in H. destruct e as [h]. simpl in Hs. subst h.
  destruct s as [|o s]; [done|]. rewrite <- H. done.
Qed.
Lemma Add_self e : ev_wf e -> Add no_events e = Some e.
Proof. destruct e as [[s|]] eqn:E; intros Hwf; [by eapply Add_fresh|done]. Qed.

(** ** A handler that is called stays so *)
Definition calls (e : Events) (t : EventType) (f : callback) : Prop := exists fs, fire e t = Some fs /\ f ∈ fs.

Lemma index_set {A} (s s' : list A) i j v : set_index s i v = Some s' ->
  index s' j = if decide (i = j) then Some v else index s j.
Proof.
  unfold set_index, index. destruct (Z.ltb_spec i 0); [done|]. simpl.
  destruct (s !! Z.to_nat i) eqn:E; [|done]. intros [= <-].
  destruct (Z.ltb_spec j 0); [by rewrite decide_False by lia|]. destruct (decide (i = j)) as [->|Hne].
  - apply list_lookup_insert_eq. by eapply lookup_lt_Some.
  - apply list_lookup_insert_ne. lia.
Qed.

Lemma fire_some s t f : calls (mkEvents (Some s)) t f <-> exists eh, index s t = Some (Some eh) /\ f ∈ HandleEvent eh.
Proof.
  unfold calls, fire, GetHandler. simpl. destruct (index s t) as [[eh|]|]; simpl; split.
  - intros (fs & [= <-] & Hf). eauto.
  - intros (eh' & [= <-] & Hf). eauto.
  - intros (fs & [= <-] & Hf). by apply elem_of_nil in Hf.
  - by intros (eh & ? & _).
  - by intros (fs & ? & _).
  - by intros (eh & ? & _).
Qed.

Lemma OnEvent_calls e t eh e' t' f : OnEvent e t eh = Some e' -> calls e t' f -> calls e' t' f.
Proof.
  unfold OnEvent. destruct (t >? EventLAST); [by intros [= <-]|]. destruct e as [[s|]]; cbn [eventHandlers from_option id].
  2:{ intros _ (fs & [= <-] & Hf). by apply elem_of_nil in Hf. }
  destruct eh as [eh|]; [|by intros [= <-]].
  destruct (index s t) as [oeh|] eqn:Ei; cbn [mbind option_bind]; [|done]. intros H Hc.
  assert (Hset : forall v s', set_index s t (Some v) = Some s' -> (forall o, oeh = Some o -> f ∈ HandleEvent o -> f ∈ HandleEvent v) ->
    calls (mkEvents (Some s')) t' f).
  { intros v s' Hs Hv. apply fire_some in Hc as (o & Ho & Hf). apply fire_some.
    pose proof (index_set s s' t t' (Some v) Hs) as Hi. case_decide; [subst t'|].
    - exists v. split; [done|]. apply (Hv o); [congruence|done].
    - exists o. split; [congruence|done]. }
  destruct oeh as [[g|l]|].
  - destruct (set_index _ _ _) as [s'|] eqn:Es; [|done]. injection H as <-. eapply Hset; [exact Es|].
    intros o [= <-] Hf. simpl in *. set_solver.
  - injection H as <-. done.
  - destruct (set_index _ _ _) as [s'|] eqn:Es; [|done]. injection H as <-. eapply Hset; [exact Es|]. intros o [=].
Qed.

Lemma Add_calls e events e' t f : Add e events = Some e' -> calls e t f -> calls e' t f.
Proof.
  unfold Add. generalize (imap (fun i eh => (Z.of_nat i, eh)) (default [] (eventHandlers events))). intros l.
  revert e. induction l as [|[i eh] l IH]; intros e; cbn [foldl]; [by intros [= <-]|]. cbn [mbind option_bind fst snd].
  intros H Hc. destruct (OnEvent e i eh) as [e1|] eqn:E.
  - eapply IH; [exact H|]. by eapply OnEvent_calls.
  - exfalso. clear -H. induction l as [|x l IHl]; cbn [foldl] in H; [done|]. by apply IHl.
Qed.
