(* ===== verification/Messages.v ===== *)
(** * Requests and responses as header lists: h2/h2_connection.go, h2/h2_connection_server.go

    [CreateHeader] and [writeResponseHeaders] turn a message into header fields,
    the loops of [operateAcceptHeaders] and [operateResponseHeaders] turn the
    fields received into a message.  Of package net/http, the map [Header] with
    [Add] and [Get], and the canonical form of its keys; of strings, [ToLower]
    and [SplitN] on ASCII strings.  A map is ranged over in an order that is not
    fixed, [rangeHeader]. *)
From S2P Require Import Prelude HpackTables Timeout Metadata.

Abbreviation httpHeader := (gmap (list Z) (list (list Z))).

(** ** net/http *)
Definition isLower (c : Z) : bool := (97 <=? c) && (c <=? 122).
Definition isUpper (c : Z) : bool := (65 <=? c) && (c <=? 90).

(** The bytes of a token. *)
Definition validHeaderFieldByte (c : Z) : bool :=
  isLower c || isUpper c || isDigit c || bool_decide (c ∈ str "!#$%&'*+-.^_`|~").

Fixpoint canonicalLoop (upper : bool) (a : list Z) : list Z :=
  match a with
  | [] => []
  | c :: a =>
      let c := if upper && isLower c then c - 32 else if negb upper && isUpper c then c + 32 else c in
      c :: canonicalLoop (c =? 45) a
  end.
Definition CanonicalHeaderKey (s : list Z) : list Z :=
  if forallb validHeaderFieldByte s then canonicalLoop true s else s.

Definition Header_Add (h : httpHeader) (k v : list Z) : httpHeader :=
  let k := CanonicalHeaderKey k in <[k := default [] (h !! k) ++ [v]]> h.
Definition Header_Get (h : httpHeader) (k : list Z) : list Z :=
  match h !! CanonicalHeaderKey k with Some (v :: _) => v | _ => [] end.

Record URL := mkURL { u_Scheme : list Z; u_Host : list Z; u_Path : list Z; u_RawQuery : list Z }.
Record Request := mkRequest {
  rq_Method : list Z;
  rq_Host : list Z;
  rq_URL : option URL;
  rq_Header : httpHeader
}.
Record Response := mkResponse {
  rs_Status : list Z;
  rs_StatusCode : Z;
  rs_Header : httpHeader;
  rs_Trailer : httpHeader
}.

(** ** strings *)
Definition lower (c : Z) : Z := if isUpper c then c + 32 else c.
Definition ToLower (s : list Z) : list Z := map lower s.
Definition HasPrefix (s p : list Z) : bool := bool_decide (take (length p) s = p).

(** [SplitN(s, sep, 2)] for a separator of one character: what is before the
    first one, and what is after it. *)
Fixpoint SplitN2 (s : list Z) (sep : Z) : list Z * option (list Z) :=
  match s with
  | [] => ([], None)
  | c :: s => if c =? sep then ([], Some s) else let '(a, b) := SplitN2 s sep in (c :: a, b)
  end.

(** [strconv.ParseUint(s, 10, 64)]: a number out of range is the largest one, a
    string that is no number [None]. *)
Fixpoint ParseUint (s : list Z) (n : Z) : option Z :=
  match s with
  | [] => Some n
  | c :: s =>
      if negb (isDigit c) then None else
      if n >=? (2 ^ 64 - 1) / 10 + 1 then Some (2 ^ 64 - 1) else
      let n1 := 10 * n + (c - 48) in
      if n1 >? 2 ^ 64 - 1 then Some (2 ^ 64 - 1) else ParseUint s n1
  end.

(** [strconv.Atoi] without its error: 0 when the string is no number, the nearest
    int when it is out of range.  [Itoa] of a number that is not negative is
    [FormatInt]. *)
Definition Atoi (s : list Z) : Z :=
  let '(neg, ds) := match s with
                    | c :: t => if c =? 43 then (false, t) else if c =? 45 then (true, t) else (false, s)
                    | [] => (false, s)
                    end in
  if bool_decide (ds = []) then 0 else
  match ParseUint ds 0 with
  | None => 0
  | Some un => if (neg : bool) then Z.max (- 2 ^ 63) (- un) else Z.min MaxInt64 un
  end.

(** ** Reserved names: h2/http_util.go *)
Definition startsColon (hdr : list Z) : bool := match hdr with c :: _ => c =? 58 | [] => false end.

Definition reservedNames : list (list Z) :=
  [str "content-type"; str "user-agent"; str "grpc-message-type"; str "grpc-encoding"; str "grpc-message";
   str "grpc-status"; str "grpc-timeout"; str "grpc-status-details-bin"; str "te"].
Definition isReservedHeader (hdr : list Z) : bool := startsColon hdr || bool_decide (hdr ∈ reservedNames).

Definition isReservedHeaderReq (hdr : list Z) : bool :=
  startsColon hdr || bool_decide (ToLower hdr ∈ [str "content-type"; str "te"]).

Definition isWhitelistedHeader (hdr : list Z) : bool :=
  bool_decide (hdr ∈ [str ":authority"; str "user-agent"]).

(** ** Sending *)
Definition field (n v : list Z) : HeaderField := mkHeaderField n v false.

Section Messages.
Context (rangeHeader : httpHeader -> list (list Z)).

(** The fields of a header map, without the names [skip]ped. *)
Definition fieldsOf (skip : list Z -> bool) (h : httpHeader) : list HeaderField :=
  rangeHeader h ≫= fun k =>
    if skip k then [] else
    (fun v => field (ToLower k) (encodeMetadataHeader k v)) <$> default [] (h !! k).

(** [timeout] is what is left until the deadline of the context, if it has one;
    a nil URL panics when the request has no host. *)
Definition CreateHeader (timeout : option Z) (r : Request) : option (Request * list HeaderField) :=
  host ← (if bool_decide (rq_Host r = []) then u_Host <$> rq_URL r else Some (rq_Host r));
  let pseudo :=
    if bool_decide (rq_Method r ≠ str "CONNECT")
    then [field (str ":path") (match rq_URL r with None => str "/" | Some u => u_Path u end);
          field (str ":scheme") (str "https")]
    else let p := Header_Get (rq_Header r) (str ":protocol") in
         if bool_decide (p ≠ []) then [field (str ":protocol") p] else [] in
  let ct := Header_Get (rq_Header r) (str "content-type") in
  let content :=
    if bool_decide (ct ≠ [])
    then field (str "content-type") ct ::
         (if HasPrefix ct (str "application/grpc") then [field (str "te") (str "trailers")] else [])
    else [] in
  let deadline := match timeout with
                  | Some d => [field (str "grpc-timeout") (EncodeDuration d)]
                  | None => []
                  end in
  Some (mkRequest (rq_Method r) host (rq_URL r) (rq_Header r),
        [field (str ":authority") host; field (str ":method") (rq_Method r)] ++ pseudo ++ content ++ deadline
        ++ fieldsOf isReservedHeaderReq (rq_Header r)).

Definition appendHeaderFieldsFromMD (headerFields : list HeaderField) (md : httpHeader) : list HeaderField :=
  headerFields ++ fieldsOf isReservedHeader md.

(** The fields of [writeResponseHeaders] and of [writeTrailer]. *)
Definition responseFields (r : Response) : list HeaderField :=
  let status := if bool_decide (rs_Status r = []) then str "200" else rs_Status r in
  appendHeaderFieldsFromMD [field (str ":status") status] (rs_Header r).
Definition trailerFields (r : Response) : list HeaderField := appendHeaderFieldsFromMD [] (rs_Trailer r).
End Messages.

(** [checkForHeaderListSize]: the sizes are added up in 64 bits. *)
Fixpoint sizeWithin (limit sz : Z) (hf : list HeaderField) : bool :=
  match hf with
  | [] => true
  | f :: hf => let sz := sz + Size f in if sz >? limit then false else sizeWithin limit sz hf
  end.
Definition checkForHeaderListSize (limit : option Z) (hf : list HeaderField) : bool :=
  match limit with None => true | Some l => sizeWithin l 0 hf end.

(** ** Receiving *)

(** The request [operateAcceptHeaders] starts from: [POST https:///]. *)
Definition newRequest : Request :=
  mkRequest (str "POST") [] (Some (mkURL (str "https") [] (str "/") [])) ∅.

(** The variables of the loop of [operateAcceptHeaders]; [ac_timeout] is set when
    [timeoutSet] is. *)
Record accepted := mkAccepted {
  ac_Method : list Z;
  ac_Host : list Z;
  ac_URL : URL;
  ac_Header : httpHeader;
  ac_grpc : bool;
  ac_headerError : bool;
  ac_timeout : option Z
}.
Definition accept_init : accepted :=
  mkAccepted (str "POST") [] (mkURL (str "https") [] (str "/") []) ∅ false false None.

Definition acceptField (a : accepted) (hf : HeaderField) : accepted :=
  let '(mkAccepted me ho u h g er ti) := a in
  let n := Name hf in let v := Value hf in
  if bool_decide (n = str "content-type") then
    mkAccepted me ho u (Header_Add h n v) (g || HasPrefix v (str "application/grpc")) er ti
  else if bool_decide (n = str ":method") then mkAccepted v ho u h g er ti
  else if bool_decide (n = str ":path") then
    let '(p, q) := SplitN2 v 63 in
    mkAccepted me ho (mkURL (u_Scheme u) (u_Host u) p (default (u_RawQuery u) q)) h g er ti
  else if bool_decide (n = str ":authority" \/ n = str "host") then
    mkAccepted me v (mkURL (u_Scheme u) v (u_Path u) (u_RawQuery u)) h g er ti
  else if bool_decide (n = str ":scheme") then
    mkAccepted me ho (mkURL v (u_Host u) (u_Path u) (u_RawQuery u)) h g er ti
  else if bool_decide (n = str "grpc-timeout") then
    match decodeTimeout v with
    | inl _ => mkAccepted me ho u h g true (Some 0)
    | inr d => mkAccepted me ho u h g er (Some d)
    end
  else match decodeMetadataHeader n v with
       | None => mkAccepted me ho u h g true ti
       | Some v => mkAccepted me ho u (Header_Add h n v) g er ti
       end.
Definition acceptFields (fs : list HeaderField) : accepted := foldl acceptField accept_init fs.

(** The loop of [operateResponseHeaders]. *)
Definition responseField (trailer : bool) (r : Response) (hf : HeaderField) : Response :=
  let n := Name hf in let v := Value hf in
  if bool_decide (n = str ":status") then mkResponse v (Atoi v) (rs_Header r) (rs_Trailer r) else
  if trailer then
    match decodeMetadataHeader n v with
    | None => r
    | Some v => mkResponse (rs_Status r) (rs_StatusCode r) (rs_Header r) (Header_Add (rs_Trailer r) n v)
    end
  else if isReservedHeader n && negb (isWhitelistedHeader n) then r else
    match decodeMetadataHeader n v with
    | None => r
    | Some v => mkResponse (rs_Status r) (rs_StatusCode r) (Header_Add (rs_Header r) n v) (rs_Trailer r)
    end.
Definition readResponse (trailer : bool) (r : Response) (fs : list HeaderField) : Response :=
  foldl (responseField trailer) r fs.
Definition newResponse : Response := mkResponse [] 0 ∅ ∅.

(** ** Names *)
Definition token (k : list Z) : Prop := k <> [] /\ forallb validHeaderFieldByte k = true.

Lemma isUpper_spec c : isUpper c = true <-> 65 <= c <= 90.
Proof. unfold isUpper. rewrite andb_true_iff, !Z.leb_le. lia. Qed.
Lemma isLower_spec c : isLower c = true <-> 97 <= c <= 122.
Proof. unfold isLower. rewrite andb_true_iff, !Z.leb_le. lia. Qed.

Lemma lower_valid c : validHeaderFieldByte c = true -> validHeaderFieldByte (lower c) = true.
Proof.
  unfold lower. destruct (isUpper c) eqn:E; [intros _|by intros]. apply isUpper_spec in E.
  unfold validHeaderFieldByte. assert (isLower (c + 32) = true) as -> by (apply isLower_spec; lia). done.
Qed.
Lemma ToLower_valid k : forallb validHeaderFieldByte k = true -> forallb validHeaderFieldByte (ToLower k) = true.
Proof.
  induction k as [|c k IH]; [done|]. simpl. rewrite !andb_true_iff. intros [Hc Hk].
  split; [by apply lower_valid|by apply IH].
Qed.

Lemma canonicalLoop_lower k : forall up, canonicalLoop up (ToLower k) = canonicalLoop up k.
Proof.
  induction k as [|c k IH]; intros up; [done|]. simpl.
  assert ((if up && isLower (lower c) then lower c - 32 else if negb up && isUpper (lower c) then lower c + 32 else lower c)
    = (if up && isLower c then c - 32 else if negb up && isUpper c then c + 32 else c)) as ->; [|by rewrite IH].
  unfold lower. destruct (isUpper c) eqn:U; [|by rewrite U].
  apply isUpper_spec in U. assert (isLower (c + 32) = true) as -> by (apply isLower_spec; lia).
  assert (isUpper (c + 32) = false) as -> by (apply not_true_iff_false; rewrite isUpper_spec; lia).
  assert (isLower c = false) as -> by (apply not_true_iff_false; rewrite isLower_spec; lia).
  destruct up; simpl; lia.
Qed.
Lemma canonical_lower k : forallb validHeaderFieldByte k = true ->
  CanonicalHeaderKey (ToLower k) = CanonicalHeaderKey k.
Proof.
  intros Hk. unfold CanonicalHeaderKey. by rewrite ToLower_valid, Hk, canonicalLoop_lower.
Qed.

(** A key as [Header.Set] writes it. *)
Definition canonical (k : list Z) : Prop := token k /\ CanonicalHeaderKey k = k.

Lemma canonical_sent k : canonical k -> CanonicalHeaderKey (ToLower k) = k.
Proof. intros [[_ Hv] Hk]. by rewrite canonical_lower. Qed.

(** ** Header maps through the fields

    A receiver [step] that adds the fields whose names satisfy [P] to a header map
    collects what [fieldsOf] sends: every key with its values in order. *)
Definition addAll (h : httpHeader) (k : list Z) (vs : list (list Z)) : httpHeader :=
  match vs with [] => h | _ => <[k := default [] (h !! k) ++ vs]> h end.

Definition sent (skip : list Z -> bool) (h : httpHeader) : httpHeader :=
  filter (fun kv => skip kv.1 = false /\ kv.2 <> []) h.
Definition merge_headers : httpHeader -> httpHeader -> httpHeader := union_with (fun a b => Some (a ++ b)).

Lemma sent_lookup skip h k :
  sent skip h !! k = match h !! k with
                     | Some (v :: vs) => if skip k then None else Some (v :: vs)
                     | _ => None
                     end.
Proof.
  unfold sent. rewrite map_lookup_filter. destruct (h !! k) as [[|v vs]|]; simpl; [| |done].
  - case_guard; naive_solver.
  - case_guard; destruct (skip k); naive_solver.
Qed.

(** What ranging over a map is: all of its keys, once. *)
Definition ranges (rangeHeader : httpHeader -> list (list Z)) : Prop :=
  forall h, rangeHeader h ≡ₚ elements (dom h).

Lemma addAll_cons h k v vs :
  CanonicalHeaderKey k = k -> addAll h k (v :: vs) = addAll (Header_Add h k v) k vs.
Proof.
  intros Hk. unfold Header_Add. cbv zeta. rewrite Hk. destruct vs as [|w vs]; unfold addAll; [done|].
  rewrite lookup_insert_eq, insert_insert_eq. unfold default, from_option, id. by rewrite <- app_assoc.
Qed.
Lemma addAll_lookup_ne h k j vs : j <> k -> addAll h k vs !! j = h !! j.
Proof. intros. destruct vs; [done|]. by apply lookup_insert_ne. Qed.

Definition addKeys (skip : list Z -> bool) (h base : httpHeader) (ks : list (list Z)) : httpHeader :=
  foldl (fun b k => if skip k then b else addAll b k (default [] (h !! k))) base ks.

Lemma addKeys_lookup skip h ks : forall base j, NoDup ks ->
  addKeys skip h base ks !! j =
    (if bool_decide (j ∈ ks) then merge_headers base (sent skip h) !! j else base !! j).
Proof.
  induction ks as [|k ks IH]; intros base j Hnd; [done|].
  apply NoDup_cons in Hnd as [Hk Hnd]. simpl. rewrite IH by done.
  assert (Hother : j <> k -> (if skip k then base else addAll base k (default [] (h !! k))) !! j = base !! j).
  { intros. destruct (skip k); [done|]. by apply addAll_lookup_ne. }
  unfold merge_headers. destruct (decide (j = k)) as [->|Hne].
  - rewrite bool_decide_false, bool_decide_true by set_solver.
    rewrite lookup_union_with, sent_lookup.
    destruct (h !! k) as [[|v vs]|] eqn:E; simpl; destruct (skip k); simpl;
      rewrite ?lookup_insert_eq; by destruct (base !! k).
  - rewrite !lookup_union_with, Hother by done.
    destruct (decide (j ∈ ks)); [rewrite !bool_decide_true by set_solver|rewrite !bool_decide_false by set_solver]; done.
Qed.

Lemma addKeys_all skip h base ks : ks ≡ₚ elements (dom h) ->
  addKeys skip h base ks = merge_headers base (sent skip h).
Proof.
  intros Hks. apply map_eq. intros j. rewrite addKeys_lookup by (rewrite Hks; apply NoDup_elements).
  destruct (decide (j ∈ ks)) as [H|H]; [by rewrite bool_decide_true|].
  rewrite bool_decide_false by done. rewrite Hks, elem_of_elements, not_elem_of_dom in H.
  unfold merge_headers. rewrite lookup_union_with, sent_lookup, H. simpl.
  by destruct (base !! j).
Qed.

Section Collect.
Context {A : Type} (step : A -> HeaderField -> A) (hdr : A -> httpHeader) (upd : A -> httpHeader -> A).
Context (P : list Z -> Prop) (drops : list Z -> bool).
Hypothesis hdr_upd : forall a h, hdr (upd a h) = h.
Hypothesis upd_upd : forall a h h', upd (upd a h) h' = upd a h'.
Hypothesis upd_hdr : forall a, upd a (hdr a) = a.
Hypothesis step_adds : forall a n v, P n -> drops n = false -> step a (field n v) = upd a (Header_Add (hdr a) n v).
Hypothesis step_drops : forall a n v, drops n = true -> step a (field n v) = a.

Lemma collect_values k n vs : CanonicalHeaderKey n = k -> CanonicalHeaderKey k = k -> P n -> drops n = false ->
  forall a, foldl step a ((fun v => field n v) <$> vs) = upd a (addAll (hdr a) k vs).
Proof.
  intros Hn Hk HP Hdr. induction vs as [|v vs IH]; intros a; simpl; [by rewrite upd_hdr|].
  rewrite step_adds, IH, hdr_upd, upd_upd by done. f_equal.
  change (addAll (Header_Add (hdr a) n v) k vs = addAll (hdr a) k (v :: vs)). rewrite addAll_cons by done.
  f_equal. unfold Header_Add. by rewrite Hn, Hk.
Qed.

Lemma drop_values n vs : drops n = true -> forall a, foldl step a ((fun v => field n v) <$> vs) = a.
Proof. intros Hn. induction vs as [|v vs IH]; intros a; simpl; [done|]. by rewrite step_drops, IH. Qed.

(** What is not sent or not received. *)
Definition lost (skip : list Z -> bool) (k : list Z) : bool := skip k || drops (ToLower k).

(** The receiver keeps the entries it should: their keys are canonical and their
    names mean nothing else to it. *)
Definition received_ok (skip : list Z -> bool) (h : httpHeader) : Prop :=
  forall k, is_Some (h !! k) -> lost skip k = false ->
    canonical k /\ P (ToLower k) /\ HasSuffix k binHdrSuffix = false.

Lemma collect_keys (skip : list Z -> bool) (h : httpHeader) ks :
  (forall k, k ∈ ks -> lost skip k = false -> canonical k /\ P (ToLower k) /\ HasSuffix k binHdrSuffix = false) ->
  forall a, foldl step a (ks ≫= fun k => if skip k then [] else
    (fun v => field (ToLower k) (encodeMetadataHeader k v)) <$> default [] (h !! k))
  = upd a (addKeys (lost skip) h (hdr a) ks).
Proof.
  induction ks as [|k ks IH]; intros Hks a; simpl; [by rewrite upd_hdr|].
  rewrite foldl_app. assert (Hk := Hks k (list_elem_of_here k ks)).
  specialize (IH (fun j Hj => Hks j (list_elem_of_further j k ks Hj))). unfold lost in *.
  destruct (skip k); simpl; [done|]. destruct (drops (ToLower k)) eqn:Hdr.
  - rewrite (list_fmap_compose (encodeMetadataHeader k) (fun v => field (ToLower k) v)).
    by rewrite drop_values, IH.
  - destruct (Hk eq_refl) as (Hc & HP & Hb).
    rewrite (list_fmap_ext _ (fun v => field (ToLower k) v)) by (intros; unfold encodeMetadataHeader; by rewrite Hb).
    rewrite (collect_values k); [|by apply canonical_sent|apply Hc|done|done].
    by rewrite IH, upd_upd, hdr_upd.
Qed.

Lemma collect_fields rangeHeader (skip : list Z -> bool) h a : ranges rangeHeader -> received_ok skip h ->
  foldl step a (fieldsOf rangeHeader skip h) = upd a (merge_headers (hdr a) (sent (lost skip) h)).
Proof.
  intros Hr Hh. unfold fieldsOf. rewrite collect_keys, addKeys_all; [done|done|].
  intros k Hk. apply Hh. rewrite (Hr h), elem_of_elements, elem_of_dom in Hk. done.
Qed.
End Collect.

(** ** Requests *)

(** Evaluate the tests on names that are literals. *)
Ltac eval_names :=
  repeat match goal with
  | |- context [bool_decide ?P] =>
      let b := eval vm_compute in (bool_decide P) in
      match b with true => idtac | false => idtac end;
      change (bool_decide P) with b; cbv iota
  end.

Definition acceptedNames : list (list Z) :=
  [str "content-type"; str ":method"; str ":path"; str ":authority"; str "host"; str ":scheme"; str "grpc-timeout"].

Definition with_header (a : accepted) (h : httpHeader) : accepted :=
  mkAccepted (ac_Method a) (ac_Host a) (ac_URL a) h (ac_grpc a) (ac_headerError a) (ac_timeout a).

Definition plain_name (special : list (list Z)) (n : list Z) : Prop :=
  (n ∉ special) /\ HasSuffix n binHdrSuffix = false.

Lemma acceptField_adds a n v : plain_name acceptedNames n ->
  acceptField a (field n v) = with_header a (Header_Add (ac_Header a) n v).
Proof.
  intros [Hn Hb]. destruct a. unfold acceptField, acceptedNames in *. cbn [Name Value field].
  rewrite !bool_decide_false by set_solver. unfold decodeMetadataHeader. by rewrite Hb.
Qed.

Lemma SplitN2_none s sep : sep ∉ s -> SplitN2 s sep = (s, None).
Proof.
  induction s as [|c s IH]; [done|]. intros H. simpl. rewrite IH by set_solver.
  destruct (Z.eqb_spec c sep); [set_solver|done].
Qed.

Lemma suffix_lower k : HasSuffix (ToLower k) binHdrSuffix = false -> HasSuffix k binHdrSuffix = false.
Proof.
  unfold HasSuffix, ToLower. rewrite length_map. intros H. apply andb_false_iff in H as [H|H]; [by rewrite H|].
  apply andb_false_iff. right. apply bool_decide_eq_false in H. apply bool_decide_eq_false. intros Hd.
  apply H. rewrite skipn_map, Hd. reflexivity.
Qed.

(** The part of the header fields of a request that is not its header map. *)
Definition headFields (timeout : option Z) (r : Request) (host path : list Z) : list HeaderField :=
  let connect := bool_decide (rq_Method r = str "CONNECT") in
  let p := Header_Get (rq_Header r) (str ":protocol") in
  let ct := Header_Get (rq_Header r) (str "content-type") in
  [field (str ":authority") host; field (str ":method") (rq_Method r)]
  ++ (if connect then if bool_decide (p = []) then [] else [field (str ":protocol") p]
      else [field (str ":path") path; field (str ":scheme") (str "https")])
  ++ (if bool_decide (ct = []) then [] else
      field (str "content-type") ct ::
        (if HasPrefix ct (str "application/grpc") then [field (str "te") (str "trailers")] else []))
  ++ (match timeout with Some d => [field (str "grpc-timeout") (EncodeDuration d)] | None => [] end).

Lemma bool_decide_neg (P : Prop) `{!Decision P} {A} (a b : A) :
  (if bool_decide (¬ P) then a else b) = if bool_decide P then b else a.
Proof. rewrite bool_decide_not. by destruct (bool_decide P). Qed.

Lemma CreateHeader_eq rangeHeader timeout r u : rq_URL r = Some u ->
  let host := if bool_decide (rq_Host r = []) then u_Host u else rq_Host r in
  CreateHeader rangeHeader timeout r =
    Some (mkRequest (rq_Method r) host (rq_URL r) (rq_Header r),
          headFields timeout r host (u_Path u) ++ fieldsOf rangeHeader isReservedHeaderReq (rq_Header r)).
Proof.
  intros Hu host. unfold CreateHeader, headFields. rewrite Hu. subst host.
  rewrite !bool_decide_neg, <- !app_assoc.
  destruct (bool_decide (rq_Host r = [])); reflexivity.
Qed.

(** The timeout the receiver reads: none, or at least what was left. *)
Definition timeout_read (sent received : option Z) : Prop :=
  match sent, received with
  | None, None => True
  | Some d, Some d' => Z.max 0 d <= d' <= MaxInt64
  | _, _ => False
  end.

Lemma accept_timeout a timeout :
  (forall d, timeout = Some d -> d <= MaxInt64) -> ac_timeout a = None ->
  exists ti, timeout_read timeout ti /\
    foldl acceptField a (match timeout with Some d => [field (str "grpc-timeout") (EncodeDuration d)] | None => [] end)
    = mkAccepted (ac_Method a) (ac_Host a) (ac_URL a) (ac_Header a) (ac_grpc a) (ac_headerError a) ti.
Proof.
  intros Hd Ha. destruct a as [me ho u h g er ti0]. simpl in Ha. subst ti0. destruct timeout as [d|]; [|by exists None].
  destruct (timeout_decoded d) as (d' & He & Hm & Hneg & _ & Hpos); [by apply Hd|].
  exists (Some d'). split; [simpl; destruct (Z.leb_spec d 0); [rewrite Hneg by lia; unfold MaxInt64; lia|lia]|].
  unfold foldl, acceptField. cbn [Name Value field]. eval_names. by rewrite He.
Qed.

(** The header map the fields before those of the header map make. *)
Definition headHeader (ct pr : list Z) (connect : bool) : httpHeader :=
  let h := if connect then if bool_decide (pr = []) then ∅ else Header_Add ∅ (str ":protocol") pr else ∅ in
  if bool_decide (ct = []) then h else
  let h := Header_Add h (str "content-type") ct in
  if HasPrefix ct (str "application/grpc") then Header_Add h (str "te") (str "trailers") else h.

Lemma accept_content a v : acceptField a (field (str "content-type") v) =
  mkAccepted (ac_Method a) (ac_Host a) (ac_URL a) (Header_Add (ac_Header a) (str "content-type") v)
    (ac_grpc a || HasPrefix v (str "application/grpc")) (ac_headerError a) (ac_timeout a).
Proof. by destruct a. Qed.
Lemma accept_path a v : 63 ∉ v -> acceptField a (field (str ":path") v) =
  mkAccepted (ac_Method a) (ac_Host a) (mkURL (u_Scheme (ac_URL a)) (u_Host (ac_URL a)) v (u_RawQuery (ac_URL a)))
    (ac_Header a) (ac_grpc a) (ac_headerError a) (ac_timeout a).
Proof.
  intros Hv. destruct a. unfold acceptField. cbn [Name Value field]. eval_names. by rewrite SplitN2_none.
Qed.

Lemma accept_head timeout r host path :
  (63 ∉ path) -> (forall d, timeout = Some d -> d <= MaxInt64) ->
  exists ti, timeout_read timeout ti /\
    let ct := Header_Get (rq_Header r) (str "content-type") in
    let connect := bool_decide (rq_Method r = str "CONNECT") in
    foldl acceptField accept_init (headFields timeout r host path) =
      mkAccepted (rq_Method r) host (mkURL (str "https") host (if connect then str "/" else path) [])
        (headHeader ct (Header_Get (rq_Header r) (str ":protocol")) connect)
        (HasPrefix ct (str "application/grpc")) false ti.
Proof.
  intros Hp Hd. unfold headFields, headHeader. rewrite !foldl_app.
  set (ct := Header_Get (rq_Header r) (str "content-type")).
  set (pr := Header_Get (rq_Header r) (str ":protocol")).
  match goal with |- context [foldl acceptField ?a (match timeout with _ => _ end)] => set (a3 := a) end.
  assert (Ha3 : ac_timeout a3 = None /\ a3 = mkAccepted (rq_Method r) host
    (mkURL (str "https") host (if bool_decide (rq_Method r = str "CONNECT") then str "/" else path) [])
    (headHeader ct pr (bool_decide (rq_Method r = str "CONNECT")))
    (HasPrefix ct (str "application/grpc")) false None).
  { match goal with |- _ /\ a3 = ?a => assert (E : a3 = a); [|by rewrite E] end. subst a3. unfold headHeader.
    clearbody ct pr.
    destruct (bool_decide (rq_Method r = str "CONNECT")); [destruct (bool_decide (pr = []))|];
      cbn [foldl]; rewrite ?accept_path by done;
      (destruct (bool_decide_reflect (ct = [])) as [->|Hct]; [reflexivity|]);
      cbn [foldl]; rewrite accept_content; destruct (HasPrefix ct (str "application/grpc")) eqn:G;
      reflexivity. }
  destruct Ha3 as [Hn Ha3]. destruct (accept_timeout a3 timeout Hd Hn) as (ti & Ht & ->).
  exists ti. split; [done|]. by rewrite Ha3.
Qed.

Lemma key_content : CanonicalHeaderKey (str "content-type") = str "Content-Type".
Proof. reflexivity. Qed.
Lemma key_te : CanonicalHeaderKey (str "te") = str "Te".
Proof. reflexivity. Qed.
Lemma key_protocol : CanonicalHeaderKey (str ":protocol") = str ":protocol".
Proof. reflexivity. Qed.

Lemma headHeader_lookup ct pr connect k :
  headHeader ct pr connect !! k =
    if bool_decide (k = str "Content-Type") then (if bool_decide (ct = []) then None else Some [ct]) else
    if bool_decide (k = str "Te") then
      (if negb (bool_decide (ct = [])) && HasPrefix ct (str "application/grpc") then Some [str "trailers"] else None) else
    if bool_decide (k = str ":protocol") then
      (if connect && negb (bool_decide (pr = [])) then Some [pr] else None) else None.
Proof.
  unfold headHeader, Header_Add. cbv zeta. rewrite key_content, key_te, key_protocol.
  assert (str "Content-Type" <> str "Te" /\ str "Content-Type" <> str ":protocol" /\ str "Te" <> str ":protocol")
    as (N1 & N2 & N3) by done.
  generalize dependent (str "Content-Type"). generalize dependent (str "Te"). generalize dependent (str ":protocol").
  intros kp kt N3 kc N1 N2.
  destruct connect, (bool_decide (pr = [])), (bool_decide (ct = [])), (HasPrefix ct (str "application/grpc")); simpl;
    rewrite ?lookup_insert, ?lookup_empty; repeat (case_bool_decide || case_decide); simplify_eq; done.
Qed.

Lemma headHeader_ok ct pr connect :
  let h := headHeader ct pr connect in
  (forall k, isReservedHeaderReq k = false -> h !! k = None) /\
  Header_Get h (str "content-type") = ct /\ (connect = true -> Header_Get h (str ":protocol") = pr).
Proof.
  cbv zeta. unfold Header_Get. rewrite key_content, key_protocol. split; [|split].
  - intros k Hk. rewrite headHeader_lookup. rewrite !bool_decide_false by (by intros ->). done.
  - rewrite headHeader_lookup. eval_names. by destruct (bool_decide_reflect (ct = [])) as [->|].
  - intros ->. rewrite headHeader_lookup. eval_names. by destruct (bool_decide_reflect (pr = [])) as [->|].
Qed.

(** A header map whose entries, apart from those that are [skip]ped, go through:
    canonical keys, at least one value, no binary metadata, and none of the names
    that mean something else to the receiver. *)
Definition plain_entries (skip : list Z -> bool) (special : list (list Z)) (h : httpHeader) : Prop :=
  forall k vs, h !! k = Some vs -> skip k = false ->
    canonical k /\ vs <> [] /\ (ToLower k ∉ special) /\ HasSuffix (ToLower k) binHdrSuffix = false.

Lemma colon_name k n : token k -> startsColon k = false -> startsColon n = true -> ToLower k <> n.
Proof.
  intros Hk Hc Hn E. subst n. destruct k as [|c k]; [done|]. simpl in *. apply Z.eqb_eq in Hn. unfold lower in Hn.
  destruct (isUpper c) eqn:U; [apply isUpper_spec in U; lia|]. by rewrite Hn in Hc.
Qed.

Definition sendable (r : Request) : Prop :=
  (exists u, rq_URL r = Some u /\ (63 ∉ u_Path u)) /\
  plain_entries isReservedHeaderReq [str "host"; str "grpc-timeout"] (rq_Header r).

Lemma sendable_names k :
  canonical k -> isReservedHeaderReq k = false -> ToLower k ∉ [str "host"; str "grpc-timeout"] ->
  ToLower k ∉ acceptedNames.
Proof.
  intros [Ht _] Hk Hs. unfold isReservedHeaderReq in Hk. apply orb_false_iff in Hk as [Hc Hn].
  apply bool_decide_eq_false in Hn.
  assert (forall n, startsColon n = true -> ToLower k <> n) by (intros; by apply colon_name).
  rewrite !not_elem_of_cons in Hs, Hn. destruct Hs as (? & ? & _), Hn as (? & ? & _).
  unfold acceptedNames. rewrite !not_elem_of_cons. repeat split; try done; try (by apply H). apply not_elem_of_nil.
Qed.

(** A request survives its header list: from the fields [CreateHeader]
    writes, in whatever order it ranges over the header map, [operateAcceptHeaders]
    recovers the method, the host, the path, every header entry with all of its
    values in order, the content type, the protocol of an extended CONNECT and the
    gRPC flag, and a timeout that is not shorter; the query string is not sent. *)
Lemma request_roundtrip rangeHeader timeout r :
  ranges rangeHeader -> sendable r -> (forall d, timeout = Some d -> d <= MaxInt64) ->
  exists r' fs, CreateHeader rangeHeader timeout r = Some (r', fs) /\
    let a := acceptFields fs in
    ac_headerError a = false /\ ac_Method a = rq_Method r /\ ac_Host a = rq_Host r' /\
    (rq_Host r <> [] -> rq_Host r' = rq_Host r) /\
    (forall u, rq_URL r = Some u -> rq_Method r <> str "CONNECT" -> u_Path (ac_URL a) = u_Path u) /\
    u_RawQuery (ac_URL a) = [] /\
    (forall k, isReservedHeaderReq k = false -> ac_Header a !! k = rq_Header r !! k) /\
    Header_Get (ac_Header a) (str "content-type") = Header_Get (rq_Header r) (str "content-type") /\
    (rq_Method r = str "CONNECT" ->
       Header_Get (ac_Header a) (str ":protocol") = Header_Get (rq_Header r) (str ":protocol")) /\
    ac_grpc a = HasPrefix (Header_Get (rq_Header r) (str "content-type")) (str "application/grpc") /\
    timeout_read timeout (ac_timeout a).
Proof.
  intros Hr [(u & Hu & Hq) Hh] Hd. eexists _, _. split; [by apply CreateHeader_eq|].
  unfold acceptFields. rewrite foldl_app.
  destruct (accept_head timeout r (if bool_decide (rq_Host r = []) then u_Host u else rq_Host r) (u_Path u) Hq Hd)
    as (ti & Hti & ->).
  rewrite (collect_fields acceptField ac_Header with_header (plain_name acceptedNames) (fun _ => false));
    [|by intros [] ?|by intros [] ? ?|by intros []|intros; by apply acceptField_adds|done|done|].
  2: { intros k [vs Hk] Hs. unfold lost in Hs. rewrite orb_false_r in Hs. destruct (Hh k vs Hk Hs) as (Hc & _ & Hn & Hb).
       split; [done|]. split; [|by apply suffix_lower]. split; [by apply sendable_names|done]. }
  cbn [with_header ac_headerError ac_Method ac_Host ac_URL ac_Header ac_grpc ac_timeout u_Path u_RawQuery rq_Host].
  destruct (headHeader_ok (Header_Get (rq_Header r) (str "content-type"))
    (Header_Get (rq_Header r) (str ":protocol")) (bool_decide (rq_Method r = str "CONNECT"))) as (H1 & H2 & H3).
  set (hh := headHeader _ _ _) in *.
  assert (forall k, lost (fun _ => false) isReservedHeaderReq k = isReservedHeaderReq k) as Hlost
    by (intros; apply orb_false_r).
  assert (Hget : forall k, isReservedHeaderReq (CanonicalHeaderKey k) = true ->
    Header_Get (merge_headers hh (sent (lost (fun _ => false) isReservedHeaderReq) (rq_Header r))) k = Header_Get hh k).
  { intros k Hk. unfold Header_Get, merge_headers. rewrite lookup_union_with, sent_lookup, Hlost, Hk.
    by destruct (rq_Header r !! _) as [[|]|], (hh !! _). }
  repeat split.
  - intros. by rewrite bool_decide_false.
  - intros u' Hu' Hm. rewrite bool_decide_false by done. congruence.
  - intros k Hk. unfold merge_headers.
    rewrite lookup_union_with, sent_lookup, Hlost, Hk, (H1 k Hk).
    destruct (rq_Header r !! k) as [[|]|] eqn:E; [|done..]. by destruct (Hh k [] E Hk) as (_ & ? & _).
  - by rewrite Hget.
  - intros Hm. rewrite Hget by done. apply H3. by apply bool_decide_true.
  - done.
Qed.

(** ** Responses *)
Definition set_Header (r : Response) (h : httpHeader) : Response :=
  mkResponse (rs_Status r) (rs_StatusCode r) h (rs_Trailer r).
Definition set_Trailer (r : Response) (h : httpHeader) : Response :=
  mkResponse (rs_Status r) (rs_StatusCode r) (rs_Header r) h.

(** The names a client drops from response headers. *)
Definition response_drops (n : list Z) : bool :=
  bool_decide (n <> str ":status") && (isReservedHeader n && negb (isWhitelistedHeader n)).

Lemma responseField_adds r n v : plain_name [str ":status"] n -> response_drops n = false ->
  responseField false r (field n v) = set_Header r (Header_Add (rs_Header r) n v).
Proof.
  intros [Hn Hb] Hd. unfold responseField. cbn [Name Value field]. rewrite bool_decide_false by set_solver.
  unfold response_drops in Hd. rewrite bool_decide_true in Hd by set_solver. simpl in Hd. rewrite Hd.
  unfold decodeMetadataHeader. by rewrite Hb.
Qed.
Lemma responseField_drops r n v : response_drops n = true -> responseField false r (field n v) = r.
Proof.
  intros Hd. unfold response_drops in Hd. apply andb_true_iff in Hd as [Hn Hd]. apply bool_decide_eq_true in Hn.
  unfold responseField. cbn [Name Value field]. by rewrite bool_decide_false, Hd.
Qed.
Lemma trailerField_adds r n v : plain_name [str ":status"] n ->
  responseField true r (field n v) = set_Trailer r (Header_Add (rs_Trailer r) n v).
Proof.
  intros [Hn Hb]. unfold responseField. cbn [Name Value field]. rewrite bool_decide_false by set_solver.
  unfold decodeMetadataHeader. by rewrite Hb.
Qed.

Lemma parse_grows s : forall n m, parseDigits s n = Some m -> 0 <= n -> n <= m.
Proof.
  induction s as [|c s IH]; intros n m H Hn; cbn [parseDigits] in H; [by injection H as ->|].
  destruct (isDigit c) eqn:E; [|done]. unfold isDigit in E. apply IH in H; lia.
Qed.
Lemma ParseUint_small s : forall n m, parseDigits s n = Some m -> 0 <= n -> m < 2 ^ 63 -> ParseUint s n = Some m.
Proof.
  induction s as [|c s IH]; intros n m H Hn Hm; cbn [parseDigits ParseUint] in *; [done|].
  destruct (isDigit c) eqn:E; [|done]. simpl.
  assert (10 * n + (c - 48) <= m) by (apply (parse_grows _ _ _ H); unfold isDigit in E; lia).
  unfold isDigit in E.
  assert ((2 ^ 64 - 1) / 10 + 1 = 1844674407370955162) as -> by reflexivity.
  destruct (Z.geb_spec n 1844674407370955162); [lia|].
  destruct (Z.gtb_spec (10 * n + (c - 48)) (2 ^ 64 - 1)); [lia|]. apply IH; [done|lia|done].
Qed.

Lemma Atoi_Itoa n : 0 <= n < 10 ^ 8 -> Atoi (FormatInt n) = n.
Proof.
  intros Hn. unfold FormatInt. rewrite (digits_fuel 8) by (cbn; lia).
  destruct (digits_parse 8 n) as (Hp & _ & c & l & Hc & Hr); [cbn; lia|lia|]. rewrite Hc in *.
  unfold Atoi. destruct (Z.eqb_spec c 43); [lia|]. destruct (Z.eqb_spec c 45); [lia|].
  rewrite bool_decide_false by done. rewrite (ParseUint_small _ _ n) by (done || lia). unfold MaxInt64. lia.
Qed.

(** The entries of a response that can be sent. *)
Definition sendable_headers (skip : list Z -> bool) (h : httpHeader) : Prop :=
  forall k vs, h !! k = Some vs -> startsColon k = false /\ canonical k /\ vs <> [] /\
    (skip k = false -> HasSuffix (ToLower k) binHdrSuffix = false).

Lemma canonical_unreserved k : canonical k -> startsColon k = false -> isReservedHeader k = false.
Proof.
  intros [_ Hk] Hc. unfold isReservedHeader. rewrite Hc. simpl. apply bool_decide_eq_false. intros Hin.
  assert (forall n, n ∈ reservedNames -> CanonicalHeaderKey n <> n) as Hres; [|by apply (Hres k)].
  apply Forall_forall. repeat constructor; vm_compute; discriminate.
Qed.

Lemma received drops P h :
  sendable_headers (fun k => drops (ToLower k)) h ->
  (forall k, canonical k -> startsColon k = false -> HasSuffix (ToLower k) binHdrSuffix = false -> P (ToLower k)) ->
  received_ok P drops isReservedHeader h /\
  (forall k, sent (lost drops isReservedHeader) h !! k = if drops (ToLower k) then None else h !! k).
Proof.
  intros Hh HP. split.
  - intros k [vs Hk] Hl. destruct (Hh k vs Hk) as (Hc & Hcan & _ & Hb).
    unfold lost in Hl. apply orb_false_iff in Hl as [_ Hl]. split; [done|].
    split; [by apply HP, Hb|by apply suffix_lower, Hb].
  - intros k. rewrite sent_lookup. unfold lost. destruct (h !! k) as [vs|] eqn:E; [|by destruct (drops _)].
    destruct (Hh k vs E) as (Hc & Hcan & Hne & _). rewrite canonical_unreserved by done. by destruct vs.
Qed.

Lemma status_plain k : canonical k -> startsColon k = false -> HasSuffix (ToLower k) binHdrSuffix = false ->
  plain_name [str ":status"] (ToLower k).
Proof.
  intros [Ht _] Hc Hb. split; [|done]. apply not_elem_of_cons. split; [by apply colon_name|apply not_elem_of_nil].
Qed.

Lemma merge_nil h : merge_headers ∅ h = h.
Proof. apply map_eq. intros k. unfold merge_headers. rewrite lookup_union_with, lookup_empty. by destruct (h !! k). Qed.

(** A response survives its header list: from the fields
    [writeResponseHeaders] and [writeTrailer] write, the client recovers the
    status, its number, and every entry of the header and of the trailer with all
    of its values in order, except that it drops the entries of the header whose
    names the gRPC protocol reserves, the content type among them. *)
Lemma response_roundtrip rangeHeader r code :
  ranges rangeHeader -> 0 <= code < 1000 -> rs_Status r = FormatInt code ->
  sendable_headers (fun k => response_drops (ToLower k)) (rs_Header r) ->
  sendable_headers (fun _ => false) (rs_Trailer r) ->
  let r1 := readResponse false newResponse (responseFields rangeHeader r) in
  let r2 := readResponse true r1 (trailerFields rangeHeader r) in
  rs_Status r2 = rs_Status r /\ rs_StatusCode r2 = code /\ rs_Trailer r1 = ∅ /\ rs_Trailer r2 = rs_Trailer r /\
  (forall k, rs_Header r2 !! k = if response_drops (ToLower k) then None else rs_Header r !! k).
Proof.
  intros Hr Hcode Hst Hh Ht r1 r2.
  destruct (received response_drops (plain_name [str ":status"]) (rs_Header r) Hh status_plain) as [Hok1 Hs1].
  destruct (received (fun _ => false) (plain_name [str ":status"]) (rs_Trailer r) Ht status_plain) as [Hok2 Hs2].
  assert (E1 : r1 = mkResponse (rs_Status r) code (sent (lost response_drops isReservedHeader) (rs_Header r)) ∅).
  { unfold r1, readResponse, responseFields, appendHeaderFieldsFromMD. rewrite foldl_app.
    rewrite (collect_fields (responseField false) rs_Header set_Header (plain_name [str ":status"]) response_drops);
      [|done|done|by intros []|apply responseField_adds|apply responseField_drops|done|done].
    destruct (digits_parse 19 code) as (_ & _ & c & l & Hc & _); [lia|lia|].
    rewrite bool_decide_false by (rewrite Hst; unfold FormatInt; by rewrite Hc).
    cbn [foldl]. unfold responseField at 1 2. cbn [Name Value field]. eval_names.
    cbn [rs_Header set_Header rs_Status rs_StatusCode rs_Trailer newResponse].
    rewrite merge_nil, Hst, Atoi_Itoa by lia. done. }
  assert (E2 : r2 = set_Trailer r1 (sent (lost (fun _ => false) isReservedHeader) (rs_Trailer r))).
  { unfold r2, readResponse, trailerFields, appendHeaderFieldsFromMD. simpl app.
    rewrite (collect_fields (responseField true) rs_Trailer set_Trailer (plain_name [str ":status"]) (fun _ => false));
      [|done|done|by intros []|intros; by apply trailerField_adds|done|done|done].
    rewrite E1. simpl. by rewrite merge_nil. }
  rewrite E2, E1. simpl. repeat split; [|done].
  apply map_eq. intros k. apply Hs2.
Qed.

(** The sender looks for the suffix of binary metadata in the canonical key,
    ["Trace-Bin"], and does not find it; the receiver looks in the name on the
    wire, ["trace-bin"], and decodes what was not encoded: the value changes, or
    the request is refused. *)
Lemma binary_metadata_mangled :
  let sent v := fieldsOf (fun h => elements (dom h)) isReservedHeaderReq {[str "Trace-Bin" := [v]]} in
  ac_Header (acceptFields (sent (str "abcd"))) !! str "Trace-Bin" = Some [[105; 183; 29]] /\
  ac_headerError (acceptFields (sent [0])) = true.
Proof. vm_compute. done. Qed.

(** The content type of a response does not reach the client. *)
Lemma content_type_dropped : response_drops (ToLower (str "Content-Type")) = true.
Proof. reflexivity. Qed.
