(* ===== verification/Bdp.v ===== *)
(** * The bandwidth-delay estimator: h2/bdp_estimator.go

    The estimator counts the bytes received between a ping and its
    acknowledgement and raises the flow-control windows when the connection is
    saturated.  A [float64] is a [spec_float] of 53 bits; a [time.Time] a number
    of nanoseconds, [None] the zero time.  [calculate] returns the argument of the
    call of [updateFlowControl] it makes, if it makes one. *)
From Stdlib Require Import SpecFloat.
From S2P Require Import Prelude.

(** ** float64 *)
Abbreviation prec := (53%Z).
Abbreviation emax := (1024%Z).
Definition float64 (n : Z) : spec_float := binary_normalize prec emax n 0 false.
Definition fadd : spec_float -> spec_float -> spec_float := SFadd prec emax.
Definition fsub : spec_float -> spec_float -> spec_float := SFsub prec emax.
Definition fmul : spec_float -> spec_float -> spec_float := SFmul prec emax.
Definition fdiv : spec_float -> spec_float -> spec_float := SFdiv prec emax.

(** [uint32(f)]: truncated; a value out of range keeps its low 32 bits, which is
    what the conversion through a 64-bit integer on amd64 gives. *)
Definition uint32 (f : spec_float) : Z :=
  match f with
  | S754_finite s m e =>
      let v := if 0 <=? e then Z.pos m * 2 ^ e else Z.pos m / 2 ^ (- e) in
      u32 (if s then - v else v)
  | _ => 0
  end.

Definition bdpLimit : Z := 2 ^ 20 * 16.
(** The constants are rounded to the nearest float64. *)
Definition alpha : spec_float := fdiv (float64 9) (float64 10).
Definition beta : spec_float := fdiv (float64 66) (float64 100).
Definition one_half : spec_float := fdiv (float64 3) (float64 2).
Definition gamma : spec_float := float64 2.

(** [Duration.Seconds] *)
Definition Seconds (d : Z) : spec_float :=
  fadd (float64 (Z.quot d (10 ^ 9))) (fdiv (float64 (Z.rem d (10 ^ 9))) (float64 (10 ^ 9))).
(** [time.Since]: the zero time is further back than a [Duration] reaches. *)
Definition Since (now : Z) (t : option Z) : Z :=
  match t with None => MaxInt64 | Some t => now - t end.

(** ** The estimator *)
Definition bdpPing : list Z := [2; 4; 16; 16; 9; 14; 7; 7].

Record bdpEstimator := mkBdp {
  sentAt : option Z;
  bdp : Z;
  sample : Z;
  bwMax : spec_float;
  isSent : bool;
  sampleCount : Z;
  rtt : spec_float
}.

Definition newBdpEstimator (initialWindowSize : Z) : bdpEstimator :=
  mkBdp None initialWindowSize 0 (S754_zero false) false 0 (S754_zero false).

Definition timesnap (b : bdpEstimator) (now : Z) (d : list Z) : bdpEstimator :=
  if bool_decide (bdpPing <> d) then b else
  mkBdp (Some now) (bdp b) (sample b) (bwMax b) (isSent b) (sampleCount b) (rtt b).

Definition bdp_add (b : bdpEstimator) (n : Z) : bdpEstimator * bool :=
  if bdp b =? bdpLimit then (b, false) else
  if negb (isSent b)
  then (mkBdp None (bdp b) n (bwMax b) true (u64 (sampleCount b + 1)) (rtt b), true)
  else (mkBdp (sentAt b) (bdp b) (u32 (sample b + n)) (bwMax b) (isSent b) (sampleCount b) (rtt b), false).

Definition calculate (b : bdpEstimator) (now : Z) (d : list Z) : bdpEstimator * option Z :=
  if bool_decide (bdpPing <> d) then (b, None) else
  let rttSample := Seconds (Since now (sentAt b)) in
  let rtt := if sampleCount b <? 10
             then fadd (rtt b) (fdiv (fsub rttSample (rtt b)) (float64 (sampleCount b)))
             else fadd (rtt b) (fmul (fsub rttSample (rtt b)) alpha) in
  let bwCurrent := fdiv (float64 (sample b)) (fmul rtt one_half) in
  let bwMax := if SFltb (bwMax b) bwCurrent then bwCurrent else bwMax b in
  if SFleb (fmul beta (float64 (bdp b))) (float64 (sample b)) && SFeqb bwCurrent bwMax && negb (bdp b =? bdpLimit)
  then
    let bdp := uint32 (fmul gamma (float64 (sample b))) in
    let bdp := if bdp >? bdpLimit then bdpLimit else bdp in
    (mkBdp (sentAt b) bdp (sample b) bwMax false (sampleCount b) rtt, Some bdp)
  else (mkBdp (sentAt b) (bdp b) (sample b) bwMax false (sampleCount b) rtt, None).

(** A saturated connection: 100000 bytes in 10 ms double the estimate. *)
Example calculate_grows :
  let b := (bdp_add (newBdpEstimator 65535) 100000).1 in
  (calculate (timesnap b 0 bdpPing) 10000000 bdpPing).2 = Some 200000.
Proof. reflexivity. Qed.

(** ** Cycles *)

(** What happens to an estimator, and what comes of it. *)
Inductive bdp_event :=
| BData (n : Z) (ping : bool)
| BWritten (d : list Z)
| BAck (d : list Z) (window : option Z).

Inductive bdp_step : bdpEstimator -> bdp_event -> bdpEstimator -> Prop :=
| step_data b n : is_u32 n -> bdp_step b (BData n (bdp_add b n).2) (bdp_add b n).1
| step_written b now d : bdp_step b (BWritten d) (timesnap b now d)
| step_ack b now d : bdp_step b (BAck d (calculate b now d).2) (calculate b now d).1.

Inductive bdp_run (b0 : bdpEstimator) : list bdp_event -> bdpEstimator -> Prop :=
| run_nil : bdp_run b0 [] b0
| run_snoc es b e b' : bdp_run b0 es b -> bdp_step b e b' -> bdp_run b0 (es ++ [e]) b'.

Definition is_ping (e : bdp_event) : bool := match e with BData _ p => p | _ => false end.
Definition is_ack (e : bdp_event) : bool :=
  match e with BAck d _ => bool_decide (d = bdpPing) | _ => false end.
Definition count (f : bdp_event -> bool) (es : list bdp_event) : Z := Z.of_nat (length (filter (fun e => f e = true) es)).

(** The bytes received since the last ping, modulo 2^32. *)
Fixpoint since_ping (es : list bdp_event) (acc : Z) : Z :=
  match es with
  | [] => acc
  | BData n true :: es => since_ping es n
  | BData n false :: es => since_ping es (u32 (acc + n))
  | _ :: es => since_ping es acc
  end.

Lemma count_snoc f es e : count f (es ++ [e]) = count f es + if f e then 1 else 0.
Proof. unfold count. rewrite filter_app, length_app, filter_cons. destruct (f e); simpl; lia. Qed.
Lemma since_ping_app es es' acc : since_ping (es ++ es') acc = since_ping es' (since_ping es acc).
Proof. revert acc. induction es as [|[? []| |] es IH]; intros acc; simpl; [done|..]; by rewrite IH. Qed.

(** The estimate is within its limit; a ping is outstanding when one was sent
    since the last acknowledgement; the sample counts what was received since the
    ping unless the estimate has reached the limit. *)
Record bdp_inv (es : list bdp_event) (b : bdpEstimator) : Prop := {
  bi_bdp : 0 <= bdp b <= bdpLimit;
  bi_window : forall d w, BAck d (Some w) ∈ es -> 0 <= w <= bdpLimit;
  bi_pings : count is_ping es + (if isSent b then 0 else 1) <= count is_ack es + 1;
  bi_sample : bdp b <> bdpLimit -> sample b = since_ping es 0
}.

Lemma uint32_range f : 0 <= uint32 f < 2 ^ 32.
Proof. unfold uint32. destruct f; try lia. apply u32_range. Qed.

Lemma bdp_step_inv es b e b' : bdp_inv es b -> bdp_step b e b' -> bdp_inv (es ++ [e]) b'.
Proof.
  intros [Hb Hw Hp Hs] Hstep.
  assert (HL : bdpLimit = 16777216) by done.
  destruct Hstep as [b n Hn|b now d|b now d].
  - unfold bdp_add. destruct (Z.eqb_spec (bdp b) bdpLimit) as [E|E]; [|destruct (isSent b) eqn:S]; simpl;
      (split; simpl; [done| | |]); rewrite ?count_snoc, ?since_ping_app; simpl; try lia;
      try (intros d w; rewrite elem_of_app, list_elem_of_singleton; intros [|[=]]; eauto; fail).
    by rewrite Hs.
  - assert (bdp (timesnap b now d) = bdp b /\ isSent (timesnap b now d) = isSent b /\
            sample (timesnap b now d) = sample b) as (E1 & E2 & E3) by (unfold timesnap; by case_if).
    split; rewrite ?E1, ?E2, ?E3, ?count_snoc, ?since_ping_app; simpl; [done| |lia|done].
    intros d' w. rewrite elem_of_app, list_elem_of_singleton. intros [|[=]]; eauto.
  - unfold calculate. destruct (bool_decide_reflect (bdpPing <> d)) as [Hd|Hd].
    { simpl. split; rewrite ?count_snoc, ?since_ping_app; simpl; [done| | |done].
      - intros d' w. rewrite elem_of_app, list_elem_of_singleton. intros [|[=]]; eauto.
      - rewrite bool_decide_false by congruence. lia. }
    assert (bdpPing = d) as <- by (by apply dec_stable).
    set (r := if sampleCount b <? 10 then _ else _). set (bw := fdiv _ (fmul r one_half)).
    set (mx := if SFltb (bwMax b) bw then bw else bwMax b).
    destruct (SFleb _ _ && SFeqb bw mx && negb (bdp b =? bdpLimit)) eqn:G.
    + pose proof (uint32_range (fmul gamma (float64 (sample b)))) as Hu.
      assert (Hc : 0 <= (if uint32 (fmul gamma (float64 (sample b))) >? bdpLimit then bdpLimit
                         else uint32 (fmul gamma (float64 (sample b)))) <= bdpLimit).
      { destruct (Z.gtb_spec (uint32 (fmul gamma (float64 (sample b)))) bdpLimit); lia. }
      split; cbn [fst snd bdp isSent sample]; rewrite ?count_snoc, ?since_ping_app; cbn [since_ping is_ping is_ack].
      * done.
      * intros d' w. rewrite elem_of_app, list_elem_of_singleton. intros [|[= _ ->]]; [by eauto|done].
      * rewrite bool_decide_true by done. destruct (isSent b); lia.
      * intros _. apply Hs. intros E. rewrite E, Z.eqb_refl, andb_false_r in G. done.
    + split; cbn [fst snd bdp isSent sample]; rewrite ?count_snoc, ?since_ping_app; simpl; [done| | |done].
      * intros d' w. rewrite elem_of_app, list_elem_of_singleton. intros [|[=]]; eauto.
      * destruct (isSent b); lia.
Qed.

(** Whatever data and acknowledgements arrive, the estimate and every window
    it asks for stay within the limit of 16 MiB, the sample is what was received
    since the last ping, and a ping is asked for at most once before the last one
    is acknowledged. *)
Theorem bdp_cycles w es b :
  0 <= w <= bdpLimit -> bdp_run (newBdpEstimator w) es b ->
  0 <= bdp b <= bdpLimit /\ (forall d n, BAck d (Some n) ∈ es -> 0 <= n <= bdpLimit) /\
  count is_ping es <= count is_ack es + 1 /\ (bdp b <> bdpLimit -> sample b = since_ping es 0).
Proof.
  intros Hw Hr. assert (bdp_inv es b) as [H1 H2 H3 H4].
  { induction Hr as [|es b e b' _ IH Hs]; [|by eapply bdp_step_inv].
    split; simpl; [done|set_solver|done|done]. }
  split; [done|]. split; [done|]. split; [destruct (isSent b); lia|done].
Qed.

Lemma bdp_cycles_witness :
  let b1 := (bdp_add (newBdpEstimator 65535) 70000).1 in
  0 <= bdp (calculate b1 5 bdpPing).1 <= bdpLimit.
Proof.
  intros b1.
  apply (bdp_cycles 65535 ([] ++ [BData 70000 true] ++ [BAck bdpPing (calculate b1 5 bdpPing).2])).
  - vm_compute. intuition congruence.
  - rewrite app_assoc. eapply run_snoc; [eapply run_snoc; [apply run_nil|]|apply step_ack].
    apply (step_data (newBdpEstimator 65535) 70000). vm_compute. intuition congruence.
Defined.

(** An acknowledgement that no ping asked for, before any data: the round-trip
    time is divided by no samples and stays infinite, then undefined, and the
    windows never grow again. *)
Lemma spurious_ack_poisons :
  let b := (calculate (newBdpEstimator 65535) 0 bdpPing).1 in
  rtt b = S754_infinity false /\
  (calculate (timesnap (bdp_add b 1000000).1 0 bdpPing) 1000000 bdpPing).1.(rtt) = S754_nan.
Proof. vm_compute. done. Qed.
