(* ===== verification/Transport.v ===== *)
(** * Connections and streams: h2/h2_connection.go, h2/h2_connection_server.go, h2/stream.go, h2/hbone.go

    [H2Transport] and its client extension as one record, with the streams in a
    store.  An operation runs from one point where the goroutine waits to the
    next, and is atomic: [M] threads the state, and an operation finishes, waits
    for something ([Blocks]) or panics.

    Loopy's side of the control buffer is in Loopy.v; the callbacks the items
    carry are names here ([cb_delete p] and so on), and [runCallback] is what
    calling one does.  The handlers of events, the application's stream handler
    and the cancelling of contexts are outside: their calls are logged.  So is
    nio's receive buffer: [s_inFrameList] lists the messages put into it.

    Counters of 64 bits are not wrapped.  Times are nanoseconds; the zero time is
    [None]. *)
From S2P Require Import Loopy Prelude HpackTables Frame FrameRead FlowControl Lists ControlBuf.
From S2P Require Import Timeout Messages Events Bdp.

(** ** Values *)
Inductive chan := NilChan | OpenChan | ClosedChan.
#[export] Instance chan_eq_dec : EqDecision chan.
Proof. solve_decision. Defined.

Inductive tErr :=
| ErrEOF
| ErrClosing                                  (** [ErrConnClosing] *)
| ErrStreamDone
| ErrStreamRST
| ErrStreamDrain
| ErrFlow (rcvd : Z)
| ErrStatus (code : Z) (msg : list Z)
| ErrInvalidFrame (code : Z) (detail : option reason)   (** a [Status] with the detail of the framer *)
| ErrConnection (msg : list Z)
| ErrRead (e : frameErr)
| ErrContext
| ErrKeepalive
| ErrIllegalHeaderWrite
| ErrHeaderListSize
| ErrIllegalStream (id : Z)
| ErrNewStream (e : tErr) (allowTransparentRetry : bool).

Inductive recvMsg := MData (d : list Z) | MErr (e : option tErr).

(** The fields of [H2Stream] with the counters of [nio.StreamState] it uses; left
    out are the context, the value map and the deadlines. *)
Record H2Stream := mkStream {
  s_MuxID : Z;
  s_done : chan;
  s_headerChan : chan;
  s_headerChanClosed : bool;
  s_headerSent : bool;
  s_streamDone : bool;
  s_readClosed : Z;
  s_writeClosed : bool;
  s_inFlow : option inFlow;
  s_outFlow : option loc;
  s_inFrameList : option (list recvMsg);
  s_OnData : option callback;
  s_cancel : bool;
  s_Error : option tErr;
  s_unprocessed : bool;
  s_grpc : bool;
  s_deadline : option Z;
  s_RcvdBytes : Z;
  s_RcvdPackets : Z;
  s_SentPackets : Z;
  s_writeDoneChanClosed : bool;
  s_Request : Request;
  s_Response : Response
}.

(** What the transport calls or starts outside of itself. *)
Inductive tEvent :=
| EvHandler (t : EventType) (f : callback) (s : option loc)
| EvHandle (s : loc)
| EvOnData (f : callback) (s : loc) (data : list Z)
| EvCancel (s : loc)
| EvAwaitWrite (s : loc)                      (** [<-s.writeDoneChan] *)
| EvUnblockWrite (s : loc)                    (** [s.writeDoneChan <- nil], if someone waits *)
| EvSignal                                    (** [t.kpDormancyCond.Signal()] *)
| EvWrote (c : writeCall)                     (** a frame written past loopy *)
| EvFlush
| EvDrainWait (g : goAway)                    (** the goroutine of a graceful close *)
| EvCopyBody (s : loc)
| EvConnClose.

(** What a goroutine waits for. *)
Inductive wait :=
| WNil                    (** a receive from a nil channel: for ever *)
| WSelf                   (** a lock it holds itself: for ever *)
| WDone (s : loc)         (** another [closeStream] of the stream *)
| WStreamQuota
| WWriteQuota (s : loc)
| WHeaders (s : loc)      (** [<-s.headerChan] *)
| WThrottle.              (** loopy, in [controlBuf.throttle] *)

(** ** Replacing a field of a record *)
Definition eta_s (s : H2Stream) : H2Stream :=
  mkStream (s_MuxID s) (s_done s) (s_headerChan s) (s_headerChanClosed s) (s_headerSent s) (s_streamDone s)
    (s_readClosed s) (s_writeClosed s) (s_inFlow s) (s_outFlow s) (s_inFrameList s) (s_OnData s) (s_cancel s)
    (s_Error s) (s_unprocessed s) (s_grpc s) (s_deadline s) (s_RcvdBytes s) (s_RcvdPackets s) (s_SentPackets s)
    (s_writeDoneChanClosed s) (s_Request s) (s_Response s).
Ltac set_in expanded old new :=
  match expanded with context C [old] => let r := context C [new] in exact r end.
Ltac set_s s old new := let b := eval unfold eta_s in (eta_s s) in set_in b old new.

Definition with_MuxID (s : H2Stream) (v : Z) : H2Stream := ltac:(set_s s (s_MuxID s) v).
Definition with_done (s : H2Stream) (v : chan) : H2Stream := ltac:(set_s s (s_done s) v).
Definition with_headerChan (s : H2Stream) (v : chan) : H2Stream := ltac:(set_s s (s_headerChan s) v).
Definition with_headerChanClosed (s : H2Stream) (v : bool) : H2Stream := ltac:(set_s s (s_headerChanClosed s) v).
Definition with_headerSent (s : H2Stream) (v : bool) : H2Stream := ltac:(set_s s (s_headerSent s) v).
Definition with_streamDone (s : H2Stream) (v : bool) : H2Stream := ltac:(set_s s (s_streamDone s) v).
Definition with_readClosed (s : H2Stream) (v : Z) : H2Stream := ltac:(set_s s (s_readClosed s) v).
Definition with_writeClosed (s : H2Stream) (v : bool) : H2Stream := ltac:(set_s s (s_writeClosed s) v).
Definition with_inFlow (s : H2Stream) (v : option inFlow) : H2Stream := ltac:(set_s s (s_inFlow s) v).
Definition with_outFlow (s : H2Stream) (v : option loc) : H2Stream := ltac:(set_s s (s_outFlow s) v).
Definition with_inFrameList (s : H2Stream) (v : option (list recvMsg)) : H2Stream :=
  ltac:(set_s s (s_inFrameList s) v).
Definition with_cancel (s : H2Stream) (v : bool) : H2Stream := ltac:(set_s s (s_cancel s) v).
Definition with_Error (s : H2Stream) (v : option tErr) : H2Stream := ltac:(set_s s (s_Error s) v).
Definition with_unprocessed (s : H2Stream) (v : bool) : H2Stream := ltac:(set_s s (s_unprocessed s) v).
Definition with_RcvdBytes (s : H2Stream) (v : Z) : H2Stream := ltac:(set_s s (s_RcvdBytes s) v).
Definition with_RcvdPackets (s : H2Stream) (v : Z) : H2Stream := ltac:(set_s s (s_RcvdPackets s) v).
Definition with_SentPackets (s : H2Stream) (v : Z) : H2Stream := ltac:(set_s s (s_SentPackets s) v).
Definition with_writeDoneChanClosed (s : H2Stream) (v : bool) : H2Stream := ltac:(set_s s (s_writeDoneChanClosed s) v).
Definition with_Request (s : H2Stream) (v : Request) : H2Stream := ltac:(set_s s (s_Request s) v).
Definition with_Response (s : H2Stream) (v : Response) : H2Stream := ltac:(set_s s (s_Response s) v).

(** ** Callbacks *)
Definition cb_nop : callback := 0.
Definition cb_reset : callback := 1.                               (** [t.setResetPingStrikes] *)
Definition cb_delete (p : loc) : callback := 8 * Z.of_nat p + 2.   (** [t.deleteStream(s)] *)
Definition cb_init (p : loc) : callback := 8 * Z.of_nat p + 3.     (** [initStream] *)
Definition cb_wrote (p : loc) : callback := 8 * Z.of_nat p + 4.    (** [t.streamEvent(Event_WroteHeaders, s)] *)
Definition cb_orphan (p : loc) : callback := 8 * Z.of_nat p + 5.   (** [cleanup] *)
Definition cb_written (p : loc) : callback := 8 * Z.of_nat p + 6.  (** [s.writeDoneChan] *)
Definition cb_recycle (p : loc) : callback := 8 * Z.of_nat p + 7.  (** [nio.PutDataBufferChunk] *)
Definition cb_owner (f : callback) : loc := Z.to_nat (f / 8).

Definition defaultMaxStreamsClient : Z := 100.
Definition defaultWriteQuota : Z := 64 * 1024.
Definition http2MaxFrameLen : Z := 16384.

(** The gRPC codes; a code that is not in the table is 0. *)
Definition http2ErrConvTab (code : ErrCode) : Z :=
  nth (Z.to_nat code) [13; 13; 13; 8; 13; 13; 13; 14; 1; 13; 13; 8; 7; 13] 0.

Inductive GoAwayReason := GoAwayInvalid | GoAwayNoReason | GoAwayTooManyPings.

(** [streamsQuotaAvailable] holds at most one token; closing it and making a new
    one, which wakes all who wait, is counted. *)
Section Transport.
Context {Q : Type} `{!Queue Q cbItem}.

(** The fields of [H2Transport] and [H2ClientTransport].  Left out are the
    connection, the framer and loopy, contexts, the channels for tests, the pool
    of buffers, ids and times kept for statistics, and the text of the GOAWAY
    message. *)
Record H2Transport := mkTransport {
  t_side : Loopy.side;
  t_streamQuota : Z;
  t_waitingStreams : Z;
  t_quotaToken : bool;
  t_quotaWakes : Z;
  t_maxConcurrentStreams : Z;
  t_nextID : Z;
  t_activeStreams : option (gmap Z loc);
  t_strs : gmap loc H2Stream;
  t_wqs : gmap loc writeQuota;
  t_controlBuf : @controlBuffer Q;
  t_cbLocked : bool;
  t_closing : bool;
  t_closed : bool;
  t_done : chan;
  t_goAway : chan;
  t_prevGoAwayID : Z;
  t_goAwayReason : GoAwayReason;
  t_drainChan : chan;
  t_Error : option tErr;
  t_idle : option Z;
  t_initialWindowSize : Z;
  t_fc : trInFlow;
  t_bdpEst : option bdpEstimator;
  t_maxSendHeaderListSize : option Z;
  t_FrameSize : Z;
  t_maxStreams : Z;
  t_maxStreamID : Z;
  t_minPingTime : Z;
  t_permitWithoutStream : bool;
  t_lastPingAt : option Z;
  t_pingStrikes : Z;
  t_resetPingStrikes : bool;
  t_events : Events;
  t_hasHandle : bool;
  t_hasTraceCtx : bool;
  t_kpDormant : bool;
  t_streamsStarted : Z;
  t_streamsSucceeded : Z;
  t_streamsFailed : Z;
  t_msgRecv : Z;
  t_LastRead : Z;
  t_log : list tEvent
}.

Definition eta_t (t : H2Transport) : H2Transport :=
  mkTransport (t_side t) (t_streamQuota t) (t_waitingStreams t) (t_quotaToken t) (t_quotaWakes t)
    (t_maxConcurrentStreams t) (t_nextID t) (t_activeStreams t) (t_strs t) (t_wqs t) (t_controlBuf t) (t_cbLocked t)
    (t_closing t) (t_closed t) (t_done t) (t_goAway t) (t_prevGoAwayID t) (t_goAwayReason t) (t_drainChan t)
    (t_Error t) (t_idle t) (t_initialWindowSize t) (t_fc t) (t_bdpEst t) (t_maxSendHeaderListSize t) (t_FrameSize t)
    (t_maxStreams t) (t_maxStreamID t) (t_minPingTime t) (t_permitWithoutStream t) (t_lastPingAt t) (t_pingStrikes t)
    (t_resetPingStrikes t) (t_events t) (t_hasHandle t) (t_hasTraceCtx t) (t_kpDormant t) (t_streamsStarted t) (t_streamsSucceeded t)
    (t_streamsFailed t) (t_msgRecv t) (t_LastRead t) (t_log t).
Ltac set_t t old new := let b := eval unfold eta_t in (eta_t t) in set_in b old new.

Definition set_streamQuota (v : Z) (t : H2Transport) : H2Transport := ltac:(set_t t (t_streamQuota t) v).
Definition set_waitingStreams (v : Z) (t : H2Transport) : H2Transport := ltac:(set_t t (t_waitingStreams t) v).
Definition set_quotaToken (v : bool) (t : H2Transport) : H2Transport := ltac:(set_t t (t_quotaToken t) v).
Definition set_quotaWakes (v : Z) (t : H2Transport) : H2Transport := ltac:(set_t t (t_quotaWakes t) v).
Definition set_maxConcurrentStreams (v : Z) (t : H2Transport) : H2Transport := ltac:(set_t t (t_maxConcurrentStreams t) v).
Definition set_nextID (v : Z) (t : H2Transport) : H2Transport := ltac:(set_t t (t_nextID t) v).
Definition set_activeStreams (v : option (gmap Z loc)) (t : H2Transport) : H2Transport := ltac:(set_t t (t_activeStreams t) v).
Definition set_strs (v : gmap loc H2Stream) (t : H2Transport) : H2Transport := ltac:(set_t t (t_strs t) v).
Definition set_wqs (v : gmap loc writeQuota) (t : H2Transport) : H2Transport := ltac:(set_t t (t_wqs t) v).
Definition set_controlBuf (v : @controlBuffer Q) (t : H2Transport) : H2Transport := ltac:(set_t t (t_controlBuf t) v).
Definition set_cbLocked (v : bool) (t : H2Transport) : H2Transport := ltac:(set_t t (t_cbLocked t) v).
Definition set_closing (v : bool) (t : H2Transport) : H2Transport := ltac:(set_t t (t_closing t) v).
Definition set_closed (v : bool) (t : H2Transport) : H2Transport := ltac:(set_t t (t_closed t) v).
Definition set_done (v : chan) (t : H2Transport) : H2Transport := ltac:(set_t t (t_done t) v).
Definition set_goAway (v : chan) (t : H2Transport) : H2Transport := ltac:(set_t t (t_goAway t) v).
Definition set_prevGoAwayID (v : Z) (t : H2Transport) : H2Transport := ltac:(set_t t (t_prevGoAwayID t) v).
Definition set_goAwayReason (v : GoAwayReason) (t : H2Transport) : H2Transport := ltac:(set_t t (t_goAwayReason t) v).
Definition set_drainChan (v : chan) (t : H2Transport) : H2Transport := ltac:(set_t t (t_drainChan t) v).
Definition set_Error (v : option tErr) (t : H2Transport) : H2Transport := ltac:(set_t t (t_Error t) v).
Definition set_idle (v : option Z) (t : H2Transport) : H2Transport := ltac:(set_t t (t_idle t) v).
Definition set_initialWindowSize (v : Z) (t : H2Transport) : H2Transport := ltac:(set_t t (t_initialWindowSize t) v).
Definition set_fc (v : trInFlow) (t : H2Transport) : H2Transport := ltac:(set_t t (t_fc t) v).
Definition set_bdpEst (v : option bdpEstimator) (t : H2Transport) : H2Transport := ltac:(set_t t (t_bdpEst t) v).
Definition set_maxSendHeaderListSize (v : option Z) (t : H2Transport) : H2Transport :=
  ltac:(set_t t (t_maxSendHeaderListSize t) v).
Definition set_FrameSize (v : Z) (t : H2Transport) : H2Transport := ltac:(set_t t (t_FrameSize t) v).
Definition set_maxStreamID (v : Z) (t : H2Transport) : H2Transport := ltac:(set_t t (t_maxStreamID t) v).
Definition set_lastPingAt (v : option Z) (t : H2Transport) : H2Transport := ltac:(set_t t (t_lastPingAt t) v).
Definition set_pingStrikes (v : Z) (t : H2Transport) : H2Transport := ltac:(set_t t (t_pingStrikes t) v).
Definition set_resetPingStrikes (v : bool) (t : H2Transport) : H2Transport := ltac:(set_t t (t_resetPingStrikes t) v).
Definition set_hasHandle (v : bool) (t : H2Transport) : H2Transport := ltac:(set_t t (t_hasHandle t) v).
Definition set_hasTraceCtx (v : bool) (t : H2Transport) : H2Transport := ltac:(set_t t (t_hasTraceCtx t) v).
Definition set_kpDormant (v : bool) (t : H2Transport) : H2Transport := ltac:(set_t t (t_kpDormant t) v).
Definition set_streamsStarted (v : Z) (t : H2Transport) : H2Transport := ltac:(set_t t (t_streamsStarted t) v).
Definition set_streamsSucceeded (v : Z) (t : H2Transport) : H2Transport := ltac:(set_t t (t_streamsSucceeded t) v).
Definition set_streamsFailed (v : Z) (t : H2Transport) : H2Transport := ltac:(set_t t (t_streamsFailed t) v).
Definition set_msgRecv (v : Z) (t : H2Transport) : H2Transport := ltac:(set_t t (t_msgRecv t) v).
Definition set_LastRead (v : Z) (t : H2Transport) : H2Transport := ltac:(set_t t (t_LastRead t) v).
Definition set_log (v : list tEvent) (t : H2Transport) : H2Transport := ltac:(set_t t (t_log t) v).

(** ** Operations *)
Inductive result (A : Type) : Type :=
| Done (t : H2Transport) (a : A)
| Blocks (t : H2Transport) (w : wait)
| Crashes.
#[global] Arguments Done {A} t a.
#[global] Arguments Blocks {A} t w.
#[global] Arguments Crashes {A}.

Definition M (A : Type) : Type := H2Transport -> result A.
#[global] Instance M_ret : MRet M := fun A a t => Done t a.
#[global] Instance M_bind : MBind M := fun A B k m t =>
  match m t with Done t a => k a t | Blocks t w => Blocks t w | Crashes => Crashes end.

Definition gets {A} (f : H2Transport -> A) : M A := fun t => Done t (f t).
Definition modify (f : H2Transport -> H2Transport) : M () := fun t => Done (f t) tt.
Definition crash {A} : M A := fun _ => Crashes.
Definition block {A} (w : wait) : M A := fun t => Blocks t w.
Definition lift {A} (o : option A) : M A := match o with Some a => mret a | None => crash end.
Definition when (b : bool) (m : M ()) : M () := if b then m else mret tt.
Definition log (e : tEvent) : M () := fun t => Done (set_log (t_log t ++ [e]) t) tt.
Fixpoint forM {A} (l : list A) (f : A -> M ()) : M () :=
  match l with [] => mret tt | a :: l => f a;; forM l f end.

(** A stream that is not in the store is a nil pointer. *)
Definition getS (p : loc) : M H2Stream := fun t => match t_strs t !! p with Some s => Done t s | None => Crashes end.
Definition updS (p : loc) (f : H2Stream -> H2Stream) : M () :=
  s ← getS p; modify (fun t => set_strs (<[p := f s]> (t_strs t)) t).

(** [close(c)] panics on a nil or a closed channel. *)
Definition closeChan (c : chan) : option chan := match c with OpenChan => Some ClosedChan | _ => None end.

(** ** The control buffer *)

(** [controlBuf.executeAndPut]: [f] runs under the lock of the buffer, may change
    the item and may set a variable of its own; an error is [inl]. *)
Definition executeAndPutWith {A} (f : M (bool * cbItem * A)) : M (tErr + bool * A) :=
  locked ← gets t_cbLocked;
  if (locked : bool) then block WSelf else
  c ← gets t_controlBuf;
  if err c then mret (inl ErrClosing) else
  '(b, it, a) ← f;
  '(c, _, w) ← lift (ControlBuf.executeAndPut b it c);
  modify (set_controlBuf (if (w : bool) then wake c else c));;
  mret (inr (b, a)).
Definition executeAndPut (f : M (bool * cbItem)) : M (bool * option tErr) :=
  r ← executeAndPutWith ('(b, it) ← f; mret (b, it, tt));
  mret (match r with inl e => (false, Some e) | inr (b, _) => (b, None) end).

Definition put (it : cbItem) : M (option tErr) :=
  '(_, e) ← executeAndPut (mret (true, it)); mret e.
Definition put_ (it : cbItem) : M () := _ ← put it; mret tt.

(** [controlBuf.execute] *)
Definition execute (f : M bool) : M (bool * option tErr) :=
  locked ← gets t_cbLocked;
  if (locked : bool) then block WSelf else
  c ← gets t_controlBuf;
  if err c then mret (false, Some ErrClosing) else
  b ← f; mret (b, None).

(** ** Events *)
Definition fireAll (t : EventType) (s : option loc) : M () :=
  ev ← gets t_events; fs ← lift (fire ev t); forM fs (fun f => log (EvHandler t f s)).
Definition MuxEvent (t : EventType) : M () := fireAll t None.
Definition streamEvent (t : EventType) (s : loc) : M () := fireAll t (Some s).

(** ** Streams: h2/stream.go *)
Definition queueReadBuf (p : loc) (m : recvMsg) : M () :=
  updS p (fun s => with_inFrameList s ((fun l => l ++ [m]) <$> s_inFrameList s)).

Definition setReadClosed (p : loc) (mode : Z) (e : option tErr) : M () :=
  s ← getS p;
  updS p (fun s => with_readClosed s mode);;
  if negb (s_readClosed s =? 0) then mret tt else queueReadBuf p (MErr e).

(** [select { case t.streamsQuotaAvailable <- struct{}{}: default: }] *)
Definition offerQuota : M () :=
  q ← gets t_streamQuota; w ← gets t_waitingStreams;
  when ((q >? 0) && (w >? 0)) (modify (set_quotaToken true)).

Definition addBackStreamQuota (it : cbItem) : M (bool * cbItem) :=
  modify (fun t => set_streamQuota (t_streamQuota t + 1) t);; offerQuota;; mret (true, it).

Definition closeStream (p : loc) (e : option tErr) (rst : bool) (rstCode : ErrCode) : M () :=
  s ← getS p;
  if s_streamDone s then
    match s_done s with NilChan => block WNil | OpenChan => block (WDone p) | ClosedChan => mret tt end
  else
  updS p (fun s => with_streamDone s true);;
  when (match s_Error s, e with None, Some ErrEOF => false | None, _ => true | _, _ => false end)
    (updS p (fun s => with_Error s e));;
  when (bool_decide (is_Some e)) (setReadClosed p 2 e);;
  s ← getS p;
  when (bool_decide (s_headerChan s <> NilChan) && negb (s_headerChanClosed s))
    (c ← lift (closeChan (s_headerChan s));
     updS p (fun s => with_headerChan (with_headerChanClosed s true) c));;
  _ ← executeAndPut (addBackStreamQuota (ItCleanup (mkCleanup (s_MuxID s) rst rstCode (Some (cb_delete p)))));
  modify (fun t => match e with
                   | None => set_streamsSucceeded (t_streamsSucceeded t + 1) t
                   | Some _ => set_streamsFailed (t_streamsFailed t + 1) t
                   end);;
  s ← getS p;
  when (s_cancel s) (log (EvCancel p);; updS p (fun s => with_cancel s false));;
  when (bool_decide (s_done s <> NilChan))
    (c ← lift (closeChan (s_done s)); updS p (fun s => with_done s c)).

Definition CloseError (p : loc) (code : Z) : M () := closeStream p None true code.

Definition getStream (id : Z) : M (option loc) :=
  a ← gets t_activeStreams; mret (m ← a; m !! id).

(** ** Closing the connection *)
Section Ranging.
(** The order in which the map of streams is ranged over. *)
Context (rangeActive : gmap Z loc -> list (Z * loc)).

(** [cleanup] of [writeRequestHeaders] *)
Definition cleanup (p : loc) (e : tErr) : M () :=
  updS p (fun s => with_unprocessed s true);; closeStream p (Some e) true ErrCodeStreamClosed.

(** [controlBuf.finish]: the lock is held while [onOrphaned] is called. *)
Definition finish : M () :=
  locked ← gets t_cbLocked;
  if (locked : bool) then block WSelf else
  c ← gets t_controlBuf;
  if err c then mret tt else
  '(c', cbs) ← lift (ControlBuf.finish c);
  modify (set_controlBuf (mkCB (ch c) (consumerWaiting c) (clist c') true (transportResponseFrames c)
                            (trfChan c) (closed c) (made c)));;
  modify (set_cbLocked true);;
  forM cbs (fun f => cleanup (cb_owner f) ErrClosing);;
  modify (set_controlBuf c');;
  modify (set_cbLocked false).

(** What the goroutine of loopy does when [run] returns. *)
Definition loopyEnds : M () := log EvConnClose;; finish.

Definition Close (e : option tErr) : M () :=
  closed ← gets t_closed;
  if (closed : bool) then mret tt else
  modify (set_closed true);;
  modify (fun t => match t_Error t with None => set_Error e t | Some _ => t end);;
  MuxEvent Event_ConnClose;;
  streams ← gets t_activeStreams;
  modify (set_activeStreams None);;
  dormant ← gets t_kpDormant; when dormant (log EvSignal);;
  finish;;
  done ← gets t_done; c ← lift (closeChan done); modify (set_done c);;
  log EvConnClose;;
  forM (rangeActive (default ∅ streams)) (fun ip => closeStream ip.2 (Some ErrClosing) false 0);;
  MuxEvent Event_ConnClose.

Definition deleteStream (p : loc) (now : Z) : M () :=
  s ← getS p; a ← gets t_activeStreams;
  match a with
  | Some m =>
      if s_writeClosed s && negb (s_readClosed s =? 0) then
        match m !! s_MuxID s with
        | None => mret tt
        | Some _ =>
            let m := delete (s_MuxID s) m in
            modify (set_activeStreams (Some m));;
            if bool_decide (m = ∅) then
              modify (set_idle (Some now));;
              closing ← gets t_closing;
              if (closing : bool) then Close None else mret tt
            else mret tt
        end
      else mret tt
  | None => mret tt
  end.

(** ** Flow control *)
Definition adjustWindow (p : loc) (n : Z) : M () :=
  s ← getS p; f ← lift (s_inFlow s);
  let '(f, w) := inFlow_maybeAdjust f n in
  updS p (fun s => with_inFlow s (Some f));;
  when (w >? 0) (put_ (ItOutWindowUpdate (s_MuxID s) w)).

Definition UpdateWindow (p : loc) (n : Z) : M () :=
  s ← getS p; f ← lift (s_inFlow s);
  let '(f, w) := inFlow_onRead f n in
  updS p (fun s => with_inFlow s (Some f));;
  when (w >? 0) (put_ (ItOutWindowUpdate (s_MuxID s) w)).

Definition updateFlowControl (n : Z) : M () :=
  a ← gets t_activeStreams;
  forM (rangeActive (default ∅ a)) (fun ip =>
    s ← getS ip.2; f ← lift (s_inFlow s);
    updS ip.2 (fun s => with_inFlow s (Some (inFlow_newLimit f n))));;
  modify (set_initialWindowSize (i32 n));;
  fc ← gets t_fc;
  let '(fc, w) := trInFlow_newLimit fc n in
  modify (set_fc fc);;
  put_ (ItOutWindowUpdate 0 w);;
  put_ (ItOutSettings [mkSetting SettingInitialWindowSize n]).

Definition bdp_count (size : Z) : M bool :=
  b ← gets t_bdpEst;
  match b with
  | None => mret false
  | Some b => let '(b, ping) := bdp_add b size in modify (set_bdpEst (Some b));; mret ping
  end.

(** [bdpEst.calculate], which calls [updateFlowControl]. *)
Definition bdp_ack (now : Z) (data : list Z) : M () :=
  b ← gets t_bdpEst;
  match b with
  | None => mret tt
  | Some b =>
      let '(b, w) := calculate b now data in
      modify (set_bdpEst (Some b));;
      match w with None => mret tt | Some n => updateFlowControl n end
  end.

(** ** Frames received by either side *)
Definition deliver (p : loc) (data : list Z) : M () :=
  s ← getS p;
  match s_OnData s with
  | Some f => log (EvOnData f p data)
  | None =>
      if bool_decide (data = []) then mret tt else
      updS p (fun s => with_RcvdBytes s (s_RcvdBytes s + len data));;
      updS p (fun s => with_RcvdPackets s (s_RcvdPackets s + 1));;
      (** [s.inFrameList.Put], without a check for nil *)
      s ← getS p; l ← lift (s_inFrameList s);
      updS p (fun s => with_inFrameList s (Some (l ++ [MData data])))
  end.

(** The connection's part of [handleData]: its window does not depend on the
    application's reading. *)
Definition connData (size : Z) : M () :=
  sendBDPPing ← bdp_count size;
  fc ← gets t_fc;
  let '(fc, w) := trInFlow_onData fc size in
  modify (set_fc fc);;
  when (w >? 0) (put_ (ItOutWindowUpdate 0 w));;
  when sendBDPPing
    (fc ← gets t_fc;
     let '(fc, w) := trInFlow_reset fc in
     modify (set_fc fc);;
     when (w >? 0) (put_ (ItOutWindowUpdate 0 w));;
     put_ (ItPing false bdpPing)).

(** The stream's part; the result of the inner part says that the stream was
    closed. *)
Definition streamData (fh : FrameHeader) (data : list Z) : M () :=
  let size := Length fh in
  sp ← getStream (StreamID fh);
  match sp with
  | None => mret tt
  | Some p =>
      s ← getS p;
      if s_readClosed s =? 2 then closeStream p (Some ErrStreamDone) true ErrCodeStreamClosed else
      e ← (if size >? 0 then
             f ← lift (s_inFlow s);
             let '(f, e) := inFlow_onData f size in
             updS p (fun s => with_inFlow s (Some f));;
             match e with
             | Some rcvd => closeStream p (Some (ErrFlow rcvd)) true ErrCodeFlowControl;; mret true
             | None =>
                 when (Has (Flags fh) FlagDataPadded) (UpdateWindow p (u32 (size - len data)));;
                 deliver p data;; mret false
             end
           else mret false);
      if (e : bool) then mret tt else
      when (Has (Flags fh) FlagDataEndStream) (setReadClosed p 1 (Some ErrEOF))
  end.

Definition handleData (fh : FrameHeader) (data : list Z) : M () := connData (Length fh);; streamData fh data.

Definition handleRSTStream (fh : FrameHeader) (code : ErrCode) : M () :=
  sp ← getStream (StreamID fh);
  match sp with
  | None => put_ (ItCleanup (mkCleanup (StreamID fh) false 0 (Some cb_nop)))
  | Some p =>
      s ← getS p;
      if s_readClosed s =? 1 then mret tt else
      when (code =? ErrCodeRefusedStream) (updS p (fun s => with_unprocessed s true));;
      setReadClosed p 2 (Some ErrStreamRST);;
      s ← getS p;
      if s_headerChanClosed s then mret tt else
      updS p (fun s => with_headerChanClosed s true);;
      when (bool_decide (s_headerChan s <> NilChan))
        (c ← lift (closeChan (s_headerChan s)); updS p (fun s => with_headerChan s c))
  end.

Definition handleWindowUpdate (fh : FrameHeader) (increment : Z) : M () :=
  put_ (ItInWindowUpdate (StreamID fh) increment).

(** ** Settings *)

(** What the callback of [ForeachSetting] collects: the last value of
    [SettingMaxConcurrentStreams], the settings left to loopy and the limits on
    header lists, in order; [FrameSize] changes at once. *)
Record settingsRead := mkSR { sr_maxStreams : option Z; sr_ss : list Setting; sr_limits : list Z; sr_FrameSize : Z }.
Definition readSetting (server : bool) (r : settingsRead) (s : Setting) : settingsRead :=
  if ID s =? SettingMaxConcurrentStreams then mkSR (Some (Val s)) (sr_ss r) (sr_limits r) (sr_FrameSize r) else
  if ID s =? SettingMaxFrameSize then
    mkSR (sr_maxStreams r) (sr_ss r) (sr_limits r)
      (if (negb server || (sr_FrameSize r >? 0)) && (sr_FrameSize r >? Val s) then Val s else sr_FrameSize r) else
  if ID s =? SettingMaxHeaderListSize then
    mkSR (sr_maxStreams r) (sr_ss r) (sr_limits r ++ [Val s]) (sr_FrameSize r) else
  mkSR (sr_maxStreams r) (sr_ss r ++ [s]) (sr_limits r) (sr_FrameSize r).

(** The settings of a frame; a payload that cannot be read panics. *)
Definition readSettings (server : bool) (p : list Z) : M settingsRead :=
  l ← lift (match settings p with Ret l => Some l | _ => None end);
  fs ← gets t_FrameSize;
  let r := foldl (readSetting server) (mkSR None [] [] fs) l in
  modify (set_FrameSize (sr_FrameSize r));; mret r.

Definition applyLimits (l : list Z) : M () :=
  forM l (fun v => modify (set_maxSendHeaderListSize (Some v))).

Definition updateStreamQuota (maxStreams : Z) : M () :=
  max ← gets t_maxConcurrentStreams;
  let delta := maxStreams - max in
  modify (set_maxConcurrentStreams maxStreams);;
  modify (fun t => set_streamQuota (t_streamQuota t + delta) t);;
  w ← gets t_waitingStreams;
  when ((delta >? 0) && (w >? 0))
    (modify (fun t => set_quotaWakes (t_quotaWakes t + 1) t);; modify (set_quotaToken false)).

Definition handleSettingsClient (fh : FrameHeader) (p : list Z) (isFirst : bool) : M () :=
  if Has (Flags fh) FlagSettingsAck then mret tt else
  r ← readSettings false p;
  let maxStreams := match sr_maxStreams r with
                    | None => if (isFirst : bool) then Some uint32Max else None
                    | m => m
                    end in
  _ ← executeAndPut (applyLimits (sr_limits r);;
        (match maxStreams with Some m => updateStreamQuota m | None => mret tt end);;
        mret (true, ItInSettings (sr_ss r)));
  MuxEvent Event_Settings.

Definition handleSettingsServer (fh : FrameHeader) (p : list Z) : M () :=
  if Has (Flags fh) FlagSettingsAck then mret tt else
  r ← readSettings true p;
  _ ← executeAndPut (applyLimits (sr_limits r);; mret (true, ItInSettings (sr_ss r)));
  MuxEvent Event_Settings.

(** ** Pings *)
Definition goAwayPing : list Z := [1; 6; 1; 8; 0; 3; 3; 9].
Definition maxPingStrikes : Z := 2.
Definition defaultPingTimeout : Z := 2 * Hour.

Definition handlePingClient (fh : FrameHeader) (data : list Z) (now : Z) : M () :=
  if Has (Flags fh) FlagPingAck then bdp_ack now data else put_ (ItPing true data).

(** [t.lastPingAt.Add(d).After(now)]; the zero time is long ago. *)
Definition within_of (last : option Z) (d now : Z) : bool :=
  match last with None => false | Some l => now <? l + d end.

Definition countStrike (now : Z) : M () :=
  a ← gets t_activeStreams; permit ← gets t_permitWithoutStream;
  last ← gets t_lastPingAt; minTime ← gets t_minPingTime;
  let idle := bool_decide (default ∅ a = ∅) && negb permit in
  when (within_of last (if idle then defaultPingTimeout else minTime) now)
    (modify (fun t => set_pingStrikes (u8 (t_pingStrikes t + 1)) t)).

Definition handlePingServer (fh : FrameHeader) (data : list Z) (now : Z) : M () :=
  if Has (Flags fh) FlagPingAck then
    drain ← gets t_drainChan;
    if bool_decide (data = goAwayPing) && bool_decide (drain <> NilChan)
    then c ← lift (closeChan drain); modify (set_drainChan c)
    else bdp_ack now data
  else
    put_ (ItPing true data);;
    reset ← gets t_resetPingStrikes;
    (if (reset : bool) then modify (set_resetPingStrikes false);; modify (set_pingStrikes 0)
     else
       countStrike now;;
       strikes ← gets t_pingStrikes;
       when (strikes >? maxPingStrikes)
         (put_ (ItGoAway (mkGoAway ErrCodeEnhanceYourCalm (str "too_many_pings") false true))));;
    modify (set_lastPingAt (Some now)).

(** ** Going away *)
Definition setGoAwayReason (code : ErrCode) (debugData : list Z) : M () :=
  modify (set_goAwayReason
    (if (code =? ErrCodeEnhanceYourCalm) && bool_decide (debugData = str "too_many_pings")
     then GoAwayTooManyPings else GoAwayNoReason)).

Definition handleGoAway (id : Z) (code : ErrCode) (debugData : list Z) : M () :=
  closing ← gets t_closing;
  if (closing : bool) then mret tt else
  if (id >? 0) && (id mod 2 =? 0) then Close (Some (ErrConnection (str "even-numbered stream id"))) else
  goAway ← gets t_goAway; prev ← gets t_prevGoAwayID;
  bad ← (if bool_decide (goAway = ClosedChan) then mret (id >? prev)
         else
           setGoAwayReason code debugData;;
           c ← lift (closeChan goAway); modify (set_goAway c);;
           put_ ItInGoAway;;
           MuxEvent Event_GoAway;;
           modify (set_closing true);; mret false);
  if (bad : bool) then Close (Some (ErrConnection (str "exceeds stream id of previous goaway"))) else
  let upperLimit := if prev =? 0 then uint32Max else prev in
  a ← gets t_activeStreams;
  forM (rangeActive (default ∅ a)) (fun ip =>
    when ((ip.1 >? id) && (ip.1 <=? upperLimit))
      (updS ip.2 (fun s => with_unprocessed s true);;
       closeStream ip.2 (Some ErrStreamDrain) false ErrCodeNo));;
  modify (set_prevGoAwayID id);;
  a ← gets t_activeStreams;
  when (bool_decide (default ∅ a = ∅)) (Close (Some (ErrConnection (str "no active streams")))).

Definition Drain : M () :=
  d ← gets t_drainChan;
  if bool_decide (d <> NilChan) then mret tt else
  modify (set_drainChan OpenChan);;
  put_ (ItGoAway (mkGoAway ErrCodeNo [] true false)).

(** Loopy's handler of outgoing GOAWAY frames: should loopy drain, and its error.
    Writing to the framer is logged; [wrErr] is the error of a write. *)
Definition outgoingGoAwayHandler (wrErr : writeCall -> option tErr) (g : goAway) : M (bool * option tErr) :=
  closing ← gets t_closing;
  if (closing : bool) then mret (false, Some ErrClosing) else
  if negb (ga_headsUp g) then
    modify (set_closing true);;
    sid ← gets t_maxStreamID; a ← gets t_activeStreams;
    let closeConn := ga_closeConn g || bool_decide (default ∅ a = ∅) in
    let call := CallGoAway sid (ga_code g) (ga_debugData g) in
    log (EvWrote call);;
    match wrErr call with
    | Some e => mret (false, Some e)
    | None =>
        if (closeConn : bool) then log EvFlush;; mret (false, Some (ErrConnection (str "Connection closing")))
        else mret (true, None)
    end
  else
    let call := CallGoAway uint32Max ErrCodeNo [] in
    log (EvWrote call);;
    match wrErr call with
    | Some e => mret (false, Some e)
    | None =>
        let call := CallPing false goAwayPing in
        log (EvWrote call);;
        match wrErr call with
        | Some e => mret (false, Some e)
        | None => log (EvDrainWait g);; mret (false, None)
        end
    end.

(** The goroutine of a graceful close, once the ping is acknowledged or a minute
    has passed. *)
Definition drained (g : goAway) : M () := put_ (ItGoAway (mkGoAway (ga_code g) (ga_debugData g) false false)).

(** ** Headers received *)
Definition IsServer : M bool := s ← gets t_side; mret (bool_decide (s <> Loopy.clientSide)).

Definition endsStream (mh : MetaHeadersFrame) : bool := Has (Flags (mh_header mh)) FlagHeadersEndStream.

Definition operateResponseHeaders (mh : MetaHeadersFrame) : M () :=
  sp ← getStream (StreamID (mh_header mh));
  match sp with
  | None => mret tt
  | Some p =>
      s ← getS p;
      let trailer := s_headerChanClosed s in
      if trailer && negb (endsStream mh) then
        closeStream p (Some (ErrStatus 0 (str "a HEADERS frame cannot appear in the middle of a stream"))) true
          ErrCodeProtocol
      else if mh_Truncated mh then
        closeStream p (Some (ErrStatus 0 (str "peer header list size exceeded limit"))) true ErrCodeFrameSize
      else
      updS p (fun s => with_Response s (readResponse trailer (s_Response s) (mh_Fields mh)));;
      when (negb trailer)
        (updS p (fun s => with_headerChanClosed s true);;
         c ← lift (closeChan (s_headerChan s)); updS p (fun s => with_headerChan s c));;
      when (endsStream mh)
        (setReadClosed p 1 (Some ErrEOF);; queueReadBuf p (MErr (Some ErrEOF)))
  end.

(** A nil pointer to a write quota. *)
Definition nil_wq : loc := 0%nat.

(** An address that is not in use. *)
Definition newStream (s : H2Stream) : M loc :=
  strs ← gets t_strs;
  let p := fresh (dom strs) in
  modify (set_strs (<[p := s]> strs));; mret p.
Definition newQuota : M loc :=
  wqs ← gets t_wqs;
  let q := fresh ({[nil_wq]} ∪ dom wqs) in
  modify (set_wqs (<[q := newWriteQuota defaultWriteQuota]> wqs));; mret q.

Definition acceptedStream (id window : Z) (a : accepted) (wq : loc) (ended : bool) (deadline : option Z) : H2Stream :=
  mkStream id NilChan NilChan false false false (if ended then 1 else 0) false
    (Some (mkIn window 0 0 0)) (Some wq) (Some (if ended then [MErr (Some ErrEOF)] else [])) None true None false
    (ac_grpc a) deadline 0 0 0 false
    (mkRequest (ac_Method a) (ac_Host a) (Some (ac_URL a)) (ac_Header a)) newResponse.

Definition refuse (id : Z) (code : ErrCode) : M () :=
  put_ (ItCleanup (mkCleanup id true code (Some cb_nop))).

Definition operateAcceptHeaders (mh : MetaHeadersFrame) (now : Z) : M (option tErr) :=
  let id := StreamID (mh_header mh) in
  if mh_Truncated mh then refuse id ErrCodeFrameSize;; mret None else
  maxID ← gets t_maxStreamID;
  if id <=? maxID then mret (Some (ErrIllegalStream id)) else
  modify (set_maxStreamID id);;
  let a := acceptFields (mh_Fields mh) in
  if ac_headerError a then refuse id ErrCodeProtocol;; mret None else
  window ← gets t_initialWindowSize;
  wq ← newQuota;
  p ← newStream (acceptedStream id (u32 window) a wq (endsStream mh) ((fun d => now + d) <$> ac_timeout a));
  closing ← gets t_closing;
  if (closing : bool) then log (EvCancel p);; mret None else
  act ← gets t_activeStreams; maxStreams ← gets t_maxStreams; server ← IsServer;
  if (u32 (Z.of_nat (base.size (default ∅ act))) >=? maxStreams) && server
  then refuse id ErrCodeRefusedStream;; log (EvCancel p);; mret None else
  (** an assignment to an entry of a nil map panics *)
  m ← lift act;
  let m := <[id := p]> m in
  modify (set_activeStreams (Some m));;
  when (bool_decide (base.size m = 1%nat)) (modify (set_idle None));;
  streamEvent EventStreamStart p;;
  put_ (ItRegister id wq);;
  handle ← gets t_hasHandle;
  (if (handle : bool) then log (EvHandle p) else CloseError p 1);;
  mret None.

Definition operateClientResponseHeaders (mh : MetaHeadersFrame) (now : Z) : M () :=
  server ← IsServer;
  if (StreamID (mh_header mh) mod 2 =? 0) && negb server
  then _ ← operateAcceptHeaders mh now; mret tt
  else operateResponseHeaders mh.

Definition operateHeaders (mh : MetaHeadersFrame) (now : Z) : M (option tErr) :=
  side ← gets t_side;
  if negb (StreamID (mh_header mh) mod 2 =? 1) && bool_decide (side = Loopy.serverSide)
  then operateResponseHeaders mh;; mret None
  else operateAcceptHeaders mh now.

(** ** Sending *)
Section Sending.
Context (rangeHeader : httpHeader -> list (list Z)).

Definition streamContextErr : M tErr :=
  d ← gets t_done; mret (if bool_decide (d = ClosedChan) then ErrClosing else ErrContext).

Definition fitsHeaderList (hf : list HeaderField) : M bool :=
  limit ← gets t_maxSendHeaderListSize; mret (checkForHeaderListSize limit hf).

Definition writeResponseHeaders (p : loc) : M (option tErr) :=
  s ← getS p;
  let hf := responseFields rangeHeader (s_Response s) in
  '(success, e) ← executeAndPut (b ← fitsHeaderList hf;
      mret (b, ItHeader (mkHeader (s_MuxID s) hf false None (Some cb_reset) nil_wq None None)));
  if (success : bool) then mret None else
  match e with
  | Some e => mret (Some e)
  | None => closeStream p None true ErrCodeInternal;; mret (Some ErrHeaderListSize)
  end.

Definition WriteHeader (p : loc) : M (option tErr) :=
  s ← getS p;
  updS p (fun s => with_headerSent s true);;
  if s_headerSent s then mret (Some ErrIllegalHeaderWrite) else
  if s_streamDone s then e ← streamContextErr; mret (Some e) else
  writeResponseHeaders p.

Definition setWriteClosed (p : loc) : M () := updS p (fun s => with_writeClosed s true).

Definition writeTrailer (p : loc) : M (option tErr) :=
  s ← getS p;
  if s_writeClosed s then mret (Some ErrStreamDone) else
  setWriteClosed p;;
  let hf := trailerFields rangeHeader (s_Response s) in
  '(success, e) ← execute (fitsHeaderList hf);
  if (success : bool) then
    put_ (ItHeader (mkHeader (s_MuxID s) hf true None (Some cb_reset) nil_wq
            (Some (mkCleanup (s_MuxID s) false 0 None)) None));; mret None
  else match e with
       | Some e => mret (Some e)
       | None => closeStream p None true ErrCodeInternal;; mret (Some ErrHeaderListSize)
       end.

(** [s.outFlow.waitOrConsumeQuota] *)
Definition consumeQuota (p : loc) (n : Z) : M () :=
  s ← getS p; q ← lift (s_outFlow s); wqs ← gets t_wqs; w ← lift (wqs !! q);
  match tryConsume w n with
  | None => block (WWriteQuota p)
  | Some w => modify (set_wqs (<[q := w]> wqs))
  end.

(** The headers of a response go before its data. *)
Definition headersFirst (p : loc) (k : M (option tErr)) : M (option tErr) :=
  s ← getS p;
  e ← (if s_headerSent s then mret None else WriteHeader p);
  match e with Some e => mret (Some e) | None => k end.

(** [Send]: a nil buffer is [None]. *)
Definition Send (p : loc) (b : option (list Z)) (start end_ : Z) (last : bool) : M (option tErr) :=
  headersFirst p (
    s ← getS p;
    if s_writeClosed s then mret (Some ErrStreamDone) else
    when last (setWriteClosed p);;
    updS p (fun s => with_SentPackets s (s_SentPackets s + 1));;
    match b with
    | None => mret tt
    | Some d => consumeQuota p (i32 (if negb (end_ =? 0) then end_ - start else len d))
    end;;
    e ← put (ItData (mkData (s_MuxID s) last (default [] b) start end_ (Some cb_reset) None (Some (cb_recycle p))));
    match e with
    | Some e => mret (Some e)
    | None => s ← getS p; mret (s_Error s)
    end).

(** [Write] waits for loopy to have written the data. *)
Definition Write (p : loc) (data : option (list Z)) (last : bool) : M (option tErr) :=
  headersFirst p (
    s ← getS p;
    if s_writeClosed s then mret (Some ErrStreamDone) else
    when last (setWriteClosed p);;
    match data with None => mret tt | Some d => consumeQuota p (i32 (len d)) end;;
    e ← put (ItData (mkData (s_MuxID s) last (default [] data) 0 0 (Some cb_reset) (Some (cb_written p)) None));
    match e with
    | Some e => mret (Some e)
    | None => log (EvAwaitWrite p);; mret None
    end).

(** [H2Stream.CloseWrite] *)
Definition CloseWrite (p : loc) : M (option tErr) :=
  s ← getS p;
  updS p (fun s => with_headerSent s true);;
  e ← (if s_headerSent s then mret None else writeResponseHeaders p);
  match e with
  | Some e => mret (Some e)
  | None => if bool_decide (rs_Trailer (s_Response s) <> ∅) then writeTrailer p else Write p None true
  end.

(** [H2Stream.WriteHeader] *)
Definition StreamWriteHeader (p : loc) (statusCode : Z) : M () :=
  let status := if statusCode =? 0 then str "200" else FormatInt statusCode in
  updS p (fun s => with_Response s (mkResponse status (rs_StatusCode (s_Response s)) (rs_Header (s_Response s))
                                      (rs_Trailer (s_Response s))));;
  s ← getS p;
  if s_headerSent s then mret tt else _ ← WriteHeader p; mret tt.

(** [H2Stream.Close] *)
Definition CloseBoth (p : loc) : M () :=
  s ← getS p;
  when (negb (s_writeClosed s)) (_ ← CloseWrite p; mret tt);;
  closeStream p None false 0;;
  s ← getS p;
  when (s_readClosed s =? 0) (setReadClosed p 2 (Some ErrStreamRST));;
  when (s_cancel s) (log (EvCancel p));;
  when (negb (s_writeDoneChanClosed s))
    (updS p (fun s => with_writeDoneChanClosed s true);; log (EvUnblockWrite p)).

(** ** Opening streams *)

(** [checkForStreamQuota]: is there a stream for [p]? *)
Definition checkForStreamQuota (p : loc) (firstTry : bool) : M bool :=
  let assign :=
    id ← gets t_nextID; window ← gets t_initialWindowSize;
    modify (set_nextID (u32 (id + 2)));;
    updS p (fun s => with_inFlow (with_MuxID s id) (Some (mkIn (u32 window) 0 0 0))) in
  server ← IsServer;
  if (server : bool) then assign;; mret true else
  q ← gets t_streamQuota;
  if q <=? 0 then
    when firstTry (modify (fun t => set_waitingStreams (u32 (t_waitingStreams t + 1)) t));; mret false
  else
    when (negb firstTry) (modify (fun t => set_waitingStreams (u32 (t_waitingStreams t - 1)) t));;
    modify (set_streamQuota (q - 1));;
    assign;; offerQuota;; mret true.

(** A turn of the loop of [writeRequestHeaders]: it returns, or waits for quota
    and tries again with [firstTry] false.  The variable of the check says that
    the list is too long ([hdrListSizeErr]). *)
Definition writeRequestHeaders (p : loc) (hf : list HeaderField) (firstTry : bool) : M (option tErr) :=
  s ← getS p; wq ← lift (s_outFlow s);
  r ← executeAndPutWith (
    q ← checkForStreamQuota p firstTry;
    fits ← (if (q : bool) then fitsHeaderList hf else mret true);
    s ← getS p;
    mret (q && fits, ItHeader (mkHeader (s_MuxID s) hf false (Some (cb_init p)) (Some (cb_wrote p)) wq None
                                 (Some (cb_orphan p))), negb fits));
  match r with
  | inl e => mret (Some (ErrNewStream e true))
  | inr (true, _) => mret None
  | inr (false, true) => mret (Some (ErrNewStream ErrHeaderListSize false))
  | inr (false, false) => block WStreamQuota
  end.

(** [initStream], which loopy calls before it writes the headers. *)
Definition initStream (p : loc) (id now : Z) : M (option tErr) :=
  closing ← gets t_closing;
  if (closing : bool) then cleanup p ErrClosing;; mret (Some ErrClosing) else
  (** an assignment to an entry of a nil map panics *)
  act ← gets t_activeStreams; m ← lift act;
  modify (set_activeStreams (Some (<[id := p]> m)));;
  modify (fun t => set_streamsStarted (t_streamsStarted t + 1) t);;
  dormant ← gets t_kpDormant; when dormant (log EvSignal);; mret None.

(** [NewStreamReq] *)
Definition requestStream (r : Request) : H2Stream :=
  mkStream 0 NilChan NilChan false false false 0 false None None None None false None false false None
    0 0 0 false r newResponse.
Definition NewStreamReq (r : Request) : M loc := newStream (requestStream r).

(** [DialStream] up to the point where it waits for quota; [timeout] is what is
    left until the deadline of the request and [body] whether it has one. *)
Definition DialStream (p : loc) (timeout : option Z) (body : bool) : M (option tErr) :=
  wq ← newQuota;
  updS p (fun s => with_outFlow (with_headerChan (with_done s OpenChan) OpenChan) (Some wq));;
  s ← getS p;
  when (bool_decide (s_OnData s = None)) (updS p (fun s => with_inFrameList s (Some [])));;
  streamEvent EventStreamRequestStart p;;
  '(r, hf) ← lift (CreateHeader rangeHeader timeout (s_Request s));
  updS p (fun s => with_Request s r);;
  e ← writeRequestHeaders p hf true;
  match e with
  | Some e => mret (Some e)
  | None =>
      updS p (fun s => with_headerSent s true);;
      streamEvent EventStreamStart p;;
      when body (log (EvCopyBody p));; mret None
  end.

(** [WaitHeaders]; [ctxErr] is the error of the stream's context if the select
    took that branch. *)
Definition WaitHeaders (p : loc) (ctxErr : option tErr) : M () :=
  s ← getS p;
  if bool_decide (s_headerChan s = NilChan) then mret tt else
  match ctxErr with
  | Some e => closeStream p (Some e) true ErrCodeCancel
  | None => mret tt
  end;;
  s ← getS p;
  if bool_decide (s_headerChan s = ClosedChan) then mret tt else block (WHeaders p).

(** ** What loopy calls *)
Definition runCallback (f : callback) (now : Z) : M () :=
  if f =? cb_nop then mret tt else
  if f =? cb_reset then modify (set_resetPingStrikes true) else
  let p := cb_owner f in
  if f =? cb_delete p then deleteStream p now else
  if f =? cb_wrote p then streamEvent Event_WroteHeaders p else
  if f =? cb_orphan p then cleanup p ErrClosing else mret tt.

(** ** The readers *)

(** What [ReadFrame] returned.  The loops go on when the result is [true]. *)
Definition readOutcome : Type := outcome frameErr anyFrame.

(** [detail] is the framer's [ErrorDetail]. *)
Definition reader_step (o : readOutcome) (detail : option reason) (now : Z) : M bool :=
  modify (set_LastRead now);;
  match o with
  | Fail (StreamError id code _) =>
      sp ← getStream id;
      match sp with
      | Some p => closeStream p (Some (ErrInvalidFrame (http2ErrConvTab code) detail)) true ErrCodeProtocol
      | None => mret tt
      end;; mret true
  | Fail _ => Close (Some (ErrConnection (str "error reading from server")));; mret false
  | Panic => crash
  | Ret (Meta mh) => operateClientResponseHeaders mh now;; mret true
  | Ret (Plain f) =>
      match f with
      | DataFrame fh d => handleData fh d
      | RSTStreamFrame fh c => handleRSTStream fh c
      | SettingsFrame fh p => handleSettingsClient fh p false
      | PingFrame fh d => handlePingClient fh d now
      | GoAwayFrame _ id c d => handleGoAway id c d
      | WindowUpdateFrame fh inc => handleWindowUpdate fh inc
      | _ => mret tt
      end;; mret true
  end.

(** The first frame of the server. *)
Definition reader_first (o : readOutcome) (now : Z) : M bool :=
  match o with
  | Fail _ => Close (Some (ErrConnection (str "error reading server preface")));; mret false
  | Panic => crash
  | Ret (Plain (SettingsFrame fh p)) =>
      modify (set_LastRead now);; handleSettingsClient fh p true;; mret true
  | Ret _ =>
      modify (set_LastRead now);;
      Close (Some (ErrConnection (str "initial http2 frame from server is not a settings frame")));; mret false
  end.

(** A turn of [HandleStreams]: when the headers are bad the connection is closed
    and the loop goes on, since [break] leaves the switch only. *)
Definition handleStreams_step (o : readOutcome) (now : Z) : M bool :=
  modify (set_hasTraceCtx true);;
  modify (set_LastRead now);;
  match o with
  | Fail (StreamError id code _) =>
      sp ← getStream id;
      match sp with
      | Some p => closeStream p None true code
      | None => refuse id code
      end;; mret true
  | Fail (IOErr EOF) => Close None;; mret false
  | Fail e => Close (Some (ErrRead e));; mret false
  | Panic => crash
  | Ret (Meta mh) =>
      modify (fun t => set_streamsStarted (t_streamsStarted t + 1) t);;
      e ← operateHeaders mh now;
      match e with Some e => Close (Some e) | None => mret tt end;; mret true
  | Ret (Plain f) =>
      match f with
      | DataFrame fh d => modify (fun t => set_msgRecv (t_msgRecv t + 1) t);; handleData fh d
      | RSTStreamFrame fh c => handleRSTStream fh c
      | SettingsFrame fh p => handleSettingsServer fh p
      | PingFrame fh d => handlePingServer fh d now
      | WindowUpdateFrame fh inc => handleWindowUpdate fh inc
      | _ => mret tt
      end;; mret true
  end.
End Sending.
End Ranging.

(** ** Connections *)
Record H2Config := mkConfig {
  InitialConnWindowSize : Z;     (** int32 *)
  InitialWindowSize : Z;         (** int32 *)
  MaxFrameSize : Z;
  MaxHeaderListSize : option Z;
  MaxStreams : Z;                (** of a server *)
  HeaderTableSize : option Z;    (** of a server *)
  MinTime : Z;                   (** of the keepalive policy of a server *)
  PermitWithoutStream : bool
}.

Definition large (w : Z) : bool := w >=? defaultWindowSize.
Definition dynamicWindow (c : H2Config) : bool := negb (large (InitialConnWindowSize c)) && negb (large (InitialWindowSize c)).
Definition bdpOf (c : H2Config) : option bdpEstimator :=
  if dynamicWindow c then Some (newBdpEstimator defaultWindowSize) else None.

(** The connection's frame size, advertised and used. *)
Definition configFrameSize (c : H2Config) : Z :=
  if MaxFrameSize c =? 0 then http2MaxFrameLen else MaxFrameSize c.

(** [NewConnection] followed by [StartConn]. *)
Definition clientConnWindow (c : H2Config) : Z :=
  if InitialConnWindowSize c >? defaultWindowSize then u32 (InitialConnWindowSize c) else defaultWindowSize.
Definition newClient (c : H2Config) (ev : Events) (now : Z) : H2Transport :=
  mkTransport clientSide defaultMaxStreamsClient 0 false 0 defaultMaxStreamsClient 1 (Some ∅) ∅ ∅ newControlBuffer
    false false false OpenChan OpenChan 0 GoAwayInvalid NilChan None (Some now) defaultWindowSize
    (mkTr (clientConnWindow c) 0 0) (bdpOf c) None http2MaxFrameLen 0 0 0 false None 0 false ev false false false 0 0 0 0 0 [].

(** The frames [StartConn] writes after the client preface. *)
Definition startConn_writes (c : H2Config) : list writeCall :=
  CallSettings
    ((if large (InitialWindowSize c) then [mkSetting SettingInitialWindowSize (u32 (InitialWindowSize c))] else [])
     ++ (if negb (MaxFrameSize c =? 0) then [mkSetting SettingMaxFrameSize (MaxFrameSize c)] else [])
     ++ [mkSetting SettingMaxHeaderListSize (default 10485760 (MaxHeaderListSize c))])
  :: (if InitialConnWindowSize c >? defaultWindowSize
      then [CallWindowUpdate 0 (u32 (InitialConnWindowSize c - defaultWindowSize))] else []).

(** [NewServerConnection], before it reads the client's settings. *)
Definition serverWindow (c : H2Config) : Z :=
  if large (InitialWindowSize c) then InitialWindowSize c else defaultWindowSize.
Definition serverConnWindow (c : H2Config) : Z :=
  if large (InitialConnWindowSize c) then InitialConnWindowSize c else 2 * defaultWindowSize.
Definition serverMaxStreams (c : H2Config) : Z := if MaxStreams c =? 0 then uint32Max else MaxStreams c.
Definition newServer (c : H2Config) (ev : Events) (handle : bool) (now : Z) : option H2Transport :=
  ev ← Add no_events ev;
  Some (mkTransport serverSide 0 0 false 0 0 2 (Some ∅) ∅ ∅ newControlBuffer
    false false false OpenChan OpenChan 0 GoAwayInvalid NilChan None (Some now) defaultWindowSize
    (mkTr (u32 (serverConnWindow c)) 0 0) (bdpOf c) None (configFrameSize c) (serverMaxStreams c) 0
    (if MinTime c =? 0 then 5 * Minute else MinTime c) (PermitWithoutStream c) None 0 false ev handle false false 0 0 0 0 0 []).

Definition newServer_writes (c : H2Config) : list writeCall :=
  let delta := u32 (serverConnWindow c - defaultWindowSize) in
  CallSettings
    ([mkSetting SettingMaxFrameSize (configFrameSize c);
      mkSetting SettingMaxConcurrentStreams (serverMaxStreams c)]
     ++ (if negb (serverWindow c =? defaultWindowSize)
         then [mkSetting SettingInitialWindowSize (u32 (serverWindow c))] else [])
     ++ (match MaxHeaderListSize c with Some n => [mkSetting SettingMaxHeaderListSize n] | None => [] end)
     ++ (match HeaderTableSize c with Some n => [mkSetting SettingHeaderTableSize n] | None => [] end))
  :: (if delta >? 0 then [CallWindowUpdate 0 delta] else []).
End Transport.
