(* ===== verification/TransportInv.v ===== *)
(** * Invariants of a connection

    [Keeps I m] says that operation [m] preserves the invariant [I], whether it
    finishes or waits; it follows the structure of the operation ([keeps]).  The
    operations of a connection are collected in [op], and [reach] is any sequence
    of them, as the goroutines interleave them.

    The invariant shown here is the accounting of the stream quota of a client;
    TransportServer has the one of a server. *)
From S2P Require Import Loopy Prelude HpackTables Frame FrameRead FlowControl Lists ControlBuf.
From S2P Require Import Timeout Messages Events Bdp Transport.

Create HintDb keeps.

Section Keeps.
Context {Q : Type} `{!Queue Q cbItem}.
Implicit Types t : @H2Transport Q.

(** From a state in [I], [m] finishes in [J] or waits in [B], if it does not
    panic. *)
Definition Triple (I : @H2Transport Q -> Prop) {A} (m : M A) (J : A -> @H2Transport Q -> Prop)
    (B : @H2Transport Q -> Prop) : Prop :=
  forall t, I t -> match m t with Done t' a => J a t' | Blocks t' _ => B t' | Crashes => True end.

Definition Keeps (I B : @H2Transport Q -> Prop) {A} (m : M A) : Prop := Triple I m (fun _ => I) B.

Lemma triple_keeps {A} I B (m : M A) : Keeps I B m -> Triple I m (fun _ => I) B.
Proof. done. Qed.
Lemma triple_bind {A C} I (m : M A) J (k : A -> M C) K B :
  Triple I m J B -> (forall a, Triple (J a) (k a) K B) -> Triple I (m ≫= k) K B.
Proof.
  intros Hm Hk t Ht. unfold mbind, M_bind. specialize (Hm t Ht). destruct (m t) as [t' a|t' w|]; [|done..].
  by apply Hk.
Qed.
(** First something that keeps the invariant. *)
Lemma triple_seq {A C} I (m : M A) (k : A -> M C) K B :
  Keeps I B m -> (forall a, Triple I (k a) K B) -> Triple I (m ≫= k) K B.
Proof. apply triple_bind. Qed.
Lemma triple_weaken {A} (I I' : @H2Transport Q -> Prop) (m : M A) (J J' : A -> @H2Transport Q -> Prop)
    (B B' : @H2Transport Q -> Prop) :
  Triple I m J B -> (forall t, I' t -> I t) -> (forall a t, J a t -> J' a t) -> (forall t, B t -> B' t) ->
  Triple I' m J' B'.
Proof. intros Hm HI HJ HB t Ht. specialize (Hm t (HI t Ht)). destruct (m t); auto. Qed.

Section Rules.
Context (I B : @H2Transport Q -> Prop).

Lemma keeps_ret {A} (a : A) : Keeps I B (mret a).
Proof. by intros t H. Qed.
Lemma keeps_bind {A C} (m : M A) (k : A -> M C) :
  Keeps I B m -> (forall a, Keeps I B (k a)) -> Keeps I B (m ≫= k).
Proof. apply triple_bind. Qed.
Lemma keeps_gets {A} (f : @H2Transport Q -> A) : Keeps I B (gets f).
Proof. by intros t H. Qed.
Lemma keeps_modify f : (forall t, I t -> I (f t)) -> Keeps I B (modify f).
Proof. intros Hf t H. by apply Hf. Qed.
Lemma keeps_crash {A} : Keeps I B (crash (A := A)).
Proof. by intros t H. Qed.
Lemma keeps_block {A} w : (forall t, I t -> B t) -> Keeps I B (block (A := A) w).
Proof. intros HB t H. by apply HB. Qed.
Lemma keeps_lift {A} (o : option A) : Keeps I B (lift o).
Proof. by destruct o; intros t H. Qed.
Lemma keeps_lift_bind {A C} (o : option A) (k : A -> M C) :
  (forall a, o = Some a -> Keeps I B (k a)) -> Keeps I B (lift o ≫= k).
Proof. intros Hk t H. destruct o as [a|]; [|done]. by apply (Hk a). Qed.
Lemma keeps_when b m : Keeps I B m -> Keeps I B (when b m).
Proof. destruct b; [done|]. intros _. apply keeps_ret. Qed.
Lemma keeps_forM {A} (l : list A) f : (forall a, Keeps I B (f a)) -> Keeps I B (forM l f).
Proof.
  intros Hf. induction l as [|a l IH]; simpl; [apply keeps_ret|]. by apply keeps_bind.
Qed.
Lemma keeps_getS p : Keeps I B (getS p).
Proof. intros t H. unfold getS. by destruct (t_strs t !! p). Qed.
Lemma keeps_log e : (forall t, I t -> I (set_log (t_log t ++ [e]) t)) -> Keeps I B (log e).
Proof. intros He t H. by apply He. Qed.
Lemma keeps_updS p f :
  (forall t s, t_strs t !! p = Some s -> I t -> I (set_strs (<[p := f s]> (t_strs t)) t)) -> Keeps I B (updS p f).
Proof.
  intros Hf t Ht. unfold updS, getS, mbind, M_bind. destruct (t_strs t !! p) as [s|] eqn:E; [|done].
  simpl. by apply Hf.
Qed.
End Rules.
End Keeps.

(** Follow the structure of an operation; what remains are the changes that
    matter to the invariant. *)
Ltac keeps_step :=
  lazymatch goal with
  | |- Keeps _ _ (mret _) => apply keeps_ret
  | |- Keeps _ _ (gets _) => apply keeps_gets
  | |- Keeps _ _ crash => apply keeps_crash
  | |- Keeps _ _ (block _) => apply keeps_block; let H := fresh in intros ? H; solve [exact H | eauto with keeps]
  | |- Keeps _ _ (lift _) => apply keeps_lift
  | |- Keeps _ _ (getS _) => apply keeps_getS
  | |- Keeps _ _ (when _ _) => apply keeps_when
  | |- Keeps _ _ (forM _ _) => apply keeps_forM; intros ?
  | |- Keeps _ _ (log _) => apply keeps_log; let H := fresh in intros ? H; exact H
  | |- Keeps _ _ (lift _ ≫= _) => apply keeps_lift_bind; intros ? ?
  | |- Keeps _ _ (_ ≫= _) => apply keeps_bind; [|intros ?]
  | |- Keeps _ _ (match ?x with _ => _ end) => destruct x eqn:?
  | |- Keeps _ _ (let _ := _ in _) => cbv zeta
  end.
(** A change that the invariant does not see. *)
Ltac keeps_modify_quiet := apply keeps_modify; let H := fresh in intros ? H; exact H.
Ltac keeps_updS_quiet := apply keeps_updS; let H := fresh in intros ? ? _ H; exact H.
Ltac keeps :=
  repeat (cbv beta; first [keeps_step | solve [eauto with keeps] | keeps_modify_quiet | keeps_updS_quiet]).

(** ** Counting streams *)
Definition b2z (b : bool) : Z := if b then 1 else 0.
Definition count {A} (f : A -> bool) (m : gmap loc A) : Z :=
  Z.of_nat (base.size (filter (fun ps => f ps.2 = true) m)).

Lemma count_new {A} (f : A -> bool) m p s : m !! p = None -> count f (<[p := s]> m) = count f m + b2z (f s).
Proof.
  intros Hp. unfold count. destruct (f s) eqn:E.
  - rewrite map_filter_insert_True by done. rewrite map_size_insert_None; [simpl; lia|].
    apply map_lookup_filter_None. by left.
  - rewrite map_filter_insert_False by (simpl; congruence). rewrite delete_id by done. simpl. lia.
Qed.
Lemma count_insert {A} (f : A -> bool) m p s s' :
  m !! p = Some s -> count f (<[p := s']> m) = count f m - b2z (f s) + b2z (f s').
Proof.
  intros Hp. rewrite <- insert_delete_eq, count_new by apply lookup_delete_eq.
  rewrite <- (insert_delete_id m p s) at 2 by done. rewrite count_new by apply lookup_delete_eq. lia.
Qed.

(** ** The stream quota of a client *)
Section Quota.
Context {Q : Type} `{!Queue Q cbItem}.
Implicit Types t : @H2Transport Q.

(** The streams the client has opened, which have odd ids, and the streams that
    have ended, of either side. *)
Definition opened t : Z := count (fun s => Z.odd (s_MuxID s)) (t_strs t).
Definition ended t : Z := count s_streamDone (t_strs t).

(** The quota is what the server allows, less a stream for each that was opened,
    plus a stream for each that ended; [k] of them are still to be given back. *)
Definition balanced (k : Z) t : Prop :=
  Z.odd (t_nextID t) = true /\ t_streamQuota t = t_maxConcurrentStreams t - opened t + ended t - k.

(** Once the control buffer is finished nothing is given back. *)
Definition law (k : Z) t : Prop :=
  t_side t = clientSide /\ (t_cbLocked t = true -> err (t_controlBuf t) = true) /\
  (err (t_controlBuf t) = true \/ balanced k t).
(** What holds inside the lock of a buffer that is not finished. *)
Definition inside (k : Z) t : Prop := t_side t = clientSide /\ t_cbLocked t = false /\ balanced k t.

(** A change of a stream that keeps its id and whether it has ended. *)
Lemma quiet_count (f : H2Stream -> bool) t p s s' :
  t_strs t !! p = Some s -> f s' = f s -> count f (<[p := s']> (t_strs t)) = count f (t_strs t).
Proof. intros Hp Hf. rewrite (count_insert _ _ _ s) by done. rewrite Hf. lia. Qed.

Lemma updS_balanced k t p s s' :
  t_strs t !! p = Some s -> s_MuxID s' = s_MuxID s -> s_streamDone s' = s_streamDone s ->
  balanced k t -> balanced k (set_strs (<[p := s']> (t_strs t)) t).
Proof.
  intros Hp H1 H2 [Ho Hq]. split; [done|]. simpl in *. unfold opened, ended in *. simpl.
  rewrite !(quiet_count _ _ _ s) by (done || by rewrite H1). done.
Qed.

Lemma law_updS k B p f :
  (forall s, s_MuxID (f s) = s_MuxID s) -> (forall s, s_streamDone (f s) = s_streamDone s) -> Keeps (law k) B (updS p f).
Proof.
  intros H1 H2. apply keeps_updS. intros t s Hs (Hc & Hl & Hb). split; [done|]. split; [done|].
  destruct Hb as [?|Hb]; [by left|right]. by apply (updS_balanced k t p s).
Qed.

(** [f] runs inside the lock and moves the account from [k] to [k']; a buffer
    that is finished, or locked by this goroutine, leaves it as it is. *)
Lemma law_exec {A} k k' (R : @H2Transport Q -> Prop) (f : M (bool * cbItem * A)) :
  Triple (fun t => inside k t /\ R t) f (fun _ => inside k') (inside k') ->
  Triple (fun t => law k t /\ R t) (executeAndPutWith f) (fun _ => law k') (law k').
Proof.
  intros Hf t [(Hc & Hl & Hb) HR]. unfold executeAndPutWith, mbind, M_bind, gets. simpl.
  destruct (t_cbLocked t) eqn:Lk; simpl.
  { assert (err (t_controlBuf t) = true) by auto. split; [done|]. by split; [|left]. }
  destruct (err (t_controlBuf t)) eqn:Er; simpl.
  { split; [done|]. split; [by rewrite Lk|by left]. }
  assert (inside k t) as Hin by (split; [done|]; split; [done|]; destruct Hb; [congruence|done]).
  specialize (Hf t (conj Hin HR)). destruct (f t) as [t1 [[b it] a]|t1 w|];
    [|destruct Hf as (? & ? & ?); split; [done|]; split; [congruence|by right]|done].
  destruct (ControlBuf.executeAndPut b it (t_controlBuf t)) as [[[c' r] w]|] eqn:E; [|done]. simpl.
  destruct Hf as (? & ? & ?). split; [done|]. split; simpl; [congruence|by right].
Qed.
Lemma law_executeAndPut k k' f :
  Triple (inside k) f (fun _ => inside k') (inside k') -> Triple (law k) (executeAndPut f) (fun _ => law k') (law k').
Proof.
  intros Hf. unfold executeAndPut. eapply triple_bind; [|intros a; apply keeps_ret].
  eapply triple_weaken; [apply (law_exec k k' (fun _ => True))|done|done|done].
  eapply (triple_bind _ _ (fun _ => inside k')); [|intros [b it]; apply keeps_ret].
  eapply triple_weaken; [exact Hf|by intros t []|done|done].
Qed.
Lemma law_put k it : Keeps (law k) (law k) (put it).
Proof. unfold put. keeps. apply law_executeAndPut. apply keeps_ret. Qed.
Lemma law_put_ k it : Keeps (law k) (law k) (put_ it).
Proof. unfold put_. keeps. apply law_put. Qed.
Lemma law_fire k B e p : Keeps (law k) B (fireAll e p).
Proof. unfold fireAll. keeps. Qed.
End Quota.

#[export] Hint Resolve law_put law_put_ : keeps.
#[export] Hint Extern 1 (Keeps (law _) _ (fireAll _ _)) => apply law_fire : keeps.
#[export] Hint Extern 1 (Keeps (law _) _ (MuxEvent _)) => apply law_fire : keeps.
#[export] Hint Extern 1 (Keeps (law _) _ (streamEvent _ _)) => apply law_fire : keeps.
#[export] Hint Extern 1 (Keeps (law _) _ (updS _ _)) => apply law_updS; intros ?; reflexivity : keeps.

Section Handlers.
Context {Q : Type} `{!Queue Q cbItem}.
Implicit Types t : @H2Transport Q.

Lemma law_queue k B p m : Keeps (law (Q := Q) k) B (queueReadBuf p m).
Proof. unfold queueReadBuf. keeps. Qed.
Hint Resolve law_queue : keeps.
Lemma law_setReadClosed k B p mode e : Keeps (law (Q := Q) k) B (setReadClosed p mode e).
Proof. unfold setReadClosed. keeps. Qed.
Hint Resolve law_setReadClosed : keeps.

Lemma offerQuota_inside k B : Keeps (inside (Q := Q) k) B offerQuota.
Proof. unfold offerQuota. keeps. Qed.
Lemma addBack_inside it : Triple (inside (Q := Q) 1) (addBackStreamQuota it) (fun _ => inside 0) (inside 0).
Proof.
  unfold addBackStreamQuota. eapply (triple_bind _ _ (fun _ => inside 0)).
  - intros t (Hc & Hl & Ho & Hq). split; [done|]. split; [done|]. split; [done|]. simpl in *. unfold opened, ended in *. simpl. lia.
  - intros _. apply triple_seq; [apply offerQuota_inside|]. intros _. apply keeps_ret.
Qed.

Lemma law_markDone t p s : t_strs t !! p = Some s -> s_streamDone s = false -> law 0 t ->
  law 1 (set_strs (<[p := with_streamDone s true]> (t_strs t)) t).
Proof.
  intros Hp Hd (Hc & Hl & Hb). split; [done|]. split; [done|]. destruct Hb as [?|[Ho Hq]]; [by left|right].
  split; [done|]. simpl in *. unfold opened, ended in *. simpl.
  rewrite !(count_insert _ _ _ s) by done. rewrite Hd. simpl. lia.
Qed.

Lemma law_closeStream p e rst code : Keeps (law (Q := Q) 0) (law 0) (closeStream p e rst code).
Proof.
  intros t Ht. unfold closeStream at 1, mbind at 1, M_bind at 1, getS at 1.
  destruct (t_strs t !! p) as [s|] eqn:Es; [|done].
  destruct (s_streamDone s) eqn:Ed; [by destruct (s_done s)|].
  unfold mbind at 1, M_bind at 1, updS at 1, getS at 1, mbind at 1, M_bind at 1. rewrite Es. simpl.
  pose proof (law_markDone t p s Es Ed Ht) as H1. revert H1. generalize (set_strs (<[p:=with_streamDone s true]> (t_strs t)) t).
  clear t Ht Es. intros t Ht.
  match goal with |- match ?m t with _ => _ end => cut (Triple (law 1) m (fun _ => law 0) (law 0)); [intros H; exact (H t Ht)|] end.
  apply triple_seq; [keeps|intros _]. apply triple_seq; [keeps|intros _]. apply triple_seq; [keeps|intros s'].
  apply triple_seq; [keeps|intros _].
  apply (triple_bind _ _ (fun _ => law 0)); [apply law_executeAndPut, addBack_inside|intros _].
  apply triple_keeps.
  keeps. apply keeps_modify. intros t' H'. by destruct e.
Qed.
Hint Resolve law_closeStream : keeps.

(** A buffer that is finished stays so. *)
Definition finished t : Prop := t_side t = clientSide /\ err (t_controlBuf t) = true.
Lemma finished_law k t : finished t -> law k t.
Proof. intros [? H]. split; [done|]. by split; [|left]. Qed.
Lemma fin_executeAndPut B f : (forall t, finished t -> B t) -> Keeps finished B (executeAndPut f).
Proof.
  intros HB t Ht. unfold executeAndPut, executeAndPutWith, mbind, M_bind, gets. simpl.
  destruct (t_cbLocked t); [by apply HB|]. destruct Ht as [? Ht]. rewrite Ht. done.
Qed.
Lemma fin_closeStream (B : _ -> Prop) p e rst code : (forall t, finished t -> B t) -> Keeps finished B (closeStream p e rst code).
Proof.
  intros HB. unfold closeStream, setReadClosed, queueReadBuf. keeps; try (by apply fin_executeAndPut).
  apply keeps_modify. intros t H. by destruct e.
Qed.
Lemma law_cleanup p e : Keeps (law (Q := Q) 0) (law 0) (cleanup p e).
Proof. unfold cleanup. keeps. Qed.
Hint Resolve law_cleanup : keeps.

Lemma finish_err (c c' : @controlBuffer Q) cbs : ControlBuf.finish c = Some (c', cbs) -> err c = false -> err c' = true.
Proof.
  unfold ControlBuf.finish. intros H He. rewrite He in H. destruct (q_takeAll (clist c)) as [[l items]|]; [|done].
  simpl in H. destruct (trfChan c); simpl in H; [|by injection H as <- _].
  destruct (bool_decide _); [done|]. by injection H as <- _.
Qed.

Lemma law_finish : Keeps (law (Q := Q) 0) (law 0) finish.
Proof.
  intros t Ht. unfold finish, mbind at 1, M_bind at 1, gets at 1.
  destruct (t_cbLocked t); [done|]. unfold mbind at 1, M_bind at 1, gets at 1.
  destruct (err (t_controlBuf t)) eqn:Er; [done|].
  match goal with |- match ?m t with _ => _ end =>
    cut (Triple (law 0) m (fun _ => law 0) (law 0)); [intros H; exact (H t Ht)|] end.
  apply keeps_lift_bind. intros [c' cbs] Hf.
  apply (triple_bind _ _ (fun _ => finished)); [by intros t' [? _]|intros _].
  eapply (triple_weaken finished _ _ (fun _ => finished)); [|done|intros _; apply finished_law|intros t' H'; exact H'].
  apply triple_keeps. keeps.
  - unfold cleanup. keeps. apply fin_closeStream. intros. by apply finished_law.
  - apply keeps_modify. intros t' [? _]. split; [done|]. by apply (finish_err _ _ _ Hf).
Qed.
Hint Resolve law_finish : keeps.
Lemma law_loopyEnds : Keeps (law (Q := Q) 0) (law 0) loopyEnds.
Proof. unfold loopyEnds. keeps. Qed.
Hint Resolve law_loopyEnds : keeps.

Context (rangeActive : gmap Z loc -> list (Z * loc)) (rangeHeader : httpHeader -> list (list Z)).

Abbreviation lawful m := (Keeps (law (Q := Q) 0) (law 0) m).

Lemma law_Close e : lawful (Close rangeActive e).
Proof. unfold Close. keeps. apply keeps_modify. intros t H. by destruct (t_Error t). Qed.
Hint Resolve law_Close : keeps.
Lemma law_deleteStream p now : lawful (deleteStream rangeActive p now).
Proof. unfold deleteStream. keeps. Qed.
Lemma law_adjustWindow p n : lawful (adjustWindow p n).
Proof. unfold adjustWindow. keeps. Qed.
Lemma law_UpdateWindow p n : lawful (UpdateWindow p n).
Proof. unfold UpdateWindow. keeps. Qed.
Lemma law_updateFlowControl n : lawful (updateFlowControl rangeActive n).
Proof. unfold updateFlowControl. keeps. Qed.
Hint Resolve law_deleteStream law_adjustWindow law_UpdateWindow law_updateFlowControl : keeps.
Lemma law_bdp_count n : lawful (bdp_count n).
Proof. unfold bdp_count. keeps. Qed.
Lemma law_bdp_ack now d : lawful (bdp_ack rangeActive now d).
Proof. unfold bdp_ack. keeps. Qed.
Lemma law_deliver p d : lawful (deliver p d).
Proof. unfold deliver. keeps. Qed.
Hint Resolve law_bdp_count law_bdp_ack law_deliver : keeps.
Lemma law_getStream id : lawful (getStream id).
Proof. unfold getStream. keeps. Qed.
Hint Resolve law_getStream : keeps.
Lemma law_handleData fh d : lawful (handleData fh d).
Proof. unfold handleData, connData, streamData. keeps. Qed.
Lemma law_handleRSTStream fh c : lawful (handleRSTStream fh c).
Proof. unfold handleRSTStream. keeps. Qed.
Lemma law_readSettings b p : lawful (readSettings b p).
Proof. unfold readSettings. keeps. Qed.
Hint Resolve law_handleData law_handleRSTStream law_readSettings : keeps.
Lemma law_handleSettingsServer fh p : lawful (handleSettingsServer fh p).
Proof.
  unfold handleSettingsServer. keeps. apply law_executeAndPut, triple_keeps. unfold applyLimits. keeps.
Qed.
Lemma updateStreamQuota_inside B m : Keeps (inside (Q := Q) 0) B (updateStreamQuota m).
Proof.
  intros t (Hc & Hl & Ho & Hq). unfold updateStreamQuota, mbind, M_bind, gets, modify, when. simpl.
  assert (inside 0 (set_streamQuota (t_streamQuota t + (m - t_maxConcurrentStreams t)) (set_maxConcurrentStreams m t))).
  { split; [done|]. split; [done|]. split; [done|]. simpl. unfold opened, ended in *. simpl. lia. }
  by destruct (_ && _).
Qed.
Lemma law_handleSettingsClient fh p b : lawful (handleSettingsClient fh p b).
Proof.
  unfold handleSettingsClient. keeps. all: apply law_executeAndPut, triple_keeps; unfold applyLimits; keeps.
  all: apply updateStreamQuota_inside.
Qed.
Lemma law_handlePingClient fh d now : lawful (handlePingClient rangeActive fh d now).
Proof. unfold handlePingClient. keeps. Qed.
Lemma law_handlePingServer fh d now : lawful (handlePingServer rangeActive fh d now).
Proof. unfold handlePingServer, countStrike. keeps. Qed.
Lemma law_handleGoAway id c d : lawful (handleGoAway rangeActive id c d).
Proof. unfold handleGoAway, setGoAwayReason. keeps. Qed.
Lemma law_Drain : lawful Drain.
Proof. unfold Drain. keeps. Qed.
Lemma law_outgoingGoAwayHandler e g : lawful (outgoingGoAwayHandler e g).
Proof. unfold outgoingGoAwayHandler. keeps. Qed.
Lemma law_operateResponseHeaders mh : lawful (operateResponseHeaders mh).
Proof. unfold operateResponseHeaders. keeps. Qed.
Hint Resolve law_handleSettingsServer law_handleSettingsClient law_handlePingClient law_handlePingServer
  law_handleGoAway law_Drain law_outgoingGoAwayHandler law_operateResponseHeaders : keeps.

(** ** New streams *)
Lemma law_newStream s : Z.odd (s_MuxID s) = false -> s_streamDone s = false -> lawful (newStream s).
Proof.
  intros Ho Hd t (Hc & Hl & Hb). unfold newStream, mbind, M_bind, gets, modify. simpl.
  split; [done|]. split; [done|]. destruct Hb as [?|[? Hq]]; [by left|right]. split; [done|].
  assert (t_strs t !! fresh (dom (t_strs t)) = None) by (apply not_elem_of_dom, is_fresh).
  simpl in *. unfold opened, ended in *. simpl. rewrite !count_new, Ho, Hd by done. simpl. lia.
Qed.
Lemma law_newQuota : lawful newQuota.
Proof. unfold newQuota. keeps. Qed.
Hint Resolve law_newQuota : keeps.

Lemma law_accept mh now : Z.odd (StreamID (mh_header mh)) = false -> lawful (operateAcceptHeaders mh now).
Proof.
  intros Ho. unfold operateAcceptHeaders, refuse, IsServer, CloseError. keeps. all: by apply law_newStream.
Qed.
Lemma law_clientHeaders mh now : lawful (operateClientResponseHeaders mh now).
Proof.
  unfold operateClientResponseHeaders, IsServer. keeps. apply law_accept.
  match goal with H : _ && _ = true |- _ => apply andb_true_iff in H as [H _]; apply Z.eqb_eq in H end.
  rewrite Zmod_odd in *. by destruct (Z.odd _).
Qed.
Hint Resolve law_clientHeaders : keeps.

(** A stream that has no id of the client yet. *)
Definition unassigned (p : loc) t : Prop := forall s, t_strs t !! p = Some s -> Z.odd (s_MuxID s) = false.

Lemma odd_next id : Z.odd id = true -> Z.odd (u32 (id + 2)) = true.
Proof.
  intros H. unfold u32. rewrite Z.mod_eq by lia. change (2 ^ 32) with (2 * 2 ^ 31).
  rewrite <- Z.mul_assoc, Z.odd_sub, Z.odd_add, Z.odd_mul, H. done.
Qed.

Lemma checkForStreamQuota_inside p firstTry :
  Triple (fun t => inside (Q := Q) 0 t /\ unassigned p t) (checkForStreamQuota p firstTry) (fun _ => inside 0) (inside 0).
Proof.
  intros t [(Hc & Hl & Ho & Hq) Hu]. unfold checkForStreamQuota, IsServer, updS, getS, when, mbind, M_bind, gets, modify.
  rewrite Hc. simpl. destruct (Z.leb_spec (t_streamQuota t) 0) as [Hz|Hz].
  { by destruct firstTry. }
  unfold unassigned in Hu.
  assert (forall w, match t_strs t !! p with
    | Some s => inside 0 (set_strs (<[p := with_inFlow (with_MuxID s (t_nextID t)) (Some w)]> (t_strs t))
                  (set_nextID (u32 (t_nextID t + 2)) (set_streamQuota (t_streamQuota t - 1) t)))
    | None => True end) as H.
  { intros w. destruct (t_strs t !! p) as [s|] eqn:Es; [|done]. split; [done|]. split; [done|].
    split; [by apply odd_next|]. simpl. unfold opened, ended in *. simpl.
    rewrite !(count_insert _ _ _ s) by done. simpl. rewrite Ho, (Hu s eq_refl). simpl. lia. }
  pose proof (offerQuota_inside 0 (inside 0)) as Hof.
  specialize (H (mkIn (u32 (t_initialWindowSize t)) 0 0 0)).
  destruct firstTry; simpl; destruct (t_strs t !! p) as [s|]; try done;
    match goal with |- context [offerQuota ?T] => specialize (Hof T H); by destruct (offerQuota T) end.
Qed.

Lemma law_writeRequestHeaders p hf firstTry :
  Triple (fun t => law (Q := Q) 0 t /\ unassigned p t) (writeRequestHeaders p hf firstTry) (fun _ => law 0) (law 0).
Proof.
  unfold writeRequestHeaders. apply triple_seq; [apply keeps_getS|intros s]. apply triple_seq; [apply keeps_lift|intros wq].
  eapply (triple_bind _ _ (fun _ => law 0)).
  - apply law_exec. eapply (triple_bind _ _ (fun _ => inside 0)); [apply checkForStreamQuota_inside|intros q].
    apply triple_keeps. unfold fitsHeaderList. keeps.
  - intros r. apply triple_keeps. keeps.
Qed.

(** An operation that leaves the ids of streams alone keeps [unassigned]. *)
Lemma both_updS p q f B :
  (forall s, s_MuxID (f s) = s_MuxID s) -> (forall s, s_streamDone (f s) = s_streamDone s) ->
  Keeps (fun t => law (Q := Q) 0 t /\ unassigned p t) B (updS q f).
Proof.
  intros H1 H2. apply keeps_updS. intros t s Hs [Hlaw Hu]. split.
  - pose proof (law_updS 0 (fun _ => True) q f H1 H2 t Hlaw) as H. revert H.
    unfold updS, getS, mbind, M_bind. rewrite Hs. done.
  - intros s'. simpl. destruct (decide (q = p)) as [->|].
    + rewrite lookup_insert_eq. intros [= <-]. rewrite H1. by apply Hu.
    + rewrite lookup_insert_ne by done. apply Hu.
Qed.
Hint Extern 1 (Keeps (fun t => law _ t /\ unassigned _ t) _ (updS _ _)) =>
  apply both_updS; intros ?; reflexivity : keeps.

Lemma law_DialStream p timeout body :
  Triple (fun t => law (Q := Q) 0 t /\ unassigned p t) (DialStream rangeHeader p timeout body) (fun _ => law 0) (law 0).
Proof.
  unfold DialStream. do 4 (apply triple_seq; [unfold newQuota, streamEvent, fireAll; keeps|intros ?]).
  apply triple_seq; [unfold newQuota, streamEvent, fireAll; keeps|intros ?].
  apply triple_seq; [apply keeps_lift|intros [r hf]].
  apply triple_seq; [keeps|intros _].
  eapply triple_bind; [apply law_writeRequestHeaders|intros e]. apply triple_keeps. keeps.
Qed.

(** [Dial] *)
Lemma law_Dial r timeout body :
  Triple (law (Q := Q) 0) (p ← NewStreamReq r; DialStream rangeHeader p timeout body) (fun _ => law 0) (law 0).
Proof.
  eapply (triple_bind _ _ (fun p t => law 0 t /\ unassigned p t)); [|intros p; apply law_DialStream].
  intros t Ht. pose proof (law_newStream (requestStream r) eq_refl eq_refl t Ht) as H.
  unfold NewStreamReq, newStream, mbind, M_bind, gets, modify in *. simpl in *. split; [done|].
  intros s. simpl. rewrite lookup_insert_eq. by intros [= <-].
Qed.

Lemma law_initStream p id now : lawful (initStream p id now).
Proof. unfold initStream. keeps. Qed.
Lemma law_runCallback f now : lawful (runCallback rangeActive f now).
Proof. unfold runCallback. keeps. Qed.

(** ** Sending *)
Lemma law_writeResponseHeaders p : lawful (writeResponseHeaders rangeHeader p).
Proof.
  unfold writeResponseHeaders. keeps. apply law_executeAndPut, triple_keeps. unfold fitsHeaderList. keeps.
Qed.
Hint Resolve law_initStream law_runCallback law_writeResponseHeaders : keeps.
Lemma law_WriteHeader p : lawful (WriteHeader rangeHeader p).
Proof. unfold WriteHeader, streamContextErr. keeps. Qed.
Hint Resolve law_WriteHeader : keeps.
Lemma law_writeTrailer p : lawful (writeTrailer rangeHeader p).
Proof. unfold writeTrailer, setWriteClosed, execute, fitsHeaderList. keeps. Qed.
Lemma law_consumeQuota p n : lawful (consumeQuota p n).
Proof. unfold consumeQuota. keeps. Qed.
Hint Resolve law_writeTrailer law_consumeQuota : keeps.
Lemma law_Send p b start e last : lawful (Send rangeHeader p b start e last).
Proof. unfold Send, headersFirst, setWriteClosed. keeps. Qed.
Lemma law_Write p d last : lawful (Write rangeHeader p d last).
Proof. unfold Write, headersFirst, setWriteClosed. keeps. Qed.
Hint Resolve law_Send law_Write : keeps.
Lemma law_CloseWrite p : lawful (CloseWrite rangeHeader p).
Proof. unfold CloseWrite. keeps. Qed.
Hint Resolve law_CloseWrite : keeps.
Lemma law_CloseBoth p : lawful (CloseBoth rangeHeader p).
Proof. unfold CloseBoth. keeps. Qed.
Lemma law_handleWindowUpdate fh i : lawful (handleWindowUpdate fh i).
Proof. unfold handleWindowUpdate. keeps. Qed.
Hint Resolve law_CloseBoth law_handleWindowUpdate : keeps.

Lemma law_reader_step o d now : lawful (reader_step rangeActive o d now).
Proof. unfold reader_step. keeps. Qed.
Lemma law_reader_first o now : lawful (reader_first rangeActive o now).
Proof. unfold reader_first. keeps. Qed.
Lemma law_StreamWriteHeader p c : lawful (StreamWriteHeader rangeHeader p c).
Proof. unfold StreamWriteHeader. keeps. Qed.
Lemma law_WaitHeaders p e : lawful (WaitHeaders p e).
Proof. unfold WaitHeaders. keeps. Qed.
Hint Resolve law_reader_step law_reader_first law_StreamWriteHeader law_WaitHeaders : keeps.

(** ** Runs *)

(** Everything that happens to a connection: a frame arrives, the application
    opens, writes, reads or closes a stream, a caller that waited for quota tries
    again, loopy calls back, a timer fires. *)
Inductive op :=
| OpRead (o : readOutcome) (detail : option reason) (now : Z)
| OpFirst (o : readOutcome) (now : Z)
| OpServe (o : readOutcome) (now : Z)
| OpDial (r : Request) (timeout : option Z) (body : bool)
| OpRetry (p : loc) (hf : list HeaderField)
| OpInit (p : loc) (id now : Z)
| OpCallback (f : callback) (now : Z)
| OpWriteHeader (p : loc) (statusCode : Z)
| OpWrite (p : loc) (d : option (list Z)) (last : bool)
| OpSend (p : loc) (b : option (list Z)) (start end_ : Z) (last : bool)
| OpCloseWrite (p : loc)
| OpClose (p : loc)
| OpWaitHeaders (p : loc) (ctxErr : option tErr)
| OpCloseStream (p : loc) (e : option tErr) (rst : bool) (code : ErrCode)
| OpAdjustWindow (p : loc) (n : Z)
| OpUpdateWindow (p : loc) (n : Z)
| OpPing (data : list Z)                                    (** keepalive *)
| OpCloseConn (e : option tErr)
| OpLoopyEnds                                               (** loopy's [run] has returned *)
| OpDrain
| OpGoAwayOut (wrErr : writeCall -> option tErr) (g : goAway)
| OpDrained (g : goAway).

Definition ignore {A} (m : @M Q A) : M () := _ ← m; mret tt.

Definition run_op (o : op) : @M Q () :=
  match o with
  | OpRead r d now => ignore (reader_step rangeActive r d now)
  | OpFirst r now => ignore (reader_first rangeActive r now)
  | OpServe r now => ignore (handleStreams_step rangeActive r now)
  | OpDial r timeout body => ignore (p ← NewStreamReq r; DialStream rangeHeader p timeout body)
  | OpRetry p hf => ignore (writeRequestHeaders p hf false)
  | OpInit p id now => ignore (initStream p id now)
  | OpCallback f now => runCallback rangeActive f now
  | OpWriteHeader p c => StreamWriteHeader rangeHeader p c
  | OpWrite p d last => ignore (Write rangeHeader p d last)
  | OpSend p b s e last => ignore (Send rangeHeader p b s e last)
  | OpCloseWrite p => ignore (CloseWrite rangeHeader p)
  | OpClose p => CloseBoth rangeHeader p
  | OpWaitHeaders p e => WaitHeaders p e
  | OpCloseStream p e rst c => closeStream p e rst c
  | OpAdjustWindow p n => adjustWindow p n
  | OpUpdateWindow p n => UpdateWindow p n
  | OpPing d => put_ (ItPing false d)
  | OpCloseConn e => Close rangeActive e
  | OpLoopyEnds => loopyEnds
  | OpDrain => Drain
  | OpGoAwayOut e g => ignore (outgoingGoAwayHandler e g)
  | OpDrained g => drained g
  end.

(** The state in which an operation finishes or waits. *)
Definition ends {A} (r : @result Q A) (t' : @H2Transport Q) : Prop :=
  (exists a, r = Done t' a) \/ (exists w, r = Blocks t' w).

Lemma triple_ends {A} (I : @H2Transport Q -> Prop) (m : M A) J t t' :
  Triple I m (fun _ => J) J -> I t -> ends (m t) t' -> J t'.
Proof. intros Hm Ht [[a E]|[w E]]; specialize (Hm t Ht); rewrite E in Hm; done. Qed.

Section Reach.
Context (ok : @H2Transport Q -> op -> Prop) (t0 : @H2Transport Q).
Inductive reach : @H2Transport Q -> Prop :=
| reach_init : reach t0
| reach_step t o t' : reach t -> ok t o -> ends (run_op o t) t' -> reach t'.
End Reach.

(** A client does not serve, and who tries again has no stream yet. *)
Definition client_ok t (o : op) : Prop :=
  match o with
  | OpServe _ _ => False
  | OpRetry p _ => unassigned p t
  | _ => True
  end.

Lemma law_op o t : client_ok t o ->
  Triple (fun t' => t' = t /\ law (Q := Q) 0 t') (run_op o) (fun _ => law 0) (law 0).
Proof.
  intros Hok.
  assert (Hw : lawful (run_op o) -> Triple (fun t' => t' = t /\ law (Q := Q) 0 t') (run_op o) (fun _ => law 0) (law 0)).
  { intros H. eapply triple_weaken; [exact H|by intros ? []|done|done]. }
  destruct o; simpl in Hok; try (apply Hw; unfold run_op, ignore, drained; keeps; fail); [done| |].
  - apply Hw. unfold run_op, ignore. eapply triple_bind; [apply law_Dial|intros ?; apply keeps_ret].
  - unfold run_op, ignore. eapply triple_bind; [|intros ?; apply keeps_ret].
    eapply triple_weaken; [apply law_writeRequestHeaders|by intros ? [-> ?]|done|done].
Qed.

Lemma newClient_law c ev now : law 0 (newClient (Q := Q) c ev now).
Proof. split; [done|]. split; [done|]. by right. Qed.

(** The client's streams that have not ended. *)
Definition live t : Z := count (fun s => Z.odd (s_MuxID s) && negb (s_streamDone s)) (t_strs t).

Lemma count_split {A} (f g : A -> bool) (m : gmap loc A) :
  (forall p s, m !! p = Some s -> g s = true -> f s = true) ->
  count (fun s => f s && negb (g s)) m = count f m - count g m.
Proof.
  induction m as [|p s m Hp IH] using map_ind; [done|]. intros H.
  rewrite !count_new by done. rewrite IH.
  - pose proof (H p s (lookup_insert_eq m p s)) as Hs. destruct (f s), (g s); simpl; lia.
  - intros q s' Hq. apply (H q). rewrite lookup_insert_ne; [done|]. congruence.
Qed.

(** C12.  A client accounts for its streams: in every state a connection can get
    into before it is closed, in whatever order frames arrive, callers open, write
    and close streams and loopy calls back, the stream quota is the number of
    concurrent streams the server allows, less one for every stream opened, plus
    one for every stream ended; so as long as the streams that ended are the
    client's own, the quota is exactly what the server allows less the streams
    that are open. *)
Theorem client_stream_quota c ev now t :
  reach client_ok (newClient c ev now) t ->
  err (t_controlBuf t) = true \/
  (t_streamQuota t = t_maxConcurrentStreams t - opened t + ended t /\
   ((forall p s, t_strs t !! p = Some s -> s_streamDone s = true -> Z.odd (s_MuxID s) = true) ->
    t_streamQuota t = t_maxConcurrentStreams t - live t)).
Proof.
  intros Hr. assert (law 0 t) as (_ & _ & Hl).
  { induction Hr as [|t o t' _ IH Hok Hs]; [apply newClient_law|].
    exact (triple_ends _ _ _ t t' (law_op o t Hok) (conj eq_refl IH) Hs). }
  destruct Hl as [?|[_ Hq]]; [by left|right]. split; [lia|]. intros Hown.
  unfold live. rewrite count_split by done. unfold opened, ended in *. lia.
Qed.
End Handlers.

(** ** Operations by their definitions *)
Create HintDb ops.
#[export] Hint Unfold reader_step reader_first handleData connData streamData deliver handleRSTStream handleSettingsClient
  readSettings applyLimits handlePingClient handleGoAway setGoAwayReason handleWindowUpdate operateClientResponseHeaders
  operateAcceptHeaders operateResponseHeaders closeStream getStream setReadClosed queueReadBuf executeAndPut executeAndPutWith put_ put
  addBackStreamQuota offerQuota MuxEvent streamEvent fireAll execute
  bdp_count bdp_ack adjustWindow UpdateWindow updateFlowControl updateStreamQuota newStream newQuota refuse IsServer : ops.
(** Follow the structure of an operation and of those it calls. *)
Ltac keeps_modify_cases := apply keeps_modify; let H := fresh in intros ? H; repeat case_match; exact H.
Ltac keeps_ops := repeat (progress (keeps; try keeps_modify_cases; autounfold with ops)).

(** ** An example *)
Module Sample.
Definition range (m : gmap Z loc) : list (Z * loc) := map_to_list m.
Definition rangeH (h : httpHeader) : list (list Z) := elements (dom h).
Definition config : H2Config := mkConfig 0 0 0 None 0 None 0 false.
Definition client : @H2Transport (itemList cbItem) := newClient config no_events 0.
Definition request : Request :=
  mkRequest (str "GET") (str "example.com") (Some (mkURL (str "https") (str "example.com") (str "/") [])) ∅.
Definition state {A} (r : @result (itemList cbItem) A) : @H2Transport (itemList cbItem) :=
  match r with Done t _ | Blocks t _ => t | Crashes => client end.
(** The client after it opened a stream. *)
Definition dialed : @H2Transport (itemList cbItem) :=
  state (run_op range rangeH (OpDial request None false) client).
End Sample.

Lemma client_stream_quota_witness :
  reach Sample.range Sample.rangeH client_ok Sample.client Sample.dialed /\ t_streamQuota Sample.dialed = 99.
Proof.
  assert (reach Sample.range Sample.rangeH client_ok Sample.client Sample.dialed) as Hr.
  { eapply (reach_step _ _ _ _ Sample.client (OpDial Sample.request None false)); [apply reach_init|done|].
    left. exists tt. vm_compute. reflexivity. }
  split; [exact Hr|].
  destruct (client_stream_quota Sample.range Sample.rangeH Sample.config no_events 0 Sample.dialed Hr) as [E|[E _]].
  - vm_compute in E. discriminate E.
  - rewrite E. vm_compute. reflexivity.
Defined.
