(* ===== verification/TransportServer.v ===== *)
(** * The streams a server accepts

    The invariant of the map of active streams of a server: ids are in range, the
    client's ids are at most the largest one seen, and there are no more of the
    client's streams than the configured maximum. *)
From S2P Require Import Loopy Prelude HpackTables Frame FrameRead FlowControl Lists ControlBuf.
From S2P Require Import Timeout Messages Events Bdp Transport TransportInv.

Definition odd_keys (m : gmap Z loc) : Z := Z.of_nat (base.size (filter (fun kv => Z.odd kv.1 = true) m)).

Lemma odd_keys_insert m id p : odd_keys (<[id := p]> m) <= odd_keys m + b2z (Z.odd id).
Proof.
  unfold odd_keys. destruct (Z.odd id) eqn:E.
  - rewrite map_filter_insert_True by done. rewrite map_size_insert.
    destruct (filter _ m !! id); simpl; lia.
  - rewrite map_filter_insert_False by (simpl; congruence).
    assert (base.size (filter (fun kv : Z * loc => Z.odd kv.1 = true) (delete id m)) <=
            base.size (filter (fun kv : Z * loc => Z.odd kv.1 = true) m))%nat; [|simpl; lia].
    apply map_subseteq_size, map_filter_subseteq_mono, delete_subseteq.
Qed.
Lemma odd_keys_delete m id : odd_keys (delete id m) <= odd_keys m.
Proof. unfold odd_keys. apply Nat2Z.inj_le, map_subseteq_size, map_filter_subseteq_mono, delete_subseteq. Qed.
Lemma odd_keys_size m : odd_keys m <= Z.of_nat (base.size m).
Proof. unfold odd_keys. apply Nat2Z.inj_le, map_subseteq_size, map_filter_subseteq. Qed.

(** A map with keys in a range is no larger than the range. *)
Lemma size_bounded (m : gmap Z loc) b : 0 <= b -> (forall id, is_Some (m !! id) -> 0 < id < b) -> Z.of_nat (base.size m) <= b.
Proof.
  intros Hb H. rewrite <- size_dom.
  assert (dom m ⊆ list_to_set (seqZ 0 b)) as Hsub.
  { intros id Hid. apply elem_of_dom in Hid. apply elem_of_list_to_set, elem_of_seqZ. specialize (H id Hid). lia. }
  apply subseteq_size in Hsub. rewrite size_list_to_set in Hsub by apply NoDup_seqZ.
  rewrite length_seqZ in Hsub. lia.
Qed.

Section Server.
Context {Q : Type} `{!Queue Q cbItem}.
Context (rangeActive : gmap Z loc -> list (Z * loc)) (rangeHeader : httpHeader -> list (list Z)).
Implicit Types t : @H2Transport Q.

Definition map_limited (max maxID : Z) (m : gmap Z loc) : Prop :=
  (forall id, is_Some (m !! id) -> 0 < id < 2 ^ 31 /\ (Z.odd id = true -> id <= maxID)) /\ odd_keys m <= max.

Definition limited (max : Z) t : Prop :=
  t_side t = serverSide /\ t_maxStreams t = max /\
  match t_activeStreams t with None => True | Some m => map_limited max (t_maxStreamID t) m end.

Context (max : Z).
Abbreviation keeps_limit m := (Keeps (limited max) (limited max) m).

Lemma keeps_executeAndPut (I B : @H2Transport Q -> Prop) f :
  (forall t c, I t -> I (set_controlBuf c t)) -> (forall t, I t -> B t) -> Keeps I B f -> Keeps I B (executeAndPut f).
Proof.
  intros Hc HB Hf. unfold executeAndPut, executeAndPutWith. keeps;
    first [done | by apply keeps_block | by apply keeps_modify; intros; apply Hc].
Qed.
Lemma limit_exec f : keeps_limit f -> keeps_limit (executeAndPut f).
Proof. by apply keeps_executeAndPut. Qed.
Lemma limit_put it : keeps_limit (put it).
Proof. unfold put. keeps. apply limit_exec. keeps. Qed.
Lemma limit_put_ it : keeps_limit (put_ it).
Proof. unfold put_. keeps. apply limit_put. Qed.
Lemma limit_fire e p : keeps_limit (fireAll e p).
Proof. unfold fireAll. keeps. Qed.
Lemma limit_MuxEvent e : keeps_limit (MuxEvent e).
Proof. apply limit_fire. Qed.
Lemma limit_streamEvent e p : keeps_limit (streamEvent e p).
Proof. apply limit_fire. Qed.
Hint Resolve limit_put limit_put_ limit_MuxEvent limit_streamEvent : keeps.
Lemma limit_closeStream p e rst c : keeps_limit (closeStream p e rst c).
Proof.
  unfold closeStream, setReadClosed, queueReadBuf. keeps.
  - apply limit_exec. unfold addBackStreamQuota, offerQuota. keeps.
  - apply keeps_modify. intros t H. by destruct e.
Qed.
Lemma limit_setReadClosed p m e : keeps_limit (setReadClosed p m e).
Proof. unfold setReadClosed, queueReadBuf. keeps. Qed.
Hint Resolve limit_closeStream limit_setReadClosed : keeps.
Lemma limit_finish : keeps_limit finish.
Proof. unfold finish, cleanup. keeps. Qed.
Hint Resolve limit_finish : keeps.
Lemma limit_Close e : keeps_limit (Close rangeActive e).
Proof.
  unfold Close. keeps; apply keeps_modify; intros t H.
  - by destruct (t_Error t).
  - destruct H as (? & ? & _). done.
Qed.
Hint Resolve limit_Close : keeps.

Lemma map_limited_delete maxID m id : map_limited max maxID m -> map_limited max maxID (delete id m).
Proof.
  intros [Hk Ho]. split.
  - intros i [p Hi]. apply lookup_delete_Some in Hi as [_ Hi]. by apply Hk.
  - pose proof (odd_keys_delete m id). lia.
Qed.
Lemma limit_deleteStream p now : keeps_limit (deleteStream rangeActive p now).
Proof.
  intros t Ht. unfold deleteStream, mbind at 1, M_bind at 1, getS.
  destruct (t_strs t !! p) as [s|]; [|done]. unfold mbind at 1, M_bind at 1, gets at 1.
  destruct (t_activeStreams t) as [m|] eqn:Ea; [|done]. destruct (_ && _); [|done].
  destruct (m !! s_MuxID s); [|done].
  unfold mbind at 1, M_bind at 1, modify at 1.
  assert (limited max (set_activeStreams (Some (delete (s_MuxID s) m)) t)) as H1.
  { destruct Ht as (? & ? & Hm). rewrite Ea in Hm. split; [done|]. split; [done|]. by apply map_limited_delete. }
  revert H1. generalize (set_activeStreams (Some (delete (s_MuxID s) m)) t). clear t Ht Ea. intros t Ht.
  match goal with |- match ?f t with _ => _ end => cut (keeps_limit f); [intros H; exact (H t Ht)|] end. keeps.
Qed.
Hint Resolve limit_deleteStream : keeps.

Lemma limit_updateFlowControl n : keeps_limit (updateFlowControl rangeActive n).
Proof. unfold updateFlowControl. keeps. Qed.
Hint Resolve limit_updateFlowControl : keeps.
Lemma limit_bdp_ack now d : keeps_limit (bdp_ack rangeActive now d).
Proof. unfold bdp_ack. keeps. Qed.
Lemma limit_handleData fh d : keeps_limit (handleData fh d).
Proof. unfold handleData, connData, streamData, bdp_count, getStream, UpdateWindow, deliver. keeps. Qed.
Lemma limit_handleRSTStream fh c : keeps_limit (handleRSTStream fh c).
Proof. unfold handleRSTStream, getStream. keeps. Qed.
Lemma limit_handleSettings fh p : keeps_limit (handleSettingsServer fh p).
Proof. unfold handleSettingsServer, readSettings. keeps. apply limit_exec. unfold applyLimits. keeps. Qed.
Hint Resolve limit_bdp_ack limit_handleData limit_handleRSTStream limit_handleSettings : keeps.
Lemma limit_handlePing fh d now : keeps_limit (handlePingServer rangeActive fh d now).
Proof. unfold handlePingServer, countStrike. keeps. Qed.
Lemma limit_responseHeaders mh : keeps_limit (operateResponseHeaders mh).
Proof. unfold operateResponseHeaders, getStream, queueReadBuf. keeps. Qed.
Hint Resolve limit_handlePing limit_responseHeaders : keeps.

(** A stream is accepted when there is room for it. *)
Lemma map_limited_accept maxID m id p :
  map_limited max maxID m -> 0 < id < 2 ^ 31 -> id > maxID -> u32 (Z.of_nat (base.size m)) < max ->
  map_limited max id (<[id := p]> m).
Proof.
  intros [Hk Ho] Hid Hgt Hroom. split.
  - intros i [q Hi]. destruct (decide (i = id)) as [->|Hne]; [lia|]. rewrite lookup_insert_ne in Hi by done.
    destruct (Hk i) as [? Hodd]; [by eexists|]. split; [done|]. intros E. specialize (Hodd E). lia.
  - pose proof (size_bounded m (2 ^ 31) ltac:(lia) (fun i Hi => proj1 (Hk i Hi))).
    rewrite u32_small in Hroom by lia. pose proof (odd_keys_size m). pose proof (odd_keys_insert m id p).
    destruct (Z.odd id); simpl in *; lia.
Qed.

Lemma limit_newQuota : keeps_limit newQuota.
Proof. unfold newQuota. keeps. Qed.
Lemma limit_newStream s : keeps_limit (newStream s).
Proof. unfold newStream. keeps. Qed.
Hint Resolve limit_newQuota limit_newStream : keeps.

(** While a stream with a new id is accepted. *)
Definition accepting (id : Z) t : Prop :=
  t_side t = serverSide /\ t_maxStreams t = max /\ t_maxStreamID t = id /\
  match t_activeStreams t with None => True | Some m => exists old, old < id /\ map_limited max old m end.

Lemma accepting_limited id t : accepting id t -> limited max t.
Proof.
  intros (? & ? & Hid & Hm). split; [done|]. split; [done|]. destruct (t_activeStreams t) as [m|]; [|done].
  destruct Hm as (old & Hold & Hk & Ho). split; [|done]. intros i Hi. destruct (Hk i Hi) as [? Hodd].
  split; [done|]. intros E. specialize (Hodd E). lia.
Qed.
Lemma accepting_put id it : Keeps (accepting id) (limited max) (put_ it).
Proof.
  unfold put_, put. keeps. apply keeps_executeAndPut; [done|apply accepting_limited|keeps].
Qed.

Lemma limit_accept mh now : 0 < StreamID (mh_header mh) < 2 ^ 31 -> keeps_limit (operateAcceptHeaders mh now).
Proof.
  set (id := StreamID (mh_header mh)). intros Hid. unfold operateAcceptHeaders. fold id.
  destruct (mh_Truncated mh); [unfold refuse; keeps|].
  intros t Ht. unfold mbind at 1, M_bind at 1, gets at 1. destruct (Z.leb_spec id (t_maxStreamID t)) as [Hle|Hgt]; [done|].
  unfold mbind at 1, M_bind at 1, modify at 1.
  assert (accepting id (set_maxStreamID id t)) as H1.
  { destruct Ht as (? & ? & Hm). split; [done|]. split; [done|]. split; [done|]. simpl.
    destruct (t_activeStreams t) as [m|]; [|done]. by exists (t_maxStreamID t). }
  revert H1. generalize (set_maxStreamID id t). clear t Ht Hgt. intros t Ht.
  match goal with |- match ?f t with _ => _ end =>
    cut (Triple (accepting id) f (fun _ => limited max) (limited max)); [intros H; exact (H t Ht)|] end.
  clear t Ht.
  assert (Hret : forall {A} (m : @M Q A), Keeps (limited max) (limited max) m ->
    Triple (accepting id) m (fun _ => limited max) (limited max)).
  { intros A m Hm. eapply triple_weaken; [exact Hm|apply accepting_limited|done|done]. }
  destruct (ac_headerError _); [apply Hret; unfold refuse; keeps|].
  apply triple_seq; [keeps|intros window]. apply triple_seq; [unfold newQuota; keeps|intros wq].
  apply triple_seq; [unfold newStream; keeps|intros p]. apply triple_seq; [keeps|intros closing].
  destruct closing; [apply Hret; keeps|].
  intros t Ht. unfold mbind at 1, M_bind at 1, gets at 1. unfold mbind at 1, M_bind at 1, gets at 1.
  unfold mbind at 1, M_bind at 1, IsServer at 1, mbind at 1, M_bind at 1, gets at 1, mret at 1, M_ret at 1.
  destruct Ht as (Hside & Hmax & HmaxID & Hm). rewrite Hside, Hmax. simpl bool_decide. rewrite andb_true_r.
  destruct (Z.geb_spec (u32 (Z.of_nat (base.size (default ∅ (t_activeStreams t))))) max) as [Hfull|Hroom].
  { assert (accepting id t) as Ht by done. match goal with |- match ?f t with _ => _ end =>
      cut (Triple (accepting id) f (fun _ => limited max) (limited max)); [intros H; exact (H t Ht)|] end.
    apply Hret. unfold refuse. keeps. }
  destruct (t_activeStreams t) as [m|] eqn:Ea; [|done]. simpl in Hroom.
  unfold mbind at 1, M_bind at 1, lift, mret at 1, M_ret at 1. unfold mbind at 1, M_bind at 1, modify at 1.
  assert (limited max (set_activeStreams (Some (<[id := p]> m)) t)) as H1.
  { destruct Hm as (old & Hold & Hml). split; [done|]. split; [done|]. simpl. rewrite HmaxID.
    apply (map_limited_accept old); [done|done|lia|lia]. }
  revert H1. generalize (set_activeStreams (Some (<[id := p]> m)) t). clear t Hside Hmax HmaxID Ea Hm Hroom.
  intros t Ht. match goal with |- match ?f t with _ => _ end => cut (keeps_limit f); [intros H; exact (H t Ht)|] end.
  unfold CloseError. keeps.
Qed.
Hint Resolve limit_accept : keeps.

Lemma limit_initStream p id now : 0 < id < 2 ^ 31 -> Z.odd id = false -> keeps_limit (initStream p id now).
Proof.
  intros Hid Ho. unfold initStream. apply keeps_bind; [keeps|]. intros []; [unfold cleanup; keeps|].
  intros t Ht. unfold mbind at 1, M_bind at 1, gets at 1.
  destruct (t_activeStreams t) as [m|] eqn:Ea; [|done].
  unfold mbind at 1, M_bind at 1, lift, mret at 1, M_ret at 1. unfold mbind at 1, M_bind at 1, modify at 1.
  assert (limited max (set_activeStreams (Some (<[id := p]> m)) t)) as H1.
  { destruct Ht as (? & ? & Hm). rewrite Ea in Hm. destruct Hm as [Hk Hodd]. split; [done|]. split; [done|]. split.
    - intros i [q Hi]. destruct (decide (i = id)) as [->|Hne]; [split; [done|congruence]|].
      rewrite lookup_insert_ne in Hi by done. apply Hk. by eexists.
    - pose proof (odd_keys_insert m id p) as Hi. rewrite Ho in Hi. simpl in Hi. lia. }
  revert H1. generalize (set_activeStreams (Some (<[id := p]> m)) t). clear t Ht Ea. intros t Ht.
  match goal with |- match ?f t with _ => _ end => cut (keeps_limit f); [intros H; exact (H t Ht)|] end. keeps.
Qed.

Lemma limit_runCallback f now : keeps_limit (runCallback rangeActive f now).
Proof. unfold runCallback, cleanup. keeps. Qed.

(** ** Sending and opening *)
Lemma limit_writeResponseHeaders p : keeps_limit (writeResponseHeaders rangeHeader p).
Proof. unfold writeResponseHeaders. keeps. apply limit_exec. unfold fitsHeaderList. keeps. Qed.
Hint Resolve limit_runCallback limit_writeResponseHeaders : keeps.
Lemma limit_WriteHeader p : keeps_limit (WriteHeader rangeHeader p).
Proof. unfold WriteHeader, streamContextErr. keeps. Qed.
Lemma limit_writeTrailer p : keeps_limit (writeTrailer rangeHeader p).
Proof. unfold writeTrailer, setWriteClosed, execute, fitsHeaderList. keeps. Qed.
Hint Resolve limit_WriteHeader limit_writeTrailer : keeps.
Lemma limit_Send p b st e last : keeps_limit (Send rangeHeader p b st e last).
Proof. unfold Send, headersFirst, setWriteClosed, consumeQuota. keeps. Qed.
Lemma limit_Write p d last : keeps_limit (Write rangeHeader p d last).
Proof. unfold Write, headersFirst, setWriteClosed, consumeQuota. keeps. Qed.
Hint Resolve limit_Send limit_Write : keeps.
Lemma limit_CloseWrite p : keeps_limit (CloseWrite rangeHeader p).
Proof. unfold CloseWrite. keeps. Qed.
Hint Resolve limit_CloseWrite : keeps.
Lemma limit_CloseBoth p : keeps_limit (CloseBoth rangeHeader p).
Proof. unfold CloseBoth. keeps. Qed.
Lemma limit_writeRequestHeaders p hf b : keeps_limit (writeRequestHeaders p hf b).
Proof.
  unfold writeRequestHeaders, executeAndPutWith, checkForStreamQuota, offerQuota, fitsHeaderList, IsServer. keeps.
Qed.
Hint Resolve limit_CloseBoth limit_writeRequestHeaders : keeps.
Lemma limit_DialStream p timeout body : keeps_limit (DialStream rangeHeader p timeout body).
Proof. unfold DialStream. keeps. Qed.
Hint Resolve limit_DialStream : keeps.

(** Frames come with ids of 31 bits; loopy registers streams of the server's own. *)
Definition server_ok t (o : op) : Prop :=
  match o with
  | OpServe (Ret (Meta mh)) _ => 0 < StreamID (mh_header mh) < 2 ^ 31
  | OpInit _ id _ => 0 < id < 2 ^ 31 /\ Z.odd id = false
  | OpRead _ _ _ | OpFirst _ _ => False
  | _ => True
  end.

Lemma limit_op o t : server_ok t o -> keeps_limit (run_op rangeActive rangeHeader o).
Proof.
  intros Hok. unfold run_op, ignore. destruct o; simpl in Hok; try done; try solve [keeps].
  - unfold handleStreams_step, operateHeaders, refuse, getStream, handleWindowUpdate.
    destruct o as [[f|mh]|e|]; keeps.
  - apply keeps_bind; [apply limit_initStream; apply Hok|]. intros. keeps.
  - unfold StreamWriteHeader. keeps.
  - unfold WaitHeaders. keeps.
  - unfold adjustWindow. keeps.
  - unfold UpdateWindow. keeps.
  - unfold loopyEnds. keeps.
  - unfold Drain. keeps.
  - unfold outgoingGoAwayHandler. keeps.
Qed.
End Server.

(** C13.  A server keeps to its limit: in every state its connection can get into,
    whatever frames arrive and whatever the application does, at most [MaxStreams]
    of the client's streams are active (2^32-1 when it is not set), and none of
    their ids is larger than the largest one seen, so a stream that is accepted is
    a new one. *)
Theorem server_stream_limit {Q} `{!Queue Q cbItem} rangeActive rangeHeader c ev handle now (t0 t : @H2Transport Q) m :
  newServer c ev handle now = Some t0 -> 0 <= MaxStreams c ->
  reach rangeActive rangeHeader server_ok t0 t -> t_activeStreams t = Some m ->
  odd_keys m <= serverMaxStreams c /\
  (forall id, is_Some (m !! id) -> 0 < id < 2 ^ 31 /\ (Z.odd id = true -> id <= t_maxStreamID t)).
Proof.
  intros Hnew Hc Hr Hm. assert (limited (serverMaxStreams c) t) as (_ & _ & Hl).
  { clear Hm. induction Hr as [|t o t' _ IH Hok Hs].
    - unfold newServer in Hnew. destruct (Add no_events ev); [|done]. injection Hnew as <-.
      split; [done|]. split; [done|]. simpl. split; [intros id []; done|].
      assert (odd_keys ∅ = 0) as -> by done.
      unfold serverMaxStreams, uint32Max. destruct (Z.eqb_spec (MaxStreams c) 0); lia.
    - exact (triple_ends _ _ _ t t' (limit_op rangeActive rangeHeader _ o t Hok) IH Hs). }
  rewrite Hm in Hl. destruct Hl as [? ?]. done.
Qed.

(** A server with room for one stream, which a client opened. *)
Module ServerSample.
Definition config : H2Config := mkConfig 0 0 0 None 1 None 0 false.
Definition server : @H2Transport (itemList cbItem) :=
  default Sample.client (newServer config no_events true 0).
Definition headers (id : Z) : MetaHeadersFrame :=
  mkMeta (mkFH true FrameHeaders FlagHeadersEndHeaders 10 id) PriorityParam_zero
    [field (str ":method") (str "GET"); field (str ":path") (str "/")] false.
Definition serving (id : Z) (t : @H2Transport (itemList cbItem)) : @result (itemList cbItem) () :=
  run_op Sample.range Sample.rangeH (OpServe (Ret (Meta (headers id))) 0) t.
Definition accepted1 : @H2Transport (itemList cbItem) := Sample.state (serving 1 server).
End ServerSample.

Lemma server_stream_limit_witness :
  t_activeStreams ServerSample.accepted1 = Some {[1 := 0%nat]} /\ odd_keys {[1 := 0%nat]} <= 1.
Proof.
  assert (t_activeStreams ServerSample.accepted1 = Some {[1 := 0%nat]}) as Ha by (vm_compute; reflexivity).
  split; [exact Ha|].
  apply (server_stream_limit Sample.range Sample.rangeH ServerSample.config no_events true 0 ServerSample.server
           ServerSample.accepted1); [vm_compute; reflexivity|done| |exact Ha].
  eapply (reach_step _ _ _ _ ServerSample.server (OpServe (Ret (Meta (ServerSample.headers 1))) 0));
    [apply reach_init|by vm_compute|]. left. exists tt. vm_compute. reflexivity.
Defined.
