(* ===== verification/TransportSpec.v ===== *)
(** * What the handlers of a connection do

    Total specifications: [wp m t P] says that operation [m] finishes from [t], in
    a state that satisfies [P] - it does not panic and does not wait.  With them,
    what becomes of DATA frames, of a closed stream and of a GOAWAY frame. *)
From S2P Require Import Loopy Prelude HpackTables Frame FrameRead FlowControl Lists ControlBuf.
From S2P Require Import Timeout Messages Events Bdp Transport TransportInv.

Section Wp.
Context {Q : Type} `{!Queue Q cbItem}.
Implicit Types t : @H2Transport Q.

Definition wp {A} (m : M A) t (P : A -> @H2Transport Q -> Prop) : Prop :=
  match m t with Done t' a => P a t' | _ => False end.

Lemma wp_bind {A C} (m : M A) (k : A -> M C) t P : wp m t (fun a t' => wp (k a) t' P) -> wp (m ≫= k) t P.
Proof. unfold wp, mbind, M_bind. by destruct (m t). Qed.
Lemma wp_ret {A} (a : A) t (P : A -> _ -> Prop) : P a t -> wp (mret a) t P.
Proof. done. Qed.
Lemma wp_gets {A} (f : @H2Transport Q -> A) t (P : A -> _ -> Prop) : P (f t) t -> wp (gets f) t P.
Proof. done. Qed.
Lemma wp_modify f t (P : () -> _ -> Prop) : P tt (f t) -> wp (modify f) t P.
Proof. done. Qed.
Lemma wp_log e t (P : () -> _ -> Prop) : P tt (set_log (t_log t ++ [e]) t) -> wp (log e) t P.
Proof. done. Qed.
Lemma wp_lift {A} (o : option A) a t (P : A -> _ -> Prop) : o = Some a -> P a t -> wp (lift o) t P.
Proof. by intros ->. Qed.
Lemma wp_when b m t (P : () -> _ -> Prop) :
  (b = true -> wp m t P) -> (b = false -> P tt t) -> wp (when b m) t P.
Proof. destruct b; simpl; intros H1 H2; [by apply H1|by apply H2]. Qed.
Lemma wp_getS p s t (P : H2Stream -> _ -> Prop) : t_strs t !! p = Some s -> P s t -> wp (getS p) t P.
Proof. unfold wp, getS. by intros ->. Qed.
Lemma wp_updS p s f t (P : () -> _ -> Prop) :
  t_strs t !! p = Some s -> P tt (set_strs (<[p := f s]> (t_strs t)) t) -> wp (updS p f) t P.
Proof. unfold wp, updS, getS, mbind, M_bind. intros ->. done. Qed.
Lemma wp_weaken {A} (m : M A) t (P P' : A -> _ -> Prop) : wp m t P -> (forall a t', P a t' -> P' a t') -> wp m t P'.
Proof. unfold wp. destruct (m t); auto. Qed.
Lemma wp_elim {A} (m : M A) t P : wp m t P -> exists t' a, m t = Done t' a /\ P a t'.
Proof. unfold wp. destruct (m t) as [t' a| |]; [|done..]. by exists t', a. Qed.

End Wp.

(** Step through the part of an operation that cannot fail. *)
Ltac wps :=
  repeat (cbv beta; lazymatch goal with
  | |- wp (_ ≫= _) _ _ => apply wp_bind
  | |- wp (gets _) _ _ => apply wp_gets
  | |- wp (modify _) _ _ => apply wp_modify
  | |- wp (mret _) _ _ => apply wp_ret
  | |- wp (log _) _ _ => apply wp_log
  end).

Section Spec.
Context {Q : Type} `{!Queue Q cbItem}.
Implicit Types t : @H2Transport Q.

(** ** The control buffer *)
Definition cb_ok t : Prop := t_cbLocked t = false /\ exists items, cb_wf (t_controlBuf t) items.

(** Only the control buffer changed. *)
Definition queued t t' : Prop := exists c, t' = set_controlBuf c t /\ cb_ok t'.

Lemma wp_executeAndPut f t (P : bool * option tErr -> _ -> Prop) :
  cb_ok t ->
  (err (t_controlBuf t) = true -> P (false, Some ErrClosing) t) ->
  (err (t_controlBuf t) = false -> wp f t (fun bi t1 => t_controlBuf t1 = t_controlBuf t /\ t_cbLocked t1 = false /\
     forall t2, queued t1 t2 -> P (bi.1, None) t2)) ->
  wp (executeAndPut f) t P.
Proof.
  intros [Hl (items & Hwf)] He Hf. unfold executeAndPut, executeAndPutWith. do 2 apply wp_bind.
  unfold wp, gets at 1. rewrite Hl. unfold mbind at 1, M_bind at 1, gets.
  destruct (err (t_controlBuf t)); [by apply He|]. specialize (Hf eq_refl). unfold wp in Hf.
  unfold mbind, M_bind. destruct (f t) as [t1 [b it]| |]; [|done..]. simpl in *.
  destruct Hf as (Hc & Hl1 & HP).
  destruct (executeAndPut_ok b it (t_controlBuf t) items Hwf) as (c' & r & w & E & Hwf' & _).
  rewrite E. simpl. apply HP. exists (if w then wake c' else c'). split; [done|]. split; [done|]. simpl.
  eexists. destruct w; [|exact Hwf']. destruct Hwf'. split; done.
Qed.

Lemma wp_put_ it t (P : () -> _ -> Prop) :
  cb_ok t -> (forall t', queued t t' -> P tt t') -> wp (put_ it) t P.
Proof.
  intros Hok HP. unfold put_, put. wps.
  assert (queued t t) as Hq by (exists (t_controlBuf t); split; [by destruct t|done]).
  apply wp_executeAndPut; [done| |].
  - intros _. by apply HP.
  - intros _. split; [done|]. split; [apply Hok|]. intros t2 H2. by apply HP.
Qed.

(** ** Closing a stream *)

(** A stream that has not ended and whose channels agree with its flags. *)
Definition closable (s : H2Stream) : Prop :=
  s_streamDone s = false /\ s_done s <> ClosedChan /\ (s_headerChanClosed s = false -> s_headerChan s <> ClosedChan).

(** What [closeStream] makes of it. *)
Definition read_closed (s : H2Stream) (mode : Z) (e : option tErr) : H2Stream :=
  let r := with_readClosed s mode in
  if s_readClosed s =? 0 then with_inFrameList r ((fun l => l ++ [MErr e]) <$> s_inFrameList r) else r.
Definition failed (s : H2Stream) (e : option tErr) : H2Stream :=
  if match s_Error s, e with None, Some ErrEOF => false | None, _ => true | _, _ => false end
  then with_Error s e else s.
Definition read_failed (s : H2Stream) (e : option tErr) : H2Stream :=
  match e with None => s | Some _ => read_closed s 2 e end.
Definition headers_closed (s : H2Stream) : H2Stream :=
  if bool_decide (s_headerChan s <> NilChan) && negb (s_headerChanClosed s)
  then with_headerChan (with_headerChanClosed s true) ClosedChan else s.
Definition cancelled (s : H2Stream) : H2Stream := if s_cancel s then with_cancel s false else s.
Definition done_closed (s : H2Stream) : H2Stream :=
  if bool_decide (s_done s <> NilChan) then with_done s ClosedChan else s.
Definition closed_of (s : H2Stream) (e : option tErr) : H2Stream :=
  done_closed (cancelled (headers_closed (read_failed (failed (with_streamDone s true) e) e))).

(** The rest of the connection is as it was: the streams become [strs], and the
    control buffer, the quota, the statistics and the log may change. *)
Record streams_become t (strs : gmap loc H2Stream) t' : Prop := {
  sb_strs : t_strs t' = strs;
  sb_cb : cb_ok t';
  sb_side : t_side t' = t_side t;
  sb_active : t_activeStreams t' = t_activeStreams t;
  sb_closing : t_closing t' = t_closing t;
  sb_closed : t_closed t' = t_closed t;
  sb_done : t_done t' = t_done t;
  sb_goAway : t_goAway t' = t_goAway t;
  sb_prev : t_prevGoAwayID t' = t_prevGoAwayID t;
  sb_drain : t_drainChan t' = t_drainChan t;
  sb_events : t_events t' = t_events t;
  sb_wqs : t_wqs t' = t_wqs t
}.

Lemma sb_trans t1 m1 t2 m2 t3 : streams_become t1 m1 t2 -> streams_become t2 m2 t3 -> streams_become t1 m2 t3.
Proof. intros [] []. split; congruence. Qed.
Lemma sb_same t t' : queued t t' -> streams_become t (t_strs t) t'.
Proof. intros (c & -> & Hok). by split. Qed.

(** The connection with stream [p] in state [s]. *)
Definition at_p t (p : loc) (s : H2Stream) : @H2Transport Q := set_strs (<[p := s]> (t_strs t)) t.

Lemma at_p_id t p s : t_strs t !! p = Some s -> at_p t p s = t.
Proof. intros H. unfold at_p. rewrite insert_id by done. by destruct t. Qed.
Lemma at_p_lookup t p s : t_strs (at_p t p s) !! p = Some s.
Proof. simpl. apply lookup_insert_eq. Qed.
Lemma wp_getS_at p s t (P : H2Stream -> _ -> Prop) : P s (at_p t p s) -> wp (getS p) (at_p t p s) P.
Proof. apply wp_getS, at_p_lookup. Qed.
Lemma wp_updS_at p s f t (P : () -> _ -> Prop) : P tt (at_p t p (f s)) -> wp (updS p f) (at_p t p s) P.
Proof.
  intros HP. apply (wp_updS p s); [apply at_p_lookup|]. simpl. unfold at_p in *. simpl in *. by rewrite insert_insert_eq.
Qed.
Lemma wp_when_at (b : bool) p s (f : H2Stream -> H2Stream) t (P : () -> _ -> Prop) :
  P tt (at_p t p (if b then f s else s)) -> wp (when b (updS p f)) (at_p t p s) P.
Proof. destruct b; [apply wp_updS_at|done]. Qed.

Lemma wp_setReadClosed_at p s mode e t (P : () -> _ -> Prop) :
  P tt (at_p t p (read_closed s mode e)) -> wp (setReadClosed p mode e) (at_p t p s) P.
Proof.
  intros HP. unfold setReadClosed, read_closed in *. apply wp_bind, wp_getS_at, wp_bind, wp_updS_at.
  destruct (s_readClosed s =? 0); simpl; [|done]. by apply wp_updS_at.
Qed.

Lemma wp_addBack it t (P : bool * cbItem -> _ -> Prop) :
  (forall q tok, P (true, it) (set_quotaToken tok (set_streamQuota q t))) -> wp (addBackStreamQuota it) t P.
Proof.
  intros HP. unfold addBackStreamQuota, offerQuota. wps. apply wp_when; intros _; wps; [apply HP|].
  specialize (HP (t_streamQuota t + 1) (t_quotaToken t)). revert HP. by destruct t.
Qed.

Lemma sb_at t p s t' : streams_become t (t_strs t) t' -> t_strs t !! p = Some s -> at_p t' p s = t'.
Proof. intros H Hs. apply at_p_id. by rewrite (sb_strs _ _ _ H). Qed.

Lemma closed_chans s e : closable s ->
  let s2 := read_failed (failed (with_streamDone s true) e) e in
  (s_headerChanClosed s2 = false -> s_headerChan s2 <> ClosedChan) /\ s_done s2 = s_done s.
Proof.
  intros (_ & Hdone & Hhc). unfold read_failed, read_closed, failed.
  destruct e as [e|]; simpl; [destruct (s_readClosed _ =? 0)|]; destruct (s_Error s) as [|]; try destruct e; simpl; done.
Qed.

Lemma closeStream_spec p s e rst code t :
  cb_ok t -> t_strs t !! p = Some s -> closable s ->
  wp (closeStream p e rst code) t (fun _ t' => streams_become t (<[p := closed_of s e]> (t_strs t)) t').
Proof.
  intros Hok Hs Hcl. destruct (closed_chans s e Hcl) as [Hhc Hdone]. pose proof Hcl as (Hd & Hdn & _).
  rewrite <- (at_p_id t p s) at 1 by done. unfold closeStream.
  apply wp_bind, wp_getS_at. rewrite Hd. apply wp_bind, wp_updS_at, wp_bind, wp_when_at, wp_bind.
  apply (wp_weaken _ _ (fun _ t' => t' = at_p t p (read_failed (failed (with_streamDone s true) e) e))).
  { apply wp_when; intros He; destruct e; try discriminate; try done. by apply wp_setReadClosed_at. }
  intros _ t1 ->. unfold closed_of. set (s2 := read_failed _ e) in *.
  apply wp_bind, wp_getS_at, wp_bind.
  apply (wp_weaken _ _ (fun _ t' => t' = at_p t p (headers_closed s2))).
  { unfold headers_closed. apply wp_when; intros Hb; rewrite Hb; [|done]. apply andb_true_iff in Hb as [Hb1 Hb2].
    apply bool_decide_eq_true in Hb1. apply negb_true_iff in Hb2. specialize (Hhc Hb2). apply wp_bind.
    apply (wp_lift _ ClosedChan); [by destruct (s_headerChan s2)|]. by apply wp_updS_at. }
  intros _ t1 ->. assert (Hdone3 : s_done (headers_closed s2) = s_done s).
  { unfold headers_closed. rewrite <- Hdone. by destruct (_ && _). }
  set (s3 := headers_closed s2) in *. apply wp_bind.
  apply (wp_weaken _ _ (fun _ t' => streams_become t (<[p := s3]> (t_strs t)) t')).
  { apply wp_executeAndPut; [done|by split|]. intros _. apply wp_addBack. intros q tok.
    split; [done|]. split; [apply Hok|]. intros t2 (c & -> & Hok2). by split. }
  intros _ t3 H3. apply wp_bind, wp_modify. match goal with |- wp _ ?T _ => set (t4 := T) end.
  assert (H4 : streams_become t (<[p := s3]> (t_strs t)) t4).
  { subst t4. destruct e; destruct H3; by split. }
  clearbody t4. assert (Ht4 : at_p t4 p s3 = t4).
  { apply at_p_id. rewrite (sb_strs _ _ _ H4). apply lookup_insert_eq. }
  rewrite <- Ht4. apply wp_bind, wp_getS_at, wp_bind.
  apply (wp_weaken _ _ (fun _ t' => streams_become t (<[p := cancelled s3]> (t_strs t)) t')).
  { unfold cancelled. apply wp_when; intros Hb; rewrite Hb; [|by rewrite Ht4].
    wps. change (set_log ?l (at_p t4 p s3)) with (at_p (set_log l t4) p s3). apply wp_updS_at.
    destruct H4 as [E ?]. split; try done. simpl. rewrite E. apply insert_insert_eq. }
  intros _ t5 H5. assert (Ht5 : at_p t5 p (cancelled s3) = t5).
  { apply at_p_id. rewrite (sb_strs _ _ _ H5). apply lookup_insert_eq. }
  assert (Hd5 : s_done (cancelled s3) = s_done s) by (rewrite <- Hdone3; unfold cancelled; by destruct (s_cancel s3)).
  rewrite Hdone3. unfold done_closed. rewrite Hd5.
  apply wp_when; intros Hb; rewrite Hb; [|done]. apply bool_decide_eq_true in Hb. apply wp_bind.
  apply (wp_lift _ ClosedChan); [by destruct (s_done s)|]. rewrite <- Ht5. apply wp_updS_at.
  destruct H5 as [E ?]. split; try done. simpl. rewrite E. apply insert_insert_eq.
Qed.

(** ** Events *)
Lemma wp_logs {A} (l : list A) (f : A -> tEvent) t (P : () -> _ -> Prop) :
  (forall lg, P tt (set_log lg t)) -> wp (forM l (fun a => log (f a))) t P.
Proof.
  intros HP. revert t HP. induction l as [|a l IH]; intros t HP; simpl.
  - apply wp_ret. specialize (HP (t_log t)). by destruct t.
  - wps. apply IH. intros lg. apply (HP lg).
Qed.
Lemma wp_fire e s t (P : () -> _ -> Prop) :
  ev_wf (t_events t) -> valid_event e -> (forall lg, P tt (set_log lg t)) -> wp (fireAll e s) t P.
Proof.
  intros He Hv HP. unfold fireAll. wps. destruct (fire_slots _ e He Hv) as (o & _ & Hf).
  apply (wp_lift _ _ _ _ Hf). by apply wp_logs.
Qed.

(** ** GOAWAY at a client *)
Context (rangeActive : gmap Z loc -> list (Z * loc)).

(** A stream a client opened: it is open, or it has ended and says so. *)
Definition settled (s : H2Stream) : Prop := closable s \/ (s_streamDone s = true /\ s_done s = ClosedChan).

(** What a GOAWAY frame makes of a stream the server will not process. *)
Definition drained_of (s : H2Stream) : H2Stream :=
  let s' := with_unprocessed s true in
  if s_streamDone s then s' else closed_of s' (Some ErrStreamDrain).

Lemma closeStream_settled p s t :
  cb_ok t -> t_strs t !! p = Some s -> settled s ->
  wp (updS p (fun s => with_unprocessed s true);; closeStream p (Some ErrStreamDrain) false ErrCodeNo) t
    (fun _ t' => streams_become t (<[p := drained_of s]> (t_strs t)) t').
Proof.
  intros Hok Hs Hset. apply wp_bind, (wp_updS p s); [done|]. unfold drained_of.
  destruct Hset as [(Hd & Hrest)|[Hd Hc]]; rewrite Hd.
  - eapply wp_weaken; [apply (closeStream_spec p (with_unprocessed s true)); [done| |by split]|].
    + simpl. apply lookup_insert_eq.
    + intros _ t' []. split; try done. simpl in *. by rewrite insert_insert_eq in *.
  - unfold closeStream. apply wp_bind, (wp_getS p (with_unprocessed s true)); [simpl; apply lookup_insert_eq|].
    simpl. rewrite Hd, Hc. by apply wp_ret.
Qed.

Definition reached (l : list (Z * loc)) (id up : Z) (q : loc) : Prop :=
  exists i, (i, q) ∈ l /\ id < i <= up.

Lemma goAway_loop id up l : forall t,
  cb_ok t -> NoDup l.*2 -> (forall i p, (i, p) ∈ l -> exists s, t_strs t !! p = Some s /\ settled s) ->
  wp (forM l (fun ip => when ((ip.1 >? id) && (ip.1 <=? up))
        (updS ip.2 (fun s => with_unprocessed s true);; closeStream ip.2 (Some ErrStreamDrain) false ErrCodeNo))) t
    (fun _ t' => exists strs, streams_become t strs t' /\
       (forall q, reached l id up q -> strs !! q = drained_of <$> t_strs t !! q) /\
       (forall q, ~ reached l id up q -> strs !! q = t_strs t !! q)).
Proof.
  induction l as [|[i p] l IH]; intros t Hok Hnd Hl; simpl.
  { apply wp_ret. exists (t_strs t). split; [by split|]. split; [by intros q (? & ? & _); set_solver|done]. }
  apply NoDup_cons in Hnd as [Hp Hnd]. destruct (Hl i p) as (s & Hs & Hset); [set_solver|]. apply wp_bind.
  assert (Hin : forall q, reached ((i, p) :: l) id up q <-> reached l id up q \/ (q = p /\ id < i <= up)).
  { intros q. unfold reached. setoid_rewrite elem_of_cons. naive_solver. }
  assert (Hnp : ~ reached l id up p).
  { intros (j & Hj & _). apply Hp. apply list_elem_of_fmap. by exists (j, p). }
  apply wp_when; intros Hb.
  - eapply wp_weaken; [by apply (closeStream_settled p s)|]. intros ? t1 H1.
    eapply wp_weaken; [apply IH; [apply (sb_cb _ _ _ H1)|done|]|].
    { intros j q Hq. destruct (Hl j q) as (s' & Hs' & ?); [set_solver|]. exists s'. split; [|done].
      rewrite (sb_strs _ _ _ H1), lookup_insert_ne; [done|]. intros E. apply Hp. rewrite E.
      apply list_elem_of_fmap. by exists (j, q). }
    intros _ t' (strs & H2 & Hr & Hn). exists strs. split; [exact (sb_trans _ _ _ _ _ H1 H2)|].
    rewrite (sb_strs _ _ _ H1) in Hr, Hn. assert (Hi : id < i <= up) by lia. split; intros q; rewrite Hin.
    + intros [Hq|[-> _]].
      * rewrite Hr by done. rewrite lookup_insert_ne; [done|]. by intros <-.
      * rewrite Hn, lookup_insert_eq, Hs by done. done.
    + intros Hq. rewrite Hn by tauto. rewrite lookup_insert_ne; [done|]. intros <-. apply Hq. by right.
  - eapply wp_weaken; [apply IH; [done|done|set_solver]|]. intros _ t' (strs & H2 & Hr & Hn).
    exists strs. split; [done|]. assert (Hi : ~ id < i <= up) by lia. split; intros q; rewrite Hin; intros Hq.
    + destruct Hq as [Hq|[_ ?]]; [by apply Hr|done].
    + apply Hn. tauto.
Qed.

(** A client that is not going away, with streams of its own. *)
Record client_wf t (m : gmap Z loc) : Prop := {
  cw_cb : cb_ok t;
  cw_events : ev_wf (t_events t);
  cw_closing : t_closing t = false;
  cw_goAway : t_goAway t = OpenChan;
  cw_prev : t_prevGoAwayID t = 0;
  cw_active : t_activeStreams t = Some m;
  cw_ids : forall i p, m !! i = Some p -> 0 < i <= uint32Max;
  cw_inj : forall i j p, m !! i = Some p -> m !! j = Some p -> i = j;
  cw_streams : forall i p, m !! i = Some p -> exists s, t_strs t !! p = Some s /\ settled s
}.

Lemma range_nodup (m : gmap Z loc) l :
  (forall i j p, m !! i = Some p -> m !! j = Some p -> i = j) -> l ≡ₚ map_to_list m -> NoDup l.*2.
Proof.
  intros Hinj Hl. apply NoDup_fmap_2_strong; [|rewrite Hl; apply NoDup_map_to_list].
  intros [i p] [j q]. rewrite Hl, !elem_of_map_to_list. simpl. intros Hi Hj <-.
  by rewrite (Hinj i j p).
Qed.


(** ** DATA frames *)
Lemma sb_refl t : cb_ok t -> streams_become t (t_strs t) t.
Proof. by split. Qed.
Lemma wp_put_sb t m t1 it (P : () -> _ -> Prop) :
  streams_become t m t1 -> (forall t2, streams_become t m t2 -> P tt t2) -> wp (put_ it) t1 P.
Proof.
  intros H HP. apply wp_put_; [apply H|]. intros t2 H2. apply HP. pose proof (sb_same _ _ H2) as H3.
  pose proof (sb_trans _ _ _ _ _ H H3) as H4. by rewrite (sb_strs _ _ _ H) in H4.
Qed.

Lemma wp_when_sb t m t1 b k (P : () -> _ -> Prop) :
  streams_become t m t1 ->
  (forall t1 (P : () -> _ -> Prop), streams_become t m t1 -> (forall t2, streams_become t m t2 -> P tt t2) -> wp k t1 P) ->
  (forall t2, streams_become t m t2 -> P tt t2) -> wp (when b k) t1 P.
Proof. intros H Hk HP. destruct b; [by apply Hk|by apply HP]. Qed.

(** The connection's part of a DATA frame does not touch the streams. *)
Lemma wp_connData size t (P : () -> _ -> Prop) :
  cb_ok t -> (forall t', streams_become t (t_strs t) t' -> P tt t') -> wp (connData size) t P.
Proof.
  intros Hok HP. unfold connData, bdp_count. apply wp_bind, wp_bind, wp_gets.
  assert (Hrest : forall ping t1, streams_become t (t_strs t) t1 ->
    wp (fc ← gets t_fc; let '(fc, w) := trInFlow_onData fc size in modify (set_fc fc);;
        when (w >? 0) (put_ (ItOutWindowUpdate 0 w));;
        when ping (fc ← gets t_fc; let '(fc, w) := trInFlow_reset fc in modify (set_fc fc);;
          when (w >? 0) (put_ (ItOutWindowUpdate 0 w));; put_ (ItPing false bdpPing))) t1 P).
  { intros ping t1 H1. wps. destruct (trInFlow_onData (t_fc t1) size) as [fc w]. wps.
    assert (streams_become t (t_strs t) (set_fc fc t1)) as H2 by (destruct H1; by split).
    apply (wp_when_sb t (t_strs t)); [done|intros; by eapply wp_put_sb|]. intros t3 H3.
    apply (wp_when_sb t (t_strs t)); [done| |done]. clear. intros t1 P H1 HP. wps.
    destruct (trInFlow_reset (t_fc t1)) as [fc w]. wps.
    assert (streams_become t (t_strs t) (set_fc fc t1)) as H2 by (destruct H1; by split).
    apply (wp_when_sb t (t_strs t)); [done|intros; by eapply wp_put_sb|]. intros t3 H3. by eapply wp_put_sb. }
  destruct (t_bdpEst t) as [b|]; wps; [|by apply Hrest, sb_refl].
  destruct (bdp_add b size) as [b' ping]. wps. apply Hrest. by split.
Qed.

Definition dataHeader (id n : Z) (ended : bool) : FrameHeader :=
  mkFH true FrameData (if ended then FlagDataEndStream else 0) n id.

(** A stream that takes DATA frames into its receive buffer, which has [l] in it,
    with the window [f]. *)
Record receiving t (m : gmap Z loc) (id : Z) (p : loc) (s : H2Stream) (f : inFlow) (l : list recvMsg) : Prop := {
  rc_cb : cb_ok t;
  rc_active : t_activeStreams t = Some m;
  rc_id : m !! id = Some p;
  rc_stream : t_strs t !! p = Some s;
  rc_open : s_readClosed s = 0;
  rc_OnData : s_OnData s = None;
  rc_list : s_inFrameList s = Some l;
  rc_flow : s_inFlow s = Some f
}.

(** The rest of the window, in which nothing wraps around. *)
Definition window (f : inFlow) : Z := limit f + delta f - pendingData f - pendingUpdate f.
Definition flow_ok (f : inFlow) : Prop :=
  0 <= pendingData f /\ 0 <= pendingUpdate f /\ limit f + delta f < 2 ^ 32 /\ 0 <= window f.

Lemma onData_admits f n : flow_ok f -> 0 <= n <= window f ->
  exists f', inFlow_onData f n = (f', None) /\ flow_ok f' /\ window f' = window f - n.
Proof.
  unfold flow_ok, window. intros (? & ? & ? & ?) Hn. unfold inFlow_onData. simpl.
  rewrite (u32_small (pendingData f + n)) by lia. rewrite !u32_small by lia.
  destruct (Z.gtb_spec (pendingData f + n + pendingUpdate f) (limit f + delta f)); [lia|].
  eexists. split; [done|]. simpl. lia.
Qed.

Definition received (s : H2Stream) (f : inFlow) (l : list recvMsg) (data : list Z) : H2Stream :=
  with_inFrameList (with_RcvdPackets (with_RcvdBytes (with_inFlow s (Some f)) (s_RcvdBytes s + len data))
    (s_RcvdPackets s + 1)) (Some (l ++ [MData data])).

Lemma handleData_spec t m id p s f l f' data :
  receiving t m id p s f l -> data <> [] -> inFlow_onData f (len data) = (f', None) ->
  wp (handleData (dataHeader id (len data) false) data) t
    (fun _ t' => streams_become t (<[p := received s f' l data]> (t_strs t)) t').
Proof.
  intros [Hok Ha Hid Hs Ho Hd Hl Hf] Hne Hflow. unfold handleData. apply wp_bind, wp_connData; [done|]. intros t1 H1.
  assert (Hs1 : t_strs t1 !! p = Some s) by (by rewrite (sb_strs _ _ _ H1)).
  unfold streamData, getStream. wps. rewrite (sb_active _ _ _ H1), Ha. simpl. rewrite Hid.
  rewrite <- (at_p_id t1 p s) by done. apply wp_bind, wp_getS_at. rewrite Ho. simpl.
  assert ((len data >? 0) = true) as -> by (destruct data; [done|]; rewrite len_cons; pose proof (len_nonneg data); lia).
  rewrite Hf. apply wp_bind, wp_bind. apply (wp_lift _ f); [done|]. rewrite Hflow.
  apply wp_bind, wp_updS_at. wps. simpl. wps. unfold deliver. apply wp_bind, wp_getS_at. simpl. rewrite Hd.
  rewrite bool_decide_false by done. apply wp_bind, wp_updS_at, wp_bind, wp_updS_at, wp_bind, wp_getS_at. simpl.
  rewrite Hl. apply wp_bind, (wp_lift _ l); [done|]. apply wp_updS_at. wps. simpl. wps.
  destruct H1 as [E ?]. split; try done. simpl. rewrite E. done.
Qed.

Lemma handleData_end t m id p s f l :
  receiving t m id p s f l ->
  wp (handleData (dataHeader id 0 true) []) t
    (fun _ t' => streams_become t (<[p := read_closed s 1 (Some ErrEOF)]> (t_strs t)) t').
Proof.
  intros [Hok Ha Hid Hs Ho Hd Hl Hf]. unfold handleData. apply wp_bind, wp_connData; [done|]. intros t1 H1.
  assert (Hs1 : t_strs t1 !! p = Some s) by (by rewrite (sb_strs _ _ _ H1)).
  unfold streamData, getStream. wps. rewrite (sb_active _ _ _ H1), Ha. simpl. rewrite Hid.
  rewrite <- (at_p_id t1 p s) by done. apply wp_bind, wp_getS_at. rewrite Ho. simpl. wps. simpl.
  apply wp_setReadClosed_at. destruct H1 as [E ?]. split; try done. simpl. by rewrite E.
Qed.

(** The frames of a message: its parts, and an empty one that ends the stream. *)
Definition receiveParts (id : Z) (ds : list (list Z)) : @M Q () :=
  forM ds (fun d => handleData (dataHeader id (len d) false) d).
Definition receiveAll (id : Z) (ds : list (list Z)) : @M Q () :=
  receiveParts id ds;; handleData (dataHeader id 0 true) [].

Lemma Zsum_cons x (l : list Z) : Zsum (x :: l) = x + Zsum l.
Proof. done. Qed.
Lemma Zsum_len (ds : list (list Z)) : 0 <= Zsum (len <$> ds).
Proof. induction ds as [|d ds IH]; [done|]. rewrite fmap_cons, Zsum_cons. pose proof (len_nonneg d). lia. Qed.

Lemma receiveParts_spec m id p ds : forall t s f l,
  receiving t m id p s f l -> flow_ok f -> Forall (fun d => d <> []) ds -> Zsum (len <$> ds) <= window f ->
  wp (receiveParts id ds) t (fun _ t' => exists s' f',
    streams_become t (<[p := s']> (t_strs t)) t' /\
    receiving t' m id p s' f' (l ++ (MData <$> ds)) /\
    s_RcvdBytes s' = s_RcvdBytes s + Zsum (len <$> ds) /\
    s_RcvdPackets s' = s_RcvdPackets s + Z.of_nat (length ds)).
Proof.
  unfold receiveParts. induction ds as [|d ds IH]; intros t s f l Hr Hf Hne Hw; cbn [forM].
  { apply wp_ret. exists s, f. pose proof Hr as []. rewrite !fmap_nil, app_nil_r, insert_id by done.
    split; [by apply sb_refl|]. split; [done|]. unfold Zsum. simpl. lia. }
  apply Forall_cons in Hne as [Hd Hne].
  rewrite !fmap_cons, !Zsum_cons in *. pose proof (Zsum_len ds). pose proof (len_nonneg d). destruct (onData_admits f (len d) Hf) as (f' & Hon & Hf' & Hwin); [lia|].
  apply wp_bind. eapply wp_weaken; [by apply (handleData_spec t m id p s f l f')|]. intros ? t1 H1.
  set (s1 := received s f' l d) in *.
  assert (Hr1 : receiving t1 m id p s1 f' (l ++ [MData d])).
  { destruct Hr. split; try done.
    - apply H1.
    - by rewrite (sb_active _ _ _ H1).
    - rewrite (sb_strs _ _ _ H1). apply lookup_insert_eq. }
  eapply wp_weaken; [apply (IH t1 s1 f' _ Hr1 Hf' Hne); lia|].
  intros _ t2 (s' & f2 & H2 & Hr2 & Hb & Hp). exists s', f2.
  pose proof (sb_trans _ _ _ _ _ H1 H2) as H3. rewrite (sb_strs _ _ _ H1), insert_insert_eq in H3.
  split; [done|]. rewrite <- app_assoc in Hr2. split; [done|]. rewrite Hb, Hp. subst s1. cbn. lia.
Qed.

(** C14.  DATA frames are delivered: the parts of a message that fits the window
    of an open stream reach its receive buffer complete and in order, followed by
    the end of the stream; the bytes are counted; no other stream changes; and
    neither side of the connection panics or waits, whatever the state of the
    connection's own window and of the bandwidth estimator. *)
Theorem data_in_order t m id p s f l ds :
  receiving t m id p s f l -> flow_ok f -> Forall (fun d => d <> []) ds -> Zsum (len <$> ds) <= window f ->
  exists t' s', receiveAll id ds t = Done t' () /\
    t_strs t' = <[p := s']> (t_strs t) /\ t_activeStreams t' = Some m /\
    s_inFrameList s' = Some (l ++ (MData <$> ds) ++ [MErr (Some ErrEOF)]) /\ s_readClosed s' = 1 /\
    s_RcvdBytes s' = s_RcvdBytes s + Zsum (len <$> ds).
Proof.
  intros Hr Hf Hne Hw.
  cut (wp (receiveAll id ds) t (fun _ t' => exists s', t_strs t' = <[p := s']> (t_strs t) /\ t_activeStreams t' = Some m /\
    s_inFrameList s' = Some (l ++ (MData <$> ds) ++ [MErr (Some ErrEOF)]) /\ s_readClosed s' = 1 /\
    s_RcvdBytes s' = s_RcvdBytes s + Zsum (len <$> ds))).
  { intros H. apply wp_elim in H as (t' & [] & E & s' & H). by exists t', s'. }
  unfold receiveAll. apply wp_bind. eapply wp_weaken; [by eapply receiveParts_spec|].
  intros _ t1 (s1 & f1 & H1 & Hr1 & Hb & _). eapply wp_weaken; [by eapply handleData_end|]. intros ? t2 H2.
  exists (read_closed s1 1 (Some ErrEOF)). pose proof Hr1 as [_ Ha1 _ _ Ho1 _ Hl1 _].
  unfold read_closed. rewrite Ho1. simpl. rewrite Hl1. simpl.
  rewrite (sb_strs _ _ _ H2), (sb_strs _ _ _ H1), insert_insert_eq, (sb_active _ _ _ H2).
  split; [by unfold read_closed; rewrite Ho1; simpl; rewrite Hl1|]. split; [done|].
  split; [by rewrite app_assoc|]. done.
Qed.
End Spec.

(** ** Examples *)
Module SpecSample.
(** The client after loopy took the headers of its stream, which has id 1, from
    the control buffer. *)
Definition opened : @H2Transport (itemList cbItem) :=
  set_controlBuf newControlBuffer (Sample.state (run_op Sample.range Sample.rangeH (OpInit 0%nat 1 0) Sample.dialed)).
Definition active : gmap Z loc := {[1 := 0%nat]}.
Definition stream : H2Stream := default (requestStream Sample.request) (t_strs opened !! 0%nat).
Definition flow : inFlow := mkIn defaultWindowSize 0 0 0.
Definition parts : list (list Z) := [[1; 2]; [3]].
End SpecSample.

Lemma sample_cb_ok : cb_ok SpecSample.opened.
Proof. split; [vm_compute; reflexivity|]. exists []. apply newControlBuffer_wf. Qed.


Lemma data_in_order_witness :
  exists t' s', receiveAll 1 SpecSample.parts SpecSample.opened = Done t' () /\
    t_strs t' !! 0%nat = Some s' /\ s_inFrameList s' = Some [MData [1; 2]; MData [3]; MErr (Some ErrEOF)].
Proof.
  destruct (data_in_order SpecSample.opened SpecSample.active 1 0%nat SpecSample.stream SpecSample.flow [] SpecSample.parts)
    as (t' & s' & E & Hs & _ & Hl & _).
  - split; [apply sample_cb_ok|vm_compute; reflexivity..].
  - by vm_compute.
  - by repeat constructor.
  - by vm_compute.
  - exists t', s'. split; [exact E|]. split; [rewrite Hs; apply lookup_insert_eq|exact Hl].
Defined.
