(* ===== verification/TransportFaults.v ===== *)
(** * Where a connection stops, panics or loses count

    Behaviours of the handlers that callers and peers have to know of: operations
    that wait for ever, that panic, or that leave the books of the connection
    wrong.  Each is shown for every state in which it happens, or by a run. *)
From S2P Require Import Loopy Prelude HpackTables Frame FrameRead FlowControl Lists ControlBuf.
From S2P Require Import Timeout Messages Events Bdp Transport TransportInv TransportServer TransportSpec.

Section Faults.
Context {Q : Type} `{!Queue Q cbItem}.
Implicit Types t : @H2Transport Q.

(** [hangs m t P w]: operation [m] waits for [w], in a state that satisfies [P]. *)
Definition hangs {A} (m : M A) t (w : wait) (P : @H2Transport Q -> Prop) : Prop :=
  match m t with Blocks t' w' => w' = w /\ P t' | _ => False end.

Lemma hangs_elim {A} (m : M A) t w P : hangs m t w P -> exists t', m t = Blocks t' w /\ P t'.
Proof. unfold hangs. destruct (m t) as [|t' w'|]; [done| |done]. intros [-> ?]. by exists t'. Qed.
Lemma hangs_first {A C} (m : M A) (k : A -> M C) t w P : hangs m t w P -> hangs (m ≫= k) t w P.
Proof. unfold hangs, mbind, M_bind. by destruct (m t). Qed.
Lemma hangs_then {A C} (m : M A) (k : A -> M C) t w P : wp m t (fun a t' => hangs (k a) t' w P) -> hangs (m ≫= k) t w P.
Proof. unfold hangs, wp, mbind, M_bind. by destruct (m t). Qed.

Lemma hangs_weaken {A} (m : M A) t w (P P' : _ -> Prop) : hangs m t w P -> (forall t', P t' -> P' t') -> hangs m t w P'.
Proof. unfold hangs. destruct (m t); naive_solver. Qed.

(** Nothing can be put while the lock of the control buffer is held. *)
Lemma locked_put it t : t_cbLocked t = true -> put it t = Blocks t WSelf.
Proof.
  intros Hl. unfold put, executeAndPut, executeAndPutWith, mbind, M_bind, gets. by rewrite Hl.
Qed.

(** ** Closing a connection with requests that are still queued *)

(** A stream is closed up to the point where its end is announced to loopy. *)
Lemma closeStream_locked p s e rst code t :
  t_cbLocked t = true -> t_strs t !! p = Some s -> closable s ->
  hangs (closeStream p e rst code) t WSelf (fun t' => t_cbLocked t' = true /\ t_closed t' = t_closed t /\ t_done t' = t_done t).
Proof.
  intros Hl Hs Hcl. destruct (closed_chans s e Hcl) as [Hhc _]. pose proof Hcl as (Hd & _).
  rewrite <- (at_p_id t p s) at 1 by done. unfold closeStream.
  apply hangs_then, wp_getS_at. rewrite Hd. apply hangs_then, wp_updS_at, hangs_then, wp_when_at, hangs_then.
  apply (wp_weaken _ _ (fun _ t' => t' = at_p t p (read_failed (failed (with_streamDone s true) e) e))).
  { apply wp_when; intros He; destruct e; try discriminate; try done. by apply wp_setReadClosed_at. }
  intros _ t1 ->. set (s2 := read_failed _ e) in *. apply hangs_then, wp_getS_at, hangs_then.
  apply (wp_weaken _ _ (fun _ t' => t' = at_p t p (headers_closed s2))).
  { unfold headers_closed. apply wp_when; intros Hb; rewrite Hb; [|done]. apply andb_true_iff in Hb as [Hb1 Hb2].
    apply bool_decide_eq_true in Hb1. apply negb_true_iff in Hb2. specialize (Hhc Hb2). apply wp_bind.
    apply (wp_lift _ ClosedChan); [by destruct (s_headerChan s2)|]. by apply wp_updS_at. }
  intros _ t1 ->. apply hangs_first. unfold executeAndPut, executeAndPutWith. apply hangs_first.
  unfold hangs, mbind, M_bind, gets. simpl. rewrite Hl. done.
Qed.

Lemma cb_owner_orphan p : cb_owner (cb_orphan p) = p.
Proof. unfold cb_owner, cb_orphan. replace (_ / 8) with (Z.of_nat p) by (Z.div_mod_to_equations; lia). lia. Qed.

Lemma finish_hangs t p s items rest :
  t_cbLocked t = false -> err (t_controlBuf t) = false -> cb_wf (t_controlBuf t) items ->
  orphans items = cb_orphan p :: rest -> t_strs t !! p = Some s -> closable s ->
  hangs finish t WSelf (fun t' => t_cbLocked t' = true /\ t_closed t' = t_closed t /\ t_done t' = t_done t).
Proof.
  intros Hl He Hwf Ho Hs Hcl. unfold finish. apply hangs_then. wps. rewrite Hl. apply hangs_then. wps. rewrite He.
  destruct (finish_ok _ _ Hwf) as (c' & cbs & E & _ & _ & _ & Hcbs). rewrite He, Ho in Hcbs. subst cbs.
  apply hangs_then, (wp_lift _ _ _ _ E). do 2 (apply hangs_then; wps). apply hangs_first. cbn [forM].
  apply hangs_first. rewrite cb_owner_orphan. unfold cleanup.
  apply hangs_then, (wp_updS p s); [done|].
  eapply hangs_weaken; [apply (closeStream_locked p (with_unprocessed s true)); [done|apply lookup_insert_eq|done]|].
  intros t' (? & ? & ?). done.
Qed.

(** A request that waits in the control buffer. *)
Record request_queued t (p : loc) (s : H2Stream) : Prop := {
  rq_unlocked : t_cbLocked t = false;
  rq_err : err (t_controlBuf t) = false;
  rq_items : exists items rest, cb_wf (t_controlBuf t) items /\ orphans items = cb_orphan p :: rest;
  rq_stream : t_strs t !! p = Some s;
  rq_open : closable s;
  rq_events : ev_wf (t_events t)
}.

(** C20.  Closing a connection while the headers of a request wait in its control
    buffer never returns: [finish] keeps the lock of the buffer while it reports
    the request as orphaned, and the report closes the stream, which takes the
    lock again.  The connection stays half closed - the channel [done] that tells
    everyone else is not closed, the network connection, which comes after it, is
    not either - and from then on everyone who puts an item waits as well. *)
Theorem Close_deadlock rangeActive t p s e :
  request_queued t p s -> t_closed t = false ->
  exists t', Close rangeActive e t = Blocks t' WSelf /\ t_closed t' = true /\ t_done t' = t_done t /\
    forall it, put it t' = Blocks t' WSelf.
Proof.
  intros [Hl He (items & rest & Hwf & Ho) Hs Hcl Hev] Hc.
  cut (hangs (Close rangeActive e) t WSelf (fun t' => t_cbLocked t' = true /\ t_closed t' = true /\ t_done t' = t_done t)).
  { intros H. apply hangs_elim in H as (t' & E & Hl' & Hd & Hlog). exists t'. eauto using locked_put. }
  unfold Close. apply hangs_then. wps. rewrite Hc. do 2 (apply hangs_then; wps).
  set (t1 := match _ with None => _ | Some _ => _ end).
  assert (Ht1 : t_cbLocked t1 = false /\ t_controlBuf t1 = t_controlBuf t /\ t_strs t1 = t_strs t /\ t_events t1 = t_events t /\
                t_closed t1 = true /\ t_done t1 = t_done t).
  { subst t1. simpl. by destruct (t_Error t). }
  clearbody t1. destruct Ht1 as (Hl1 & Hc1 & Hs1 & Hev1 & Hcd1 & Hd1).
  apply hangs_then. apply wp_fire; [by rewrite Hev1|by vm_compute|]. intros lg.
  do 3 (apply hangs_then; wps). apply hangs_then, wp_when; intros _; wps; apply hangs_first;
    (eapply hangs_weaken; [apply (finish_hangs _ p s items rest); simpl; congruence|]);
    simpl; intros t' (? & ? & ?); repeat split; congruence.
Qed.

(** ** Streams a server accepted *)

(** A stream whose channel [done] was not made, as an accepted one; the response
    is sent, the request may go on. *)
Record served t (m : gmap Z loc) (id : Z) (p : loc) (s : H2Stream) : Prop := {
  sv_cb : cb_ok t;
  sv_active : t_activeStreams t = Some m;
  sv_id : m !! id = Some p;
  sv_stream : t_strs t !! p = Some s;
  sv_open : closable s;
  sv_nil : s_done s = NilChan;
  sv_sent : s_writeClosed s = true;
  sv_reading : s_readClosed s = 0
}.

Lemma closeStream_nil p s e rst code t :
  t_strs t !! p = Some s -> s_streamDone s = true -> s_done s = NilChan -> closeStream p e rst code t = Blocks t WNil.
Proof. intros Hs Hd Hn. unfold closeStream, mbind, M_bind, getS. by rewrite Hs, Hd, Hn. Qed.

(** [Close] of a stream whose response was sent. *)
Lemma CloseBoth_served rangeHeader t m id p s :
  served t m id p s ->
  wp (CloseBoth rangeHeader p) t (fun _ t' => t_activeStreams t' = Some m /\ cb_ok t' /\ exists s', t_strs t' !! p = Some s' /\
    s_streamDone s' = true /\ s_done s' = NilChan /\ s_writeClosed s' = true /\ s_readClosed s' = 2).
Proof.
  intros [Hok Ha Hid Hs Hcl Hn Hw Hr]. unfold CloseBoth. apply wp_bind, (wp_getS p s); [done|]. rewrite Hw. simpl when. wps.
  eapply wp_weaken; [by apply (closeStream_spec p s)|]. intros ? t1 H1.
  set (s1 := closed_of s None) in *.
  assert (Hs1 : s_streamDone s1 = true /\ s_done s1 = NilChan /\ s_writeClosed s1 = true /\ s_readClosed s1 = 0).
  { subst s1. unfold closed_of, done_closed, cancelled, headers_closed, read_failed, failed. simpl.
    destruct (s_Error s); simpl; destruct (_ && _); simpl; destruct (s_cancel s); simpl; by rewrite Hn. }
  destruct Hs1 as (Hd1 & Hn1 & Hw1 & Hr1).
  rewrite <- (at_p_id t1 p s1) by (rewrite (sb_strs _ _ _ H1); apply lookup_insert_eq).
  apply wp_bind, wp_getS_at, wp_bind. rewrite Hr1. simpl when. apply wp_setReadClosed_at.
  unfold read_closed. rewrite Hr1. simpl. set (s2 := with_inFrameList _ _).
  assert (H2 : forall lg, t_activeStreams (set_log lg t1) = Some m /\ cb_ok (set_log lg t1)).
  { intros lg. simpl. rewrite (sb_active _ _ _ H1). split; [done|]. apply H1. }
  apply wp_bind. apply (wp_weaken _ _ (fun _ t' => exists lg, t' = at_p (set_log lg t1) p s2)).
  { apply wp_when; intros _; [|exists (t_log t1); by destruct t1]. wps. by exists (t_log t1 ++ [EvCancel p]). }
  intros _ t' (lg & ->). apply wp_when; intros _.
  - apply wp_bind, wp_updS_at. wps. split; [apply H2|]. split; [apply (H2 lg)|]. eexists. split; [apply lookup_insert_eq|done].
  - split; [apply H2|]. split; [apply (H2 lg)|]. eexists. split; [apply lookup_insert_eq|done].
Qed.


(** [CloseError] ends a stream but leaves it in the table of active streams, for
    good: loopy's callback finds that neither direction was closed. *)
Lemma CloseError_leaks t m id p s code now :
  cb_ok t -> t_activeStreams t = Some m -> m !! id = Some p -> t_strs t !! p = Some s -> closable s -> s_readClosed s = 0 ->
  forall rangeActive, exists t', (CloseError p code;; runCallback rangeActive (cb_delete p) now) t = Done t' () /\
    t_activeStreams t' = Some m.
Proof.
  intros Hok Ha Hid Hs Hcl Hr rangeActive.
  cut (wp (CloseError p code;; runCallback rangeActive (cb_delete p) now) t (fun _ t' => t_activeStreams t' = Some m)).
  { intros H. apply wp_elim in H as (t' & [] & E & H). by exists t'. }
  unfold CloseError. apply wp_bind. eapply wp_weaken; [by apply (closeStream_spec p s)|]. intros ? t1 H1.
  assert (cb_owner (cb_delete p) = p) as Ho.
  { unfold cb_owner, cb_delete. replace (_ / 8) with (Z.of_nat p) by (Z.div_mod_to_equations; lia). lia. }
  unfold runCallback. rewrite Ho.
  assert ((cb_delete p =? cb_nop) = false) as -> by (unfold cb_delete, cb_nop; lia).
  assert ((cb_delete p =? cb_reset) = false) as -> by (unfold cb_delete, cb_reset; lia). rewrite Z.eqb_refl.
  unfold deleteStream. apply wp_bind. eapply wp_getS; [rewrite (sb_strs _ _ _ H1); apply lookup_insert_eq|].
  wps. rewrite (sb_active _ _ _ H1), Ha.
  assert (s_readClosed (closed_of s None) = 0) as ->.
  { rewrite <- Hr. unfold closed_of, done_closed, cancelled, headers_closed, read_failed, failed.
    destruct (s_Error (with_streamDone s true)), (bool_decide _ && _), (s_cancel _), (bool_decide _); done. }
  rewrite andb_false_r. wps. by rewrite (sb_active _ _ _ H1).
Qed.

(** ** A peer that acknowledges twice *)

Definition pingAck : FrameHeader := mkFH true FramePing FlagPingAck 8 0.

(** While a server drains, the second acknowledgement of its GOAWAY ping
    panics, whatever happened to the first one: the channel is closed twice.  The
    peer alone decides to send it. *)
Theorem goAwayPing_panic rangeActive t now now2 :
  t_drainChan t = OpenChan ->
  exists t', handlePingServer rangeActive pingAck goAwayPing now t = Done t' () /\
    forall t2, t_drainChan t2 = t_drainChan t' -> handlePingServer rangeActive pingAck goAwayPing now2 t2 = Crashes.
Proof.
  intros Hd. eexists. unfold handlePingServer. simpl. unfold mbind, M_bind, gets. rewrite Hd. simpl.
  split; [done|]. simpl. intros t2 ->. done.
Qed.

(** ** A closed connection that goes on reading *)

(** A server that has closed its connection, and is not draining, panics when
    the headers of a new stream are read from what is still buffered: they are
    entered into a map that is nil.  The loop does go on reading after it closed
    the connection for an illegal stream id. *)
Theorem accept_after_close rangeActive t mh now :
  t_side t = serverSide -> t_activeStreams t = None -> t_closing t = false -> 0 < t_maxStreams t ->
  mh_Truncated mh = false -> ac_headerError (acceptFields (mh_Fields mh)) = false ->
  StreamID (mh_header mh) mod 2 = 1 -> t_maxStreamID t < StreamID (mh_header mh) ->
  handleStreams_step rangeActive (Ret (Meta mh)) now t = Crashes.
Proof.
  intros Hsd Ha Hc Hm Htr Hh Hodd Hid. unfold handleStreams_step, operateHeaders, operateAcceptHeaders, newQuota, newStream, IsServer.
  rewrite Hodd, Htr, Hh. unfold mbind, M_bind, gets, modify, mret, M_ret. cbn -[acceptFields].
  destruct (Z.leb_spec (StreamID (mh_header mh)) (t_maxStreamID t)); [lia|]. cbn -[acceptFields].
  rewrite Hc. cbn -[acceptFields]. rewrite Ha, Hsd. simpl default.
  assert ((u32 (Z.of_nat (base.size (default (∅ : gmap Z loc) None))) >=? t_maxStreams t) = false) as ->; [|done].
  change (u32 _) with 0. lia.
Qed.
End Faults.

(** ** Runs *)
Module FaultSample.
Abbreviation conn := (@H2Transport (itemList cbItem)).
Definition run (o : op) (t : conn) : @result (itemList cbItem) () := run_op Sample.range Sample.rangeH o t.
Definition runs (os : list op) (t : conn) : @result (itemList cbItem) () := forM os (run_op Sample.range Sample.rangeH) t.
Definition get (t : conn) (p : loc) : H2Stream := default (requestStream Sample.request) (t_strs t !! p).

(** A server with a stream whose response is sent. *)
Definition closeReady : conn :=
  set_controlBuf newControlBuffer
    (set_strs (<[0%nat := with_writeClosed (get ServerSample.accepted1 0%nat) true]> (t_strs ServerSample.accepted1))
       ServerSample.accepted1).
Definition draining : conn := Sample.state (run OpDrain ServerSample.server).
(** A server that closed its connection. *)
Definition closedServer : conn := Sample.state (run (OpCloseConn None) ServerSample.server).
(** A limit on header lists that no request keeps. *)
Definition narrow : conn := set_maxSendHeaderListSize (Some 10) Sample.client.
(** The client accepts a stream of the server. *)
Definition pushed : conn :=
  Sample.state (runs [OpRead (Ret (Meta (ServerSample.headers 2))) None 0; OpCloseStream 0%nat None true ErrCodeCancel] Sample.client).
(** Windows of 1 MB. *)
Definition wide : H2Config := mkConfig 0 1048576 0 None 0 None 0 false.
Definition wideOpened : conn :=
  Sample.state (runs [OpDial Sample.request None false; OpInit 0%nat 1 0] (newClient wide no_events 0)).
End FaultSample.

(** The request of the sample client is queued. *)
Definition dialedItem : cbItem := default ItInGoAway (il_peek (clist (t_controlBuf Sample.dialed))).
Lemma dialed_wf : cb_wf (t_controlBuf Sample.dialed) [dialedItem].
Proof.
  destruct (executeAndPut_ok true dialedItem newControlBuffer [] newControlBuffer_wf) as (c & r & w & E & Hwf & _).
  assert (ControlBuf.executeAndPut true dialedItem newControlBuffer = Some (t_controlBuf Sample.dialed, (true, None), false))
    as E' by (vm_compute; reflexivity).
  rewrite E in E'. injection E' as <- _ _. exact Hwf.
Qed.

Lemma Close_deadlock_witness :
  exists t', Close Sample.range None Sample.dialed = Blocks t' WSelf /\ t_done t' = OpenChan.
Proof.
  destruct (Close_deadlock Sample.range Sample.dialed 0%nat (FaultSample.get Sample.dialed 0%nat) None)
    as (t' & E & _ & Hd & _).
  - split; [vm_compute; reflexivity..| |vm_compute; reflexivity|by vm_compute|apply no_events_wf].
    exists [dialedItem], []. split; [apply dialed_wf|vm_compute; reflexivity].
  - vm_compute. reflexivity.
  - exists t'. split; [exact E|]. rewrite Hd. vm_compute. reflexivity.
Defined.


Lemma goAwayPing_panic_witness :
  exists t', handlePingServer Sample.range pingAck goAwayPing 0 FaultSample.draining = Done t' () /\
    handlePingServer Sample.range pingAck goAwayPing 0 t' = Crashes.
Proof.
  destruct (goAwayPing_panic Sample.range FaultSample.draining 0 0) as (t' & E & H); [vm_compute; reflexivity|].
  exists t'. split; [exact E|]. apply H. reflexivity.
Defined.

Lemma accept_after_close_witness :
  handleStreams_step Sample.range (Ret (Meta (ServerSample.headers 1))) 0 FaultSample.closedServer = Crashes.
Proof. apply accept_after_close; vm_compute; reflexivity. Defined.

(** The two ids out of order close the connection, and the third HEADERS frame
    panics. *)
Lemma illegal_id_panics :
  FaultSample.runs [OpServe (Ret (Meta (ServerSample.headers 3))) 0; OpServe (Ret (Meta (ServerSample.headers 1))) 0;
                    OpServe (Ret (Meta (ServerSample.headers 5))) 0] ServerSample.server = Crashes.
Proof. vm_compute. reflexivity. Qed.

(** A request whose header list is too long costs a stream of the quota for
    good: the quota is taken before the length is checked. *)
Lemma oversized_request_leaks :
  exists t', FaultSample.run (OpDial Sample.request None false) FaultSample.narrow = Done t' () /\
    t_activeStreams t' = Some ∅ /\ t_streamQuota FaultSample.narrow = 100 /\ t_streamQuota t' = 99.
Proof. eexists. vm_compute. split_and!; reflexivity. Qed.

(** The end of a stream that the server opened adds to the quota of the client,
    though it was not taken from it. *)
Lemma accepted_stream_adds_quota :
  t_streamQuota FaultSample.pushed = 101 /\ t_maxConcurrentStreams FaultSample.pushed = 100.
Proof. vm_compute. split; reflexivity. Qed.

(** A window above the default one is announced but not used: a peer that sends
    as much as it was granted has its stream reset. *)
Lemma wide_window_unused :
  mkSetting SettingInitialWindowSize 1048576 ∈ match startConn_writes FaultSample.wide with CallSettings l :: _ => l | _ => [] end /\
  s_inFlow (FaultSample.get FaultSample.wideOpened 0%nat) = Some (mkIn 65535 0 0 0).
Proof. split; [vm_compute; by constructor|vm_compute; reflexivity]. Qed.
