(* ===== verification/Items.v ===== *)
(** * What a connection gives its writer

    The operations of [Transport] put items into the control buffer; the writer
    ([Loopy]) takes them out and relies on their form: a stream that is registered
    is new, and has a write quota; a clean-up has a function to call; increments
    have 32 bits.  Here: in every state of a connection, on either side, the items
    in its buffer have that form, and the ids of the streams they open increase. *)
From S2P Require Import Loopy Prelude HpackTables HpackCodec Frame FrameRead FrameTyped FlowControl Lists ControlBuf.
From S2P Require Import Timeout Messages Events Bdp Transport TransportInv.

(** ** The form of an item *)

(** The ids a side gives to its own streams: odd at a client, even at a server. *)
Definition own (s : side) (id : Z) : bool := Bool.eqb (Z.odd id) (bool_decide (s = clientSide)).

Definition it_ok (s : side) (q : gmap loc writeQuota) (it : cbItem) : Prop :=
  match it with
  | ItRegister id wq => is_Some (q !! wq) /\ own s id = false
  | ItHeader h => Loopy.fields_ok (hd_hf h) /\ hd_endStream h = false /\
      (if own s (hd_streamID h) then is_Some (q !! hd_wq h) else s = serverSide)
  | ItCleanup c => is_Some (cl_onWrite c)
  | ItData df => df_end df = 0
  | ItInWindowUpdate _ inc => is_u32 inc
  | ItInSettings ss => Forall (fun s => is_u32 (Val s)) ss
  | _ => True
  end.

(** An item that opens no stream, gives no credit and carries no data. *)
Definition plain (it : cbItem) : Prop :=
  match it with
  | ItRegister _ _ | ItHeader _ | ItInWindowUpdate _ _ => False
  | ItData df => df_end df = 0 /\ df_d df = []
  | _ => it_ok clientSide ∅ it
  end.

(** The streams the items open: the side's own and the peer's. *)
Definition own_ids (s : side) (items : list cbItem) : list Z :=
  items ≫= fun it => match it with ItHeader h => if own s (hd_streamID h) then [hd_streamID h] else [] | _ => [] end.
Definition peer_ids (items : list cbItem) : list Z :=
  items ≫= fun it => match it with ItRegister id _ => [id] | _ => [] end.

(** The credit for the connection. *)
Definition credits (items : list cbItem) : Z := foldr (fun it n => conn_credit it + n) 0 items.

(** The bytes for a stream. *)
Definition data_on (sid : Z) (items : list cbItem) : list Z :=
  items ≫= fun it => match it with ItData df => if df_streamID df =? sid then df_d df else [] | _ => [] end.

(** Ids from [lo] on, increasing, below [hi]. *)
Fixpoint incr (lo : Z) (ids : list Z) (hi : Z) : Prop :=
  match ids with [] => lo <= hi | id :: ids => lo <= id /\ incr (id + 1) ids hi end.

Lemma incr_le ids : forall lo hi, incr lo ids hi -> lo <= hi.
Proof. induction ids as [|id ids IH]; intros lo hi; simpl; [done|]. intros [? H%IH]. lia. Qed.
Lemma incr_mono ids : forall lo hi hi', incr lo ids hi -> hi <= hi' -> incr lo ids hi'.
Proof. induction ids as [|id ids IH]; intros lo hi hi'; simpl; [lia|]. intros [? ?] ?. split; [done|]. by eapply IH. Qed.
Lemma incr_snoc ids : forall lo hi hi', incr lo ids hi -> hi < hi' -> incr lo (ids ++ [hi]) hi'.
Proof. induction ids as [|id ids IH]; intros lo hi hi'; simpl; [lia|]. intros [? ?] ?. split; [done|]. by apply IH. Qed.
Lemma incr_lower ids : forall lo lo' hi, incr lo ids hi -> lo' <= lo -> incr lo' ids hi.
Proof. destruct ids as [|id ids]; intros lo lo' hi; simpl; [lia|]. intros [? ?] ?. split; [lia|done]. Qed.

Lemma incr_app xs ys : forall lo hi, incr lo (xs ++ ys) hi -> exists mid, incr lo xs mid /\ incr mid ys hi.
Proof.
  induction xs as [|id xs IH]; intros lo hi; cbn [app incr]; [intros H; exists lo; by split|].
  intros [? (mid & ? & ?)%IH]. by exists mid.
Qed.

Lemma own_ids_snoc s items it : plain it -> own_ids s (items ++ [it]) = own_ids s items.
Proof. intros H. unfold own_ids. rewrite bind_app. by destruct it; simpl; rewrite ?app_nil_r. Qed.
Lemma peer_ids_snoc items it : plain it -> peer_ids (items ++ [it]) = peer_ids items.
Proof. intros H. unfold peer_ids. rewrite bind_app. by destruct it; simpl; rewrite ?app_nil_r. Qed.
Lemma credits_app xs ys : credits (xs ++ ys) = credits xs + credits ys.
Proof. unfold credits. induction xs as [|it xs IH]; cbn [app foldr]; [done|]. lia. Qed.
Lemma credits_snoc items it : plain it -> credits (items ++ [it]) = credits items.
Proof. intros H. rewrite credits_app. destruct it; cbn; try lia; done. Qed.
Lemma plain_ok s q it : plain it -> it_ok s q it.
Proof. destruct it; try done. by intros []. Qed.
Lemma data_on_app sid xs ys : data_on sid (xs ++ ys) = data_on sid xs ++ data_on sid ys.
Proof. apply bind_app. Qed.
Lemma data_on_snoc sid items it : item_bytes it = [] -> data_on sid (items ++ [it]) = data_on sid items.
Proof.
  intros Hb. rewrite data_on_app. cbn. destruct it; cbn in *; rewrite ?app_nil_r; try done.
  rewrite Hb. case_if; by rewrite app_nil_r.
Qed.
Lemma plain_bytes it : plain it -> item_bytes it = [].
Proof. destruct it; try done. by intros []. Qed.

Lemma it_ok_grow s (q q' : gmap loc writeQuota) it :
  (forall w, is_Some (q !! w) -> is_Some (q' !! w)) -> it_ok s q it -> it_ok s q' it.
Proof.
  intros Hq. destruct it; simpl; try done; [intros [? ?]; split; [by apply Hq|done]|].
  intros (? & ? & H). split; [done|]. split; [done|]. destruct (own s _); [by apply Hq|done].
Qed.

(** *** Settings of a frame have 32 bits *)
Lemma Setting_at_u32 p i s : bytes_ok p -> Setting_at p i = Ret s -> is_u32 (Val s).
Proof.
  intros Hp. unfold Setting_at. destruct (Uint16 _) as [x| |]; [|done..]. cbn [obind].
  destruct (Uint32 _) as [v| |] eqn:Ev; [|done..]. cbn [obind]. intros [= <-]. cbn.
  eapply Uint32_typed; [|exact Ev]. by apply Forall_drop.
Qed.
Lemma settings_u32 p l : bytes_ok p -> settings p = Ret l -> Forall (fun s => is_u32 (Val s)) l.
Proof.
  intros Hp. unfold settings. generalize 0%nat as i. generalize (NumSettings p) as n. intros n. revert l.
  induction n as [|n IH]; intros l i; cbn [settings_from]; [intros [= <-]; constructor|].
  destruct (Setting_at p i) as [s| |] eqn:Es; [|done..]. cbn [obind].
  destruct (settings_from p (Datatypes.S i) n) as [l'| |] eqn:El; [|done..]. cbn [obind]. intros [= <-].
  constructor; [by eapply Setting_at_u32|by eapply IH].
Qed.
Lemma readSettings_u32 server l : forall x, Forall (fun s => is_u32 (Val s)) l -> Forall (fun s => is_u32 (Val s)) (sr_ss x) ->
  Forall (fun s => is_u32 (Val s)) (sr_ss (foldl (readSetting server) x l)).
Proof.
  induction l as [|s l IH]; intros x Hl Hx; [done|]. apply Forall_cons in Hl as [Hs Hl]. cbn [foldl]. apply IH; [done|].
  unfold readSetting. repeat case_if; cbn; try done. apply Forall_app. split; [done|]. by apply Forall_singleton.
Qed.

Lemma credits_nonneg s q items : Forall (it_ok s q) items -> 0 <= credits items.
Proof.
  induction 1 as [|it items Hit _ IH]; [done|]. cbn [credits foldr]. unfold credits in IH.
  destruct it; cbn; try lia. destruct Hit. destruct streamID; lia.
Qed.

Section Stock.
Context {Q : Type} `{!Queue Q cbItem}.
Implicit Types t : @H2Transport Q.

(** ** The buffer of a connection

    [a] and [b] bound the streams the writer has opened already, from above, and
    those it is still to open, from below; [hi] bounds the streams of the peer that
    were put, and [r] the credit that waits in the buffer.  [vw] has what the writer
    sees: whether it waits, and then there is nothing in the buffer or it is called;
    and the bytes in the buffer for each stream. *)
Record view := mkView { v_wait : bool; v_data : Z -> list Z }.
Definition no_view : view := mkView false (fun _ => []).
Record good_parts (vw : view) (a b hi r : Z) (side : Loopy.side) (c : @controlBuffer Q) (wqs : gmap loc writeQuota)
    (nextID maxID : Z) (strs : gmap loc H2Stream) (items : list cbItem) : Prop := {
  gd_cb : cb_wf c items;
  gd_items : Forall (it_ok side wqs) items;
  gd_own : incr a (own_ids side items) nextID;
  gd_peer : incr b (peer_ids items) hi;
  gd_max : hi <= maxID + 1;
  gd_credit : credits items <= r;
  gd_wait : v_wait vw = true -> ch c = true \/ consumerWaiting c = true /\ items = [];
  gd_data : forall sid, data_on sid items = v_data vw sid;
  gd_next : own side nextID = true /\ 0 <= nextID;
  gd_out : forall p s q, strs !! p = Some s -> s_outFlow s = Some q -> is_Some (wqs !! q)
}.
Definition good (vw : view) (a b hi r : Z) t (items : list cbItem) : Prop :=
  good_parts vw a b hi r (t_side t) (t_controlBuf t) (t_wqs t) (t_nextID t) (t_maxStreamID t) (t_strs t) items.

(** Once the buffer is finished the writer takes nothing from it any more. *)
Definition stocked (vw : view) (a b hi r : Z) t : Prop := err (t_controlBuf t) = true \/ exists items, good vw a b hi r t items.

Section Rules.
Context (vw : view) (a b hi r : Z).
Abbreviation G := (good vw a b hi r).
Abbreviation S := (stocked vw a b hi r).
Abbreviation stock m := (Keeps S S m).
(** Inside the lock of the buffer. *)
Definition held (c : @controlBuffer Q) t : Prop :=
  t_controlBuf t = c /\ err (t_controlBuf t) = false /\ exists items, G t items.

(** The item may be put, with what holds after it. *)
Definition ready (vw' : view) (hi' r' : Z) (it : cbItem) t : Prop := exists items,
  cb_wf (t_controlBuf t) items /\
  forall c, cb_wf c (items ++ [it]) -> (v_wait vw = true -> ch c = true) ->
    good vw' a b hi' r' (set_controlBuf c t) (items ++ [it]).

Lemma plain_ready it t items : plain it -> G t items -> ready vw hi r it t.
Proof.
  intros Hp [Hc Hi Ho Hpe Hm Hr Hwt Hd Hn Hs]. exists items. split; [done|]. intros c Hc' Hch. split; cbn; try done; try (intros ?; left; by apply Hch); try (intros ?; by rewrite data_on_snoc).
  - apply Forall_app. split; [done|]. apply Forall_singleton. by apply plain_ok.
  - by rewrite own_ids_snoc.
  - by rewrite peer_ids_snoc.
  - by rewrite credits_snoc.
  - intros sid. by rewrite data_on_snoc by (by apply plain_bytes).
Qed.

Lemma wake_wf c items : cb_wf c items -> cb_wf (wake c) items.
Proof. intros []. by split. Qed.

Lemma stock_execWith {A} vw' hi' r' (R B : @H2Transport Q -> Prop) (f : M (bool * cbItem * A)) :
  (forall t, S t /\ R t -> B t) ->
  (forall c, Triple (fun t => held c t /\ R t) f (fun x t => t_controlBuf t = c /\
     (if x.1.1 then ready vw' hi' r' x.1.2 t else exists items, good vw' a b hi' r' t items)) B) ->
  Triple (fun t => S t /\ R t) (executeAndPutWith f) (fun _ => stocked vw' a b hi' r') B.
Proof.
  intros HB Hf t [Ht HR]. unfold executeAndPutWith, mbind, M_bind, gets. cbn beta iota.
  destruct (t_cbLocked t); cbn beta iota; [by apply HB|].
  destruct (err (t_controlBuf t)) eqn:Ee; cbn beta iota; [by left|].
  destruct Ht as [?|Ht]; [congruence|]. specialize (Hf (t_controlBuf t) t (conj (conj eq_refl (conj Ee Ht)) HR)).
  destruct (f t) as [t1 [[p it] x]|t1 w|]; [|done..]. cbn [fst snd] in Hf. destruct Hf as [Ec Hp].
  assert (Hw0 : v_wait vw = true -> ch (t_controlBuf t) = true \/ consumerWaiting (t_controlBuf t) = true).
  { destruct Ht as [items [? ? ? ? ? ? Hw ? ? ?]]. intros Hwt. destruct (Hw Hwt) as [?|[? _]]; [by left|by right]. }
  destruct p; cbn [fst snd] in Hp.
  - destruct Hp as (items & Hwf & Hp). rewrite Ec in Hwf.
    destruct (executeAndPut_ok true it _ items Hwf) as (c & ? & w & -> & Hc & _ & Hcw).
    rewrite Ee in Hc, Hcw. destruct (Hcw eq_refl) as (-> & _ & _ & Ech). right. exists (items ++ [it]).
    destruct (consumerWaiting (t_controlBuf t)).
    + apply Hp; [by apply wake_wf|done].
    + apply Hp; [done|]. intros Hwt. rewrite Ech. by destruct (Hw0 Hwt).
  - destruct Hp as (items & Hp). unfold ControlBuf.executeAndPut. rewrite Ee. cbn. right. exists items.
    destruct Hp as [? ? ? ? ? ? ? ? ? ?]. rewrite Ec in *. by split.
Qed.

Lemma stock_execTo vw' hi' r' (R B : @H2Transport Q -> Prop) (f : @M Q (bool * cbItem)) :
  (forall t, S t /\ R t -> B t) ->
  (forall c, Triple (fun t => held c t /\ R t) f (fun x t => t_controlBuf t = c /\
     (if x.1 then ready vw' hi' r' x.2 t else exists items, good vw' a b hi' r' t items)) B) ->
  Triple (fun t => S t /\ R t) (executeAndPut f) (fun _ => stocked vw' a b hi' r') B.
Proof.
  intros HB Hf. unfold executeAndPut. eapply (triple_bind _ _ (fun _ => stocked vw' a b hi' r')); [|intros ?; apply keeps_ret].
  apply stock_execWith; [done|]. intros c. eapply triple_bind; [apply Hf|]. by intros [p it] t Ht.
Qed.
Lemma stock_executeAndPut (f : @M Q (bool * cbItem)) :
  (forall c, Triple (held c) f
     (fun x t => t_controlBuf t = c /\ (if x.1 then ready vw hi r x.2 t else exists items, G t items)) S) ->
  stock (executeAndPut f).
Proof.
  intros Hf. eapply triple_weaken; [apply (stock_execTo vw hi r (fun _ => True) S); [by intros ? []|]|done|done|done].
  intros c. eapply triple_weaken; [apply Hf|by intros ? []|done|done].
Qed.

(** What runs inside the lock only counts, and then a plain item is put. *)
Lemma stock_counting (f : @M Q (bool * cbItem)) :
  (forall c, Triple (held c) f (fun x t => held c t /\ x.1 = true /\ plain x.2) S) -> stock (executeAndPut f).
Proof.
  intros Hf. apply stock_executeAndPut. intros c. eapply triple_weaken; [apply Hf|done| |done].
  intros [p it] t ((Ec & _ & items & Hg) & Ep & Hit). cbn in Ep, Hit. subst p. split; [done|]. by eapply plain_ready.
Qed.

Lemma stock_put it : plain it -> stock (put it).
Proof.
  intros Hp. unfold put. keeps. apply stock_counting. by intros c t Ht.
Qed.
Lemma stock_put_ it : plain it -> stock (put_ it).
Proof. intros Hp. unfold put_. keeps. by apply stock_put. Qed.

(** An item that is ready when there are no more. *)
Lemma stock_putTo vw' hi' r' it (R : @H2Transport Q -> Prop) :
  (forall t items, err (t_controlBuf t) = false -> R t -> G t items -> ready vw' hi' r' it t) ->
  Triple (fun t => S t /\ R t) (put it) (fun _ => stocked vw' a b hi' r') (fun t => S t /\ R t).
Proof.
  intros Hr. unfold put. eapply (triple_bind _ _ (fun _ => stocked vw' a b hi' r')); [|intros []; apply keeps_ret].
  apply stock_execTo; [done|]. intros c t [(Ec & Ee & items & Hg) HR]. split; [done|]. by eapply Hr.
Qed.

Lemma good_updS t p s s' items : t_strs t !! p = Some s ->
  (s_outFlow s' = s_outFlow s \/ (forall q, s_outFlow s' = Some q -> is_Some (t_wqs t !! q))) ->
  G t items -> G (set_strs (<[p := s']> (t_strs t)) t) items.
Proof.
  intros Hs Hf [Hc Hi Ho Hpe Hm Hr Hwt Hd Hn Hq]. split; cbn; try done. intros p0 s0 q. destruct (decide (p = p0)) as [->|Hne].
  - rewrite lookup_insert_eq. intros [= <-] E. destruct Hf as [Hf|Hf]; [|by apply Hf]. rewrite Hf in E. by apply (Hq p0 s).
  - rewrite lookup_insert_ne by done. apply Hq.
Qed.
Lemma stock_updS p f B : (forall s, s_outFlow (f s) = s_outFlow s) -> Keeps S B (updS p f).
Proof.
  intros Hf. apply keeps_updS. intros t s Hs [He|[items Hg]]; [by left|right]. exists items. eapply good_updS; eauto.
Qed.
Lemma held_updS c p f B : (forall s, s_outFlow (f s) = s_outFlow s) -> Keeps (held c) B (updS p f).
Proof.
  intros Hf. apply keeps_updS. intros t s Hs (Ec & Ee & items & Hg). split; [done|]. split; [done|]. exists items. eapply good_updS; eauto.
Qed.

Lemma good_wqs t m items : (forall w, is_Some (t_wqs t !! w) -> is_Some (m !! w)) -> G t items -> G (set_wqs m t) items.
Proof.
  intros Hm [Hc Hi Ho Hpe Hx Hr Hwt Hd Hn Hq]. split; cbn; try done.
  - eapply Forall_impl; [exact Hi|]. intros it. by apply it_ok_grow.
  - intros p s q Hs Ho'. eapply Hm, Hq; eauto.
Qed.
Lemma stocked_wqs t m : (forall w, is_Some (t_wqs t !! w) -> is_Some (m !! w)) -> S t -> S (set_wqs m t).
Proof. intros Hm [?|[items Hg]]; [by left|right]. exists items. by apply good_wqs. Qed.
Lemma stocked_new t s : (forall q, s_outFlow s = Some q -> is_Some (t_wqs t !! q)) ->
  S t -> S (set_strs (<[fresh (dom (t_strs t)) := s]> (t_strs t)) t).
Proof.
  intros Hq [?|[items [Hc Hi Ho Hpe Hm Hr Hwt Hd Hn Hs]]]; [by left|right]. exists items. split; cbn; try done.
  intros p s' q [[<- <-]|[_ Hp]]%lookup_insert_Some; [apply Hq|by apply (Hs p s')].
Qed.
End Rules.

(** The writer takes the first item. *)
Lemma good_tail vw a b hi r t it items c : good vw a b hi r t (it :: items) -> cb_wf c items ->
  it_ok (t_side t) (t_wqs t) it /\ 0 <= r - conn_credit it /\
  exists a' b', incr a (own_ids (t_side t) [it]) a' /\ incr b (peer_ids [it]) b' /\
    good (mkView false (fun sid => data_on sid items)) a' b' hi (r - conn_credit it) (set_controlBuf c t) items.
Proof.
  intros [Hc Hi Hown Hpe Hm Hr Hwt Hd Hn Hs] Hc'. apply Forall_cons in Hi as [Hit Hi]. split; [done|].
  pose proof (credits_nonneg _ _ _ Hi). assert (Ecr : credits (it :: items) = conn_credit it + credits items) by done.
  split; [lia|]. change (it :: items) with ([it] ++ items) in Hown, Hpe. unfold own_ids, peer_ids in Hown, Hpe. rewrite bind_app in Hown, Hpe.
  apply incr_app in Hown as (a' & Ha & Ha'). apply incr_app in Hpe as (b' & Hb & Hb'). exists a', b'. split; [done|]. split; [done|].
  split; cbn; try done. lia.
Qed.
(** It has taken all there was, and waits. *)
Lemma good_idle vw vw' a b hi r t items c : good vw a b hi r t items -> cb_wf c items ->
  (v_wait vw' = true -> ch c = true \/ consumerWaiting c = true /\ items = []) -> v_data vw' = v_data vw -> good vw' a b hi r (set_controlBuf c t) items.
Proof. intros [Hc Hi Hown Hpe Hm Hr Hwt Hd Hn Hs] Hc' Hw Ev. split; try done. intros sid. by rewrite Ev. Qed.

(** The items in the buffer. *)
Definition queued t : list cbItem := match q_takeAll (clist (t_controlBuf t)) with Some (_, l) => l | None => [] end.
Lemma good_queued vw a b hi r t items : good vw a b hi r t items -> queued t = items.
Proof. intros Hg. unfold queued. destruct (q_takeAll_ok (clist (t_controlBuf t)) items) as (q & -> & _); [apply Hg|done]. Qed.
Lemma stocked_data vw a b hi r t sid : stocked vw a b hi r t -> err (t_controlBuf t) = false -> data_on sid (queued t) = v_data vw sid.
Proof. intros [?|[items Hg]] He; [congruence|]. rewrite (good_queued _ _ _ _ _ _ _ Hg). apply Hg. Qed.

(** Only what the view shows matters. *)
Lemma stocked_view vw vw' a b hi r t : v_wait vw = v_wait vw' -> (forall sid, v_data vw sid = v_data vw' sid) ->
  stocked vw a b hi r t -> stocked vw' a b hi r t.
Proof.
  intros Ew Ed [?|[items [Hc Hi Hown Hpe Hm Hr Hwt Hd Hn Hs]]]; [by left|right]. exists items. split; try done.
  - by rewrite <- Ew.
  - intros sid. by rewrite Hd.
Qed.

(** More may be put than was. *)
Lemma stocked_mono vw a b hi r hi' r' t : hi <= hi' -> r <= r' -> hi' <= t_maxStreamID t + 1 ->
  stocked vw a b hi r t -> stocked vw a b hi' r' t.
Proof.
  intros Hh Hr Hm [?|[items [Hc Hi Ho Hpe _ Hcr Hwt Hd Hn Hs]]]; [by left|right]. exists items. split; try done; [|lia].
  by eapply incr_mono.
Qed.
End Stock.

(** ** The operations *)
Ltac plain_item := first [done | by eexists | by cbn; eauto].
#[export] Hint Extern 1 (Keeps (stocked _ _ _ _ _) _ (put_ _)) => apply stock_put_; plain_item : keeps.
#[export] Hint Extern 1 (Keeps (stocked _ _ _ _ _) _ (put _)) => apply stock_put; plain_item : keeps.
#[export] Hint Extern 1 (Keeps (stocked _ _ _ _ _) _ (updS _ _)) => apply stock_updS; intros ?; reflexivity : keeps.
#[export] Hint Extern 1 (Keeps (held _ _ _ _ _ _) _ (updS _ _)) => apply held_updS; intros ?; reflexivity : keeps.

Section Operations.
Context {Q : Type} `{!Queue Q cbItem}.
Context (rangeActive : gmap Z loc -> list (Z * loc)) (rangeHeader : httpHeader -> list (list Z)).
Implicit Types t : @H2Transport Q.

(** A buffer that is finished stays so. *)
Definition done_cb t : Prop := err (t_controlBuf t) = true.
Lemma done_executeAndPut (B : _ -> Prop) f : (forall t, done_cb t -> B t) -> Keeps done_cb B (executeAndPut f).
Proof.
  intros HB t Ht. unfold executeAndPut, executeAndPutWith, mbind, M_bind, gets. simpl.
  destruct (t_cbLocked t); [by apply HB|]. unfold done_cb in *. by rewrite Ht.
Qed.
Lemma done_closeStream (B : _ -> Prop) p e rst code : (forall t, done_cb t -> B t) -> Keeps done_cb B (closeStream p e rst code).
Proof.
  intros HB. unfold closeStream, setReadClosed, queueReadBuf. keeps; try (by apply done_executeAndPut).
  apply keeps_modify. intros t H. by destruct e.
Qed.

Section Fixed.
Context (vw : view) (a b hi r : Z).
Abbreviation S := (stocked (Q := Q) vw a b hi r).
Abbreviation stock m := (Keeps S S m).

Lemma stock_fire e p : stock (fireAll e p).
Proof. unfold fireAll. keeps. Qed.
Lemma stock_MuxEvent e : stock (MuxEvent e).
Proof. apply stock_fire. Qed.
Lemma stock_streamEvent e p : stock (streamEvent e p).
Proof. apply stock_fire. Qed.
Hint Resolve stock_fire stock_MuxEvent stock_streamEvent : keeps.

Lemma stock_addBack it : plain it -> stock (executeAndPut (addBackStreamQuota it)).
Proof.
  intros Hp. apply stock_counting. intros c. unfold addBackStreamQuota, offerQuota.
  apply triple_seq; [keeps|intros _]. apply triple_seq; [keeps|]. by intros _ t Ht.
Qed.
Hint Extern 1 (Keeps (stocked _ _ _ _ _) _ (executeAndPut (addBackStreamQuota _))) => apply stock_addBack; plain_item : keeps.

Lemma stock_queue p m : stock (queueReadBuf p m).
Proof. unfold queueReadBuf. keeps. Qed.
Hint Resolve stock_queue : keeps.
Lemma stock_setReadClosed p mode e : stock (setReadClosed p mode e).
Proof. unfold setReadClosed. keeps. Qed.
Hint Resolve stock_setReadClosed : keeps.
Lemma stock_closeStream p e rst code : stock (closeStream p e rst code).
Proof. unfold closeStream. keeps. apply keeps_modify. intros t H. by destruct e. Qed.
Hint Resolve stock_closeStream : keeps.
Lemma stock_cleanup p e : stock (cleanup p e).
Proof. unfold cleanup. keeps. Qed.
Hint Resolve stock_cleanup : keeps.

Lemma stock_finish : stock finish.
Proof.
  intros t Ht. unfold finish, mbind at 1, M_bind at 1, gets at 1.
  destruct (t_cbLocked t); [done|]. unfold mbind at 1, M_bind at 1, gets at 1.
  destruct (err (t_controlBuf t)) eqn:Er; [done|].
  match goal with |- match ?m t with _ => _ end => cut (Triple S m (fun _ => S) S); [intros H; exact (H t Ht)|] end.
  apply keeps_lift_bind. intros [c' cbs] Hf.
  apply (triple_bind _ _ (fun _ => done_cb)); [done|intros _].
  eapply (triple_weaken done_cb _ _ (fun _ => done_cb)); [|done|intros _ ? H'; by left|intros t' H'; exact H'].
  apply triple_keeps. keeps.
  - unfold cleanup. keeps. apply done_closeStream. intros ? ?. by left.
  - apply keeps_modify. intros t' _. by apply (finish_err _ _ _ Hf).
Qed.
Hint Resolve stock_finish : keeps.
Lemma stock_loopyEnds : stock loopyEnds.
Proof. unfold loopyEnds. keeps. Qed.
Lemma stock_Close e : stock (Close rangeActive e).
Proof. unfold Close. keeps. apply keeps_modify. intros t H. by destruct (t_Error t). Qed.
Hint Resolve stock_loopyEnds stock_Close : keeps.
Lemma stock_deleteStream p now : stock (deleteStream rangeActive p now).
Proof. unfold deleteStream. keeps. Qed.
Lemma stock_adjustWindow p n : stock (adjustWindow p n).
Proof. unfold adjustWindow. keeps. Qed.
Lemma stock_UpdateWindow p n : stock (UpdateWindow p n).
Proof. unfold UpdateWindow. keeps. Qed.
Lemma stock_updateFlowControl n : stock (updateFlowControl rangeActive n).
Proof. unfold updateFlowControl. keeps. Qed.
Hint Resolve stock_deleteStream stock_adjustWindow stock_UpdateWindow stock_updateFlowControl : keeps.
Lemma stock_bdp_ack now d : stock (bdp_ack rangeActive now d).
Proof. unfold bdp_ack. keeps. Qed.
Lemma stock_handleData fh d : stock (handleData fh d).
Proof. unfold handleData, connData, streamData, bdp_count, getStream, deliver. keeps. Qed.
Lemma stock_handleRSTStream fh c : stock (handleRSTStream fh c).
Proof. unfold handleRSTStream, getStream. keeps. Qed.
Hint Resolve stock_bdp_ack stock_handleData stock_handleRSTStream : keeps.
Lemma stock_handlePingClient fh d now : stock (handlePingClient rangeActive fh d now).
Proof. unfold handlePingClient. keeps. Qed.
Lemma stock_handlePingServer fh d now : stock (handlePingServer rangeActive fh d now).
Proof. unfold handlePingServer, countStrike. keeps. Qed.
Lemma stock_handleGoAway id c d : stock (handleGoAway rangeActive id c d).
Proof. unfold handleGoAway, setGoAwayReason. keeps. Qed.
Lemma stock_Drain : stock Drain.
Proof. unfold Drain. keeps. Qed.
Lemma stock_drained g : stock (drained g).
Proof. unfold drained. keeps. Qed.
Lemma stock_outgoingGoAwayHandler e g : stock (outgoingGoAwayHandler e g).
Proof. unfold outgoingGoAwayHandler. keeps. Qed.
Lemma stock_operateResponseHeaders mh : stock (operateResponseHeaders mh).
Proof. unfold operateResponseHeaders, getStream. keeps. Qed.
Lemma stock_initStream p id now : stock (initStream p id now).
Proof. unfold initStream. keeps. Qed.
Lemma stock_runCallback f now : stock (runCallback rangeActive f now).
Proof. unfold runCallback. keeps. Qed.
Lemma stock_WaitHeaders p e : stock (WaitHeaders p e).
Proof. unfold WaitHeaders. keeps. Qed.
Lemma stock_refuse id c : stock (refuse id c).
Proof. unfold refuse. keeps. Qed.
Hint Resolve stock_handlePingClient stock_handlePingServer stock_handleGoAway stock_Drain stock_drained
  stock_outgoingGoAwayHandler stock_operateResponseHeaders stock_initStream stock_runCallback stock_WaitHeaders
  stock_refuse : keeps.

(** *** Settings *)
Lemma keeps_pure {A} (I B : @H2Transport Q -> Prop) (P : Prop) (m : M A) : (P -> Keeps I B m) -> Triple (fun t => I t /\ P) m (fun _ => I) B.
Proof. intros Hm t [HI HP]. by apply Hm. Qed.

Lemma stock_readSettings server p : bytes_ok p ->
  Triple S (readSettings server p) (fun x t => S t /\ Forall (fun s => is_u32 (Val s)) (sr_ss x)) S.
Proof.
  intros Hp t Ht. unfold readSettings, mbind, M_bind, gets, modify.
  destruct (settings p) as [l|e|] eqn:El; [|done..]. split; [exact Ht|]. apply readSettings_u32; [|constructor].
  by eapply settings_u32.
Qed.
Lemma stock_handleSettingsClient fh p first : bytes_ok p -> stock (handleSettingsClient fh p first).
Proof.
  intros Hp. unfold handleSettingsClient. destruct (Has _ _); [apply keeps_ret|].
  eapply triple_bind; [by apply stock_readSettings|intros x]. cbv zeta.
  eapply triple_weaken; [apply keeps_pure|intros ? H'; exact H'|done|done].
  intros Hx. keeps; apply stock_counting; intros c; (apply triple_seq; [unfold applyLimits; keeps|intros _]);
    (apply triple_seq; [unfold updateStreamQuota; keeps|]); by intros _ t Ht.
Qed.
Lemma stock_handleSettingsServer fh p : bytes_ok p -> stock (handleSettingsServer fh p).
Proof.
  intros Hp. unfold handleSettingsServer. destruct (Has _ _); [apply keeps_ret|].
  eapply triple_bind; [by apply stock_readSettings|intros x].
  eapply triple_weaken; [apply keeps_pure|intros ? H'; exact H'|done|done].
  intros Hx. keeps. apply stock_counting. intros c. apply triple_seq; [unfold applyLimits; keeps|]. by intros _ t Ht.
Qed.

(** *** Quotas and streams are made *)
Lemma is_Some_insert {K A} `{Countable K} (m : gmap K A) k x w : is_Some (m !! w) -> is_Some (<[k := x]> m !! w).
Proof. intros Hw. destruct (decide (k = w)) as [->|?]; [by rewrite lookup_insert_eq|by rewrite lookup_insert_ne]. Qed.

Lemma stock_newQuota (R : @H2Transport Q -> Prop) : (forall t m, R t -> R (set_wqs m t)) ->
  Triple (fun t => S t /\ R t) newQuota (fun q t => (S t /\ R t) /\ is_Some (t_wqs t !! q)) S.
Proof.
  intros HR t [Ht Hr]. unfold newQuota, mbind, M_bind, gets, modify. cbn. split; [split; [|by apply HR]|].
  - apply stocked_wqs; [|done]. intros w Hw. by apply is_Some_insert.
  - rewrite lookup_insert_eq. eauto.
Qed.
Lemma stock_newStream (R : @H2Transport Q -> Prop) s : (forall t m, R t -> R (set_strs m t)) ->
  Triple (fun t => (S t /\ R t) /\ (forall q, s_outFlow s = Some q -> is_Some (t_wqs t !! q)))
    (newStream s) (fun p t => (S t /\ R t) /\ t_strs t !! p = Some s) S.
Proof.
  intros HR t [[Ht Hr] Hq]. unfold newStream, mbind, M_bind, gets, modify. cbn.
  split; [split; [by apply stocked_new|by apply HR]|]. by rewrite lookup_insert_eq.
Qed.
Lemma stock_consumeQuota p n : stock (consumeQuota p n).
Proof.
  intros t Ht. unfold consumeQuota, getS, mbind, M_bind, gets, modify, lift.
  destruct (t_strs t !! p) as [s|]; [|done]. destruct (s_outFlow s) as [q|]; [|done]. cbn.
  destruct (t_wqs t !! q) as [w|]; [|done]. cbn. destruct (tryConsume w n); [|done]. cbn.
  apply stocked_wqs; [|done]. intros k Hk. by apply is_Some_insert.
Qed.
Hint Resolve stock_consumeQuota : keeps.
End Fixed.
Hint Resolve stock_fire stock_MuxEvent stock_streamEvent stock_queue stock_setReadClosed stock_closeStream stock_cleanup
  stock_finish stock_loopyEnds stock_Close stock_deleteStream stock_adjustWindow stock_UpdateWindow stock_updateFlowControl
  stock_bdp_ack stock_handleData stock_handleRSTStream stock_handlePingClient stock_handlePingServer stock_handleGoAway
  stock_Drain stock_drained stock_outgoingGoAwayHandler stock_operateResponseHeaders stock_initStream stock_runCallback
  stock_WaitHeaders stock_refuse stock_handleSettingsClient stock_handleSettingsServer stock_consumeQuota : keeps.

Section Streams.
Context (vw : view) (a b hi r : Z).
Abbreviation S := (stocked (Q := Q) vw a b hi r).
Abbreviation stock m := (Keeps S S m).

(** *** Streams of the peer *)
Abbreviation some_hi := (fun t => exists hi', stocked vw a b hi' r t).
Lemma stock_some {A} (I : @H2Transport Q -> Prop) (m : @M Q A) : stock m -> (forall t, I t -> S t) ->
  Triple I m (fun _ => some_hi) some_hi.
Proof. intros Hm HI. eapply triple_weaken; [exact Hm|done|intros; by exists hi|intros; by exists hi]. Qed.
Lemma triple_gets {A C} (I : @H2Transport Q -> Prop) (f : @H2Transport Q -> A) (k : A -> @M Q C) K B :
  (forall x, Triple (fun t => I t /\ f t = x) (k x) K B) -> Triple I (gets f ≫= k) K B.
Proof. intros Hk t Ht. by apply (Hk (f t)). Qed.

Lemma triple_ret {A C} (I : @H2Transport Q -> Prop) (x : A) (k : A -> @M Q C) K B :
  Triple I (k x) K B -> Triple I (mret x ≫= k) K B.
Proof. done. Qed.

Lemma keeps_lift_bind_to {A C} (I : @H2Transport Q -> Prop) (o : option A) (k : A -> @M Q C) K B :
  (forall x, o = Some x -> Triple I (k x) K B) -> Triple I (lift o ≫= k) K B.
Proof. intros Hk t H. destruct o as [x|]; [|done]. by apply (Hk x). Qed.

Lemma triple_stream {C} p (I : @H2Transport Q -> Prop) (k : H2Stream -> @M Q C) K B :
  (forall s, Triple (fun t => I t /\ t_strs t !! p = Some s) (k s) K B) -> Triple I (getS p ≫= k) K B.
Proof.
  intros Hk. apply (triple_bind _ _ (fun s t => I t /\ t_strs t !! p = Some s)); [|done].
  intros t Ht. unfold getS. destruct (t_strs t !! p) eqn:E; [|done]. by split.
Qed.

(** A stream with id [id] was seen and is not registered yet. *)
Definition seen (id : Z) t : Prop :=
  own (t_side t) id = false /\ t_maxStreamID t = id /\ (err (t_controlBuf t) = true \/ hi <= id).

Lemma register_ready id wq t items :
  err (t_controlBuf t) = false -> seen id t /\ is_Some (t_wqs t !! wq) -> good vw a b hi r t items ->
  ready vw a b vw (id + 1) r (ItRegister id wq) t.
Proof.
  intros Ee [(Ho & Hid & [?|Hhi]) Hwq] [Hc Hi Hown Hpe Hm Hr Hwt Hd Hn Hs]; [congruence|]. exists items. split; [done|].
  intros c Hc' Hch. split; cbn; try done; try (intros ?; left; by apply Hch); try (intros ?; by rewrite data_on_snoc); try lia.
  - apply Forall_app. split; [done|]. by apply Forall_singleton.
  - unfold own_ids. rewrite bind_app. cbn. by rewrite app_nil_r.
  - unfold peer_ids. rewrite bind_app. cbn. apply incr_snoc; [|lia]. eapply incr_mono; [exact Hpe|lia].
  - rewrite credits_app. cbn. lia.
Qed.

Lemma see_stream id t : t_maxStreamID t < id -> own (t_side t) id = false -> S t ->
  S (set_maxStreamID id t) /\ seen id (set_maxStreamID id t).
Proof.
  intros Hlt Ho Ht. destruct Ht as [He|[items Hg]].
  - split; [by left|]. by split_and!; [..|left].
  - pose proof Hg as [Hc Hi Hown Hpe Hm Hr Hwt Hd Hn Hs]. split; [right; exists items; split; cbn; try done; lia|].
    split_and!; [done|done|]. right. lia.
Qed.

Lemma stock_accept mh now :
  Triple (fun t => S t /\ own (t_side t) (StreamID (mh_header mh)) = false) (operateAcceptHeaders mh now)
    (fun _ => some_hi) some_hi.
Proof.
  unfold operateAcceptHeaders. cbv zeta. set (id := StreamID (mh_header mh)).
  destruct (mh_Truncated mh); [apply stock_some; [keeps|by intros ? []]|].
  apply triple_gets. intros maxID. destruct (Z.leb_spec id maxID) as [|Hlt]; [apply stock_some; [keeps|by intros ? [[] _]]|].
  apply (triple_bind _ _ (fun _ t => S t /\ seen id t)).
  { intros t [[Ht Ho] Hm]. apply see_stream; [lia|done|done]. }
  intros _. destruct (ac_headerError _); [apply stock_some; [keeps|by intros ? []]|].
  apply triple_seq; [apply keeps_gets|intros window].
  eapply triple_bind; [eapply triple_weaken; [by apply (stock_newQuota vw a b hi r (seen id))|done|intros ? ? H'; exact H'|intros; by exists hi]|intros wq].
  apply (triple_bind _ _ (fun _ t => S t /\ seen id t /\ is_Some (t_wqs t !! wq))).
  { eapply triple_weaken; [apply (stock_newStream vw a b hi r (fun t => seen id t /\ is_Some (t_wqs t !! wq)))| | |intros; by exists hi].
    - done.
    - intros t [[Ht Hs] Hw]. split; [done|]. by intros q [= <-].
    - by intros p t [Ht _]. }
  intros p. apply triple_seq; [apply keeps_gets|intros closing].
  destruct closing; [apply stock_some; [keeps|by intros ? []]|].
  do 2 (apply triple_seq; [apply keeps_gets|intros ?]). apply triple_seq; [unfold IsServer; keeps|intros server].
  destruct (_ && server); [apply stock_some; [keeps|by intros ? []]|].
  apply triple_seq; [apply keeps_lift|intros m]. apply triple_seq; [keeps|intros _]. apply triple_seq; [keeps|intros _].
  apply triple_seq; [unfold streamEvent, fireAll; keeps|intros _].
  eapply (triple_bind _ _ (fun _ => stocked vw a b (id + 1) r)).
  { unfold put_. eapply triple_bind; [|intros ?; apply keeps_ret].
    eapply triple_weaken; [apply (stock_putTo vw a b hi r vw (id + 1) r _ (fun t => seen id t /\ is_Some (t_wqs t !! wq)))|done|done|].
    - intros t items. apply register_ready.
    - intros t [Ht _]. by exists hi. }
  intros _. eapply (triple_weaken (stocked vw a b (id + 1) r) _ _ (fun _ => stocked vw a b (id + 1) r) _ (stocked vw a b (id + 1) r));
    [|done|intros; by eexists|intros; by eexists]. apply triple_keeps. unfold CloseError. keeps.
Qed.

(** *** Streams of its own *)
Lemma own_next s id : own s id = true -> own s (id + 2) = true.
Proof. unfold own. rewrite Z.odd_add. cbn. by rewrite xorb_false_r. Qed.

(** [p] has got an id that no item has yet. *)
Definition assigned (p : loc) t : Prop := exists id items,
  (forall s, t_strs t !! p = Some s -> s_MuxID s = id) /\ own (t_side t) id = true /\ id < t_nextID t /\
  good vw a b hi r t items /\ incr a (own_ids (t_side t) items) id.

Lemma request_ready p t s h :
  t_strs t !! p = Some s -> assigned p t -> is_Some (t_wqs t !! hd_wq h) -> Loopy.fields_ok (hd_hf h) ->
  hd_endStream h = false -> hd_streamID h = s_MuxID s -> ready vw a b vw hi r (ItHeader h) t.
Proof.
  intros Hs (id & items & Hid & Ho & Hlt & [Hc Hi Hown Hpe Hm Hr Hwt Hd Hn Hq] & Hinc) Hwq Hf He Hsid.
  rewrite (Hid s Hs) in Hsid. exists items. split; [done|]. intros c Hc' Hch. split; cbn; try done; try (intros ?; left; by apply Hch); try (intros ?; by rewrite data_on_snoc).
  - apply Forall_app. split; [done|]. apply Forall_singleton. cbn. rewrite Hsid, Ho. done.
  - unfold own_ids. rewrite bind_app. cbn. rewrite Hsid, Ho. cbn. by apply incr_snoc.
  - unfold peer_ids. rewrite bind_app. cbn. by rewrite app_nil_r.
  - rewrite credits_app. cbn. lia.
Qed.

(** The assignment of [checkForStreamQuota]. *)
Lemma assign_ok t items p s w : good vw a b hi r t items -> t_nextID t < 2 ^ 32 - 2 -> t_strs t !! p = Some s ->
  assigned p (set_strs (<[p := with_inFlow (with_MuxID s (t_nextID t)) (Some w)]> (t_strs t))
                (set_nextID (u32 (t_nextID t + 2)) t)).
Proof.
  intros [Hc Hi Hown Hpe Hm Hr Hwt Hd [Hn Hn0] Hq] Hlt Hs. exists (t_nextID t), items.
  split; [intros s'; cbn; rewrite lookup_insert_eq; by intros [= <-]|].
  split; [done|]. cbn. rewrite u32_small by lia. split; [lia|]. split; [|done]. split; cbn; try done.
  - eapply incr_mono; [exact Hown|]. rewrite ?u32_small by lia. lia.
  - rewrite ?u32_small by lia. split; [by apply own_next|lia].
  - intros p' s' q [[<- <-]|[_ Hp]]%lookup_insert_Some; [cbn; by apply (Hq p s)|by apply (Hq p' s')].
Qed.
Lemma assigned_quota p t q w : assigned p t -> assigned p (set_quotaToken q (set_streamQuota w t)).
Proof. done. Qed.

Lemma held_checkForStreamQuota c p firstTry wq (B : @H2Transport Q -> Prop) :
  Triple (fun t => held vw a b hi r c t /\ t_nextID t < 2 ^ 32 - 2 /\ is_Some (t_wqs t !! wq)) (checkForStreamQuota p firstTry)
    (fun q t => t_controlBuf t = c /\ is_Some (t_wqs t !! wq) /\
       if q : bool then assigned p t else exists items, good vw a b hi r t items) B.
Proof.
  intros t ((Hc & _ & items & Hg) & Hn & Hw). unfold checkForStreamQuota, IsServer, offerQuota, updS, getS, when, mbind, M_bind, gets, modify.
  cbn. pose proof (assign_ok t items p) as Ha. specialize (Ha) with (1 := Hg) (2 := Hn).
  case_bool_decide; cbn.
  { destruct (t_strs t !! p) as [s|] eqn:Es; [|done]. cbn. split; [done|]. split; [done|]. by apply Ha. }
  destruct (t_streamQuota t <=? 0); [destruct firstTry; cbn; (split; [done|]); (split; [done|]); by exists items|].
  destruct firstTry; cbn; (destruct (t_strs t !! p) as [s|] eqn:Es; [|done]); cbn;
    match goal with |- context [if ?x then _ else _] => destruct x end;
    cbn; (split; [done|]); (split; [done|]); by apply Ha.
Qed.

Lemma stock_writeRequestHeaders p hf firstTry : Loopy.fields_ok hf ->
  Triple (fun t => S t /\ t_nextID t < 2 ^ 32 - 2) (writeRequestHeaders p hf firstTry) (fun _ => S) S.
Proof.
  intros Hf. unfold writeRequestHeaders.
  apply (triple_bind _ _ (fun s t => (S t /\ t_nextID t < 2 ^ 32 - 2) /\ t_strs t !! p = Some s)).
  { intros t Ht. unfold getS. destruct (t_strs t !! p) eqn:E; [|done]. by split. }
  intros s. destruct (s_outFlow s) as [wq|] eqn:Ew; cbn [lift]; [|by intros ? ?].
  apply triple_ret. eapply (triple_bind _ _ (fun _ => S)).
  - eapply triple_weaken; [apply (stock_execWith vw a b hi r vw hi r (fun t => t_nextID t < 2 ^ 32 - 2 /\
      (err (t_controlBuf t) = true \/ is_Some (t_wqs t !! wq))) S)| |done|done]; [by intros t []| |]; cycle 1.
    { intros t [[Ht Hn] Hs]. split; [done|]. split; [done|]. destruct Ht as [?|[items [_ _ _ _ _ _ _ _ _ Hq]]]; [by left|right].
      by eapply Hq. }
    intros c. eapply triple_bind.
    { eapply triple_weaken; [apply (held_checkForStreamQuota c p firstTry wq S)| |intros ? ? H'; exact H'|done].
      intros t (Hh & Hn & [He|Hw]); [destruct Hh as (_ & ? & _); congruence|done]. }
    intros ok. apply (triple_bind _ _ (fun _ t => t_controlBuf t = c /\ is_Some (t_wqs t !! wq) /\
       if ok : bool then assigned p t else exists items, good vw a b hi r t items)).
    { unfold fitsHeaderList. by destruct ok; intros t Ht. }
    intros fits t (Ec & Hw & Ht). unfold getS, mbind, M_bind. destruct (t_strs t !! p) as [s'|] eqn:Es; [|done]. cbn.
    split; [done|]. destruct ok; cbn; [|done]. destruct fits; [|by destruct Ht as (? & items & _ & _ & _ & ? & _); exists items].
    by eapply request_ready.
  - intros x. apply triple_keeps. keeps.
Qed.

(** The request of a stream. *)
Definition asks (p : loc) (q : Request) t : Prop := exists s, t_strs t !! p = Some s /\ s_Request s = q.

Lemma next_updS p f B : (forall s, s_outFlow (f s) = s_outFlow s) ->
  Keeps (fun t => S t /\ t_nextID t < 2 ^ 32 - 2) B (updS p f).
Proof.
  intros Hf. apply keeps_updS. intros t s Hs [[?|[items Hg]] Hn]; (split; [|done]); [by left|right].
  exists items. eapply good_updS; eauto.
Qed.
Hint Extern 1 (Keeps (fun t => stocked _ _ _ _ _ t /\ _) _ (updS _ _)) => apply next_updS; intros ?; reflexivity : keeps.

Lemma stock_DialStream p q timeout body :
  (forall q' hf, CreateHeader rangeHeader timeout q = Some (q', hf) -> Loopy.fields_ok hf) ->
  Triple (fun t => (S t /\ t_nextID t < 2 ^ 32 - 2) /\ asks p q t) (DialStream rangeHeader p timeout body) (fun _ => S) S.
Proof.
  intros Hf. unfold DialStream. eapply triple_bind.
  { eapply triple_weaken; [apply (stock_newQuota vw a b hi r (fun t => t_nextID t < 2 ^ 32 - 2 /\ asks p q t)); done| |intros ? ? H'; exact H'|done].
    by intros t [[] ?]. }
  intros wq. apply (triple_bind _ _ (fun _ t => (S t /\ t_nextID t < 2 ^ 32 - 2) /\ asks p q t)).
  { intros t [[Ht [Hn (s & Hs & Hq)]] Hw]. unfold updS, getS, mbind, M_bind, modify. rewrite Hs. cbn.
    split; [split; [|done]|]; cycle 1.
    { eexists. cbn. rewrite lookup_insert_eq. by split. }
    destruct Ht as [?|[items Hg]]; [by left|right]. exists items. eapply good_updS; [done| |done]. right. by intros ? [= <-]. }
  intros _. apply (triple_bind _ _ (fun s t => (S t /\ t_nextID t < 2 ^ 32 - 2) /\ s_Request s = q)).
  { intros t [Ht (s & Hs & Hq)]. unfold getS. by rewrite Hs. }
  intros s. intros t [Ht Hq]. revert t Ht.
  match goal with |- forall t, _ -> match ?m t with _ => _ end =>
    cut (Triple (fun t => S t /\ t_nextID t < 2 ^ 32 - 2) m (fun _ => S) S); [done|] end.
  apply triple_seq; [keeps|intros _]. apply triple_seq; [unfold streamEvent, fireAll; keeps|intros _].
  apply keeps_lift_bind_to. intros [q' hf] E. rewrite Hq in E. apply triple_seq; [keeps|intros _].
  eapply triple_bind; [by apply stock_writeRequestHeaders; eapply Hf|intros e]. apply triple_keeps. keeps.
Qed.

Lemma stock_Dial q timeout body :
  (forall q' hf, CreateHeader rangeHeader timeout q = Some (q', hf) -> Loopy.fields_ok hf) ->
  Triple (fun t => S t /\ t_nextID t < 2 ^ 32 - 2) (p ← NewStreamReq q; DialStream rangeHeader p timeout body) (fun _ => S) S.
Proof.
  intros Hf. eapply triple_bind; [|intros p; apply (stock_DialStream p q timeout body Hf)]. unfold NewStreamReq.
  eapply triple_weaken; [apply (stock_newStream vw a b hi r (fun t => t_nextID t < 2 ^ 32 - 2)); done| | |done].
  - intros t Ht. split; [done|]. by intros ? [=].
  - intros p t [Ht Hs]. split; [done|]. by eexists.
Qed.

(** *** Responses *)

(** The headers of [s] can be sent as a response. *)
Definition answers (sd : Loopy.side) (s : H2Stream) (rs : Response) : Prop :=
  sd = serverSide /\ own sd (s_MuxID s) = false /\ Loopy.fields_ok (responseFields rangeHeader rs).
(** They can, or they were sent. *)
Definition sendable (p : loc) (f : Response -> Response) t : Prop :=
  forall s, t_strs t !! p = Some s -> s_headerSent s = true \/ answers (t_side t) s (f (s_Response s)).

Lemma response_ready t items s h :
  answers (t_side t) s (s_Response s) -> hd_hf h = responseFields rangeHeader (s_Response s) ->
  hd_endStream h = false -> hd_streamID h = s_MuxID s -> good vw a b hi r t items -> ready vw a b vw hi r (ItHeader h) t.
Proof.
  intros (Hsd & Ho & Hf) Eh He Hsid [Hc Hi Hown Hpe Hm Hr Hwt Hd Hn Hq]. exists items. split; [done|]. intros c Hc' Hch.
  split; cbn; try done; try (intros ?; left; by apply Hch); try (intros ?; by rewrite data_on_snoc).
  - apply Forall_app. split; [done|]. apply Forall_singleton. cbn. by rewrite Eh, Hsid, Ho.
  - unfold own_ids. rewrite bind_app. cbn. rewrite Hsid, Ho. cbn. by rewrite app_nil_r.
  - unfold peer_ids. rewrite bind_app. cbn. by rewrite app_nil_r.
  - rewrite credits_app. cbn. lia.
Qed.

Lemma stock_writeResponseHeaders p :
  Triple (fun t => S t /\ forall s, t_strs t !! p = Some s -> answers (t_side t) s (s_Response s))
    (writeResponseHeaders rangeHeader p) (fun _ => S) S.
Proof.
  unfold writeResponseHeaders.
  apply (triple_bind _ _ (fun s t => S t /\ answers (t_side t) s (s_Response s))).
  { intros t [Ht Hs]. unfold getS. destruct (t_strs t !! p) as [s|]; [|done]. split; [done|]. by apply Hs. }
  intros s. cbv zeta. eapply (triple_bind _ _ (fun _ => S)).
  - apply stock_execTo; [by intros ? []|]. intros c t [(Ec & _ & items & Hg) Ha].
    unfold fitsHeaderList, mbind, M_bind, gets. cbn. split; [done|].
    destruct (checkForHeaderListSize _ _); [by eapply response_ready|by exists items].
  - intros [ok e]. apply triple_keeps. keeps.
Qed.

Lemma sendable_sent p t s : t_strs t !! p = Some s ->
  sendable p id t -> s_headerSent s = false -> answers (t_side t) s (s_Response s).
Proof. intros Hs Ht Hn. destruct (Ht s Hs); [congruence|done]. Qed.

(** Marking the headers as sent. *)
Lemma mark_sent p t s : S t -> t_strs t !! p = Some s ->
  S (set_strs (<[p := with_headerSent s true]> (t_strs t)) t).
Proof.
  intros [?|[items Hg]] Hs; [by left|right]. exists items. eapply good_updS; eauto.
Qed.

(** What follows when the headers are marked as sent. *)
Lemma triple_mark {C} p (s : H2Stream) (J : @H2Transport Q -> Prop) (m : @M Q C) K (B : @H2Transport Q -> Prop) :
  Triple (fun t => S t /\ (J t /\ t_strs t !! p = Some (with_headerSent s true))) m K B ->
  (forall t m, J t -> J (set_strs m t)) ->
  Triple (fun t => (S t /\ J t) /\ t_strs t !! p = Some s) (updS p (fun s => with_headerSent s true);; m) K B.
Proof.
  intros Hm HJ. refine (triple_bind _ _ (fun _ => _) _ _ _ _ (fun _ => Hm)). intros t [[Ht Hj] Es].
  unfold updS, getS, mbind, M_bind, modify. rewrite Es. split; [by apply mark_sent|]. split; [by apply HJ|].
  cbn. by rewrite lookup_insert_eq.
Qed.

Lemma stock_WriteHeader p : Triple (fun t => S t /\ sendable p id t) (WriteHeader rangeHeader p) (fun _ => S) S.
Proof.
  unfold WriteHeader. apply triple_stream. intros s.
  apply (triple_weaken (fun t => (S t /\ (s_headerSent s = true \/ answers (t_side t) s (s_Response s))) /\ t_strs t !! p = Some s)
    _ _ (fun _ => S) _ S); [|intros t [[Ht Hs] Es]; by split; [split; [|apply Hs]|]|done|done].
  apply triple_mark; [|done]. destruct (s_headerSent s) eqn:En; [by intros t []|]. destruct (s_streamDone s).
  { eapply triple_weaken; [apply (triple_keeps S S)|by intros t []|done|done].
    unfold streamContextErr. keeps. }
  eapply triple_weaken; [apply stock_writeResponseHeaders| |done|done].
  intros t (Ht & [Hsd|Ha] & Es); [done|]. split; [done|]. intros s'. rewrite Es. by intros [= <-].
Qed.

(** *** Data *)
Definition add_data (sid : Z) (d : list Z) (f : Z -> list Z) (i : Z) : list Z := f i ++ (if sid =? i then d else []).
(** The bytes were put for the stream at [p], or nothing was. *)
Definition wrote (p : loc) (d : list Z) t : Prop := exists vw',
  v_wait vw' = v_wait vw /\ stocked vw' a b hi r t /\
  (v_data vw' = v_data vw \/ exists s, t_strs t !! p = Some s /\ v_data vw' = add_data (s_MuxID s) d (v_data vw)).
Lemma wrote_nothing p d t : S t -> wrote p d t.
Proof. intros Ht. exists vw. split; [done|]. split; [done|]. by left. Qed.

Definition named (p : loc) (id : Z) t : Prop := exists s, t_strs t !! p = Some s /\ s_MuxID s = id.
Lemma named_updS p id q f B : (forall s, s_MuxID (f s) = s_MuxID s) -> Keeps (named p id) B (updS q f).
Proof.
  intros Hf. apply keeps_updS. intros t s Hs (s' & Hs' & Hid). unfold named. cbn. destruct (decide (q = p)) as [->|Hne].
  - exists (f s). rewrite lookup_insert_eq, Hf. by simplify_eq.
  - exists s'. by rewrite lookup_insert_ne.
Qed.
Hint Extern 1 (Keeps (named _ _) _ (updS _ _)) => apply named_updS; intros ?; reflexivity : keeps.
Lemma named_put p id it : Keeps (named p id) (fun _ => True) (put it).
Proof. unfold put, executeAndPut, executeAndPutWith. keeps; by apply keeps_block. Qed.
Lemma named_consumeQuota p id q n : Keeps (named p id) (fun _ => True) (consumeQuota q n).
Proof. unfold consumeQuota. keeps; by apply keeps_block. Qed.

Lemma triple_both {A} (I J : @H2Transport Q -> Prop) (m : @M Q A) K L (B B' : @H2Transport Q -> Prop) :
  Triple I m K B -> Triple J m L B' -> Triple (fun t => I t /\ J t) m (fun x t => K x t /\ L x t) B.
Proof. intros H1 H2 t [Hi Hj]. specialize (H1 t Hi). specialize (H2 t Hj). by destruct (m t). Qed.
(** A step before the data is put. *)
Lemma wrote_seq {A C} p id d (m : @M Q A) (k : A -> @M Q C) :
  stock m -> Keeps (named p id) (fun _ => True) m ->
  (forall x, Triple (fun t => S t /\ named p id t) (k x) (fun _ => wrote p d) (wrote p d)) ->
  Triple (fun t => S t /\ named p id t) (m ≫= k) (fun _ => wrote p d) (wrote p d).
Proof.
  intros H1 H2 Hk. apply (triple_bind _ _ (fun _ t => S t /\ named p id t)); [|done].
  eapply triple_weaken; [exact (triple_both _ _ _ _ _ _ _ H1 H2)|done|done|]. intros t Ht. by apply wrote_nothing.
Qed.

Lemma data_ready df t items : df_end df = 0 -> good vw a b hi r t items ->
  ready vw a b (mkView (v_wait vw) (add_data (df_streamID df) (df_d df) (v_data vw))) hi r (ItData df) t.
Proof.
  intros He [Hc Hi Hown Hpe Hm Hr Hwt Hd Hn Hs]. exists items. split; [done|]. intros c Hc' Hch. split; try done.
  - apply Forall_app. split; [done|]. by apply Forall_singleton.
  - unfold own_ids. rewrite bind_app. cbn. by rewrite app_nil_r.
  - unfold peer_ids. rewrite bind_app. cbn. by rewrite app_nil_r.
  - rewrite credits_app. cbn. lia.
  - intros ?. left. by apply Hch.
  - intros sid. rewrite data_on_app, Hd. cbn. unfold add_data. case_if; by rewrite ?app_nil_r.
Qed.
Lemma wrote_put {C} p df (rest : option tErr -> @M Q C) : df_end df = 0 ->
  (forall e, Keeps (wrote p (df_d df)) (wrote p (df_d df)) (rest e)) ->
  Triple (fun t => S t /\ named p (df_streamID df) t) (put (ItData df) ≫= rest) (fun _ => wrote p (df_d df)) (wrote p (df_d df)).
Proof.
  intros He Hrest. apply (triple_bind _ _ (fun _ => wrote p (df_d df))); [|exact Hrest].
  pose proof (stock_putTo vw a b hi r _ hi r (ItData df) (fun _ => True) (fun t items _ _ => data_ready df t items He)) as Hp.
  eapply triple_weaken; [exact (triple_both _ _ _ _ _ _ _ Hp (named_put p (df_streamID df) (ItData df)))| | |].
  - by intros t [Ht Hn].
  - intros x t [Ht (s & Hs & Hid)]. eexists. split; [|split; [exact Ht|]]; [done|]. right. exists s. by rewrite Hid.
  - intros t [Ht _]. by apply wrote_nothing.
Qed.

Lemma stock_headersFirst p d k : Triple S k (fun _ => wrote p d) (wrote p d) ->
  Triple (fun t => S t /\ sendable p id t) (headersFirst rangeHeader p k) (fun _ => wrote p d) (wrote p d).
Proof.
  intros Hk. unfold headersFirst. apply triple_seq; [apply keeps_getS|intros s].
  apply (triple_bind _ _ (fun _ => S)).
  - destruct (s_headerSent s); [by intros t []|]. eapply triple_weaken; [apply stock_WriteHeader|done|done|].
    intros t Ht. by apply wrote_nothing.
  - intros [e|]; [|exact Hk]. intros t Ht. by apply wrote_nothing.
Qed.
Lemma named_stream {C} p (k : H2Stream -> @M Q C) d :
  (forall s, Triple (fun t => S t /\ named p (s_MuxID s) t) (k s) (fun _ => wrote p d) (wrote p d)) ->
  Triple S (getS p ≫= k) (fun _ => wrote p d) (wrote p d).
Proof.
  intros Hk. apply triple_stream. intros s. eapply triple_weaken; [apply Hk| |done|done].
  intros t [Ht Hs]. split; [done|]. by exists s.
Qed.
Lemma wrote_ret {C} p id d (x : C) : Triple (fun t => S t /\ named p id t) (mret x) (fun _ => wrote p d) (wrote p d).
Proof. intros t [Ht _]. by apply wrote_nothing. Qed.

Lemma stock_Send p d start last :
  Triple (fun t => S t /\ sendable p id t) (Send rangeHeader p d start 0 last) (fun _ => wrote p (default [] d)) (wrote p (default [] d)).
Proof.
  apply stock_headersFirst, named_stream. intros s. destruct (s_writeClosed s); [apply wrote_ret|].
  apply wrote_seq; [unfold setWriteClosed; keeps..|intros _]. apply wrote_seq; [keeps..|intros _].
  apply wrote_seq; [destruct d; keeps|destruct d; [apply named_consumeQuota|keeps]|intros _].
  apply (wrote_put p (mkData (s_MuxID s) last (default [] d) start 0 _ _ _)); [done|]. intros [e|]; keeps.
Qed.
Lemma stock_Write p d last :
  Triple (fun t => S t /\ sendable p id t) (Write rangeHeader p d last) (fun _ => wrote p (default [] d)) (wrote p (default [] d)).
Proof.
  apply stock_headersFirst, named_stream. intros s. destruct (s_writeClosed s); [apply wrote_ret|].
  apply wrote_seq; [unfold setWriteClosed; keeps..|intros _].
  apply wrote_seq; [destruct d; keeps|destruct d; [apply named_consumeQuota|keeps]|intros _].
  apply (wrote_put p (mkData (s_MuxID s) last (default [] d) 0 0 _ _ _)); [done|]. intros [e|]; keeps.
Qed.
(** Without data. *)
Lemma stock_end p last : Triple (fun t => S t /\ sendable p id t) (Write rangeHeader p None last) (fun _ => S) S.
Proof.
  assert (H : forall t, wrote p [] t -> S t).
  { intros t (vw' & Ew & Ht & Hd). apply (stocked_view vw'); [done| |done]. intros sid.
    destruct Hd as [->|(s & _ & ->)]; [done|]. unfold add_data. case_if; by rewrite app_nil_r. }
  eapply triple_weaken; [apply (stock_Write p None last)|done|intros ? ?; apply H|apply H].
Qed.

(** Once the headers are sent they stay so. *)
Definition sent (p : loc) t : Prop := forall s, t_strs t !! p = Some s -> s_headerSent s = true.
Lemma updS_sent p q f B : (forall s, s_headerSent s = true -> s_headerSent (f s) = true) -> Keeps (sent p) B (updS q f).
Proof.
  intros Hf. apply keeps_updS. intros t s Hs Ht s'. cbn. intros [[-> <-]|[_ Hp]]%lookup_insert_Some; [by apply Hf, Ht|by apply Ht].
Qed.
Hint Extern 1 (Keeps (sent _) _ (updS _ _)) => apply updS_sent; intros ? ?; assumption : keeps.
Lemma closeStream_sent p q e rst code : Keeps (sent p) (fun _ => True) (closeStream q e rst code).
Proof.
  unfold closeStream, setReadClosed, queueReadBuf, executeAndPut, executeAndPutWith, addBackStreamQuota, offerQuota.
  keeps; try by apply keeps_block. all: apply keeps_modify; intros t H; by destruct e.
Qed.
Lemma writeResponseHeaders_sent p q : Keeps (sent p) (fun _ => True) (writeResponseHeaders rangeHeader q).
Proof.
  unfold writeResponseHeaders, fitsHeaderList, executeAndPut, executeAndPutWith. keeps; try by apply keeps_block.
  by apply closeStream_sent.
Qed.
Definition no_trailer (p : loc) t : Prop := forall s, t_strs t !! p = Some s -> rs_Trailer (s_Response s) = ∅.

Lemma stock_CloseWrite p :
  Triple (fun t => S t /\ sendable p id t /\ no_trailer p t) (CloseWrite rangeHeader p) (fun _ => S) S.
Proof.
  unfold CloseWrite. apply triple_stream. intros s.
  apply (triple_weaken (fun t => (S t /\ ((s_headerSent s = true \/ answers (t_side t) s (s_Response s)) /\ rs_Trailer (s_Response s) = ∅)) /\ t_strs t !! p = Some s)
    _ _ (fun _ => S) _ S); [|intros t [(Ht & Hs & Hn) Es]; by split; [split; [|split; [apply Hs|apply Hn]]|]|done|done].
  apply triple_mark; [|done].
  apply (triple_bind _ _ (fun _ t => (S t /\ sent p t) /\ rs_Trailer (s_Response s) = ∅)).
  - intros t (Ht & (Ha & Htr) & Es). assert (Hse : sent p t) by (intros s'; rewrite Es; by intros [= <-]).
    destruct (s_headerSent s) eqn:En; [done|]. destruct Ha as [?|Ha]; [done|].
    pose proof (triple_both _ _ _ _ _ _ _ (stock_writeResponseHeaders p) (writeResponseHeaders_sent p p) t) as Hw.
    destruct (writeResponseHeaders rangeHeader p t); [split; [|done]| |done]; apply Hw; (split; [|done]);
      (split; [done|]); intros s'; rewrite Es; by intros [= <-].
  - intros [e|]; [by intros t [[] _]|]. intros t [[Ht Hse] Htr]. rewrite bool_decide_false by (intros H; by apply H).
    apply stock_end. split; [done|]. intros s' Hs'. left. by apply Hse.
Qed.

Lemma stock_StreamWriteHeader p code :
  Triple (fun t => S t /\ sendable p (fun rs => mkResponse (if code =? 0 then str "200" else FormatInt code)
      (rs_StatusCode rs) (rs_Header rs) (rs_Trailer rs)) t) (StreamWriteHeader rangeHeader p code) (fun _ => S) S.
Proof.
  unfold StreamWriteHeader. cbv zeta. apply (triple_bind _ _ (fun _ t => S t /\ sendable p id t)).
  - intros t [Ht Hs]. unfold updS, getS, mbind, M_bind, modify. destruct (t_strs t !! p) as [s|] eqn:Es; [|done].
    split.
    + destruct Ht as [?|[items Hg]]; [by left|right]. exists items. eapply good_updS; eauto.
    + intros s'. cbn. rewrite lookup_insert_eq. intros <-%(inj Some). destruct (Hs s Es); [by left|by right].
  - intros _. apply triple_seq; [apply keeps_getS|intros s]. destruct (s_headerSent s); [by intros t []|].
    apply (triple_bind _ _ (fun _ => S)); [apply stock_WriteHeader|intros ?; apply keeps_ret].
Qed.

Lemma stock_CloseBoth p :
  Triple (fun t => S t /\ sendable p id t /\ no_trailer p t) (CloseBoth rangeHeader p) (fun _ => S) S.
Proof.
  unfold CloseBoth. apply triple_seq; [apply keeps_getS|intros s].
  apply (triple_bind _ _ (fun _ => S)); [|intros _; apply triple_keeps; keeps].
  destruct (negb _); cbn [when]; [|by intros t []].
  apply (triple_bind _ _ (fun _ => S)); [apply stock_CloseWrite|intros ?; apply keeps_ret].
Qed.

(** *** Window updates *)
Lemma stock_windowUpdate fh inc : is_u32 inc ->
  Triple S (handleWindowUpdate fh inc) (fun _ => stocked vw a b hi (r + conn_credit (ItInWindowUpdate (StreamID fh) inc)))
    (stocked vw a b hi (r + conn_credit (ItInWindowUpdate (StreamID fh) inc))).
Proof.
  intros Hinc. set (it := ItInWindowUpdate (StreamID fh) inc).
  assert (0 <= conn_credit it) by (cbn; destruct Hinc; destruct (StreamID fh); lia).
  unfold handleWindowUpdate, put_. apply (triple_bind _ _ (fun _ => stocked vw a b hi (r + conn_credit it))); [|intros ?; apply keeps_ret].
  eapply triple_weaken; [apply (stock_putTo vw a b hi r vw hi (r + conn_credit it) it (fun _ => True))|done|done|].
  - intros t items _ _ [Hc Hi Hown Hpe Hm Hr Hwt Hd Hn Hs]. exists items. split; [done|]. intros c Hc' Hch. split; try done; try (intros ?; left; by apply Hch); try (intros ?; by rewrite data_on_snoc).
    + apply Forall_app. split; [done|]. by apply Forall_singleton.
    + unfold own_ids. rewrite bind_app. cbn. by rewrite app_nil_r.
    + unfold peer_ids. rewrite bind_app. cbn. by rewrite app_nil_r.
    + rewrite credits_app. assert (credits [it] = conn_credit it + 0) as -> by done. lia.
  - intros t [[?|[items [Hc Hi Hown Hpe Hm Hr Hwt Hd Hn Hs]]] _]; [by left|right]. exists items. split; try done. lia.
Qed.

(** *** The readers *)
Definition typed_read (o : readOutcome) : Prop := forall f, o = Ret f -> any_typed f.
(** The credit for the connection in what was read. *)
Definition read_credit (o : readOutcome) : Z :=
  match o with Ret (Plain (WindowUpdateFrame fh inc)) => conn_credit (ItInWindowUpdate (StreamID fh) inc) | _ => 0 end.

Abbreviation some_more c := (fun t => exists hi', stocked vw a b hi' (r + c) t).
Lemma stock_more {A} (I : @H2Transport Q -> Prop) (m : @M Q A) : stock m -> (forall t, I t -> S t) ->
  Triple I m (fun _ => some_more 0) (some_more 0).
Proof.
  intros Hm HI. eapply triple_weaken; [exact Hm|done| |]; intros; exists hi; by rewrite Z.add_0_r.
Qed.

Lemma own_even id : id mod 2 = 0 -> own clientSide id = false.
Proof. intros H. unfold own. rewrite Zmod_odd in H. destruct (Z.odd id); [discriminate|]. by rewrite bool_decide_true. Qed.
Lemma own_odd id : id mod 2 = 1 -> own serverSide id = false.
Proof. intros H. unfold own. rewrite Zmod_odd in H. destruct (Z.odd id); [|discriminate]. by rewrite bool_decide_false. Qed.

Lemma stock_clientHeaders mh now :
  Triple S (operateClientResponseHeaders mh now) (fun _ => some_hi) some_hi.
Proof.
  unfold operateClientResponseHeaders.
  apply (triple_bind _ _ (fun srv t => S t /\ srv = bool_decide (t_side t <> clientSide))); [by intros t Ht|].
  intros srv. destruct (_ && _) eqn:E; cycle 1.
  { apply stock_some; [keeps|by intros ? []]. }
  apply andb_true_iff in E as [Ee%Z.eqb_eq Es%negb_true_iff]. subst srv.
  apply (triple_bind _ _ (fun _ => some_hi)); [|by intros ? ? ?].
  eapply triple_weaken; [apply stock_accept| |done|done]. intros t [Ht Es]. split; [done|].
  symmetry in Es. apply bool_decide_eq_false, dec_stable in Es. rewrite Es. by apply own_even.
Qed.

Lemma stock_serverHeaders mh now :
  Triple (fun t => S t /\ t_side t = serverSide) (operateHeaders mh now) (fun _ => some_hi) some_hi.
Proof.
  unfold operateHeaders. intros t [Ht Es]. unfold mbind at 1, M_bind at 1, gets at 1. rewrite Es.
  rewrite bool_decide_true, andb_true_r by done. destruct (Z.eqb_spec (StreamID (mh_header mh) mod 2) 1) as [Ho|Ho]; cbn [negb].
  - apply stock_accept. split; [done|]. rewrite Es. by apply own_odd.
  - refine (stock_some S _ _ (fun t H => H) t Ht). keeps.
Qed.

(** The bound on the peer's streams may change. *)
Lemma some_more_0 t : some_hi t -> some_more 0 t.
Proof. intros [h H]. exists h. by rewrite Z.add_0_r. Qed.

(** A frame that is handled on either side. *)
Lemma stock_plain (o : readOutcome) f (m : @M Q ()) : o = Ret (Plain f) -> typed_read o ->
  (match f with
   | WindowUpdateFrame fh inc => m = handleWindowUpdate fh inc
   | SettingsFrame fh p => bytes_ok p -> stock m
   | _ => stock m
   end) -> Triple S (m;; mret true) (fun _ => some_more (read_credit o)) (some_more (read_credit o)).
Proof.
  intros -> Hty Hm. specialize (Hty _ eq_refl).
  apply (triple_bind _ _ (fun _ => some_more (read_credit (Ret (Plain f))))); [|by intros ? ? ?].
  destruct f; cbn [read_credit]; try (by apply stock_more).
  - apply stock_more; [|done]. apply Hm. by destruct Hty as (_ & _ & ? & _).
  - rewrite Hm. destruct Hty as [_ Hi]. eapply triple_weaken; [apply stock_windowUpdate; unfold is_u32; lia|done| |]; intros; exists hi; assumption.
Qed.

Lemma stock_close_after e t : S t ->
  match (match e with Some e => Close rangeActive (Some e) | None => mret tt end;; mret true) t with
  | Done t' _ | Blocks t' _ => some_more 0 t'
  | Crashes => True
  end.
Proof.
  intros Ht. refine (stock_more S _ _ (fun t H => H) t Ht). keeps.
Qed.
End Streams.

Section Readers.
Context (vw : view) (a b hi r : Z).
Abbreviation S := (stocked (Q := Q) vw a b hi r).
Abbreviation stock m := (Keeps S S m).
Abbreviation some_more c := (fun t => exists hi', stocked vw a b hi' (r + c) t).

Lemma stock_reader_step o d now : typed_read o ->
  Triple S (reader_step rangeActive o d now) (fun _ => some_more (read_credit o)) (some_more (read_credit o)).
Proof.
  intros Hty. unfold reader_step. apply triple_seq; [keeps|intros _]. destruct o as [[f|mh]|e|].
  - eapply stock_plain; [done|done|]. destruct f; try done; intros; keeps.
  - apply (triple_bind _ _ (fun _ t => exists hi', stocked vw a b hi' r t)); [|intros _ t H'; by apply some_more_0].
    eapply triple_weaken; [apply stock_clientHeaders|done|done|]. intros t H'. by apply some_more_0.
  - cbn [read_credit]. apply (stock_more vw a b hi r); [|done]. unfold getStream. keeps.
  - by intros t Ht.
Qed.
Lemma stock_handleStreams_step o now : typed_read o ->
  Triple (fun t => S t /\ t_side t = serverSide) (handleStreams_step rangeActive o now)
    (fun _ => some_more (read_credit o)) (some_more (read_credit o)).
Proof.
  intros Hty. unfold handleStreams_step. do 2 (apply triple_seq; [keeps|intros _]). destruct o as [[f|mh]|e|].
  - eapply triple_weaken; [eapply stock_plain; [done|done|]|by intros ? []|done|done]. destruct f; try done; intros; keeps.
  - apply triple_seq; [keeps|intros _]. apply (triple_bind _ _ (fun _ t => exists hi', stocked vw a b hi' r t)).
    { eapply triple_weaken; [apply (stock_serverHeaders vw a b hi r)|done|done|]. intros ? ?. by apply some_more_0. }
    intros e t [h Ht]. apply (stock_close_after vw a b h r e t Ht).
  - cbn [read_credit]. apply (stock_more vw a b hi r); [|by intros ? []]. unfold getStream. keeps.
  - by intros t Ht.
Qed.
Lemma stock_reader_first o now : typed_read o -> stock (reader_first rangeActive o now).
Proof.
  intros Hty. unfold reader_first. destruct o as [[f|mh]|e|]; [|keeps..]. specialize (Hty _ eq_refl).
  destruct f; keeps. apply stock_handleSettingsClient. by destruct Hty as (_ & _ & ? & _).
Qed.

(** ** The operations of a connection

    What they rely on: frames come from the framer; the ids of a connection are not
    used up; header fields can be encoded, and headers are sent as a response on
    streams of the peer, by a server; buffers are sent whole; and there are no
    trailers. *)
Definition op_fits t (o : op) : Prop :=
  match o with
  | OpRead x _ _ | OpFirst x _ => typed_read x
  | OpServe x _ => typed_read x /\ t_side t = serverSide
  | OpDial q timeout _ => t_nextID t < 2 ^ 32 - 2 /\
      forall q' hf, CreateHeader rangeHeader timeout q = Some (q', hf) -> Loopy.fields_ok hf
  | OpRetry _ hf => t_nextID t < 2 ^ 32 - 2 /\ Loopy.fields_ok hf
  | OpWriteHeader p code => sendable p (fun rs => mkResponse (if code =? 0 then str "200" else FormatInt code)
      (rs_StatusCode rs) (rs_Header rs) (rs_Trailer rs)) t
  | OpWrite p _ _ => sendable p id t
  | OpSend p _ _ e _ => e = 0 /\ sendable p id t
  | OpCloseWrite p | OpClose p => sendable p id t /\ no_trailer p t
  | _ => True
  end.
Definition op_credit (o : op) : Z := match o with OpRead x _ _ | OpServe x _ => read_credit x | _ => 0 end.

Lemma op_credit_nonneg t o : op_fits t o -> 0 <= op_credit o.
Proof.
  assert (H : forall x, typed_read x -> 0 <= read_credit x).
  { intros [[[]|]|e|] Hx; try done. destruct (Hx _ eq_refl) as [_ Hi]. cbn. destruct (StreamID _); lia. }
  destruct o; cbn; try lia; [apply H|intros [? _]; by apply H].
Qed.

(** The data of an operation, and for which stream. *)
Definition op_data (o : op) : option (loc * list Z) :=
  match o with
  | OpWrite p d _ | OpSend p d _ _ _ => Some (p, default [] d)
  | _ => None
  end.
(** Credit [k] and the data [od] may have been put. *)
Definition stored (k : Z) (od : option (loc * list Z)) t : Prop := exists vw' hi',
  v_wait vw' = v_wait vw /\ stocked vw' a b hi' (r + k) t /\
  (v_data vw' = v_data vw \/
   exists p d s, od = Some (p, d) /\ t_strs t !! p = Some s /\ v_data vw' = add_data (s_MuxID s) d (v_data vw)).
Lemma some_more_stored k od t : some_more k t -> stored k od t.
Proof. intros [hi' Ht]. exists vw, hi'. split; [done|]. split; [done|]. by left. Qed.
Lemma stock_stored od t : S t -> stored 0 od t.
Proof. intros Ht. apply some_more_stored. exists hi. by rewrite Z.add_0_r. Qed.
Lemma wrote_stored p d t : wrote vw a b hi r p d t -> stored 0 (Some (p, d)) t.
Proof.
  intros (vw' & Ew & Ht & Hd). exists vw', hi. split; [done|]. rewrite Z.add_0_r. split; [done|].
  destruct Hd as [?|(s & ? & ?)]; [by left|right]. by exists p, d, s.
Qed.

Lemma stored_read x (m : @M Q bool) (I : @H2Transport Q -> Prop) :
  Triple I m (fun _ => some_more (read_credit x)) (some_more (read_credit x)) ->
  Triple I (ignore m) (fun _ => stored (read_credit x) None) (stored (read_credit x) None).
Proof.
  intros H. apply (triple_bind _ _ (fun _ => some_more (read_credit x))); [|intros _ t Ht; by apply some_more_stored].
  eapply triple_weaken; [exact H|done|done|]. intros t Ht. by apply some_more_stored.
Qed.
Lemma stored_wrote {A} p d (m : @M Q A) (I : @H2Transport Q -> Prop) :
  Triple I m (fun _ => wrote vw a b hi r p d) (wrote vw a b hi r p d) ->
  Triple I (ignore m) (fun _ => stored 0 (Some (p, d))) (stored 0 (Some (p, d))).
Proof.
  intros H. apply (triple_bind _ _ (fun _ => wrote vw a b hi r p d)); [|intros _ t Ht; by apply wrote_stored].
  eapply triple_weaken; [exact H|done|done|]. intros t Ht. by apply wrote_stored.
Qed.

Lemma stock_op o t0 : op_fits t0 o ->
  Triple (fun t => S t /\ t = t0) (run_op rangeActive rangeHeader o) (fun _ => stored (op_credit o) (op_data o)) (stored (op_credit o) (op_data o)).
Proof.
  intros Hok.
  assert (Hq : forall o, op_credit o = 0 -> Triple (fun t => S t /\ t = t0) (run_op rangeActive rangeHeader o) (fun _ => S) S ->
    Triple (fun t => S t /\ t = t0) (run_op rangeActive rangeHeader o) (fun _ => stored (op_credit o) (op_data o)) (stored (op_credit o) (op_data o))).
  { intros o' -> H. eapply triple_weaken; [exact H|done| |]; intros; by apply stock_stored. }
  assert (Hk : forall A (m : @M Q A), Triple (fun t => S t /\ t = t0) m (fun _ => S) S -> Triple (fun t => S t /\ t = t0) (ignore m) (fun _ => S) S).
  { intros A m H. eapply triple_bind; [exact H|intros ?; apply keeps_ret]. }
  assert (Hm : forall A (m : @M Q A), stock m -> Triple (fun t => S t /\ t = t0) m (fun _ => S) S).
  { intros A m H. eapply triple_weaken; [exact H|by intros ? []|done|done]. }
  destruct o; cbn [op_fits] in Hok;
    try (apply Hq; [done|]; apply Hm; unfold run_op, ignore; keeps; fail).
  - apply stored_read. eapply triple_weaken; [by apply stock_reader_step|by intros ? []|done|done].
  - apply Hq; [done|]. apply Hk, Hm. by apply stock_reader_first.
  - apply stored_read. destruct Hok as [? ?]. eapply triple_weaken; [by apply stock_handleStreams_step|by intros ? [? ->]|done|done].
  - apply Hq; [done|]. apply Hk. destruct Hok as [? ?]. eapply triple_weaken; [by apply stock_Dial|by intros ? [? ->]|done|done].
  - apply Hq; [done|]. apply Hk. destruct Hok as [? ?]. eapply triple_weaken; [by apply stock_writeRequestHeaders|by intros ? [? ->]|done|done].
  - apply Hq; [done|]. eapply triple_weaken; [apply stock_StreamWriteHeader|by intros ? [? ->]|done|done].
  - apply stored_wrote. eapply triple_weaken; [apply stock_Write|by intros ? [? ->]|done|done].
  - destruct Hok as [-> ?]. apply stored_wrote. eapply triple_weaken; [apply stock_Send|by intros ? [? ->]|done|done].
  - apply Hq; [done|]. apply Hk. eapply triple_weaken; [apply stock_CloseWrite|by intros ? [? ->]|done|done].
  - apply Hq; [done|]. eapply triple_weaken; [apply stock_CloseBoth|by intros ? [? ->]|done|done].
Qed.
End Readers.

(** A new connection. *)
Lemma newClient_stocked c ev now : stocked (Q := Q) no_view 1 1 1 0 (newClient c ev now).
Proof. right. exists []. split; cbn; try done. apply newControlBuffer_wf. Qed.
Lemma newServer_stocked c ev handle now t : newServer (Q := Q) c ev handle now = Some t ->
  stocked no_view 1 1 1 0 t /\ t_side t = serverSide.
Proof.
  unfold newServer. destruct (Add no_events ev) as [ev'|]; [|done]. intros [= <-]. split; [|done].
  right. exists []. split; cbn; try done. apply newControlBuffer_wf.
Qed.

(** ** The side of a connection does not change, and no quota is lost *)
Section Side.
Context (sd : Loopy.side) (has : loc -> Prop).
Definition sided t : Prop := t_side t = sd /\ forall w, has w -> is_Some (t_wqs t !! w).
Abbreviation keeps_side m := (Keeps sided sided m).
Lemma side_newQuota : keeps_side newQuota.
Proof.
  intros t [Hs Hw]. unfold newQuota, mbind, M_bind, gets, modify. cbn. split; [done|].
  intros w Hh. by apply is_Some_insert, Hw.
Qed.
Lemma side_consumeQuota p n : keeps_side (consumeQuota p n).
Proof.
  intros t [Hs Hw]. unfold consumeQuota, getS, mbind, M_bind, gets, modify, lift.
  destruct (t_strs t !! p) as [s|]; [|done]. destruct (s_outFlow s) as [q|]; [|done]. cbn.
  destruct (t_wqs t !! q) as [w|]; [|done]. cbn. destruct (tryConsume w n); [|done]. cbn.
  split; [done|]. intros k Hk. by apply is_Some_insert, Hw.
Qed.
Hint Resolve side_newQuota side_consumeQuota : keeps.
Lemma side_closeStream p e rst c : keeps_side (closeStream p e rst c).
Proof. keeps_ops. Qed.
Hint Resolve side_closeStream : keeps.
Lemma side_cleanup p e : keeps_side (cleanup p e).
Proof. unfold cleanup. keeps_ops. Qed.
Hint Resolve side_cleanup : keeps.
Lemma side_finish : keeps_side finish.
Proof. unfold finish. keeps_ops. Qed.
Hint Resolve side_finish : keeps.
Lemma side_Close e : keeps_side (Close rangeActive e).
Proof. unfold Close. keeps_ops. Qed.
Hint Resolve side_Close : keeps.
Lemma side_accept mh now : keeps_side (operateAcceptHeaders mh now).
Proof. unfold operateAcceptHeaders, CloseError. keeps_ops. Qed.
Lemma side_writeResponseHeaders p : keeps_side (writeResponseHeaders rangeHeader p).
Proof. unfold writeResponseHeaders, fitsHeaderList. keeps_ops. Qed.
Hint Resolve side_accept side_writeResponseHeaders : keeps.
Lemma side_reader_step o d now : keeps_side (reader_step rangeActive o d now).
Proof. unfold reader_step, operateClientResponseHeaders. keeps_ops. Qed.
Lemma side_handleStreams_step o now : keeps_side (handleStreams_step rangeActive o now).
Proof. unfold handleStreams_step, operateHeaders, handleSettingsServer, handlePingServer, countStrike. keeps_ops. Qed.
Hint Resolve side_reader_step side_handleStreams_step : keeps.
Lemma side_writeRequestHeaders p hf first : keeps_side (writeRequestHeaders p hf first).
Proof. unfold writeRequestHeaders, checkForStreamQuota, fitsHeaderList. keeps_ops. Qed.
Hint Resolve side_writeRequestHeaders : keeps.
Lemma side_op o : keeps_side (run_op rangeActive rangeHeader o).
Proof.
  destruct o; unfold run_op, ignore, loopyEnds, drained, Drain, outgoingGoAwayHandler, initStream, runCallback, deleteStream,
    StreamWriteHeader, CloseBoth, CloseWrite, Write, Send, headersFirst, WriteHeader, writeTrailer, setWriteClosed,
    streamContextErr, DialStream, NewStreamReq, WaitHeaders;
    keeps_ops; unfold fitsHeaderList; keeps_ops.
Qed.
End Side.
End Operations.
