(* ===== verification/Endpoint.v ===== *)
(** * An endpoint: the connection and its writer together

    The goroutine of the loopy writer ([run] of h2/controlbuf.go) over the
    connection whose items it takes.  Both share the control buffer, which is part
    of [Transport], and the write quotas; the writer calls back into the
    connection, and the connection decides what [initStream] and the handler of
    outgoing GOAWAY frames return.  [run] is a machine with a program counter: its
    steps ([writer_step]) interleave with the operations of the other goroutines,
    in any order ([ep_step]).

    Flushing, and whether less than [minBatchSize] bytes wait in the write buffer,
    are parameters: they belong to the writer below the framer (BufWriter).  The
    frames that the handler of GOAWAY writes by itself are in the log of the
    connection, not in that of the writer. *)
From S2P Require Import Loopy LoopyRun Prelude HpackTables HpackCodec Frame FrameRead FrameTyped FlowControl Lists ControlBuf.
From S2P Require Import Timeout Messages Events Bdp Transport TransportInv Items.

(** Where [run] is: before [get]; waiting in it; with the item it got; before the
    turn after an item; before the turn when there is no item; returned; the
    goroutine is over; or it waits for something in a callback.  [gosched] is the
    variable of that name. *)
Inductive runPC :=
| Getting (block gosched : bool)
| Waiting
| Handling (it : cbItem) (gosched : bool)
| Serving (gosched : bool)
| Idling (gosched : bool)
| Returned
| Over
| Stuck.

Section Endpoint.
Context {Q : Type} `{!Queue Q cbItem}.
Context (rangeActive : gmap Z loc -> list (Z * loc)) (rangeHeader : httpHeader -> list (list Z)).
Context {W : Type} (wr : W -> list Z -> W * option ioErr) (flush : W -> W) (small : W -> bool).
Context (rangeOrder : gmap Z loc -> list loc).

Record endpoint := mkEP { ep_t : @H2Transport Q; ep_l : loopyWriter W; ep_pc : runPC }.

(** ** What the writer asks the connection *)
Definition loopyErr_of (e : tErr) : loopyErr :=
  match e with ErrClosing => LConnClosing | _ => LGoAway 0 end.

(** What [initStream] returns: it may also wait or panic, and then the handler
    does not go on. *)
Definition initOf (t : @H2Transport Q) (now : Z) (f : callback) (id : Z) : option loopyErr :=
  match initStream (cb_owner f) id now t with Done _ e => loopyErr_of <$> e | _ => None end.

(** Only a server has a handler of outgoing GOAWAY frames. *)
Definition goAwayOf (t : @H2Transport Q) (wrErr : writeCall -> option tErr) : option (goAway -> bool * option loopyErr) :=
  match t_side t with
  | clientSide => None
  | serverSide => Some (fun g =>
      match outgoingGoAwayHandler wrErr g t with Done _ (d, e) => (d, loopyErr_of <$> e) | _ => (false, None) end)
  end.

(** ** What the writer does to the connection *)
Definition snap (now : Z) (data : list Z) : @M Q () :=
  b ← gets t_bdpEst;
  match b with
  | Some b => modify (set_bdpEst (Some (timesnap b now data)))
  | None => if bool_decide (data = bdpPing) then crash else mret tt
  end.

Definition effect (now : Z) (wrErr : writeCall -> option tErr) (ev : event) : @M Q () :=
  match ev with
  | EvCall f => runCallback rangeActive f now
  | EvInit f id => ignore (initStream (cb_owner f) id now)
  | EvGoAway g => ignore (outgoingGoAwayHandler wrErr g)
  | EvTimesnap data => snap now data
  | EvMuxGoAway => MuxEvent Event_GoAway
  | EvFrame _ | EvDone _ _ | EvQuota _ _ => mret tt
  end.
Definition effects (now : Z) (wrErr : writeCall -> option tErr) (evs : list event) : @M Q () := forM evs (effect now wrErr).

(** ** [run] *)
Inductive moved :=
| Moves (e : endpoint)
| Waits                  (** for the lock of the buffer, or to be woken *)
| Panics                 (** in the writer *)
| CallbackPanics.        (** in the connection *)

Definition set_pc (e : endpoint) (pc : runPC) : endpoint := mkEP (ep_t e) (ep_l e) pc.

(** What the environment decides in a step: the time, the errors of the writes of
    the GOAWAY handler, and which case a [select] takes when both are ready. *)
Record choice := mkChoice { now : Z; wrErr : writeCall -> option tErr; takeDone : bool }.

(** The writer has run on the shared quotas and goes on at [pc], unless it has an
    error to return.  A callback that waits is called before anything is written:
    the writer is left as it was. *)
Definition settle (ch : choice) (e : endpoint) (l : loopyWriter W) (err : option loopyErr) (pc : runPC) : moved :=
  match effects (now ch) (wrErr ch) (drop (length (Loopy.log (ep_l e))) (Loopy.log l)) (set_wqs (wqs l) (ep_t e)) with
  | Done t _ => Moves (mkEP t l (match err with Some _ => Returned | None => pc end))
  | Blocks t _ => Moves (mkEP t (ep_l e) Stuck)
  | Crashes => CallbackPanics
  end.

(** The writer, with the quotas as they are now. *)
Definition shared (e : endpoint) : loopyWriter W := Loopy.set_wqs (ep_l e) (t_wqs (ep_t e)).

Definition writer_step (ch : choice) (e : endpoint) : moved :=
  let t := ep_t e in
  match ep_pc e with
  | Getting block gosched =>
      if t_cbLocked t then Waits else
      match get block (t_controlBuf t) with
      | None => Panics
      | Some (c, g) =>
          Moves (mkEP (set_controlBuf c t) (ep_l e)
            match g with
            | Item it => Handling it (block || gosched)
            | Nothing => if block then Waiting else Idling gosched
            | Failed _ => Returned
            end)
      end
  | Waiting =>
      match receive (t_controlBuf t), bool_decide (t_done t = ClosedChan) with
      | Some c, false => Moves (mkEP (set_controlBuf c t) (ep_l e) (Getting true false))
      | Some c, true => Moves (if takeDone ch then set_pc e Returned else mkEP (set_controlBuf c t) (ep_l e) (Getting true false))
      | None, true => Moves (set_pc e Returned)
      | None, false => Waits
      end
  | Handling it gosched =>
      match handle wr (initOf t (now ch)) (goAwayOf t (wrErr ch)) rangeOrder (shared e) it with
      | None => Panics
      | Some (l, err) => settle ch e l err (Serving gosched)
      end
  | Serving gosched =>
      match processData wr (shared e) with
      | None => Panics
      | Some (l, (_, err)) => settle ch e l err (Getting false gosched)
      end
  | Idling gosched =>
      match processData wr (shared e) with
      | None => Panics
      | Some (l, (isEmpty, err)) =>
          if negb isEmpty then settle ch e l err (Getting false gosched) else
          if gosched && small (lw l) then settle ch e l err (Getting false false)
          else settle ch e (set_lw l (flush (lw l))) err (Getting true false)
      end
  | Returned =>
      match loopyEnds t with
      | Done t _ => Moves (mkEP t (ep_l e) Over)
      | Blocks t _ => Moves (mkEP t (ep_l e) Stuck)
      | Crashes => CallbackPanics
      end
  | Over | Stuck => Waits
  end.

(** ** Runs *)

(** The operations of the other goroutines. *)
Definition elsewhere (o : op) : bool :=
  match o with OpInit _ _ _ | OpCallback _ _ | OpGoAwayOut _ _ | OpLoopyEnds => false | _ => true end.

(** A goroutine that waited goes on: [Write] or [Send] when there is write quota for
    their [n] bytes, [DialStream] when a stream ended and there may be one for it. *)
Inductive waiter :=
| WriteWaiter (p : loc) (n : Z) (df : dataFrame)
| DialWaiter (p : loc) (hf : list HeaderField) (body : bool).

Definition resume (w : waiter) : @M Q () :=
  match w with
  | WriteWaiter p n df => consumeQuota p n;; put_ (ItData df)
  | DialWaiter p hf body =>
      e ← writeRequestHeaders p hf false;
      match e with
      | Some _ => mret tt
      | None =>
          updS p (fun s => with_headerSent s true);;
          streamEvent EventStreamStart p;;
          when body (Transport.log (EvCopyBody p))
      end
  end.
Definition resume_fits (t : @H2Transport Q) (w : waiter) : Prop :=
  match w with
  | WriteWaiter p _ df => df_end df = 0 /\ named p (df_streamID df) t
  | DialWaiter _ hf _ => t_nextID t < 2 ^ 32 - 2 /\ Loopy.fields_ok hf
  end.

(** Who makes a step; the credit for the connection that was read in it, and the
    data that was written. *)
Inductive ep_label := ByOp (o : op) | ByWaiter (w : waiter) | ByWriter.
Definition lab_credit (lab : ep_label) : Z := match lab with ByOp o => op_credit o | _ => 0 end.
Definition lab_data (lab : ep_label) : option (loc * list Z) :=
  match lab with
  | ByOp o => op_data o
  | ByWaiter (WriteWaiter p _ df) => Some (p, df_d df)
  | _ => None
  end.

Inductive ep_step (e : endpoint) : ep_label -> endpoint -> Prop :=
| ep_op o t : elsewhere o = true -> op_fits rangeHeader (ep_t e) o -> ends (run_op rangeActive rangeHeader o (ep_t e)) t ->
    ep_step e (ByOp o) (mkEP t (ep_l e) (ep_pc e))
| ep_resume w t : resume_fits (ep_t e) w -> ends (resume w (ep_t e)) t -> ep_step e (ByWaiter w) (mkEP t (ep_l e) (ep_pc e))
| ep_writer ch e' : enc_room (ep_l e) -> writer_step ch e = Moves e' -> ep_step e ByWriter e'.

Definition fresh_conn (t : @H2Transport Q) : Prop :=
  (exists c ev now, t = newClient c ev now) \/ (exists c ev h now, newServer c ev h now = Some t).

Inductive ep_reach : endpoint -> Z -> Prop :=
| ep_start t enc w mf : fresh_conn t -> NewEncoder = Some enc -> 0 < mf < 2 ^ 24 ->
    ep_reach (mkEP t (newLoopyWriter (t_side t) enc w mf) (Getting true false)) 0
| ep_next e r lab e' : ep_reach e r -> ep_step e lab e' -> ep_reach e' (r + lab_credit lab).

(** ** What links the two *)
Definition taken (pc : runPC) : list cbItem := match pc with Handling it _ => [it] | _ => [] end.
Definition waits (pc : runPC) : bool := match pc with Waiting => true | _ => false end.
Definition rests (pc : runPC) : bool := match pc with Waiting | Getting true _ => true | _ => false end.
Definition runs (pc : runPC) : bool := match pc with Returned | Over | Stuck => false | _ => true end.

(** The writer is one of [LoopyRun] and its streams are older than those it is
    still to open: first that of the item it has taken, then those in the buffer. *)
Record linked_at (R : Z) (e : endpoint) (c : Z) (fair : bool) (d : Z -> list Z) (a b a' b' hi r : Z) : Prop := {
  lk_reach : lp_reach wr rangeOrder (ep_l e) c fair;
  lk_side : lside (ep_l e) = t_side (ep_t e);
  lk_wqs : forall w, is_Some (wqs (ep_l e) !! w) -> is_Some (t_wqs (ep_t e) !! w);
  lk_stock : stocked (mkView (waits (ep_pc e)) d) a' b' hi r (ep_t e);
  lk_credit : c + credits (taken (ep_pc e)) + r <= R /\ 0 <= r;
  lk_estd : forall id, is_Some (estdStreams (ep_l e) !! id) -> if own (t_side (ep_t e)) id then id < a else id < b;
  lk_own : incr a (own_ids (t_side (ep_t e)) (taken (ep_pc e))) a';
  lk_peer : incr b (peer_ids (taken (ep_pc e))) b';
  lk_taken : Forall (it_ok (t_side (ep_t e)) (t_wqs (ep_t e))) (taken (ep_pc e));
  lk_sleep : rests (ep_pc e) = true -> sendQuota (ep_l e) = 0 \/ Loopy.activeStreams (ep_l e) = []
}.
Definition ep_inv (R : Z) (e : endpoint) : Prop :=
  runs (ep_pc e) = true -> exists c fair d a b a' b' hi r, linked_at R e c fair d a b a' b' hi r.

Lemma start_inv t enc w mf : fresh_conn t -> NewEncoder = Some enc -> 0 < mf < 2 ^ 24 ->
  ep_inv 0 (mkEP t (newLoopyWriter (t_side t) enc w mf) (Getting true false)).
Proof.
  intros Ht He Hm _. exists 0, true, (fun _ => []), 1, 1, 1, 1, 1, 0.
  split; cbn; try done; [by apply reach_new|by intros ? [q Hq]| |by intros id [q Hq]|by right].
  destruct Ht as [(c & ev & nw & ->)|(c & ev & h & nw & H)]; [apply newClient_stocked|by apply newServer_stocked in H as [? _]].
Qed.

(** Other goroutines. *)
Lemma conn_inv {A} R k od e (m : @M Q A) t :
  ep_inv R e -> 0 <= k ->
  (forall v a b hi r, Triple (fun t => stocked v a b hi r t /\ t = ep_t e) m (fun _ => stored v a b r k od) (stored v a b r k od)) ->
  (forall sd has, Keeps (sided sd has) (sided sd has) m) -> ends (m (ep_t e)) t ->
  ep_inv (R + k) (mkEP t (ep_l e) (ep_pc e)).
Proof.
  intros Hinv Hk Hst Hsd Hend Hrun. destruct (Hinv Hrun) as (c & fair & d & a & b & a' & b' & hi & r & [H1 H2 H3 H4 H5 H6 H7 H8 H9 H10]).
  destruct (triple_ends _ _ _ (ep_t e) t (Hst _ a' b' hi r) (conj H4 eq_refl) Hend) as ([w d'] & hi' & Ew & Hs & _). cbn in Ew. subst w.
  destruct (triple_ends _ _ _ (ep_t e) t (Hsd (t_side (ep_t e)) (fun w => is_Some (t_wqs (ep_t e) !! w))) (conj eq_refl (fun w H => H)) Hend)
    as [Es Hw].
  exists c, fair, d', a, b, a', b', hi', (r + k). split; cbn; rewrite ?Es; try done; [auto|lia|].
  eapply Forall_impl; [exact H9|]. intros it. by apply it_ok_grow.
Qed.

Lemma resume_stock w v a b hi r t0 : resume_fits t0 w ->
  Triple (fun t => stocked v a b hi r t /\ t = t0) (resume w) (fun _ => stored v a b r 0 (lab_data (ByWaiter w))) (stored v a b r 0 (lab_data (ByWaiter w))).
Proof.
  intros Hok. destruct w as [p n df|p hf body]; cbn [resume resume_fits lab_data] in *.
  - destruct Hok as [He Hn]. eapply triple_weaken; [apply (wrote_seq v a b hi r p (df_streamID df) (df_d df));
      [apply stock_consumeQuota|apply named_consumeQuota|intros _; apply wrote_put; [done|intros ?; apply keeps_ret]]|by intros ? [? ->]|intros ? ?; apply wrote_stored|apply wrote_stored].
  - destruct Hok as [Hn Hf].
    assert (Ht : Triple (fun t => stocked v a b hi r t /\ t = t0) (resume (DialWaiter p hf body)) (fun _ => stocked v a b hi r) (stocked v a b hi r)).
    { cbn [resume]. apply (triple_bind _ _ (fun _ => stocked v a b hi r)).
      - eapply triple_weaken; [by apply (stock_writeRequestHeaders v a b hi r)|by intros ? [? ->]|done|done].
      - intros er. apply triple_keeps. destruct er; keeps. apply stock_streamEvent. }
    eapply triple_weaken; [exact Ht|done|intros ? ?; apply stock_stored|apply stock_stored].
Qed.
Lemma resume_side w sd has : Keeps (sided sd has) (sided sd has) (resume w).
Proof.
  destruct w as [p n df|p hf body]; cbn [resume].
  - apply keeps_bind; [apply side_consumeQuota|intros _]. keeps_ops.
  - apply keeps_bind; [apply side_writeRequestHeaders|intros er]. keeps_ops.
Qed.

Lemma op_inv R e o t : ep_inv R e -> op_fits rangeHeader (ep_t e) o -> ends (run_op rangeActive rangeHeader o (ep_t e)) t ->
  ep_inv (R + op_credit o) (mkEP t (ep_l e) (ep_pc e)).
Proof.
  intros Hinv Hok. apply (conn_inv R (op_credit o) (op_data o)); [done|by eapply op_credit_nonneg| |].
  - intros v a b hi r. by apply stock_op.
  - intros sd has. apply side_op.
Qed.
Lemma resume_inv R e w t : ep_inv R e -> resume_fits (ep_t e) w -> ends (resume w (ep_t e)) t ->
  ep_inv (R + 0) (mkEP t (ep_l e) (ep_pc e)).
Proof.
  intros Hinv Hok. apply (conn_inv R 0 (lab_data (ByWaiter w))); [done|done| |].
  - intros v a b hi r. by apply resume_stock.
  - intros sd has. apply resume_side.
Qed.

(** [get] *)
Lemma get_inv R e block gosched c g :
  ep_inv R e -> ep_pc e = Getting block gosched -> get block (t_controlBuf (ep_t e)) = Some (c, g) ->
  ep_inv R (mkEP (set_controlBuf c (ep_t e)) (ep_l e)
    match g with
    | Item it => Handling it (block || gosched)
    | Nothing => if block then Waiting else Idling gosched
    | Failed _ => Returned
    end).
Proof.
  intros Hinv Hpc Hget Hrun. destruct (Hinv ltac:(by rewrite Hpc)) as (k & fair & d & a & b & a' & b' & hi & r & [H1 H2 H3 H4 H5 H6 H7 H8 H9 H10]).
  rewrite Hpc in *. cbn [taken waits] in *. destruct H4 as [Herr|[items Hg]].
  { unfold get in Hget. rewrite Herr in Hget. by injection Hget as <- <-. }
  destruct (err (t_controlBuf (ep_t e))) eqn:Ee.
  { unfold get in Hget. rewrite Ee in Hget. by injection Hget as <- <-. }
  destruct (get_ok block _ items ltac:(apply Hg)) as (c1 & g1 & E & Hwf & Hgot & _ & _ & Hcw).
  rewrite Hget in E. injection E as <- <-. rewrite Ee in Hwf, Hgot, Hcw. subst g. destruct items as [|it items]; cbn in *.
  - exists k, fair, d, a, b, a', b', hi, r. destruct block; split; cbn; try done.
    + right. exists []. eapply good_idle; [exact Hg|done| |done]. intros _. right. split; [|done]. by rewrite Hcw, orb_true_r.
    + right. exists []. by eapply good_idle; [exact Hg| | |].
  - destruct (good_tail _ _ _ _ _ _ _ _ _ Hg Hwf) as (Hit & Hr0 & a1 & b1 & Ha & Hb & Hg').
    exists k, fair, (fun sid => data_on sid items), a', b', a1, b1, hi, (r - conn_credit it). split; cbn; try done; [by right; exists items|lia| |by apply Forall_singleton].
    intros id Hid. specialize (H6 id Hid). cbn in H7, H8. destruct (own _ id); lia.
Qed.
(** [<-c.ch] *)
Lemma receive_inv R e c : ep_inv R e -> ep_pc e = Waiting -> receive (t_controlBuf (ep_t e)) = Some c ->
  ep_inv R (mkEP (set_controlBuf c (ep_t e)) (ep_l e) (Getting true false)).
Proof.
  intros Hinv Hpc Hrec _. destruct (Hinv ltac:(by rewrite Hpc)) as (k & fair & d & a & b & a' & b' & hi & r & [H1 H2 H3 H4 H5 H6 H7 H8 H9 H10]).
  rewrite Hpc in *. exists k, fair, d, a, b, a', b', hi, r. unfold receive in Hrec. destruct (ch _); [|done]. injection Hrec as <-.
  split; try done. destruct H4 as [?|[items Hg]]; [by left|right]. exists items. eapply good_idle; [exact Hg| |done|done].
  destruct Hg as [[] ? ? ? ? ? ? ? ? ?]. by split.
Qed.

(** The callbacks keep what the connection promises. *)
Lemma effects_stock ch evs vw a b hi r : Keeps (stocked (Q := Q) vw a b hi r) (stocked vw a b hi r) (effects (now ch) (wrErr ch) evs).
Proof.
  unfold effects. apply keeps_forM. intros ev. destruct ev; cbn [effect]; try apply keeps_ret.
  - apply stock_runCallback.
  - unfold ignore. apply keeps_bind; [apply stock_initStream|intros ?; apply keeps_ret].
  - unfold snap. keeps.
  - unfold ignore. apply keeps_bind; [apply stock_outgoingGoAwayHandler|intros ?; apply keeps_ret].
  - apply stock_MuxEvent.
Qed.
Lemma effects_side ch evs sd has : Keeps (sided (Q := Q) sd has) (sided sd has) (effects (now ch) (wrErr ch) evs).
Proof.
  unfold effects. apply keeps_forM. intros ev. destruct ev; cbn [effect]; try apply keeps_ret.
  - apply (side_op rangeActive rangeHeader sd has (OpCallback f (now ch))).
  - apply (side_op rangeActive rangeHeader sd has (OpInit (cb_owner f) id (now ch))).
  - unfold snap. keeps.
  - apply (side_op rangeActive rangeHeader sd has (OpGoAwayOut (wrErr ch) g)).
  - unfold MuxEvent, fireAll. keeps.
Qed.

(** The writer has moved on, with nothing in its hand. *)
Lemma settle_inv R ch e l err pc e' c fair d a b hi r :
  settle ch e l err pc = Moves e' -> taken pc = [] -> waits pc = false ->
  (err = None -> lp_reach wr rangeOrder l c fair /\ (rests pc = true -> sendQuota l = 0 \/ Loopy.activeStreams l = [])) ->
  lside l = t_side (ep_t e) -> (forall w, is_Some (t_wqs (ep_t e) !! w) -> is_Some (wqs l !! w)) ->
  (forall id, is_Some (estdStreams l !! id) -> if own (t_side (ep_t e)) id then id < a else id < b) ->
  stocked (mkView false d) a b hi r (ep_t e) -> c + r <= R -> 0 <= r -> ep_inv R e'.
Proof.
  intros Hset Htk Hwt Hl Hsd Hwqs Hest Hst Hcr Hr0. unfold settle in Hset.
  set (t0 := set_wqs (wqs l) (ep_t e)) in Hset. assert (Hst0 : stocked (mkView false d) a b hi r t0) by (by apply stocked_wqs).
  set (evs := drop _ _) in Hset. pose proof (effects_stock ch evs (mkView false d) a b hi r t0 Hst0) as H1.
  pose proof (effects_side ch evs (t_side (ep_t e)) (fun w => is_Some (wqs l !! w)) t0 (conj eq_refl (fun w H => H))) as H2.
  destruct (effects (now ch) (wrErr ch) evs t0) as [t' []|t' w|]; [|injection Hset as <-; by intros ?|done].
  injection Hset as <-. destruct err as [er|]; [by intros ?|]. destruct (Hl eq_refl) as [Hre Hsl]. destruct H2 as [Es Hw].
  intros Hrun. exists c, fair, d, a, b, a, b, hi, r. split; cbn; rewrite ?Htk, ?Hwt, ?Es; cbn; try done; lia.
Qed.

(** ** The bytes of a stream, from the application to the wire

    On the wire, queued at the stream, in the hand of the writer, in the buffer. *)
Definition stream_bytes (sid : Z) (p : loc) (e : endpoint) : list Z :=
  sent_on sid (datas (Loopy.log (ep_l e))) ++ default [] (pending <$> streams (ep_l e) !! p) ++
  data_on sid (taken (ep_pc e)) ++ data_on sid (queued (ep_t e)).
Definition open_buf (e : endpoint) : Prop := err (t_controlBuf (ep_t e)) = false.

(** The blocks of data that a step gives to a stream. *)
Definition writes_on (sid : Z) (lab : ep_label) (e' : endpoint) : list (list Z) :=
  match lab_data lab with
  | Some (q, d) => match t_strs (ep_t e') !! q with Some s => if s_MuxID s =? sid then [d] else [] | None => [] end
  | None => []
  end.
(** Runs in which the stream stays open, with the blocks given to it. *)
Definition live (sid : Z) (p : loc) (e : endpoint) : Prop :=
  runs (ep_pc e) = true /\ open_buf e /\ estdStreams (ep_l e) !! sid = Some p.
Inductive live_run (sid : Z) (p : loc) (e : endpoint) : list (list Z) -> endpoint -> Prop :=
| live_here : live sid p e -> live_run sid p e [] e
| live_next ws e1 lab e2 : live_run sid p e ws e1 -> ep_step e1 lab e2 -> live sid p e2 ->
    live_run sid p e (ws ++ writes_on sid lab e2) e2.

(** Other goroutines only add at the end. *)
Definition grows (sid : Z) (p : loc) (od : option (loc * list Z)) (e e' : endpoint) : Prop :=
  stream_bytes sid p e' = stream_bytes sid p e \/
  exists q d s, od = Some (q, d) /\ t_strs (ep_t e') !! q = Some s /\ s_MuxID s = sid /\
    stream_bytes sid p e' = stream_bytes sid p e ++ d.
Lemma conn_grows {A} R k od e (m : @M Q A) t sid p :
  ep_inv R e -> runs (ep_pc e) = true -> open_buf e -> err (t_controlBuf t) = false ->
  (forall v a b hi r, Triple (fun t => stocked v a b hi r t /\ t = ep_t e) m (fun _ => stored v a b r k od) (stored v a b r k od)) ->
  ends (m (ep_t e)) t -> grows sid p od e (mkEP t (ep_l e) (ep_pc e)).
Proof.
  intros Hinv Hrun He He' Hst Hend. destruct (Hinv Hrun) as (c & fair & d & a & b & a' & b' & hi & r & [_ _ _ H4 _ _ _ _ _ _]).
  destruct (triple_ends _ _ _ (ep_t e) t (Hst _ a' b' hi r) (conj H4 eq_refl) Hend) as (v & hi' & _ & Hs & Hd).
  pose proof (stocked_data _ _ _ _ _ _ sid H4 He) as E. pose proof (stocked_data _ _ _ _ _ _ sid Hs He') as E'.
  unfold grows, stream_bytes. cbn [ep_t ep_l ep_pc]. rewrite E, E'. cbn [v_data] in *.
  destruct Hd as [->|(q & x & s & -> & Hq & ->)]; [by left|]. unfold add_data.
  destruct (Z.eqb_spec (s_MuxID s) sid) as [<-|]; [right|left; by rewrite app_nil_r].
  exists q, x, s. split_and!; [done..|]. by rewrite !app_assoc.
Qed.

Lemma settle_runs ch e l er pc e' : settle ch e l er pc = Moves e' -> runs (ep_pc e') = true -> er = None /\ ep_pc e' = pc.
Proof. unfold settle. destruct (effects _ _ _ _); [|by intros [= <-]|done]. intros [= <-]. by destruct er. Qed.
(** The writer moves them on. *)
Lemma settle_queue ch e l er pc e' d a b hi r sid :
  settle ch e l er pc = Moves e' -> runs (ep_pc e') = true -> open_buf e' ->
  (forall w, is_Some (t_wqs (ep_t e) !! w) -> is_Some (wqs l !! w)) ->
  stocked (mkView false d) a b hi r (ep_t e) ->
  er = None /\ ep_l e' = l /\ ep_pc e' = pc /\ data_on sid (queued (ep_t e')) = d sid.
Proof.
  intros Hset Hrun Herr Hwqs Hst. unfold settle in Hset. set (t0 := set_wqs (wqs l) (ep_t e)) in Hset. set (evs := drop _ _) in Hset.
  pose proof (effects_stock ch evs (mkView false d) a b hi r t0 (stocked_wqs _ _ _ _ _ _ _ Hwqs Hst)) as H.
  destruct (effects (now ch) (wrErr ch) evs t0) as [t' []|t' w|]; [|by injection Hset as <-|done].
  injection Hset as <-. destruct er as [er|]; [done|]. cbn in *. split_and!; try done. by apply (stocked_data _ _ _ _ _ _ sid H).
Qed.

(** What was promised of an item is what the writer relies on. *)
Lemma item_link e it a b a' b' :
  lside (ep_l e) = t_side (ep_t e) ->
  (forall id, is_Some (estdStreams (ep_l e) !! id) -> if own (t_side (ep_t e)) id then id < a else id < b) ->
  incr a (own_ids (t_side (ep_t e)) [it]) a' -> incr b (peer_ids [it]) b' -> it_ok (t_side (ep_t e)) (t_wqs (ep_t e)) it ->
  item_ok (shared e) it /\
  (forall id, id ∈ item_opens (lside (ep_l e)) it -> if own (t_side (ep_t e)) id then id < a' else id < b').
Proof.
  intros Hsd Hest Ha Hb Hit. rewrite Hsd. destruct it; try (split; [exact Hit|intros id Hid; by apply elem_of_nil in Hid]).
  - destruct Hit as [Hwq Ho]. cbn in Hb. split.
    + split; [done|]. cbn. apply eq_None_not_Some. intros H%Hest. rewrite Ho in H. lia.
    + intros id ->%list_elem_of_singleton. rewrite Ho. lia.
  - destruct Hit as (Hf & He & Hown). cbn [item_opens].
    assert (Hcase : (bool_decide (t_side (ep_t e) = serverSide) && (hd_streamID h mod 2 =? 1)) = negb (own (t_side (ep_t e)) (hd_streamID h))).
    { unfold own in *. rewrite Zmod_odd. destruct (t_side (ep_t e)), (Z.odd (hd_streamID h)); done. }
    cbn in Ha. unfold item_ok. cbn [lside shared Loopy.set_wqs]. rewrite Hsd, Hcase. destruct (own _ _) eqn:Ho; cbn in *.
    + split; [|intros id ->%list_elem_of_singleton; rewrite Ho; lia]. split; [done|]. split; [done|].
      apply eq_None_not_Some. intros H%Hest. rewrite Ho in H. lia.
    + split; [|intros id Hid; by apply elem_of_nil in Hid]. split; [done|]. congruence.
Qed.

Lemma shared_reach e c fair : lp_reach wr rangeOrder (ep_l e) c fair ->
  (forall w, is_Some (wqs (ep_l e) !! w) -> is_Some (t_wqs (ep_t e) !! w)) ->
  exists fair', lp_reach wr rangeOrder (shared e) c fair'.
Proof.
  intros Hr Hw. pose proof (LoopyRun.reach_step wr rangeOrder _ _ _ Quotas (shared e) Hr (st_quotas _ _ _ _ Hw)) as H.
  cbn [credit] in H. rewrite Z.add_0_r in H. by eexists.
Qed.

Section Steps.
Hypothesis rangeOrder_all : forall m, rangeOrder m ≡ₚ (map_to_list m).*2.

(** [handle] *)
Lemma handle_inv R ch e it gosched l err e' :
  ep_inv R e -> enc_room (ep_l e) -> ep_pc e = Handling it gosched ->
  handle wr (initOf (ep_t e) (now ch)) (goAwayOf (ep_t e) (wrErr ch)) rangeOrder (shared e) it = Some (l, err) ->
  settle ch e l err (Serving gosched) = Moves e' -> ep_inv R e'.
Proof.
  intros Hinv Hroom Hpc Hh Hset. destruct (Hinv ltac:(by rewrite Hpc)) as (c & fair & d & a & b & a' & b' & hi & r & [H1 H2 H3 H4 H5 H6 H7 H8 H9 H10]).
  rewrite Hpc in *. cbn [taken waits] in *. apply Forall_cons in H9 as [H9 _].
  destruct (item_link e it a b a' b' H2 H6 H7 H8 H9) as [Hok Hop]. destruct (shared_reach e c fair H1 H3) as [f1 Hr1].
  destruct (handle_opens wr _ _ rangeOrder (shared e) it l err Hh) as (Es & Ew & Ee).
  assert (exists f2, err = None -> lp_reach wr rangeOrder l (c + conn_credit it) f2) as [f2 Hr2].
  { eexists. intros ->. eapply (LoopyRun.reach_step _ _ _ _ _ (Handled it)); [exact Hr1|]. by eapply st_handle. }
  eapply (settle_inv R ch e l err (Serving gosched) e' (c + conn_credit it) f2 d a' b'); try done.
  - intros ?. split; [by apply Hr2|done].
  - by rewrite Es.
  - intros id [Hid|Hid]%Ee; [|by apply Hop]. specialize (H6 id Hid). pose proof (incr_le _ _ _ H7). pose proof (incr_le _ _ _ H8).
    destruct (own _ id); lia.
  - cbn in H5. lia.
  - apply H5.
Qed.

(** [processData] *)
Lemma turn_inv R ch e l l1 isEmpty err pc e' :
  ep_inv R e -> enc_room (ep_l e) -> runs (ep_pc e) = true -> taken (ep_pc e) = [] -> waits (ep_pc e) = false ->
  processData wr (shared e) = Some (l, (isEmpty, err)) -> l1 = l \/ l1 = set_lw l (flush (lw l)) ->
  (rests pc = true -> isEmpty = true) -> taken pc = [] -> waits pc = false ->
  settle ch e l1 err pc = Moves e' -> ep_inv R e'.
Proof.
  intros Hinv Hroom Hrun Htk Hwt Hp Hl1 Hrest Htk' Hwt' Hset.
  destruct (Hinv Hrun) as (c & fair & d & a & b & a' & b' & hi & r & [H1 H2 H3 H4 H5 H6 H7 H8 H9 H10]).
  rewrite Htk, Hwt in *. destruct (shared_reach e c fair H1 H3) as [f1 Hr1].
  destruct (reach_wf wr rangeOrder rangeOrder_all _ _ _ Hr1) as [Hwf _].
  destruct (processData_ok wr (fun _ _ => None) (shared e) Hwf Hroom) as (l2 & b2 & er2 & E & _ & Hemp & Hsame).
  rewrite Hp in E. injection E as <- <- <-.
  destruct (processData_opens wr (shared e) l _ Hp) as (Es & Ew & Ee).
  assert (exists f2, err = None -> lp_reach wr rangeOrder l1 (c + 0) f2) as [f2 Hr2].
  { assert (exists f2, err = None -> lp_reach wr rangeOrder l (c + 0) f2) as [f2 Hr2].
    { eexists. intros ->. eapply (LoopyRun.reach_step _ _ _ _ _ Turn); [exact Hr1|]. by eapply st_turn. }
    destruct Hl1 as [-> | ->]; [by exists f2|]. eexists. intros He. rewrite <- (Z.add_0_r (c + 0)).
    eapply (LoopyRun.reach_step _ _ _ _ _ Flushed); [by apply Hr2|apply st_flush]. }
  assert (Hsame1 : lside l1 = lside l /\ wqs l1 = wqs l /\ estdStreams l1 = estdStreams l /\ sendQuota l1 = sendQuota l /\
    Loopy.activeStreams l1 = Loopy.activeStreams l) by (by destruct Hl1 as [-> | ->]).
  destruct Hsame1 as (E1 & E2 & E3 & E4 & E5).
  eapply (settle_inv R ch e l1 err pc e' (c + 0) f2 d a' b' hi r); rewrite ?E1, ?E2, ?E3; try done.
  - intros He. split; [by apply Hr2|]. intros Hr. specialize (Hrest Hr). rewrite E4, E5.
    destruct (Hsame Hrest) as [-> _]. by apply Hemp.
  - by rewrite Es.
  - intros id [Hid|Hid]%Ee; [|by apply elem_of_nil in Hid]. specialize (H6 id Hid). cbn in H7, H8. destruct (own _ id); lia.
  - apply H5.
  - apply H5.
Qed.

Lemma writer_inv R ch e e' : ep_inv R e -> enc_room (ep_l e) -> writer_step ch e = Moves e' -> ep_inv R e'.
Proof.
  intros Hinv Hroom. unfold writer_step. destruct (ep_pc e) as [block g| |it g|g|g| | |] eqn:Hpc; try done.
  - destruct (t_cbLocked _); [done|]. destruct (get block _) as [[c x]|] eqn:Eg; [|done]. intros [= <-]. by eapply get_inv.
  - destruct (receive _) as [c|] eqn:Er; case_bool_decide; try done; [destruct (takeDone ch)| |];
      intros [= <-]; first [by intros ?|by eapply receive_inv].
  - destruct (handle _ _ _ _ _ _) as [[l err]|] eqn:Eh; [|done]. by eapply handle_inv.
  - destruct (processData _ _) as [[l [em err]]|] eqn:Ep; [|done].
    eapply (turn_inv R ch e l l em err); try done; [by rewrite Hpc..|by left].
  - destruct (processData _ _) as [[l [em err]]|] eqn:Ep; [|done].
    destruct em; cbn [negb]; [case_if|]; eapply (turn_inv R ch e l); try done;
      first [by rewrite Hpc|by left|by right].
  - destruct (loopyEnds _); [| |done]; intros [= <-]; by intros ?.
Qed.

Lemma reach_inv e R : ep_reach e R -> ep_inv R e.
Proof.
  induction 1 as [|e r k e' _ IH [o t _ Hok He|w t Hok He|ch e1 Hr Hs]]; [by apply start_inv|by eapply op_inv|by eapply resume_inv|].
  rewrite Z.add_0_r. by eapply writer_inv.
Qed.

(** Over a step of the writer, nothing is lost, added or sent twice. *)
Lemma writer_moves R ch e e' lab l w l1 sid p :
  ep_inv R e -> runs (ep_pc e) = true -> waits (ep_pc e) = false -> open_buf e -> runs (ep_pc e') = true -> open_buf e' ->
  estdStreams (ep_l e) !! sid = Some p ->
  settle ch e l1 None (ep_pc e') = Moves e' -> taken (ep_pc e') = [] ->
  lp_step wr rangeOrder (shared e) lab l -> l1 = l \/ l1 = set_lw l w ->
  (forall w, is_Some (t_wqs (ep_t e) !! w) -> is_Some (wqs l !! w)) ->
  fed_by (shared e) lab p = data_on sid (taken (ep_pc e)) ->
  stream_bytes sid p e' = stream_bytes sid p e.
Proof.
  intros Hinv Hrun Hwt He Hrun' He' Hp Hset Htk Hstep Hl1 Hwqs Hfed.
  destruct (Hinv Hrun) as (c & fair & d & a & b & a' & b' & hi & r & [H1 H2 H3 H4 H5 H6 H7 H8 H9 H10]). rewrite Hwt in H4.
  destruct (settle_queue ch e l1 None _ e' d a' b' hi r sid Hset Hrun' He' ltac:(by destruct Hl1 as [-> | ->]) H4) as (_ & El & _ & Eq).
  destruct (shared_reach e c fair H1 H3) as [f1 Hr1]. destruct (reach_wf wr rangeOrder rangeOrder_all _ _ _ Hr1) as [Hwf _].
  destruct (lw_estd _ _ Hwf sid p Hp) as (s & Hs & _).
  destruct (step_delivery wr rangeOrder rangeOrder_all (shared e) lab l sid p s Hwf Hstep Hp Hs) as (s' & Hs' & E).
  assert (Hs1 : streams l1 !! p = Some s' /\ Loopy.log l1 = Loopy.log l) by (by destruct Hl1 as [-> | ->]). destruct Hs1 as [Hs1 Hlog].
  cbn in Hs. unfold stream_bytes. rewrite El, Htk, Eq, Hs1, Hlog, Hs, (stocked_data _ _ _ _ _ _ sid H4 He).
  cbn [fmap option_fmap option_map default v_data]. trans ((sent_on sid (datas (Loopy.log l)) ++ pending s') ++ d sid); [by rewrite <- app_assoc|].
  by rewrite E, Hfed, <- !app_assoc.
Qed.

(** What is in the hand of the writer goes to the stream it is for. *)
Lemma fed_taken (l : loopyWriter W) it sid p : lp_wf_but None l -> estdStreams l !! sid = Some p -> fed l it p = data_on sid [it].
Proof.
  intros Hwf Hp. destruct it; try done. cbn. rewrite app_nil_r. destruct (Z.eqb_spec (df_streamID d) sid) as [->|Hne].
  - by rewrite bool_decide_true.
  - rewrite bool_decide_false; [done|]. intros Hp'. destruct (lw_estd _ _ Hwf sid p Hp) as (s & Hs & Hid & _).
    destruct (lw_estd _ _ Hwf _ p Hp') as (s' & Hs' & Hid' & _). congruence.
Qed.
(** [get] and [<-c.ch] *)
Lemma get_moves R e block gosched c g sid p :
  ep_inv R e -> ep_pc e = Getting block gosched -> open_buf e -> get block (t_controlBuf (ep_t e)) = Some (c, g) ->
  stream_bytes sid p (mkEP (set_controlBuf c (ep_t e)) (ep_l e)
    match g with
    | Item it => Handling it (block || gosched)
    | Nothing => if block then Waiting else Idling gosched
    | Failed _ => Returned
    end) = stream_bytes sid p e.
Proof.
  intros Hinv Hpc He Hget. destruct (Hinv ltac:(by rewrite Hpc)) as (k & fair & d & a & b & a' & b' & hi & r & [_ _ _ H4 _ _ _ _ _ _]).
  destruct H4 as [?|[items Hg]]; [unfold open_buf in He; congruence|]. destruct (get_ok block _ items ltac:(apply Hg)) as (c1 & g1 & E & Hwf & Hgot & _).
  rewrite Hget in E. injection E as <- <-. rewrite He in Hwf, Hgot. subst g.
  assert (Eq : queued (set_controlBuf c (ep_t e)) = list.tail items).
  { unfold queued. cbn. destruct (q_takeAll_ok (clist c) (list.tail items)) as (q & -> & _); [apply Hwf|done]. }
  unfold stream_bytes. cbn [ep_l ep_t ep_pc]. rewrite Eq, (good_queued _ _ _ _ _ _ _ Hg), Hpc.
  destruct items as [|it items]; [by destruct block|]. cbn [taken list.tail]. change (it :: items) with ([it] ++ items). by rewrite (data_on_app sid [it] items).
Qed.
Lemma served_moves R ch e e' l em l1 sid p :
  ep_inv R e -> enc_room (ep_l e) -> runs (ep_pc e) = true -> waits (ep_pc e) = false -> taken (ep_pc e) = [] -> open_buf e ->
  runs (ep_pc e') = true -> open_buf e' -> taken (ep_pc e') = [] -> estdStreams (ep_l e) !! sid = Some p ->
  processData wr (shared e) = Some (l, (em, None)) -> settle ch e l1 None (ep_pc e') = Moves e' ->
  l1 = l \/ l1 = set_lw l (flush (lw l)) -> stream_bytes sid p e' = stream_bytes sid p e.
Proof.
  intros Hinv Hroom Hrun Hwt Htk He Hrun' He' Htk' Hp Hd Hset Hl1.
  eapply (writer_moves R ch e e' Turn l (flush (lw l)) l1 sid p); try done; [by eapply st_turn| |by rewrite Htk].
  destruct (processData_opens wr (shared e) l _ Hd) as (_ & Hw & _). by destruct Hl1 as [-> | ->].
Qed.
Lemma writer_delivery R ch e e' sid p :
  ep_inv R e -> enc_room (ep_l e) -> writer_step ch e = Moves e' -> open_buf e -> runs (ep_pc e') = true -> open_buf e' ->
  estdStreams (ep_l e) !! sid = Some p -> stream_bytes sid p e' = stream_bytes sid p e.
Proof.
  intros Hinv Hroom Hstep He Hrun' He' Hp. unfold writer_step in Hstep.
  assert (Hwf : runs (ep_pc e) = true -> lp_wf_but None (shared e)).
  { intros Hr. destruct (Hinv Hr) as (c & fair & d & a & b & a' & b' & hi & r & [H1 _ H3 _ _ _ _ _ _ _]).
    by destruct (shared_reach e c fair H1 H3) as [f1 [? _]%(reach_wf wr rangeOrder rangeOrder_all)]. }
  destruct (ep_pc e) as [block g| |it g|g|g| | |] eqn:Hpc; try done.
  - destruct (t_cbLocked _); [done|]. destruct (get block _) as [[c x]|] eqn:Eg; [|done]. injection Hstep as <-. by eapply get_moves.
  - assert (Hq : forall c, receive (t_controlBuf (ep_t e)) = Some c -> clist c = clist (t_controlBuf (ep_t e))).
    { intros c. unfold receive. destruct (ControlBuf.ch _); [|done]. by intros [= <-]. }
    destruct (receive _) as [c|]; case_bool_decide; try done; [destruct (takeDone ch); [by injection Hstep as <-|]| |];
      injection Hstep as <-; try done; unfold stream_bytes, queued; cbn; rewrite (Hq c eq_refl), Hpc; done.
  - destruct (handle _ _ _ _ _ _) as [[l er]|] eqn:Eh; [|done]. destruct (settle_runs _ _ _ _ _ _ Hstep Hrun') as [-> Ep].
    destruct (Hinv ltac:(by rewrite Hpc)) as (c & fair & d & a & b & a' & b' & hi & r & [_ H2 _ _ _ H6 H7 H8 H9 _]).
    rewrite Hpc in H7, H8, H9. apply Forall_cons in H9 as [H9 _]. destruct (item_link e it a b a' b' H2 H6 H7 H8 H9) as [Hok _].
    eapply (writer_moves R ch e e' (Handled it) l (lw l) l sid p); rewrite ?Hpc, ?Ep; try done; [by eapply st_handle|by left| |].
    + apply (handle_opens wr _ _ rangeOrder (shared e) it l None Eh).
    + by apply fed_taken; [apply Hwf|].
  - destruct (processData _ _) as [[l [em er]]|] eqn:Ep; [|done]. destruct (settle_runs _ _ _ _ _ _ Hstep Hrun') as [-> Epc].
    by eapply (served_moves R ch e e' l em l); rewrite ?Hpc, ?Epc; [..|left].
  - destruct (processData _ _) as [[l [em er]]|] eqn:Ep; [|done].
    destruct em; cbn [negb] in Hstep; [destruct (g && small (lw l))|]; destruct (settle_runs _ _ _ _ _ _ Hstep Hrun') as [-> Epc];
      eapply (served_moves R ch e e' l); rewrite ?Hpc, ?Epc; try done; first [by left|by right].
  - destruct (loopyEnds _); [| |done]; by injection Hstep as <-.
Qed.

Lemma live_last sid p e ws e' : live_run sid p e ws e' -> live sid p e'.
Proof. by destruct 1. Qed.
Lemma live_reach sid p e ws e' R : ep_reach e R -> live_run sid p e ws e' -> exists R', ep_reach e' R'.
Proof. intros Hr. induction 1 as [|ws e1 lab e2 _ [R1 IH] Hs _]; [by exists R|]. eexists. by eapply ep_next. Qed.

Lemma step_grows e R lab e' sid p : ep_reach e R -> ep_step e lab e' -> live sid p e -> live sid p e' ->
  exists ws, sublist ws (writes_on sid lab e') /\ stream_bytes sid p e' = stream_bytes sid p e ++ concat ws.
Proof.
  intros Hr Hs (Hrun & He & Hp) (Hrun' & He' & _). pose proof (reach_inv e R Hr) as Hinv.
  assert (Hg : grows sid p (lab_data lab) e e').
  { destruct Hs as [o t _ Hok Hend|w t Hok Hend|ch e' Hroom Hw].
    - eapply (conn_grows R (op_credit o) (op_data o)); try done. intros v a b hi r. by apply stock_op.
    - eapply (conn_grows R 0 (lab_data (ByWaiter w))); try done. intros v a b hi r. by apply resume_stock.
    - left. by eapply writer_delivery. }
  destruct Hg as [->|(q & d & s & E & Hq & Hid & ->)].
  - exists []. split; [apply sublist_nil_l|by rewrite app_nil_r].
  - exists [d]. unfold writes_on. rewrite E, Hq, Hid, Z.eqb_refl. split; [done|]. cbn. by rewrite app_nil_r.
Qed.

Lemma turn_total e R : ep_reach e R -> enc_room (ep_l e) -> runs (ep_pc e) = true ->
  exists l em er, processData wr (shared e) = Some (l, (em, er)).
Proof.
  intros Hr Hroom Hrun. destruct (reach_inv e R Hr Hrun) as (c & fair & d & a & b & a' & b' & hi & r & [H1 _ H3 _ _ _ _ _ _ _]).
  destruct (shared_reach e c fair H1 H3) as [f1 [Hwf _]%(reach_wf wr rangeOrder rangeOrder_all)].
  destruct (processData_ok wr (fun _ _ => None) (shared e) Hwf Hroom) as (l & em & er & -> & _). by eexists _, _, _.
Qed.

(** ** Properties *)


(** C6.  The writer inside an endpoint is one of those LoopyRun is about, so that all
    that is shown there of runs of the writer holds here; and the endpoint respects
    the window of the connection from end to end: the DATA bytes it has written, and
    the quota it has left, are at most the initial window and the increments of the
    WINDOW_UPDATE frames for the connection that its reader has read. *)
Theorem endpoint_flow e R : ep_reach e R -> runs (ep_pc e) = true ->
  (exists c fair, lp_reach wr rangeOrder (ep_l e) c fair /\ c <= R) /\
  bytes_of (datas (Loopy.log (ep_l e))) + sendQuota (ep_l e) <= defaultWindowSize + R.
Proof.
  intros Hr Hrun. destruct (reach_inv e R Hr Hrun) as (c & fair & d & a & b & a' & b' & hi & r & Hl).
  destruct Hl as [H1 _ _ _ [Hc Hr0] _ _ _ Ht _]. pose proof (credits_nonneg _ _ _ Ht).
  split; [exists c, fair; split; [done|lia]|]. destruct (flow_inv wr rangeOrder rangeOrder_all _ _ _ H1). lia.
Qed.


End Steps.
End Endpoint.

(** ** A run

    The client of [TransportInv.Sample] with the writer of [LoopyRun.Demo], whose
    frames have five bytes. *)
Module EpDemo.
Definition T := @H2Transport (itemList cbItem).
Definition flush (w : list Z) : list Z := w.
Definition small (w : list Z) : bool := true.
Definition ch : choice := mkChoice 0 (fun _ => None) false.
Definition ep := @endpoint (itemList cbItem) (list Z).
Definition step := writer_step (Q := itemList cbItem) Sample.range Demo.wr flush small Demo.rangeOrder ch.

(** [n] steps of the writer. *)
Fixpoint steps (n : nat) (e : ep) : option ep :=
  match n with
  | O => Some e
  | S n => if added (eDynTab (hEnc (ep_l e))) + 2 ^ 32 <? 2 ^ 62
           then match step e with Moves e => steps n e | _ => None end else None
  end.
(** An operation of another goroutine. *)
Definition does (o : op) (e : ep) : option ep :=
  match run_op Sample.range Sample.rangeH o (ep_t e) with
  | Done t _ | Blocks t _ => Some (mkEP t (ep_l e) (ep_pc e))
  | Crashes => None
  end.

Abbreviation reaches := (ep_reach Sample.range Sample.rangeH Demo.wr flush small Demo.rangeOrder).
Lemma steps_reach n : forall e e' R, reaches e R -> steps n e = Some e' -> reaches e' R.
Proof.
  induction n as [|n IH]; intros e e' R Hr; cbn [steps]; [by intros [= <-]|].
  destruct (Z.ltb_spec (added (eDynTab (hEnc (ep_l e))) + 2 ^ 32) (2 ^ 62)) as [Hroom|]; [|done].
  destruct (step e) as [e1| | |] eqn:E; try done. apply IH. rewrite <- (Z.add_0_r R).
  eapply (ep_next _ _ _ _ _ _ _ _ ByWriter); [exact Hr|]. by eapply ep_writer.
Qed.
Lemma does_reach o e e' R k : reaches e R -> elsewhere o = true -> op_fits Sample.rangeH (ep_t e) o -> op_credit o = k ->
  does o e = Some e' -> reaches e' (R + k).
Proof.
  intros Hr Ho Hok <- Hd. eapply (ep_next _ _ _ _ _ _ _ _ (ByOp o)); [exact Hr|]. unfold does in Hd.
  destruct (run_op _ _ o (ep_t e)) as [t []|t w|] eqn:E; [| |done]; injection Hd as <-; (eapply ep_op; [done|done|]);
    [left; by exists tt|right; by exists w].
Qed.

Definition e0 : ep := mkEP Sample.client (newLoopyWriter clientSide Demo.enc [] 5) (Getting true false).
Definition or_e0 (o : option ep) : ep := default e0 o.
(** A stream is opened, and the writer writes its headers and goes to sleep. *)
Definition opened : ep := or_e0 (does (OpDial Sample.request None false) e0).
Definition asleep : ep := or_e0 (steps 8 opened).
(** Data is written and a window update for the connection arrives. *)
Definition given : ep := or_e0 (does (OpWrite 0%nat (Some (str "hello tunnel")) false) asleep).
Definition update : anyFrame := Plain (WindowUpdateFrame (mkFH true FrameWindowUpdate 0 4 0) 7).
Definition granted : ep := or_e0 (does (OpRead (Ret update) None 0) given).
Definition sent : ep := or_e0 (steps 7 granted).

Lemma request_fits q hf : CreateHeader Sample.rangeH None Sample.request = Some (q, hf) -> Loopy.fields_ok hf.
Proof.
  assert (E : (snd <$> CreateHeader Sample.rangeH None Sample.request) = Some [field (str ":authority") (str "example.com");
    field (str ":method") (str "GET"); field (str ":path") (str "/"); field (str ":scheme") (str "https")]) by (vm_compute; reflexivity).
  intros H. rewrite H in E. injection E as ->. split; [|done]. repeat constructor; by vm_compute.
Qed.
Lemma start : reaches e0 0.
Proof. apply (ep_start _ _ _ _ _ _ Sample.client); [left; by eexists _, _, _|vm_compute; reflexivity|lia]. Qed.
Lemma reach_opened : reaches opened 0.
Proof.
  apply (does_reach (OpDial Sample.request None false) e0 opened 0 0 start); [done| |done|vm_compute; reflexivity].
  split; [by vm_compute|]. apply request_fits.
Qed.
Lemma reach_asleep : reaches asleep 0.
Proof. apply (steps_reach 8 opened asleep 0 reach_opened). vm_compute. reflexivity. Qed.
Lemma write_fits : op_fits Sample.rangeH (ep_t asleep) (OpWrite 0%nat (Some (str "hello tunnel")) false).
Proof. intros s Hs. left. vm_compute in Hs. injection Hs as <-. reflexivity. Qed.
Lemma read_fits : op_fits Sample.rangeH (ep_t given) (OpRead (Ret update) None 0).
Proof. intros f [= <-]. split; [repeat split; by vm_compute|]. lia. Qed.
Lemma reach_sent : reaches sent 7.
Proof.
  apply (steps_reach 7 granted sent 7); [|vm_compute; reflexivity].
  apply (does_reach (OpRead (Ret update) None 0) given granted 0 7); [|done|apply read_fits|done|vm_compute; reflexivity].
  apply (does_reach (OpWrite 0%nat (Some (str "hello tunnel")) false) asleep given 0 0 reach_asleep);
    [done|apply write_fits|done|vm_compute; reflexivity].
Qed.

(** The stream stays open from [asleep] on. *)
Definition alive (e : ep) : bool :=
  runs (ep_pc e) && negb (err (t_controlBuf (ep_t e))) && bool_decide (estdStreams (ep_l e) !! 1 = Some 0%nat).
Lemma alive_live e : alive e = true -> live 1 0%nat e.
Proof. intros [[? ?%negb_true_iff]%andb_prop ?%bool_decide_eq_true]%andb_prop. by split_and!. Qed.
Fixpoint alive_for (n : nat) (e : ep) : bool :=
  alive e && match n with O => true | S n => match step e with Moves e => alive_for n e | _ => false end end.
Abbreviation lives := (live_run Sample.range Sample.rangeH Demo.wr flush small Demo.rangeOrder 1 0%nat).
Lemma steps_live n : forall e0 e ws e', lives e0 ws e -> steps n e = Some e' -> alive_for n e = true -> lives e0 ws e'.
Proof.
  induction n as [|n IH]; intros e0 e ws e' Hl; cbn [steps alive_for]; [by intros [= <-]|].
  destruct (Z.ltb_spec (added (eDynTab (hEnc (ep_l e))) + 2 ^ 32) (2 ^ 62)) as [Hroom|]; [|done].
  destruct (step e) as [e1| | |] eqn:E; try done. intros Hs [_ Ha]%andb_prop. eapply IH; [|done|done].
  rewrite <- (app_nil_r ws). eapply (live_next _ _ _ _ _ _ _ _ _ _ _ ByWriter); [exact Hl|by eapply ep_writer|].
  apply alive_live. by destruct n; cbn [alive_for] in Ha; apply andb_prop in Ha as [? _].
Qed.
Lemma does_live o e0 e e' ws ws' : lives e0 ws e -> elsewhere o = true -> op_fits Sample.rangeH (ep_t e) o -> does o e = Some e' ->
  alive e' = true -> ws ++ writes_on 1 (ByOp o) e' = ws' -> lives e0 ws' e'.
Proof.
  intros Hl Ho Hok Hd Ha <-. eapply (live_next _ _ _ _ _ _ _ _ _ _ _ (ByOp o)); [exact Hl| |by apply alive_live]. unfold does in Hd.
  destruct (run_op _ _ o (ep_t e)) as [t []|t w|] eqn:E; [| |done]; injection Hd as <-; (eapply ep_op; [done|done|]);
    [left; by exists tt|right; by exists w].
Qed.
Lemma tunnel_live : lives asleep [str "hello tunnel"] sent.
Proof.
  apply (steps_live 7 _ granted); [|vm_compute; reflexivity|by vm_compute].
  eapply (does_live (OpRead (Ret update) None 0) _ given); [|done|apply read_fits|vm_compute; reflexivity|by vm_compute|apply app_nil_r].
  eapply (does_live (OpWrite 0%nat (Some (str "hello tunnel")) false) _ asleep _ []);
    [|done|apply write_fits|vm_compute; reflexivity|by vm_compute|vm_compute; reflexivity].
  apply live_here, alive_live. by vm_compute.
Qed.
End EpDemo.


Lemma endpoint_flow_witness :
  (exists c fair, lp_reach Demo.wr Demo.rangeOrder (ep_l EpDemo.sent) c fair /\ c <= 7) /\ 10 + 65532 <= defaultWindowSize + 7.
Proof.
  apply (endpoint_flow Sample.range Sample.rangeH Demo.wr EpDemo.flush EpDemo.small Demo.rangeOrder Demo.rangeOrder_all
    EpDemo.sent 7 EpDemo.reach_sent). vm_compute. reflexivity.
Defined.



(** ** What goes wrong outside of [op_fits], and in the callbacks *)
Module EpFaults.
Import EpDemo.

(** The writer has taken the headers of a new stream when the connection is closed:
    [Close] has set the map of streams to nil, but not [closing], so [initStream]
    assigns to an entry of a nil map. *)
Definition holding : ep := or_e0 (steps 1 opened).
Definition closed_meanwhile : ep := or_e0 (does (OpCloseConn None) holding).
Lemma initStream_race : reaches closed_meanwhile 0 /\ step closed_meanwhile = CallbackPanics.
Proof.
  split; [|by vm_compute].
  apply (does_reach (OpCloseConn None) holding closed_meanwhile 0 0); [|done|done|done|vm_compute; reflexivity].
  apply (steps_reach 1 opened holding 0 reach_opened). vm_compute. reflexivity.
Qed.

Definition headers (id flags : Z) (fs : list HeaderField) : op :=
  OpRead (Ret (Meta (mkMeta (mkFH true FrameHeaders flags 0 id) PriorityParam_zero fs false))) None 0.

(** A client that got trailers and then closes its side sends them back, as a second
    HEADERS frame on the stream; its writer registers the stream again, without a
    write quota. *)
Definition trailed : option ep :=
  e ← does (headers 1 4 [field (str ":status") (str "200")]) asleep;
  e ← does (headers 1 5 [field (str "grpc-status") (str "0")]) e;
  e ← does (OpCloseWrite 0%nat) e; steps 3 e.
Definition headers_written (l : list event) : list (Z * bool) :=
  l ≫= fun ev => match ev with EvFrame (CallHeaders h) => [(hp_StreamID h, hp_EndStream h)] | _ => [] end.
Lemma client_echoes_trailers : exists e, trailed = Some e /\
  headers_written (Loopy.log (ep_l e)) = [(1, false); (1, true)] /\
  (p ← estdStreams (ep_l e) !! 1; s ← streams (ep_l e) !! p; Some (os_wq s)) = Some nil_wq.
Proof. eexists. vm_compute. by split_and!. Qed.

(** A client that answers on a stream the server opened takes its writer down: the
    headers of the response register the stream again, without a write quota, and
    the first DATA uses it. *)
Definition answering : option ep :=
  e ← does (headers 2 4 [field (str ":method") (str "POST"); field (str ":path") (str "/")]) (mkEP (set_hasHandle true (ep_t asleep)) (ep_l asleep) Waiting);
  e ← does (OpWrite 1%nat (Some (str "hi")) false) e; steps 9 e.
Lemma client_answer_panics : step <$> answering = Some Panics.
Proof. by vm_compute. Qed.
End EpFaults.
