(* ===== verification/Keepalive.v ===== *)
(** * Keepalive: the [keepalive] goroutines of h2/h2_connection.go and h2/h2_connection_server.go

    The loops as steps: one step is what a goroutine does when one of its timers
    fires, up to the point where it waits again.  The variables of a loop are
    [kpVars]; the result of a step says which timer is set, to how long, or that
    the goroutine waits to be woken or is gone.  Times are nanoseconds. *)
From S2P Require Import Loopy Prelude HpackTables Frame FrameRead FlowControl Lists ControlBuf.
From S2P Require Import Timeout Messages Events Bdp Transport TransportInv TransportSpec.

Record kpVars := mkKP { outstandingPing : bool; timeoutLeft : Z; prevNano : Z }.
Definition kp_init (now : Z) : kpVars := mkKP false 0 now.

Inductive timer := KpTimer | IdleTimer | AgeTimer | GraceTimer.
Inductive kpNext :=
| Reset (v : kpVars) (t : timer) (d : Z)       (** [timer.Reset(d)] *)
| Dormant (v : kpVars)                         (** [t.kpDormancyCond.Wait()] *)
| Exit.

Definition minTime (a b : Z) : Z := if a <? b then a else b.

Section Keepalive.
Context {Q : Type} `{!Queue Q cbItem}.
Context (rangeActive : gmap Z loc -> list (Z * loc)).
Context (Time Timeout : Z) (permitWithoutStream : bool).       (** [KeepaliveParams], [kp] *)
Implicit Types t : @H2Transport Q.

(** The end of both loops: a ping unless one is outstanding, and the time to the
    next turn. *)
Definition probe (v : kpVars) : @M Q kpNext :=
  v ← (if outstandingPing v then mret v
       else put_ (ItPing false (replicate 8 0));; mret (mkKP true Timeout (prevNano v)));
  let sleepDuration := minTime Time (timeoutLeft v) in
  mret (Reset (mkKP (outstandingPing v) (timeoutLeft v - sleepDuration) (prevNano v)) KpTimer sleepDuration).

(** ** The client *)

(** After the wait on the condition, if there was one. *)
Definition client_awake (v : kpVars) : M kpNext :=
  modify (set_kpDormant false);; probe v.

Definition client_keepalive (v : kpVars) (now : Z) : M kpNext :=
  lastRead ← gets t_LastRead;
  if lastRead >? prevNano v then mret (Reset (mkKP false (timeoutLeft v) lastRead) KpTimer (lastRead + Time - now)) else
  if outstandingPing v && (timeoutLeft v <=? 0) then
    Close rangeActive (Some (ErrConnection (str "keepalive ping failed to receive ACK within timeout")));; mret Exit
  else
  closing ← gets t_closing;
  if (closing : bool) then mret Exit else
  a ← gets t_activeStreams;
  if bool_decide (default ∅ a = ∅) && negb permitWithoutStream then
    modify (set_kpDormant true);; mret (Dormant (mkKP false (timeoutLeft v) (prevNano v)))
  else client_awake v.

(** ** The server *)
Definition server_keepalive (v : kpVars) (now : Z) : M kpNext :=
  lastRead ← gets t_LastRead;
  if lastRead >? prevNano v then mret (Reset (mkKP false (timeoutLeft v) lastRead) KpTimer (lastRead + Time - now)) else
  if outstandingPing v && (timeoutLeft v <=? 0) then Close rangeActive (Some ErrKeepalive);; mret Exit
  else probe v.

Definition server_idle (maxIdle : Z) (v : kpVars) (now : Z) : @M Q kpNext :=
  idle ← gets t_idle;
  match idle with
  | None => mret (Reset v IdleTimer maxIdle)
  | Some since =>
      let val := maxIdle - (now - since) in
      if val <=? 0 then Drain;; mret Exit else mret (Reset v IdleTimer val)
  end.

(** [MaxConnectionAge] is over: drain, and close after the grace period unless
    [done] was closed before. *)
Definition server_age (grace : Z) (v : kpVars) : @M Q kpNext := Drain;; mret (Reset v GraceTimer grace).
Definition server_grace : M kpNext := Close rangeActive None;; mret Exit.

(** ** A silent peer *)

(** Nothing was read since the last turn. *)
Definition silent (v : kpVars) t : Prop := t_LastRead t <= prevNano v.
(** The connection is in use. *)
Definition in_use t : Prop := t_closing t = false /\ (default ∅ (t_activeStreams t) <> ∅ \/ permitWithoutStream = true).

(** Turns of a goroutine between which the connection may change in any way, as
    long as nothing is read: [ds] are the times it sleeps. *)
Inductive turns (step : kpVars -> Z -> M kpNext) (ok : @H2Transport Q -> Prop) : kpVars -> list Z -> kpVars -> Prop :=
| turns_none v : turns step ok v [] v
| turns_one v ds v1 t now t' v2 d :
    turns step ok v ds v1 -> silent v1 t -> ok t -> step v1 now t = Done t' (Reset v2 KpTimer d) ->
    turns step ok v (ds ++ [d]) v2.

Lemma probe_done v t r t' : probe v t = Done t' r ->
  let left := if outstandingPing v then timeoutLeft v else Timeout in
  r = Reset (mkKP true (left - minTime Time left) (prevNano v)) KpTimer (minTime Time left).
Proof.
  unfold probe, mbind, M_bind. destruct v as [[] left prev]; simpl.
  - unfold mret, M_ret. by intros [= <- <-].
  - destruct (put_ _ t); [|done..]. unfold mret, M_ret. by intros [= <- <-].
Qed.

(** What a turn is when nothing was read: the connection is given up, or probed. *)
Definition silent_step (step : kpVars -> Z -> M kpNext) (ok : @H2Transport Q -> Prop) (e : tErr) : Prop :=
  forall v now t, silent v t -> ok t ->
    if outstandingPing v && (timeoutLeft v <=? 0)
    then step v now t = (Close rangeActive (Some e);; mret Exit) t
    else exists t1, step v now t = probe v t1 /\ t_controlBuf t1 = t_controlBuf t.

Lemma client_silent_step :
  silent_step client_keepalive in_use (ErrConnection (str "keepalive ping failed to receive ACK within timeout")).
Proof.
  intros v now t Hs [Hc Hu]. unfold client_keepalive, mbind, M_bind, gets. unfold silent in Hs.
  destruct (Z.gtb_spec (t_LastRead t) (prevNano v)); [lia|]. case_if; [done|]. rewrite Hc.
  assert (bool_decide (default ∅ (t_activeStreams t) = ∅) && negb permitWithoutStream = false) as ->.
  { destruct Hu as [Hu| ->]; [by rewrite bool_decide_false|apply andb_false_r]. }
  by exists (set_kpDormant false t).
Qed.
Lemma server_silent_step : silent_step server_keepalive (fun _ => True) ErrKeepalive.
Proof.
  intros v now t Hs _. unfold server_keepalive, mbind, M_bind, gets. unfold silent in Hs.
  destruct (Z.gtb_spec (t_LastRead t) (prevNano v)); [lia|]. case_if; [done|]. by exists t.
Qed.

(** The time slept and the time left add up; every sleep but the last is [Time]. *)
Record probing (ds : list Z) (v : kpVars) : Prop := {
  pr_ping : outstandingPing v = true;
  pr_sum : Zsum ds + timeoutLeft v = Timeout;
  pr_left : 0 <= timeoutLeft v;
  pr_full : 0 < timeoutLeft v -> Zsum ds = Time * len ds;
  pr_count : Time * (len ds - 1) < Timeout
}.

Lemma Zsum_snoc ds d : Zsum (ds ++ [d]) = Zsum ds + d.
Proof. induction ds as [|x ds IH]; [unfold Zsum; simpl; lia|]. rewrite <- app_comm_cons, !Zsum_cons, IH. lia. Qed.

Lemma turns_probing step ok e v0 ds v :
  silent_step step ok e -> 0 < Time -> 0 < Timeout -> outstandingPing v0 = false -> turns step ok v0 ds v ->
  ds = [] /\ v = v0 \/ probing ds v.
Proof.
  intros Hstep HT Hto H0 Hr. induction Hr as [|v ds v1 t now t' v2 d _ IH Hs Hok E]; [by left|]. right.
  specialize (Hstep v1 now t Hs Hok). specialize (IH H0).
  destruct (outstandingPing v1 && (timeoutLeft v1 <=? 0)) eqn:Hb.
  { rewrite Hstep in E. unfold mbind, M_bind, mret, M_ret in E. by destruct (Close _ _ t). }
  destruct Hstep as (t1 & Hp & _). rewrite Hp in E. apply probe_done in E. injection E as -> ->.
  set (left := if outstandingPing v1 then timeoutLeft v1 else Timeout) in *.
  assert (0 < left /\ Zsum ds + left = Timeout /\ Zsum ds = Time * len ds) as (Hl & Hsum & Hfull).
  { subst left. destruct IH as [[-> ->]|[H1 H2 H3 H4 H5]].
    - rewrite H0. unfold len, Zsum. simpl. lia.
    - rewrite H1 in *. simpl in Hb. lia. }
  assert (len (ds ++ [minTime Time left]) = len ds + 1) as Hlen by (unfold len; rewrite length_app; simpl; lia).
  split; rewrite ?Zsum_snoc, ?Hlen; simpl; unfold minTime; destruct (Z.ltb_spec Time left); nia.
Qed.

(** Both sides. *)
Definition keepalive_turn (s : side) : kpVars -> Z -> M kpNext :=
  match s with clientSide => client_keepalive | serverSide => server_keepalive end.
Definition keepalive_ok (s : side) : @H2Transport Q -> Prop :=
  match s with clientSide => in_use | serverSide => fun _ => True end.
Definition keepalive_err (s : side) : tErr :=
  match s with
  | clientSide => ErrConnection (str "keepalive ping failed to receive ACK within timeout")
  | serverSide => ErrKeepalive
  end.
Lemma keepalive_silent s : silent_step (keepalive_turn s) (keepalive_ok s) (keepalive_err s).
Proof. destruct s; [apply client_silent_step|apply server_silent_step]. Qed.


(** A client's goroutine outlives its connection: once the connection is closed it
    goes to sleep, and nothing is left that would wake it. *)
Lemma keepalive_leaks v now t :
  permitWithoutStream = false -> t_closed t = true -> t_activeStreams t = None -> t_closing t = false ->
  silent v t -> outstandingPing v = false ->
  exists t' v', client_keepalive v now t = Done t' (Dormant v') /\ forall e, Close rangeActive e t' = Done t' ().
Proof.
  intros Hp Hcd Ha Hc Hs Ho. unfold silent in Hs. unfold client_keepalive, mbind, M_bind, gets. rewrite Ho. destruct (Z.gtb_spec (t_LastRead t) (prevNano v)); [lia|]. simpl. rewrite Hc, Ha, Hp. simpl.
  eexists _, _. split; [done|]. intros e. unfold Close, mbind, M_bind, gets. simpl. by rewrite Hcd.
Qed.
End Keepalive.

(** A turn every 10 s, with 20 s for the answer. *)
Module KeepaliveSample.
Definition first : kpVars := mkKP true 10 0.
Definition second : kpVars := mkKP true 0 0.
End KeepaliveSample.

