(* ===== verification/StreamApi.v ===== *)
(** * The streams of an application: h2/stream.go, h2/hbone.go

    What a caller does with a stream beside sending on it: making requests
    ([RoundTrip], [Dial], [Do]), reading ([Read], [RecvRaw]) with the window given
    back to the peer, the error and value methods of its context, and the status
    codes.  The receive buffer is one of package nio; what it promises is the class
    [Receiver]. *)
From S2P Require Import Loopy Prelude HpackTables Frame FrameRead FrameText FlowControl Lists ControlBuf.
From S2P Require Import Timeout Messages Events Bdp Transport TransportInv TransportSpec.

(** ** Errors and codes *)
Definition Code : Type := Z.
Definition OK : Code := 0.
Definition Canceled : Code := 1.
Definition Unknown : Code := 2.
Definition InvalidArgument : Code := 3.
Definition DeadlineExceeded : Code := 4.
Definition NotFound : Code := 5.
Definition AlreadyExists : Code := 6.
Definition PermissionDenied : Code := 7.
Definition ResourceExhausted : Code := 8.
Definition FailedPrecondition : Code := 9.
Definition Aborted : Code := 10.
Definition OutOfRange : Code := 11.
Definition Unimplemented : Code := 12.
Definition Internal : Code := 13.
Definition Unavailable : Code := 14.
Definition DataLoss : Code := 15.
Definition Unauthenticated : Code := 16.
Definition maxCode : Code := 17.

(** The errors of package context, and others by their text. *)
Inductive ctxErr := CtxCanceled | CtxDeadlineExceeded | CtxOther (msg : list Z).
Definition ctxText (e : ctxErr) : list Z :=
  match e with
  | CtxCanceled => str "context canceled"
  | CtxDeadlineExceeded => str "context deadline exceeded"
  | CtxOther msg => msg
  end.

(** A [Status]; its details are not used. *)
Record Status := mkStatus { st_Code : Code; st_Message : list Z; st_Err : option (list Z) }.
Definition Status_Error (s : Status) : list Z := default (st_Message s) (st_Err s).

Definition ContextErr (err : ctxErr) : Status :=
  match err with
  | CtxDeadlineExceeded => mkStatus DeadlineExceeded (ctxText err) None
  | CtxCanceled => mkStatus Canceled (ctxText err) None
  | CtxOther msg => mkStatus Internal (str "Unexpected error from context packet: " ++ msg) None
  end.

(** [ConnectionError]: the text, whether it is temporary, and the error it wraps, by
    its text. *)
Record connErr := mkConnErr { ce_Desc : list Z; ce_temp : bool; ce_err : option (list Z) }.
Definition connectionErrorf (temp : bool) (e : option (list Z)) (desc : list Z) : connErr := mkConnErr desc temp e.
Definition connErr_Error (isPrint : Z -> bool) (e : connErr) : list Z :=
  str "connection error: desc = " ++ Quote isPrint (ce_Desc e).
Definition ErrConnClosing : connErr := connectionErrorf true None (str "transport is closing").
Definition Temporary (e : connErr) : bool := ce_temp e.
Definition Unwrap (e : connErr) : option (list Z) := ce_err e.
Definition Origin (e : connErr) : connErr + list Z := match ce_err e with None => inl e | Some o => inr o end.

(** The table of codes for HTTP/2 errors gives codes of gRPC. *)
Lemma http2ErrConvTab_codes code : 0 <= http2ErrConvTab code < maxCode.
Proof.
  unfold http2ErrConvTab, maxCode. set (l := [_; _; _; _; _; _; _; _; _; _; _; _; _; _]).
  assert (H : Forall (fun c => 0 <= c < 17) l) by (repeat constructor; lia).
  destruct (nth_in_or_default (Z.to_nat code) l 0) as [Hin|Hd]; [|rewrite Hd; lia].
  rewrite Forall_forall in H. apply H. by apply list_elem_of_In.
Qed.

(** The codes for HTTP statuses; a status that is not in the table has none. *)
Definition HTTPStatusConvTab : gmap Z Code :=
  list_to_map [(400, Internal); (401, Unauthenticated); (403, PermissionDenied); (404, Unimplemented);
               (429, Unavailable); (502, Unavailable); (503, Unavailable); (504, Unavailable)].

(** ** The address to dial *)
Section Target.
(** [url.Parse]: scheme, host and path. *)
Context (urlParse : list Z -> option (list Z * list Z * list Z)).

(** [strings.Index] *)
Fixpoint Index (s sub : list Z) : option nat :=
  if bool_decide (sub `prefix_of` s) then Some 0%nat else
  match s with [] => None | _ :: s => S <$> Index s sub end.

Definition parseDialTarget (target : list Z) : list Z * list Z :=
  let net := str "tcp" in
  let m1 := Index target (str ":") in
  let m2 := Index target (str ":/") in
  let url :=
    match m2 with
    | None => (net, target)
    | Some _ =>
        match urlParse target with
        | None => (net, target)
        | Some (scheme, host, path) =>
            if bool_decide (scheme = str "unix") then (scheme, if bool_decide (path = []) then host else path)
            else (net, target)
        end
    end in
  match m1, m2 with
  | Some m1, None =>
      if bool_decide (take m1 target = str "unix") then (take m1 target, drop (S m1) target) else url
  | _, _ => url
  end.

(** A target is a socket of the host or is dialed as it is. *)
Lemma parseDialTarget_net target : parseDialTarget target = (str "tcp", target) \/ (parseDialTarget target).1 = str "unix".
Proof.
  unfold parseDialTarget. repeat (case_match; simplify_eq/=; try case_bool_decide; try by left); by right.
Qed.
End Target.

Example dial_unix : parseDialTarget (fun _ => None) (str "unix:/run/s") = (str "tcp", str "unix:/run/s").
Proof. reflexivity. Qed.
Example dial_unix_relative : parseDialTarget (fun _ => None) (str "unix:run/s") = (str "unix", str "run/s").
Proof. reflexivity. Qed.

(** ** The values of a stream's context *)

(** The map is nil until the first [SetValue]; other keys than strings, and all
    keys before that, are those of the request's context. *)
Record streamValues := mkValues { userValues : option (gmap (list Z) Z); ctxValue : list Z + Z -> option Z }.
Definition Value (v : streamValues) (key : list Z + Z) : option Z :=
  match key, userValues v with
  | inl k, Some m => m !! k
  | _, _ => ctxValue v key
  end.
Definition SetValue (v : streamValues) (key : list Z) (val : Z) : streamValues :=
  mkValues (Some (<[key := val]> (default ∅ (userValues v)))) (ctxValue v).

Lemma Value_SetValue v key val k :
  Value (SetValue v key val) (inl k) = if decide (k = key) then Some val else m ← userValues v; m !! k.
Proof.
  unfold Value, SetValue. cbn [userValues]. case_decide as H; [subst; apply lookup_insert_eq|].
  rewrite lookup_insert_ne by done. by destruct (userValues v).
Qed.
(** The first value set hides those of the request's context. *)
Lemma SetValue_hides v key val k :
  userValues v = None -> k <> key -> Value (SetValue v key val) (inl k) = None.
Proof. intros Hn Hk. rewrite Value_SetValue, decide_False by done. by rewrite Hn. Qed.

(** ** Requests *)
Section Requests.
Context {Q : Type} `{!Queue Q cbItem}.
Context (rangeHeader : httpHeader -> list (list Z)).

(** [Dial] makes a stream and sends its headers; [timeout] and [body] as for
    [DialStream]. *)
Definition Dial (r : Request) (timeout : option Z) (body : bool) : @M Q (tErr + loc) :=
  p ← NewStreamReq r;
  e ← DialStream rangeHeader p timeout body;
  mret (match e with Some e => inl e | None => inr p end).

Definition RoundTrip (r : Request) (timeout : option Z) (body : bool) (ctxErr : option tErr) : @M Q (tErr + loc) :=
  d ← Dial r timeout body;
  match d with
  | inl e => mret (inl e)
  | inr p => WaitHeaders p ctxErr;; mret (inr p)
  end.

(** [H2Stream.Do] *)
Definition Do (p : loc) (timeout : option Z) (body : bool) : @M Q (option tErr) :=
  s ← getS p;
  d ← Dial (s_Request s) timeout body;
  mret (match d with inl e => Some e | inr _ => None end).

(** [NewGRPCStream]: the URL is parsed elsewhere; if that fails the request is nil
    and adding to its headers panics. *)
Definition NewGRPCStream (url : option URL) : @M Q loc :=
  u ← lift url;
  let h := Header_Add (Header_Add ∅ (str "content-type") (str "application/grpc")) (str "te") (str "trailers") in
  NewStreamReq (mkRequest (str "POST") (u_Host u) (Some u) h).

(** [H2Stream.Write], as an [io.Writer]. *)
Definition StreamWrite (p : loc) (d : list Z) : @M Q (Z * option tErr) :=
  e ← Write rangeHeader p (Some d) false;
  mret (match e with Some e => (0, Some e) | None => (len d, None) end).

(** [H2Stream.Send] of a buffer: the bytes before its start become the prefix of a
    gRPC message, a zero and the length. *)
Definition grpcFrame (msg : list Z) : list Z := 0 :: writeUint32 (u32 (len msg)) ++ msg.
Definition StreamSend (p : loc) (msg : list Z) : @M Q (option tErr) :=
  updS p (fun s => with_SentPackets s (s_SentPackets s + 1));;
  r ← StreamWrite p (grpcFrame msg);
  mret r.2.

(** [getOutFlowWindow]: what its [select] got, from loopy, from the end of the
    connection, or after a second. *)
Inductive flowAnswer := FlowSize (sz : Z) | FlowDone | FlowTimeout.
Definition getOutFlowWindow (resp : callback) (got : flowAnswer) : @M Q Z :=
  put_ (ItFlowRequest resp);;
  mret (match got with FlowSize sz => sz | FlowDone => -1 | FlowTimeout => -2 end).

(** [GetGoAwayReason], without the text. *)
Definition GetGoAwayReason : @M Q GoAwayReason := gets t_goAwayReason.

(** [Do] dials a stream of its own: the stream it is called on is not changed, and
    nothing is ever sent on it. *)
Definition same_stream (p : loc) (s : H2Stream) (t : @H2Transport Q) : Prop := t_strs t !! p = Some s.
Lemma same_updS p s q f B : q <> p -> Keeps (same_stream p s) B (updS q f).
Proof. intros Hne. apply keeps_updS. intros t s' _ Hs. unfold same_stream. cbn. by rewrite lookup_insert_ne. Qed.
Hint Extern 1 (Keeps (same_stream _ _) _ (updS _ _)) => apply same_updS; assumption : keeps.

Lemma new_other p s r B :
  Triple (same_stream p s) (NewStreamReq r) (fun q t => same_stream p s t /\ q <> p) B.
Proof.
  intros t Hs. unfold same_stream in *. cbn. assert (fresh (dom (t_strs t)) <> p) as Hne.
  { intros E. apply (is_fresh (dom (t_strs t))). rewrite E. by apply elem_of_dom_2 in Hs. }
  split; [|done]. cbn. by rewrite lookup_insert_ne.
Qed.
Lemma dial_other p s q timeout body : q <> p -> Keeps (same_stream p s) (same_stream p s) (DialStream rangeHeader q timeout body).
Proof. intros Hne. unfold DialStream, writeRequestHeaders, checkForStreamQuota, fitsHeaderList. keeps_ops. Qed.
Lemma Do_other p s timeout body :
  Keeps (same_stream p s) (same_stream p s) (Do p timeout body).
Proof.
  unfold Do, Dial. apply keeps_bind; [keeps|intros s0]. apply keeps_bind; [|intros ?; keeps].
  eapply triple_bind; [apply new_other|]. intros q t [Ht Hne]. revert t Ht. change (Keeps (same_stream p s) (same_stream p s)
    (e ← DialStream rangeHeader q timeout body; mret (match e with Some e => inl e | None => inr q end))).
  apply keeps_bind; [by apply dial_other|intros ?; keeps].
Qed.
End Requests.

(** ** Reading *)

(** The bytes in a receive buffer. *)
Definition data_of (q : list recvMsg) : list Z := q ≫= fun m => match m with MData d => d | MErr _ => [] end.

Lemma data_of_app q d : data_of (q ++ [MData d]) = data_of q ++ d.
Proof. unfold data_of. rewrite bind_app. cbn [mbind list_bind]. by rewrite app_nil_r. Qed.

(** What nio's receive buffer promises: [Read] into [n] bytes takes bytes from the
    front, and at most [n]; it may return an error as well.  [None] when it waits. *)
Class Receiver (recvRead : list recvMsg -> Z -> option (list recvMsg * list Z * option tErr)) : Prop := {
  recv_order : forall q n q' d e, recvRead q n = Some (q', d, e) -> data_of q = d ++ data_of q' /\ len d <= Z.max 0 n
}.

(** A buffer that reads one message at a time. *)
Definition readQueue (q : list recvMsg) (n : Z) : option (list recvMsg * list Z * option tErr) :=
  match q with
  | [] => None
  | MErr e :: q' => Some (q, [], e)
  | MData d :: q' =>
      let k := Z.to_nat n in
      Some (if (length d <=? k)%nat then (q', d, None) else (MData (drop k d) :: q', take k d, None))
  end.
#[export] Instance readQueue_Receiver : Receiver readQueue.
Proof.
  split. intros q n q' d e. destruct q as [|[d'|e'] q]; cbn [readQueue]; [done| |].
  - destruct (Nat.leb_spec (length d') (Z.to_nat n)); intros [= <- <- <-]; cbn [data_of mbind list_bind].
    + split; [done|]. unfold len. lia.
    + rewrite app_assoc, take_drop. split; [done|]. unfold len. rewrite length_take. lia.
  - intros [= <- <- <-]. split; [done|]. rewrite len_nil. lia.
Qed.

Section Reading.
Context {Q : Type} `{!Queue Q cbItem}.
Context (recvRead : list recvMsg -> Z -> option (list recvMsg * list Z * option tErr)) `{!Receiver recvRead}.
Implicit Types t : @H2Transport Q.

(** [H2Stream.Read] into a buffer of [n] bytes: what it read, or that it waits
    ([None]).  A stream with a callback has no buffer. *)
Inductive readErr := RdCallback | RdErr (e : option tErr).
Definition readOnly (p : loc) (n : Z) : @M Q (option (list Z * readErr)) :=
  s ← getS p;
  match s_inFrameList s with
  | None => mret (Some ([], RdCallback))
  | Some q =>
      match recvRead q n with
      | None => mret None
      | Some (q', d, e) => updS p (fun s => with_inFrameList s (Some q'));; mret (Some (d, RdErr e))
      end
  end.
Definition Read (p : loc) (n : Z) : @M Q (option (list Z * readErr)) :=
  r ← readOnly p n;
  match r with
  | Some (d, RdErr _) => when (len d >? 0) (UpdateWindow p (u32 (len d)))
  | _ => mret tt
  end;;
  mret r.

(** [RecvRaw]: a whole message; [recvMsg] decides like [recvRead]. *)
Definition RecvRaw (recv : list recvMsg -> option (list recvMsg * option (list Z) * option tErr)) (p : loc)
    : @M Q (option (option (list Z) * readErr)) :=
  s ← getS p;
  match s_inFrameList s with
  | None => mret (Some (None, RdCallback))
  | Some q =>
      match recv q with
      | None => mret None
      | Some (q', bb, e) =>
          updS p (fun s => with_inFrameList s (Some q'));;
          match bb with Some b => UpdateWindow p (u32 (len b)) | None => mret tt end;;
          mret (Some (bb, RdErr e))
      end
  end.

(** [Err]: [bufErr] is the error the receive buffer remembers. *)
Definition StreamErr (p : loc) (bufErr : option tErr) : @M Q (option tErr) :=
  s ← getS p;
  mret (match s_done s with
        | ClosedChan => Some ErrContext
        | _ =>
            match s_Error s with
            | Some e => Some e
            | None =>
                match s_inFrameList s, bufErr with
                | Some _, Some ErrEOF => None
                | Some _, e => e
                | None, _ => None
                end
            end
        end).

(** *** What a reader gets, and what it gives back *)

(** At most a quarter of the window is held back. *)
Definition quarter (f : inFlow) : Prop := pendingUpdate f = 0 \/ pendingUpdate f < limit f / 4.
Lemma onRead_quarter f W n : books f W -> 0 <= n <= pendingData f -> quarter f ->
  quarter (inFlow_onRead f n).1 /\ limit (inFlow_onRead f n).1 = limit f /\
  pendingData (inFlow_onRead f n).1 = pendingData f - n.
Proof.
  intros [HW Hp Hm Hs] Hn Hq. pose proof max_window. unfold inFlow_onRead, quarter in *.
  destruct (Z.eqb_spec (pendingData f) 0); [simpl; split_and!; [done|done|lia]|].
  rewrite (u32_small (pendingData f - n)) by lia.
  destruct (if n >? delta f then _ else _) as [k d].
  destruct (Z.geb_spec (u32 (pendingUpdate f + k)) (limit f / 4)); simpl; [auto|].
  case_match; simpl; auto.
Qed.

Lemma wp_UpdateWindow t p s f n (P : () -> _ -> Prop) :
  cb_ok t -> t_strs t !! p = Some s -> s_inFlow s = Some f ->
  (forall t', streams_become t (<[p := with_inFlow s (Some (inFlow_onRead f n).1)]> (t_strs t)) t' -> P tt t') ->
  wp (UpdateWindow p n) t P.
Proof.
  intros Hok Hs Hf HP. unfold UpdateWindow. apply wp_bind, (wp_getS _ s); [done|]. apply wp_bind, (wp_lift _ f); [done|].
  destruct (inFlow_onRead f n) as [f' w]. cbn [fst] in HP. apply wp_bind, (wp_updS _ s); [done|].
  set (t1 := set_strs _ t).
  assert (H1 : streams_become t (<[p := with_inFlow s (Some f')]> (t_strs t)) t1) by (by split).
  apply wp_when; [intros _; by eapply wp_put_sb|intros _; by apply HP].
Qed.

(** The flow of a stream whose buffer holds [q]: what was read and is not yet
    acknowledged, and what was not read, make up the pending bytes. *)
Record rx_ok (f : inFlow) (q : list recvMsg) : Prop := {
  rx_books : books f (window f);
  rx_quarter : quarter f;
  rx_pending : pendingData f = len (data_of q)
}.
Definition readFlow (f : inFlow) (d : list Z) : inFlow := if len d >? 0 then (inFlow_onRead f (len d)).1 else f.

Lemma readFlow_ok f q q' d : rx_ok f q -> data_of q = d ++ data_of q' ->
  rx_ok (readFlow f d) q' /\ limit (readFlow f d) = limit f.
Proof.
  intros [Hb Hq Hp] Hd. rewrite Hd, len_app in Hp. pose proof (len_nonneg d). pose proof (len_nonneg (data_of q')).
  unfold readFlow. destruct (Z.gtb_spec (len d) 0).
  - destruct (onRead_quarter f _ (len d) Hb ltac:(lia) Hq) as (Hq' & Hl & Hp').
    pose proof (onRead_books f _ (len d) Hb ltac:(lia)) as Hb'. split; [|done]. split; [|done|lia].
    destruct Hb'. split; [unfold window; lia|done|done|unfold window; lia].
  - split; [|done]. split; [done|done|lia].
Qed.

Lemma wp_Read t m id p s f q n q' d e :
  receiving t m id p s f q -> rx_ok f q -> recvRead q n = Some (q', d, e) ->
  wp (Read p n) t (fun r t' => r = Some (d, RdErr e) /\
    streams_become t (<[p := with_inFlow (with_inFrameList s (Some q')) (Some (readFlow f d))]> (t_strs t)) t').
Proof.
  intros [Hok Ha Hid Hs Ho Hd Hl Hf] Hrx Hr. unfold Read, readOnly. apply wp_bind, wp_bind, (wp_getS _ s); [done|].
  rewrite Hl, Hr. apply wp_bind, (wp_updS _ s); [done|]. wps. set (t1 := set_strs _ t).
  assert (Hs1 : t_strs t1 !! p = Some (with_inFrameList s (Some q'))) by apply lookup_insert_eq.
  unfold readFlow. destruct (recv_order _ _ _ _ _ Hr) as [Hdata _].
  destruct Hrx as [Hb _ Hp]. rewrite Hdata, len_app in Hp. pose proof (len_nonneg d). pose proof (len_nonneg (data_of q')).
  apply wp_when.
  - intros ->. assert (u32 (len d) = len d) as -> by (apply u32_small; destruct Hb; pose proof max_window; lia).
    apply (wp_UpdateWindow t1 p (with_inFrameList s (Some q')) f); [done|done|done|]. intros t2 H2. wps. split; [done|].
    unfold t1 in H2. cbn [t_strs set_strs] in H2. rewrite insert_insert_eq in H2. destruct H2. by split.
  - intros ->. wps. split; [done|]. split; try done. unfold t1. cbn [t_strs set_strs]. f_equal.
    destruct s; cbn in *. by rewrite Hf.
Qed.

(** *** A stream that is sent to and read from *)
Inductive rxOp := RxData (d : list Z) | RxRead (n : Z).
Definition rxStep (id : Z) (p : loc) (op : rxOp) : @M Q (list Z) :=
  match op with
  | RxData d => handleData (dataHeader id (len d) false) d;; mret []
  | RxRead n => r ← Read p n; mret (match r with Some (d, _) => d | None => [] end)
  end.
Fixpoint rxRun (id : Z) (p : loc) (ops : list rxOp) : @M Q (list Z) :=
  match ops with
  | [] => mret []
  | op :: ops => d ← rxStep id p op; ds ← rxRun id p ops; mret (d ++ ds)
  end.
Definition sent_bytes (ops : list rxOp) : list Z := ops ≫= fun op => match op with RxData d => d | RxRead _ => [] end.

(** The peer keeps to its window, which the reads give back. *)
Fixpoint obeys (f : inFlow) (q : list recvMsg) (ops : list rxOp) : Prop :=
  match ops with
  | [] => True
  | RxData d :: ops =>
      d <> [] /\ len d <= window f /\ obeys (inFlow_onData f (len d)).1 (q ++ [MData d]) ops
  | RxRead n :: ops =>
      match recvRead q n with
      | Some (q', d, _) => obeys (readFlow f d) q' ops
      | None => obeys f q ops
      end
  end.

Lemma onData_rx f q d : rx_ok f q -> len d <= window f ->
  exists f', inFlow_onData f (len d) = (f', None) /\ rx_ok f' (q ++ [MData d]) /\ limit f' = limit f.
Proof.
  intros [Hb Hq Hp] Hw. pose proof (len_nonneg d). pose proof max_window.
  rewrite (onData_books f (window f) (len d)) by (done || destruct Hb; unfold window in *; lia).
  destruct (Z.gtb_spec (len d) (window f)); [lia|]. eexists. split; [done|]. split; [|done]. destruct Hb. split.
  - split; unfold window in *; simpl; lia.
  - done.
  - cbn. rewrite data_of_app, len_app. lia.
Qed.

Lemma rxRun_spec m id p ops : forall t s f q,
  receiving t m id p s f q -> rx_ok f q -> obeys f q ops ->
  wp (rxRun id p ops) t (fun out t' => exists s' f' q', receiving t' m id p s' f' q' /\ rx_ok f' q' /\
    limit f' = limit f /\ data_of q ++ sent_bytes ops = out ++ data_of q').
Proof.
  induction ops as [|op ops IH]; intros t s f q Hr Hrx Ho; cbn [rxRun].
  { wps. exists s, f, q. split_and!; [done|done|done|]. by rewrite app_nil_r. }
  apply wp_bind. destruct op as [d|n]; cbn [rxStep].
  - destruct Ho as (Hne & Hw & Ho). destruct (onData_rx f q d Hrx Hw) as (f' & Hon & Hrx' & Hlim).
    rewrite Hon in Ho. cbn [fst] in Ho. apply wp_bind.
    eapply wp_weaken; [by apply (handleData_spec t m id p s f q f')|]. intros ? t1 H1. wps.
    assert (Hr1 : receiving t1 m id p (received s f' q d) f' (q ++ [MData d])).
    { destruct Hr. split; try done; [apply H1|by rewrite (sb_active _ _ _ H1)|].
      rewrite (sb_strs _ _ _ H1). apply lookup_insert_eq. }
    eapply wp_weaken; [by apply (IH t1 _ f' _ Hr1 Hrx' Ho)|]. intros out t2 (s' & f2 & q2 & H2 & H3 & H4 & H5). wps.
    exists s', f2, q2. split_and!; [done|done|congruence|]. rewrite app_nil_l, <- H5, data_of_app. unfold sent_bytes.
    cbn [mbind list_bind]. by rewrite <- app_assoc.
  - cbn [obeys] in Ho. destruct (recvRead q n) as [[[q' d] e]|] eqn:Er.
    + destruct (recv_order _ _ _ _ _ Er) as [Hd _]. destruct (readFlow_ok f q q' d Hrx Hd) as [Hrx' Hlim].
      apply wp_bind. eapply wp_weaken; [by apply (wp_Read t m id p s f q n q' d e)|]. intros r t1 [-> H1]. wps.
      assert (Hr1 : receiving t1 m id p (with_inFlow (with_inFrameList s (Some q')) (Some (readFlow f d))) (readFlow f d) q').
      { destruct Hr. split; try done; [apply H1|by rewrite (sb_active _ _ _ H1)|].
        rewrite (sb_strs _ _ _ H1). apply lookup_insert_eq. }
      eapply wp_weaken; [by apply (IH t1 _ _ _ Hr1 Hrx' Ho)|]. intros out t2 (s' & f2 & q2 & H2 & H3 & H4 & H5). wps.
      exists s', f2, q2. split_and!; [done|done|congruence|]. rewrite Hd, <- !app_assoc. f_equal. exact H5.
    + unfold Read, readOnly. pose proof Hr as [_ _ _ Hs _ _ Hl _]. do 3 apply wp_bind. apply (wp_getS _ s); [done|].
      rewrite Hl, Er. wps. eapply wp_weaken; [by apply (IH t s f q Hr Hrx Ho)|]. intros out t2 H. wps. exact H.
Qed.

Lemma drained_window f q : rx_ok f q -> data_of q = [] -> 3 * limit f <= 4 * window f.
Proof.
  intros [Hb Hq Hp] Hd. rewrite Hd, len_nil in Hp. destruct Hb as [_ (? & ? & ? & ?) _ _]. unfold window, quarter in *.
  Z.to_euclidean_division_equations; lia.
Qed.

(** C15.  A stream delivers to its reader the bytes its peer sent, and keeps giving
    the peer room to send more.  Take any sequence of DATA frames, each within the
    window that is left, and of reads of any sizes in between.  All of it completes
    without an error or a reset: the bytes the reads returned, followed by those
    still in the buffer, are the bytes that were there followed by all that were
    sent, in order; and whenever the reader has caught up, at least three quarters
    of the window are open to the peer, so a reader that keeps reading never stalls
    its stream. *)
Theorem stream_receives t m id p s f q ops :
  receiving t m id p s f q -> rx_ok f q -> obeys f q ops ->
  exists t' out s' f' q',
    rxRun id p ops t = Done t' out /\ receiving t' m id p s' f' q' /\
    data_of q ++ sent_bytes ops = out ++ data_of q' /\
    (data_of q' = [] -> 3 * limit f <= 4 * window f').
Proof.
  intros Hr Hrx Ho. destruct (wp_elim _ _ _ (rxRun_spec m id p ops t s f q Hr Hrx Ho))
    as (t' & out & E & s' & f' & q' & Hr' & Hrx' & Hl & Hd).
  exists t', out, s', f', q'. split_and!; [done|done|done|]. intros Hn. rewrite <- Hl. by apply (drained_window _ q').
Qed.
End Reading.

Module ApiSample.
Definition ops : list rxOp := [RxData [1; 2; 3]; RxRead 2; RxData [4]; RxRead 2; RxRead 5].
End ApiSample.

Lemma stream_receives_witness :
  exists t' s' f' q', rxRun readQueue 1 0%nat ApiSample.ops SpecSample.opened = Done t' [1; 2; 3; 4] /\
    receiving t' SpecSample.active 1 0%nat s' f' q' /\ data_of q' = [] /\ 3 * limit SpecSample.flow <= 4 * window f'.
Proof.
  destruct (stream_receives readQueue SpecSample.opened SpecSample.active 1 0%nat SpecSample.stream SpecSample.flow []
    ApiSample.ops) as (t' & out & s' & f' & q' & E & Hr & Hd & Hw).
  - split; [apply sample_cb_ok|vm_compute; reflexivity..].
  - split; [|by left|reflexivity]. split; vm_compute; intuition congruence.
  - vm_compute. intuition congruence.
  - assert (out = [1; 2; 3; 4]) as ->.
    { pose proof E as E'. vm_compute in E'. congruence. }
    assert (Hn : data_of q' = []).
    { apply (f_equal (@length Z)) in Hd. rewrite !length_app in Hd. cbn in Hd. destruct (data_of q'); [done|simpl in Hd; lia]. }
    exists t', s', f', q'. auto.
Defined.
