(* ===== verification/Serve.v ===== *)
(** * The goroutine that reads a connection: h2/h2_connection_server.go, h2/h2_connection.go

    The loops of [HandleStreams] and [H2ClientTransport.reader] on the bytes of the
    connection, with the work loopy does meanwhile.  Their fuel is a number of
    turns; every turn but the last takes a frame header of nine bytes at least, so
    the length of the input is enough. *)
From S2P Require Import Loopy Prelude HpackTables HpackCodec Frame FrameRead FrameTyped FlowControl Lists ControlBuf.
From S2P Require Import Timeout Messages Events Bdp Transport TransportInv TransportSpec.

Section Loops.
Context {Q : Type} `{!Queue Q cbItem}.
Context (rangeActive : gmap Z loc -> list (Z * loc)) (chunkCap : Z -> Z) (wrErr : writeCall -> option tErr).

(** What loopy does to the connection: it takes an item, it handles an outgoing
    GOAWAY, or it ends. *)
Inductive loopyOp := LTake (block : bool) | LGoAway (g : goAway) | LEnds.
Definition loopyDo (o : loopyOp) : @M Q () :=
  match o with
  | LTake block => c ← gets t_controlBuf; '(c, _) ← lift (get block c); modify (set_controlBuf c)
  | LGoAway g => _ ← outgoingGoAwayHandler wrErr g; mret tt
  | LEnds => loopyEnds
  end.

(** [controlBuf.throttle] *)
Definition throttle : @M Q () :=
  c ← gets t_controlBuf; if throttled c then block WThrottle else mret tt.

(** The loops; [env n] is what loopy does and what the time is before the turn
    that leaves [n].  [None] when the fuel ran out. *)
Section Loop.
Context (step : readOutcome -> option reason -> Z -> @M Q bool).
Fixpoint readLoop (fuel : nat) (env : nat -> list loopyOp * Z) (fr : Framer) : @M Q (option Framer) :=
  match fuel with
  | O => mret None
  | S fuel =>
      forM (env fuel).1 loopyDo;; throttle;;
      let '(fr, o) := ReadFrame chunkCap fr in
      more ← step o (errDetail fr) (env fuel).2;
      if (more : bool) then readLoop fuel env fr else mret (Some fr)
  end.
End Loop.

Definition HandleStreams : nat -> (nat -> list loopyOp * Z) -> Framer -> @M Q (option Framer) :=
  readLoop (fun o _ now => handleStreams_step rangeActive o now).

(** [H2ClientTransport.reader]: the first frame, then the loop. *)
Definition clientReader (fuel : nat) (env : nat -> list loopyOp * Z) (fr : Framer) (now : Z) : @M Q (option Framer) :=
  let '(fr, o) := ReadFrame chunkCap fr in
  more ← reader_first rangeActive o now;
  if (more : bool) then readLoop (reader_step rangeActive) fuel env fr else mret (Some fr).

(** Does the loop go on after what was read?  A request is a header block that a
    side accepts a stream for: any at a server, one with an even id at a client. *)
Definition goes_on (o : readOutcome) : bool :=
  match o with Ret _ | Fail (StreamError _ _ _) => true | _ => false end.
Definition is_request (server : bool) (o : readOutcome) : bool :=
  match o with Ret (Meta mh) => server || (StreamID (mh_header mh) mod 2 =? 0) | _ => false end.

(** What is read until the connection ends. *)
Fixpoint reads (fuel : nat) (fr : Framer) : list readOutcome :=
  match fuel with
  | O => []
  | S fuel => let '(fr, o) := ReadFrame chunkCap fr in o :: (if goes_on o then reads fuel fr else [])
  end.
End Loops.

(** ** Every turn takes a frame header *)
Definition left (fr : Framer) : nat := length (rdata (fr_r fr)).

Lemma readFrameHeader_left r r' h : readFrameHeader r = (r', h) ->
  (exists i, h = Fail (IOErr i)) /\ (length (rdata r') <= length (rdata r))%nat \/
  (length (rdata r') + 9 <= length (rdata r))%nat.
Proof.
  unfold readFrameHeader. destruct (ReadFull_spec r frameHeaderLen) as (r0 & o & -> & Hnp & Hl & Hio & Hr).
  intros [= <- <-]. destruct o as [b|e|]; [|destruct (Hio e eq_refl) as [i ->]; eauto|done].
  destruct (Hr b eq_refl) as [_ H]. right. change (Z.to_nat frameHeaderLen) with 9%nat in H. lia.
Qed.

Lemma readOrdered_left chunkCap fr fr' o : readOrdered chunkCap fr = (fr', o) ->
  (exists i, o = Fail (IOErr i)) /\ (left fr' <= left fr)%nat \/ (left fr' + 9 <= left fr)%nat.
Proof.
  unfold readOrdered, left. cbn [fr_r set_lastFrame set_errDetail].
  destruct (readFrameHeader (fr_r fr)) as [r h] eqn:Eh. apply readFrameHeader_left in Eh as [[[i ->] Hl]|Hl].
  { intros [= <- <-]. left. eauto. }
  destruct h as [fh| |]; [|intros [= <- <-]; by right..].
  case_if; [intros [= <- <-]; by right|]. case_if; [intros [= <- <-]; by right|].
  cbn [fr_r set_r]. destruct (ReadFull_spec r (Length fh)) as (r2 & p & -> & _ & Hl2 & _ & _).
  intros E. right. assert (fr_r fr' = r2) as ->; [|lia]. revert E.
  destruct (obind p _) as [f|e|]; [|destruct e; by intros [= <- <-]|by intros [= <- <-]].
  destruct (checkFrameOrder _ f) as [fr2 o2] eqn:Eo. apply checkFrameOrder_reader in Eo. by intros [= <- <-].
Qed.

Lemma metaLoop_left readFrame fuel : (forall fr, (left (readFrame fr).1 <= left fr)%nat) ->
  forall fr st frag ended, (left (metaLoop readFrame fuel fr st frag ended).1 <= left fr)%nat.
Proof.
  intros Hread. induction fuel as [|fuel IH]; intros fr st frag ended; cbn [metaLoop].
  - destruct (ReadMetaHeaders fr); [|done]. destruct (dec_Write _ _ _ _) as [[[? ?] []]|]; [done| |done]. by case_if.
  - destruct (ReadMetaHeaders fr) as [d|]; [|done]. destruct (dec_Write _ _ _ _) as [[[d' st'] []]|]; [done| |done].
    case_if; [done|]. specialize (Hread (set_dec fr d')). destruct (readFrame (set_dec fr d')) as [fr' r].
    change (left (set_dec fr d')) with (left fr) in Hread. cbn [fst] in Hread.
    destruct r as [[f|]| |]; try done. destruct f; try done. case_if; [done|]. etrans; [apply IH|done].
Qed.

Lemma readMetaFrame_left readFrame fr fh prio frag : (forall fr, (left (readFrame fr).1 <= left fr)%nat) ->
  (left (readMetaFrame readFrame fr fh prio frag).1 <= left fr)%nat.
Proof.
  intros Hread. unfold readMetaFrame. case_if; [done|]. destruct (ReadMetaHeaders fr) as [d|]; [|done]. case_if; [done|].
  set (d0 := SetMaxStringLength _ _). set (st0 := mkMS _ _ _ _ _). set (n := S _). set (ended := Has _ _).
  pose proof (metaLoop_left readFrame n Hread (set_dec fr d0) st0 frag ended) as Hl.
  destruct (metaLoop _ _ _ _ _ _) as [fr1 r]. cbn [fst] in Hl. change (left (set_dec fr d0)) with (left fr) in Hl.
  destruct r as [st| |]; [|done..]. destruct (ReadMetaHeaders fr1) as [d1|]; [|done].
  destruct (dec_Close d1) as [d2 [|]]; [done|]. destruct (invalid st); [done|]. by destruct (checkPseudos _).
Qed.

Lemma ReadFrameN_left chunkCap depth fr : (left (ReadFrameN chunkCap depth fr).1 <= left fr)%nat.
Proof.
  revert fr. induction depth as [|depth IH]; intros fr; [done|]. cbn [ReadFrameN].
  destruct (readOrdered chunkCap fr) as [fr1 o] eqn:E. apply readOrdered_left in E.
  assert (left fr1 <= left fr)%nat by (destruct E as [[_ ?]|]; lia).
  destruct o as [f| |]; [|done..]. destruct f; try done. destruct (ReadMetaHeaders fr1); [|done].
  etrans; [by apply readMetaFrame_left|done].
Qed.

Lemma ReadFrame_progress chunkCap fr fr' o : ReadFrame chunkCap fr = (fr', o) ->
  (exists i, o = Fail (IOErr i)) \/ (left fr' + 9 <= left fr)%nat.
Proof.
  unfold ReadFrame. set (rec := ReadFrameN chunkCap 1). cbn [ReadFrameN]. fold rec.
  destruct (readOrdered chunkCap fr) as [fr1 r] eqn:E. apply readOrdered_left in E as [[[i ->] _]|Hl].
  { intros [= <- <-]. eauto. }
  destruct r as [f| |]; [|intros [= <- <-]; by right..].
  destruct f as [|fh prio frag| | | | | | | | |]; try (intros [= <- <-]; by right). destruct (ReadMetaHeaders fr1); [|intros [= <- <-]; by right].
  pose proof (readMetaFrame_left rec fr1 fh prio frag (ReadFrameN_left chunkCap 1)) as H.
  intros E. apply (f_equal (fun x => left x.1)) in E.
  change (left (readMetaFrame rec fr1 fh prio frag).1 = left fr') in E. right. lia.
Qed.

(** ** A connection without streams *)
Section Quiet.
Context {Q : Type} `{!Queue Q cbItem}.
Implicit Types t : @H2Transport Q.

(** The connection was shut down: everyone was told, and the network connection
    was closed. *)
Record shut t : Prop := {
  sh_closed : t_closed t = true;
  sh_done : t_done t = ClosedChan;
  sh_active : t_activeStreams t = None;
  sh_buf : err (t_controlBuf t) = true;
  sh_conn : EvConnClose ∈ t_log t
}.

(** No stream is there, no request waits to be written, and the connection is not
    being drained; it is open or shut down. *)
Record quiet t : Prop := {
  qt_lock : t_cbLocked t = false;
  qt_items : exists items, cb_wf (t_controlBuf t) items /\ orphans items = [];
  qt_events : ev_wf (t_events t);
  qt_streams : default ∅ (t_activeStreams t) = ∅;
  qt_drain : t_drainChan t = NilChan;
  qt_goAway : t_goAway t <> NilChan;
  qt_open : t_closed t = false -> t_done t = OpenChan;
  qt_shut : t_closed t = true -> shut t
}.

Abbreviation safe m := (forall t, quiet t -> wp m t (fun _ => quiet)).

Lemma quiet_closed t t' :
  quiet t -> t_cbLocked t' = t_cbLocked t -> t_controlBuf t' = t_controlBuf t -> t_events t' = t_events t ->
  t_activeStreams t' = t_activeStreams t -> t_drainChan t' = t_drainChan t ->
  (t_goAway t' = t_goAway t \/ t_goAway t' <> NilChan) -> t_closed t' = t_closed t -> t_done t' = t_done t ->
  t_log t `prefix_of` t_log t' -> quiet t'.
Proof.
  intros [Hl Hi He Hs Hd Hg Ho Hsh] E1 E2 E3 E4 E5 E6 E7 E8 [k E9].
  split; rewrite ?E1, ?E2, ?E3, ?E4, ?E5, ?E7, ?E8; try done; [by destruct E6 as [->|]|].
  intros Hc. destruct (Hsh Hc). split; rewrite ?E2, ?E4, ?E7, ?E8, ?E9; try done. set_solver.
Qed.

Lemma quiet_log t e : quiet t -> quiet (set_log (t_log t ++ [e]) t).
Proof. intros H. apply (quiet_closed t); auto. simpl. by exists [e]. Qed.

(** Events only add to the log. *)
Lemma wp_fire_log e p t (P : () -> _ -> Prop) : ev_wf (t_events t) -> valid_event e ->
  (forall lg, t_log t `prefix_of` lg -> P tt (set_log lg t)) -> wp (fireAll e p) t P.
Proof.
  intros He Hv HP. unfold fireAll. wps. destruct (fire_slots _ e He Hv) as (o & _ & Hf).
  apply (wp_lift _ _ _ _ Hf). clear Hf He. revert t HP. induction (default [] (HandleEvent <$> o)) as [|f l IH];
    intros t HP; cbn [forM]; wps.
  - specialize (HP (t_log t) (reflexivity _)). by destruct t.
  - apply IH. intros lg Hlg. apply (HP lg). etrans; [|exact Hlg]. by eexists.
Qed.
Lemma quiet_fire e p : valid_event e -> safe (fireAll e p).
Proof. intros Hv t Ht. apply wp_fire_log; [apply Ht|done|]. intros lg Hlg. apply (quiet_closed t); auto. Qed.

(** An item is put, or the buffer is finished. *)
Lemma orphans_app a b : orphans (a ++ b) = orphans a ++ orphans b.
Proof. apply bind_app. Qed.

Lemma quiet_buf t c items : quiet t -> cb_wf c items -> orphans items = [] -> err c = err (t_controlBuf t) ->
  quiet (set_controlBuf c t).
Proof.
  intros [Hl Hi He Hs Hd Hg Ho Hsh] Hwf Hor Herr. split; try done; [by exists items|].
  intros Hc. destruct (Hsh Hc). split; try done. cbn. congruence.
Qed.

Lemma quiet_executeAndPut f t (P : bool * option tErr -> _ -> Prop) :
  quiet t -> P (false, Some ErrClosing) t ->
  wp f t (fun bi t1 => quiet t1 /\ t_controlBuf t1 = t_controlBuf t /\ orphans [bi.2] = [] /\
    forall t2, quiet t2 -> P (bi.1, None) t2) ->
  wp (executeAndPut f) t P.
Proof.
  intros Hq He Hf. unfold executeAndPut, executeAndPutWith. do 2 apply wp_bind. unfold wp, gets at 1.
  rewrite (qt_lock _ Hq). unfold mbind at 1, M_bind at 1, gets. destruct (err (t_controlBuf t)) eqn:Ee; [done|].
  unfold wp in Hf. unfold mbind, M_bind. destruct (f t) as [t1 [b it]| |]; [|done..]. simpl in *.
  destruct Hf as (Hq1 & Hc & Hor & HP). destruct (qt_items _ Hq) as (items & Hwf & Hno).
  destruct (executeAndPut_ok b it (t_controlBuf t) items Hwf) as (c' & r & w & E & Hwf' & _ & Hw).
  rewrite Ee in Hwf', Hw. cbn [negb andb] in Hwf', Hw. rewrite E. simpl. apply HP.
  apply (quiet_buf _ _ (if b then items ++ [it] else items)); [done| | |].
  - destruct w; [|done]. by destruct Hwf'.
  - destruct b; [|done]. by rewrite orphans_app, Hno.
  - assert (He' : err c' = false); [|rewrite Hc, Ee; by destruct w].
    destruct b; [by destruct (Hw eq_refl) as (_ & _ & -> & _)|]. unfold ControlBuf.executeAndPut in E. rewrite Ee in E.
    injection E as <- _ _. done.
Qed.

Lemma quiet_put it : orphans [it] = [] -> safe (put_ it).
Proof.
  intros Hor t Ht. unfold put_, put. wps. apply quiet_executeAndPut; [done|done|]. wps. by split_and!.
Qed.

(** *** Shutting down *)
Context (rangeActive : gmap Z loc -> list (Z * loc)) (rangeActive_empty : rangeActive ∅ = []).

Lemma wp_finish t items (P : () -> _ -> Prop) :
  t_cbLocked t = false -> cb_wf (t_controlBuf t) items -> orphans items = [] ->
  (forall c, cb_wf c [] -> err c = true -> P tt (set_controlBuf c t)) -> wp finish t P.
Proof.
  intros Hl Hwf Hno HP. unfold finish. wps. rewrite Hl. wps. destruct (err (t_controlBuf t)) eqn:Ee.
  { wps. destruct (cw_err _ _ Hwf Ee) as [-> _]. specialize (HP _ Hwf Ee). by destruct t. }
  destruct (finish_ok (t_controlBuf t) items Hwf) as (c & cbs & E & Hwf' & Herr & _ & ->). rewrite Ee, Hno in E.
  apply wp_bind, (wp_lift _ _ _ _ E). wps. cbn [forM]. wps. specialize (HP _ Hwf' Herr). destruct t; cbn in *. by subst.
Qed.

Lemma quiet_loopyEnds : safe loopyEnds.
Proof.
  intros t Hq. unfold loopyEnds. wps. apply (quiet_log _ EvConnClose) in Hq. destruct (qt_items _ Hq) as (items & Hwf & Hno).
  apply (wp_finish _ items); [apply Hq|done|done|]. intros c Hc He. destruct Hq as [? _ ? ? ? ? ? Hsh].
  split; try done; [by exists []|]. intros H. destruct (Hsh H). by split.
Qed.

Lemma quiet_Close e t : quiet t -> wp (Close rangeActive e) t (fun _ t' => quiet t' /\ shut t').
Proof.
  intros Hq. unfold Close. wps. destruct (t_closed t) eqn:Ec; [wps; split; [done|by apply Hq]|]. wps.
  set (t1 := match t_Error _ with None => _ | Some _ => _ end).
  assert (H1 : t1 = set_Error (t_Error t1) (set_closed true t)) by (subst t1; destruct t; cbn; by case_match).
  clearbody t1. rewrite H1. clear H1. generalize (t_Error t1). intros er. clear t1.
  destruct Hq as [Hl (items & Hwf & Hno) He Hs Hd Hg Ho _].
  apply wp_fire_log; [done|by vm_compute|]. intros lg _. wps.
  apply (wp_weaken _ _ (fun _ t' => exists lg, t' = set_log lg (set_activeStreams None (set_Error er (set_closed true t))))).
  { apply wp_when; intros _; wps; by eexists. }
  intros _ ? [lg1 ->]. apply wp_bind, (wp_finish _ items); [done|done|done|]. intros c Hc Herr. wps.
  apply (wp_lift _ ClosedChan); [cbn; by rewrite Ho|]. wps. cbn [t_activeStreams set_activeStreams set_log set_Error set_closed].
  rewrite Hs, rangeActive_empty. cbn [forM]. wps.
  apply wp_fire_log; [done|by vm_compute|]. intros lg2 [k ->]. 
  match goal with |- quiet ?x /\ _ => assert (Hsh : shut x) by (split; try done; cbn; set_solver) end.
  split; [|done]. split; try done. by exists [].
Qed.

(** *** The handlers *)
Lemma quiet_bind {A C} (m : @M Q A) (k : A -> M C) : safe m -> (forall a, safe (k a)) -> safe (m ≫= k).
Proof. intros Hm Hk t Hq. apply wp_bind. eapply wp_weaken; [by apply Hm|]. intros a t' Hq'. by apply Hk. Qed.
Lemma safe_ret {A} (a : A) : safe (mret a).
Proof. done. Qed.
Lemma safe_gets {A} (f : @H2Transport Q -> A) : safe (gets f).
Proof. done. Qed.
Lemma safe_modify f : (forall t, quiet t -> quiet (f t)) -> safe (modify f).
Proof. intros Hf t Hq. by apply Hf. Qed.
Lemma safe_when b m : safe m -> safe (when b m).
Proof. destruct b; [auto|done]. Qed.
Lemma safe_if {A} (b : bool) (m n : @M Q A) : safe m -> safe n -> safe (if b then m else n).
Proof. by destruct b. Qed.
Lemma safe_log e : safe (log e).
Proof. intros t. apply quiet_log. Qed.
Lemma getStream_quiet id t : quiet t -> wp (getStream id) t (fun sp t' => sp = None /\ t' = t).
Proof.
  intros Hq. unfold getStream. wps. pose proof (qt_streams _ Hq) as Hs. split; [|done].
  destruct (t_activeStreams t) as [m|]; [|done]. cbn in *. subst m. apply lookup_empty.
Qed.
Lemma safe_getStream {C} id (k : option loc -> M C) : safe (k None) -> safe (getStream id ≫= k).
Proof.
  intros Hk t Hq. apply wp_bind. eapply wp_weaken; [by apply getStream_quiet|]. intros ? ? [-> ->]. by apply Hk.
Qed.
Lemma safe_active {C} (k : option (gmap Z loc) -> M C) :
  (forall a, default ∅ a = ∅ -> safe (k a)) -> safe (gets t_activeStreams ≫= k).
Proof. intros Hk t Hq. apply wp_bind, wp_gets. apply Hk; [apply Hq|done]. Qed.
Lemma safe_drain {C} (k : chan -> M C) : safe (k NilChan) -> safe (gets t_drainChan ≫= k).
Proof. intros Hk t Hq. apply wp_bind, wp_gets. rewrite (qt_drain _ Hq). by apply Hk. Qed.
Lemma safe_Close e : safe (Close rangeActive e).
Proof. intros t Hq. eapply wp_weaken; [by apply quiet_Close|]. by intros _ t' [? _]. Qed.

Create HintDb quiet.
Hint Resolve quiet_fire safe_Close quiet_loopyEnds : quiet.
Hint Extern 1 (safe (put_ _)) => apply quiet_put; reflexivity : quiet.
Hint Extern 1 (safe (MuxEvent _)) => apply quiet_fire; by vm_compute : quiet.
Ltac quiet_steps :=
  repeat (cbv zeta; lazymatch goal with
  | |- forall _, quiet _ -> wp (mret _) _ _ => apply safe_ret
  | |- forall _, quiet _ -> wp (log _) _ _ => apply safe_log
  | |- forall _, quiet _ -> wp (when _ _) _ _ => apply safe_when
  | |- forall _, quiet _ -> wp (modify _) _ _ =>
      apply safe_modify; let t := fresh in let H := fresh in intros t H; eapply (quiet_closed t); [exact H|..]; by auto
  | |- forall _, quiet _ -> wp (getStream _ ≫= _) _ _ => apply safe_getStream
  | |- forall _, quiet _ -> wp (gets t_drainChan ≫= _) _ _ => apply safe_drain
  | |- forall _, quiet _ -> wp (gets t_activeStreams ≫= _) _ _ => apply safe_active; intros ? ?
  | |- forall _, quiet _ -> wp (gets _ ≫= _) _ _ => apply quiet_bind; [apply safe_gets|intros ?]
  | |- forall _, quiet _ -> wp (_ ≫= _) _ _ => apply quiet_bind; [|intros ?]
  | |- forall _, quiet _ -> wp (match ?x with _ => _ end) _ _ => destruct x eqn:?
  | |- _ => solve [eauto with quiet]
  end).

Lemma quiet_updateFlowControl n : safe (updateFlowControl rangeActive n).
Proof.
  unfold updateFlowControl. apply safe_active. intros a ->. rewrite rangeActive_empty. cbn [forM]. quiet_steps.
Qed.
Hint Resolve quiet_updateFlowControl : quiet.
Lemma quiet_bdp_ack now d : safe (bdp_ack rangeActive now d).
Proof. unfold bdp_ack. quiet_steps. Qed.
Lemma quiet_bdp_count n : safe (bdp_count n).
Proof. unfold bdp_count. quiet_steps. Qed.
Hint Resolve quiet_bdp_ack quiet_bdp_count : quiet.
Lemma quiet_handleData fh d : safe (handleData fh d).
Proof. unfold handleData, connData, streamData. quiet_steps. Qed.
Lemma quiet_handleRSTStream fh c : safe (handleRSTStream fh c).
Proof. unfold handleRSTStream. quiet_steps. Qed.
Hint Resolve quiet_handleData quiet_handleRSTStream : quiet.

Lemma quiet_readSettings server p : safe (readSettings server p).
Proof.
  unfold readSettings. destruct (settings_safe p) as [l ->]. intros t Hq. apply wp_bind, (wp_lift _ l); [done|]. revert t Hq.
  quiet_steps.
Qed.
(** A function that runs under the lock of the buffer leaves it alone. *)
Definition under_lock (f : @M Q (bool * cbItem)) : Prop :=
  forall t, quiet t -> wp f t (fun bi t' => quiet t' /\ t_controlBuf t' = t_controlBuf t /\ orphans [bi.2] = []).
Lemma quiet_locked f : under_lock f -> safe (executeAndPut f).
Proof.
  intros Hf t Hq. apply quiet_executeAndPut; [done|done|]. eapply wp_weaken; [by apply Hf|]. intros bi t1 (? & ? & ?). by split_and!.
Qed.
Lemma quiet_applyLimits l t (P : () -> _ -> Prop) : quiet t ->
  (forall t', quiet t' -> t_controlBuf t' = t_controlBuf t -> P tt t') -> wp (applyLimits l) t P.
Proof.
  unfold applyLimits. revert t. induction l as [|v l IH]; intros t Hq HP; cbn [forM]; wps; [by apply HP|].
  apply IH; [by apply (quiet_closed t); auto|]. intros t' Hq' E. by apply HP.
Qed.
Lemma quiet_updateStreamQuota m t (P : () -> _ -> Prop) : quiet t ->
  (forall t', quiet t' -> t_controlBuf t' = t_controlBuf t -> P tt t') -> wp (updateStreamQuota m) t P.
Proof.
  intros Hq HP. unfold updateStreamQuota. wps.
  apply wp_when; intros _; wps; (apply HP; [by apply (quiet_closed t); auto|done]).
Qed.

Lemma quiet_handleSettingsServer fh p : safe (handleSettingsServer fh p).
Proof.
  unfold handleSettingsServer. quiet_steps; [by apply quiet_readSettings|]. apply quiet_locked. intros t Hq.
  apply wp_bind, quiet_applyLimits; [done|]. intros t' ? ?. wps. done.
Qed.
Lemma quiet_handleSettingsClient fh p first : safe (handleSettingsClient fh p first).
Proof.
  unfold handleSettingsClient. apply safe_if; [done|]. apply quiet_bind; [apply quiet_readSettings|intros r]. cbv zeta.
  apply quiet_bind; [|intros ?; quiet_steps]. apply quiet_locked. intros t Hq. apply wp_bind, quiet_applyLimits; [done|].
  intros t1 Hq1 E1. apply wp_bind. destruct (match sr_maxStreams r with None => _ | m => m end) as [m|]; [|by wps].
  apply quiet_updateStreamQuota; [done|]. intros t2 Hq2 E2. wps. split_and!; [done|congruence|done].
Qed.
Hint Resolve quiet_handleSettingsServer quiet_handleSettingsClient : quiet.
Lemma quiet_countStrike now : safe (countStrike now).
Proof. unfold countStrike. quiet_steps. Qed.
Hint Resolve quiet_countStrike : quiet.
Lemma quiet_handlePingServer fh d now : safe (handlePingServer rangeActive fh d now).
Proof.
  unfold handlePingServer. apply safe_if; [|quiet_steps]. apply safe_drain.
  rewrite (bool_decide_false (NilChan <> NilChan)), andb_false_r by auto. apply quiet_bdp_ack.
Qed.
Lemma quiet_handlePingClient fh d now : safe (handlePingClient rangeActive fh d now).
Proof. unfold handlePingClient. quiet_steps. Qed.
Lemma quiet_handleWindowUpdate fh i : safe (handleWindowUpdate fh i).
Proof. unfold handleWindowUpdate. quiet_steps. Qed.
Hint Resolve quiet_handlePingServer quiet_handlePingClient quiet_handleWindowUpdate : quiet.

Lemma quiet_handleGoAway id code d : safe (handleGoAway rangeActive id code d).
Proof.
  unfold handleGoAway. apply quiet_bind; [apply safe_gets|intros []; [apply safe_ret|]]. apply safe_if; [apply safe_Close|].
  intros t Hq. apply wp_bind, wp_gets. apply wp_bind, wp_gets. set (prev := t_prevGoAwayID t). apply wp_bind.
  apply (wp_weaken _ _ (fun _ => quiet)).
  - case_bool_decide as Hg; [done|]. unfold setGoAwayReason. wps.
    apply (wp_lift _ ClosedChan); [destruct (t_goAway t) eqn:E; [by apply qt_goAway in Hq|done|done]|]. wps.
    eapply wp_weaken; [apply quiet_put; [done|]; by apply (quiet_closed t); auto|]. intros ? t1 Hq1. cbv beta in Hq1. wps.
    eapply wp_weaken; [apply quiet_fire; [by vm_compute|done]|]. intros ? t2 Hq2. cbv beta in Hq2. wps. by apply (quiet_closed t2); auto.
  - intros bad t1 Hq1. revert t1 Hq1. apply safe_if; [apply safe_Close|]. cbv zeta.
    apply safe_active. intros a ->. rewrite rangeActive_empty. cbn [forM]. quiet_steps.
Qed.
Hint Resolve quiet_handleGoAway : quiet.
Context (wrErr : writeCall -> option tErr).
Lemma quiet_loopyDo o : safe (loopyDo wrErr o).
Proof.
  destruct o as [b|g|]; cbn [loopyDo]; [|unfold outgoingGoAwayHandler; quiet_steps|apply quiet_loopyEnds].
  intros t Hq. wps. destruct (qt_items _ Hq) as (items & Hwf & Hno).
  destruct (get_ok b _ _ Hwf) as (c & g & E & Hwf' & _ & He & _). apply (wp_lift _ _ _ _ E). wps.
  eapply quiet_buf; [done|exact Hwf'| |done]. destruct (err _); [done|]. destruct items as [|it items]; [done|].
  change (it :: items) with ([it] ++ items) in Hno. rewrite orphans_app in Hno. by apply app_nil in Hno as [_ ?].
Qed.
Lemma quiet_loopy l : safe (forM l (loopyDo wrErr)).
Proof. induction l as [|o l IH]; cbn [forM]; [done|]. apply quiet_bind; [apply quiet_loopyDo|intros _; exact IH]. Qed.

(** *** A turn *)

(** After what was read the loop goes on, or the connection is shut down. *)
Definition turn_ok (o : readOutcome) (m : @M Q bool) : Prop :=
  forall t, quiet t -> wp m t (fun more t' => quiet t' /\ more = goes_on o /\ (more = false -> shut t')).

Lemma turn_more o (m : @M Q ()) : goes_on o = true -> safe m -> turn_ok o (m;; mret true).
Proof. intros Ho Hm t Hq. apply wp_bind. eapply wp_weaken; [by apply Hm|]. intros ? t' Hq'. by apply wp_ret. Qed.
Lemma turn_last o e : goes_on o = false -> turn_ok o (Close rangeActive e;; mret false).
Proof. intros Ho t Hq. apply wp_bind. eapply wp_weaken; [by apply quiet_Close|]. intros ? t' []. by apply wp_ret. Qed.
Lemma turn_after o (m : @M Q ()) k : safe m -> turn_ok o k -> turn_ok o (m;; k).
Proof. intros Hm Hk t Hq. apply wp_bind. eapply wp_weaken; [by apply Hm|]. intros ? t' Hq'. by apply Hk. Qed.

Lemma turn_stream o id k : turn_ok o (k None) -> turn_ok o (getStream id ≫= k).
Proof.
  intros Hk t Hq. apply wp_bind. eapply wp_weaken; [by apply (getStream_quiet id)|]. intros ? t' [-> ->]. by apply Hk.
Qed.

Lemma serve_turn o now : o <> Panic -> is_request true o = false -> turn_ok o (handleStreams_step rangeActive o now).
Proof.
  intros Hp Hr. unfold handleStreams_step. do 2 (apply turn_after; [quiet_steps|]).
  destruct o as [[f|mh]|e|]; [|done| |done].
  - apply turn_more; [done|]. destruct f; quiet_steps.
  - destruct e as [| | | | | | | | | |[]]; try by apply turn_last. apply turn_stream. unfold refuse.
    apply turn_more; [done|]. quiet_steps.
Qed.
Lemma client_turn o detail now : o <> Panic -> is_request false o = false -> turn_ok o (reader_step rangeActive o detail now).
Proof.
  intros Hp Hr. unfold reader_step. apply turn_after; [quiet_steps|]. destruct o as [[f|mh]|e|]; [| | |done].
  - apply turn_more; [done|]. destruct f; quiet_steps.
  - cbn in Hr. apply turn_more; [done|]. unfold operateClientResponseHeaders, IsServer, operateResponseHeaders.
    rewrite Hr. cbn [andb]. quiet_steps.
  - destruct e; try by apply turn_last. apply turn_stream, turn_more; [done|]. quiet_steps.
Qed.
Lemma first_turn o now t : o <> Panic -> quiet t ->
  wp (reader_first rangeActive o now) t (fun more t' => quiet t' /\ (more = true -> goes_on o = true) /\ (more = false -> shut t')).
Proof.
  intros Hp. revert t. cut (forall e, turn_ok (Fail ErrFrameTooLarge) (Close rangeActive e;; mret false)); [|intros e; by apply turn_last].
  intros Hc. assert (Hw : forall e t, quiet t -> wp (Close rangeActive e;; mret false) t
    (fun more t' => quiet t' /\ (more = true -> goes_on o = true) /\ (more = false -> shut t'))).
  { intros e t Hq. eapply wp_weaken; [by apply Hc|]. intros more t' (? & -> & ?). by split_and!. }
  assert (Hm : forall k, (forall t, quiet t -> wp k t
    (fun more t' => quiet t' /\ (more = true -> goes_on o = true) /\ (more = false -> shut t'))) ->
    forall t, quiet t -> wp (modify (set_LastRead now);; k) t
    (fun more t' => quiet t' /\ (more = true -> goes_on o = true) /\ (more = false -> shut t'))).
  { intros k Hk t Hq. wps. apply Hk. by apply (quiet_closed t); auto. }
  unfold reader_first. destruct o as [[f|mh]|e|]; [|apply Hm, Hw|apply Hw|done].
  destruct f; try apply Hm, Hw. apply Hm. intros t Hq. apply wp_bind.
  eapply wp_weaken; [by apply quiet_handleSettingsClient|]. intros ? t' Hq'. by wps.
Qed.

(** *** The loops *)
Context (chunkCap : Z -> Z) (chunkCap_enough : forall n, n <= chunkCap n).

Lemma readLoop_fuel step fuel : (forall o d now t t' more, step o d now t = Done t' more -> more = true -> goes_on o = true) ->
  forall env fr t t' r, (left fr < fuel)%nat -> readLoop chunkCap wrErr step fuel env fr t = Done t' r -> is_Some r.
Proof.
  intros Hstep. induction fuel as [|fuel IH]; intros env fr t t' r Hl E; [lia|]. cbn [readLoop] in E.
  unfold mbind, M_bind in E. destruct (forM _ _ t) as [t1 []| |]; [|done..]. destruct (throttle t1) as [t2 []| |]; [|done..].
  destruct (ReadFrame chunkCap fr) as [fr1 o] eqn:Er. destruct (step _ _ _ _) as [t3 more| |] eqn:Es; [|done..].
  destruct more; [|by injection E as <- <-]. apply IH in E; [done|]. specialize (Hstep _ _ _ _ _ _ Es eq_refl).
  apply ReadFrame_progress in Er as [[i ->]|Hp]; [done|lia].
Qed.

Lemma reads_S fuel fr : reads chunkCap (S fuel) fr
  = (ReadFrame chunkCap fr).2 :: (if goes_on (ReadFrame chunkCap fr).2 then reads chunkCap fuel (ReadFrame chunkCap fr).1 else []).
Proof. cbn [reads]. by destruct (ReadFrame chunkCap fr). Qed.

(** How the loop of a connection without streams ends: shut down, or waiting for
    loopy. *)
Definition loop_ended (r : @result Q (option Framer)) : Prop :=
  match r with
  | Done t' r => is_Some r /\ quiet t' /\ shut t'
  | Blocks t' w => w = WThrottle /\ throttled (t_controlBuf t') = true
  | Crashes => False
  end.

Lemma readLoop_quiet server step fuel :
  (forall o d now, o <> Panic -> is_request server o = false -> turn_ok o (step o d now)) ->
  forall env fr t, fr_wf fr -> quiet t -> (left fr < fuel)%nat -> Forall (fun o => is_request server o = false) (reads chunkCap fuel fr) ->
  loop_ended (readLoop chunkCap wrErr step fuel env fr t).
Proof.
  intros Hstep. induction fuel as [|fuel IH]; intros env fr t Hwf Hq Hl Hr; [lia|]. rewrite reads_S in Hr. cbn [readLoop].
  apply Forall_cons in Hr as [Hr0 Hr].
  destruct (ReadFrame_safe chunkCap chunkCap_enough fr Hwf) as (fr1 & o & Er & Hnp & Hwf1 & _). rewrite Er in *. cbn [fst snd] in *.
  destruct (wp_elim _ _ _ (quiet_loopy (env fuel).1 t Hq)) as (t1 & [] & E1 & Hq1).
  unfold mbind at 1, M_bind at 1. rewrite E1. unfold throttle, mbind at 1, M_bind at 1, mbind at 1, M_bind at 1, gets at 1.
  destruct (throttled (t_controlBuf t1)) eqn:Et; [done|]. unfold mret at 1, M_ret at 1.
  destruct (wp_elim _ _ _ (Hstep o (errDetail fr1) (env fuel).2 Hnp Hr0 t1 Hq1)) as (t2 & more & E2 & Hq2 & -> & Hsh).
  unfold mbind, M_bind. rewrite E2. destruct (goes_on o) eqn:Eg; [|cbn; split_and!; [by eexists|done|by apply Hsh]].
  apply IH; [done|done| |done]. apply ReadFrame_progress in Er as [[i ->]|]; [done|lia].
Qed.

(** The loops end whatever is read. *)
Lemma last_turn o (m : @M Q ()) t t' more : (m;; mret false) t = Done t' more -> more = true -> goes_on o = true.
Proof. unfold mbind, M_bind, mret, M_ret. destruct (m t); intros [= <- <-]. done. Qed.
Lemma serve_more o now t t' more : handleStreams_step rangeActive o now t = Done t' more -> more = true -> goes_on o = true.
Proof.
  unfold handleStreams_step. destruct o as [|e|]; [done| |done]. unfold modify, mbind at 1, M_bind at 1, mbind at 1, M_bind at 1.
  destruct e as [| | | | | | | | | |[]]; try done; apply last_turn.
Qed.
Lemma client_more o d now t t' more : reader_step rangeActive o d now t = Done t' more -> more = true -> goes_on o = true.
Proof.
  unfold reader_step. destruct o as [|e|]; [done| |done]. unfold modify, mbind at 1, M_bind at 1.
  destruct e; try done; apply last_turn.
Qed.

End Quiet.

(** The connections a client and a server start with. *)
Lemma new_quiet {Q : Type} `{!Queue Q cbItem} (t : @H2Transport Q) :
  t_cbLocked t = false -> t_controlBuf t = newControlBuffer -> ev_wf (t_events t) -> t_activeStreams t = Some ∅ ->
  t_drainChan t = NilChan -> t_goAway t = OpenChan -> t_done t = OpenChan -> t_closed t = false -> quiet t.
Proof.
  intros H1 H2 H3 H4 H5 H6 H7 H8. split; rewrite ?H1, ?H2, ?H4, ?H5, ?H6, ?H7, ?H8; try done.
  exists []. split; [apply newControlBuffer_wf|done].
Qed.
Lemma newClient_quiet {Q : Type} `{!Queue Q cbItem} c ev now : ev_wf ev -> quiet (newClient (Q := Q) c ev now).
Proof. intros Hev. by apply new_quiet. Qed.
Lemma newServer_quiet {Q : Type} `{!Queue Q cbItem} c ev handle now (t : @H2Transport Q) :
  ev_wf ev -> newServer c ev handle now = Some t -> quiet t.
Proof.
  intros Hev. unfold newServer. rewrite Add_self by done. cbn [mbind option_bind]. intros [= <-]. by apply new_quiet.
Qed.

Module ServeSample.
(** Two pings of a client, the second cut short, and a server that nobody asked. *)
Definition bytes : list Z := [0; 0; 8; 6; 0; 0; 0; 0; 0; 1; 2; 3; 4; 5; 6; 7; 8; 0; 0; 8; 6].
Definition framer : Framer := NewFramer (mkReader bytes EOF).
Definition env (n : nat) : list loopyOp * Z := ([LTake true], 0).
Definition server : @H2Transport (itemList cbItem) :=
  default (newClient Sample.config no_events 0) (newServer Sample.config no_events true 0).
End ServeSample.

