(* ===== verification/Handshake.v ===== *)
(** * How a connection starts: h2/h2_connection.go, h2/h2_connection_server.go, h2/http_util.go

    [StartConn] writes the client preface and its first frames, and
    [NewServerConnection] reads them and writes its own; the framers of both sides
    are made by [newFramer].  The connection may fail any write: [wrErr n] is the
    error of the [n]-th one; a write without an error is not short, as [io.Writer]
    has it.  The bytes are those that reach the connection. *)
From S2P Require Import Loopy Prelude Bits HpackTables HpackHuffman HpackCodec HpackBlocks Frame FrameRead FrameTyped.
From S2P Require Import FlowControl Lists ControlBuf Timeout Messages Events Bdp Transport TransportInv TransportSpec.

Definition clientPreface : list Z := str "PRI * HTTP/2.0" ++ [13; 10; 13; 10] ++ str "SM" ++ [13; 10; 13; 10].
Definition http2InitHeaderTableSize : Z := 4096.
Definition defaultClientMaxHeaderListSize : Z := Z.shiftl 16 20.
Definition defaultServerMaxHeaderListSize : Z := Z.shiftl 16 20.

(** The framer of a connection; a buffer between it and the connection does not
    change what it reads. *)
Definition newFramer (r : reader) (maxHeaderListSize maxFrame : Z) : option Framer :=
  let fr := SetMaxReadFrameSize (NewFramer r) maxFrame in
  d ← NewDecoder http2InitHeaderTableSize;
  Some (mkFramer (fr_r fr) (lastFrame fr) (errDetail fr) (lastHeaderStream fr) (maxReadSize fr)
          (AllowIllegalReads fr) (Some d) maxHeaderListSize).

(** The first writes of a connection, one after the other: the bytes, or the error
    of the first that fails. *)
Fixpoint writeFrames (wrErr : nat -> option frameErr) (n : nat) (l : list writeCall) : outcome frameErr (list Z) :=
  match l with
  | [] => Ret []
  | c :: l =>
      obind (write false c) (fun b =>
      match wrErr n with
      | Some e => Fail e
      | None => obind (writeFrames wrErr (S n) l) (fun bs => Ret (b ++ bs))
      end)
  end.

Section Handshake.
Context {Q : Type} `{!Queue Q cbItem}.
Context (rangeActive : gmap Z loc -> list (Z * loc)) (chunkCap : Z -> Z) (wrErr : nat -> option frameErr).
Implicit Types t : @H2Transport Q.

(** [StartConn]: the bytes written, or the error and the connection after
    [Close].  The last write is that of [Flush]. *)
Inductive startResult :=
| Started (written : list Z) (t : @H2Transport Q)
| StartFailed (e : frameErr) (r : @result Q ())
| StartPanics.
Definition StartConn (c : H2Config) (t : @H2Transport Q) : startResult :=
  let fail e := StartFailed e (Close rangeActive (Some (ErrRead e)) t) in
  match wrErr 0 with
  | Some e => fail e
  | None =>
      match writeFrames wrErr 1 (startConn_writes c) with
      | Panic => StartPanics
      | Fail e => fail e
      | Ret bs =>
          match wrErr (S (length (startConn_writes c))) with
          | Some e => fail e
          | None => Started (clientPreface ++ bs) t
          end
      end
  end.
(** The framer that [StartConn] reads with. *)
Definition clientFramer (c : H2Config) (r : reader) : option Framer :=
  newFramer r (default defaultClientMaxHeaderListSize (Transport.MaxHeaderListSize c)) (configFrameSize c).

(** [NewServerConnection] *)
Inductive serverErr :=
| PrefaceEOF | PrefaceRead (e : frameErr) | BogusGreeting (preface : list Z) | SettingsWrite (e : frameErr)
| FirstFrame (e : frameErr) | InvalidPreface.
Inductive serverResult :=
| ServerUp (written : list Z) (fr : Framer) (t : @H2Transport Q)
| ServerErr (e : serverErr) (closed : option (@result Q ()))
| ServerWaits
| ServerPanics.

(** The settings of the client; anything else closes the connection. *)
Definition firstSettings (t : @H2Transport Q) (written : list Z) (now : Z) (fo : Framer * outcome frameErr anyFrame) : serverResult :=
  let fail e te := ServerErr e (Some (Close rangeActive (Some te) t)) in
  match fo with
  | (_, Panic) => ServerPanics
  | (_, Fail e) => fail (FirstFrame e) (ErrRead e)
  | (fr, Ret (Plain (SettingsFrame fh p))) =>
      match (modify (set_LastRead now);; handleSettingsServer fh p) t with
      | Done t _ => ServerUp written fr t
      | Blocks _ _ => ServerWaits
      | Crashes => ServerPanics
      end
  | (_, Ret _) => fail InvalidPreface (ErrConnection (str "saw invalid preface type from client"))
  end.

Definition NewServerConnection (c : H2Config) (ev : Events) (r : reader) (now : Z) : serverResult :=
  let '(r, o) := ReadFull r (len clientPreface) in
  match o with
  | Panic => ServerPanics
  | Fail (IOErr EOF) => ServerErr PrefaceEOF None
  | Fail e => ServerErr (PrefaceRead e) None
  | Ret preface =>
      if bool_decide (preface <> clientPreface) then ServerErr (BogusGreeting preface) None else
      match newFramer r (default defaultServerMaxHeaderListSize (Transport.MaxHeaderListSize c)) (configFrameSize c) with
      | None => ServerPanics
      | Some fr =>
          match writeFrames wrErr 0 (newServer_writes c) with
          | Panic => ServerPanics
          | Fail e => ServerErr (SettingsWrite e) None
          | Ret written =>
              match newServer c ev false now with
              | None => ServerPanics
              | Some t => firstSettings t written now (ReadFrame chunkCap fr)
              end
          end
      end
  end.
End Handshake.

(** ** Writing and reading the first frames *)
Definition opt_u32 (o : option Z) : Prop := forall v, o = Some v -> is_u32 v.
Record config_ok (c : H2Config) : Prop := {
  co_conn : is_i32 (InitialConnWindowSize c);
  co_win : is_i32 (InitialWindowSize c);
  co_frame : MaxFrameSize c = 0 \/ 2 ^ 14 <= MaxFrameSize c < 2 ^ 32;
  co_list : opt_u32 (Transport.MaxHeaderListSize c);
  co_streams : is_u32 (MaxStreams c);
  co_table : opt_u32 (HeaderTableSize c)
}.

(** The settings each side sends first. *)
Definition clientSettings (c : H2Config) : list Setting :=
  (if large (InitialWindowSize c) then [mkSetting SettingInitialWindowSize (u32 (InitialWindowSize c))] else [])
  ++ (if negb (MaxFrameSize c =? 0) then [mkSetting SettingMaxFrameSize (MaxFrameSize c)] else [])
  ++ [mkSetting SettingMaxHeaderListSize (default 10485760 (Transport.MaxHeaderListSize c))].
Definition serverSettings (c : H2Config) : list Setting :=
  [mkSetting SettingMaxFrameSize (configFrameSize c); mkSetting SettingMaxConcurrentStreams (serverMaxStreams c)]
  ++ (if negb (serverWindow c =? defaultWindowSize) then [mkSetting SettingInitialWindowSize (u32 (serverWindow c))] else [])
  ++ (match Transport.MaxHeaderListSize c with Some n => [mkSetting SettingMaxHeaderListSize n] | None => [] end)
  ++ (match HeaderTableSize c with Some n => [mkSetting SettingHeaderTableSize n] | None => [] end).
(** The rest are window updates of the connection. *)
Definition clientUpdate (c : H2Config) : list writeCall :=
  if InitialConnWindowSize c >? defaultWindowSize
  then [CallWindowUpdate 0 (u32 (InitialConnWindowSize c - defaultWindowSize))] else [].
Definition serverUpdate (c : H2Config) : list writeCall :=
  let delta := u32 (serverConnWindow c - defaultWindowSize) in
  if delta >? 0 then [CallWindowUpdate 0 delta] else [].

Lemma startConn_eq c : startConn_writes c = CallSettings (clientSettings c) :: clientUpdate c.
Proof. done. Qed.
Lemma newServer_eq c : newServer_writes c = CallSettings (serverSettings c) :: serverUpdate c.
Proof. done. Qed.

Lemma u32_i32 v : 0 <= v < 2 ^ 31 -> u32 v = v.
Proof. intros. unfold u32. apply Z.mod_small. lia. Qed.

Lemma configFrameSize_range c : config_ok c -> 2 ^ 14 <= configFrameSize c < 2 ^ 32.
Proof. intros H. unfold configFrameSize, http2MaxFrameLen. destruct (co_frame c H) as [->|]; [simpl; lia|]. destruct (Z.eqb_spec (MaxFrameSize c) 0); lia. Qed.

(** A setting other than the initial window. *)
Lemma plain_setting_ok id v : 0 <= id < 2 ^ 16 -> id <> SettingInitialWindowSize -> is_u32 v -> setting_ok (mkSetting id v).
Proof. intros ? Hne ?. unfold setting_ok. cbn [ID Val]. split_and!; try done; lia. Qed.
Lemma window_setting_ok w : 0 <= w < 2 ^ 31 -> setting_ok (mkSetting SettingInitialWindowSize (u32 w)).
Proof. intros. rewrite u32_i32 by done. unfold setting_ok, is_u32, SettingInitialWindowSize. cbn [ID Val]. lia. Qed.
Lemma opt_setting_ok id o : opt_u32 o -> 0 <= id < 2 ^ 16 -> id <> SettingInitialWindowSize ->
  Forall setting_ok (match o with Some n => [mkSetting id n] | None => [] end).
Proof. intros Ho ? ?. destruct o as [n|]; constructor; [|constructor]. apply plain_setting_ok; [done|done|by apply Ho]. Qed.

Lemma clientSettings_ok c : config_ok c -> Forall setting_ok (clientSettings c) /\ (1 <= length (clientSettings c) <= 3)%nat.
Proof.
  intros H. pose proof (co_win c H). pose proof (co_frame c H). pose proof (co_list c H).
  unfold clientSettings, large, is_i32, defaultWindowSize in *. split.
  - apply Forall_app. split; [|apply Forall_app; split].
    + destruct (Z.geb_spec (InitialWindowSize c) 65535); constructor; [|constructor]. apply window_setting_ok. lia.
    + destruct (Z.eqb_spec (MaxFrameSize c) 0); constructor; [|constructor]. apply plain_setting_ok; [done|done|unfold is_u32; lia].
    + constructor; [|constructor]. apply plain_setting_ok; [done|done|].
      destruct (Transport.MaxHeaderListSize c) as [n|]; [by apply H2|done].
  - rewrite !length_app. repeat case_match; simpl; lia.
Qed.
Lemma serverSettings_ok c : config_ok c -> Forall setting_ok (serverSettings c) /\ (1 <= length (serverSettings c) <= 5)%nat.
Proof.
  intros H. pose proof (configFrameSize_range c H). pose proof (co_win c H). pose proof (co_streams c H).
  pose proof (co_list c H) as Hl. pose proof (co_table c H) as Ht.
  unfold serverSettings, serverWindow, serverMaxStreams, large, is_i32, defaultWindowSize in *. split.
  - apply Forall_app. split; [|apply Forall_app; split; [|apply Forall_app; split]].
    + constructor; [|constructor; [|constructor]]; apply plain_setting_ok; try done; unfold is_u32, uint32Max in *; [lia|].
      destruct (Z.eqb_spec (MaxStreams c) 0); lia.
    + case_match; constructor; [|constructor]. apply window_setting_ok.
      destruct (Z.geb_spec (InitialWindowSize c) 65535); lia.
    + by apply opt_setting_ok.
    + by apply opt_setting_ok.
  - rewrite !length_app. repeat case_match; simpl; lia.
Qed.

Lemma clientUpdate_ok c : config_ok c -> Forall call_ok (clientUpdate c).
Proof.
  intros H. pose proof (co_conn c H). unfold clientUpdate, is_i32, defaultWindowSize in *.
  destruct (Z.gtb_spec (InitialConnWindowSize c) 65535); constructor; [|constructor]. rewrite u32_i32 by lia.
  split; lia.
Qed.
Lemma serverUpdate_ok c : config_ok c -> Forall call_ok (serverUpdate c).
Proof.
  intros H. pose proof (co_conn c H). unfold serverUpdate, serverConnWindow, large, is_i32, defaultWindowSize in *. cbv zeta.
  assert (0 <= (if InitialConnWindowSize c >=? 65535 then InitialConnWindowSize c else 2 * 65535) - 65535 < 2 ^ 31)
    by (destruct (Z.geb_spec (InitialConnWindowSize c) 65535); lia).
  rewrite u32_i32 by done. set (d := _ - 65535) in *. destruct (Z.gtb_spec d 0); constructor; [|constructor]. split; lia.
Qed.

(** Frames that are legal are all written. *)
Lemma writeFrames_ok wrErr n l : (forall n, wrErr n = None) -> Forall call_ok l ->
  exists bs, writeFrames wrErr n l = Ret bs.
Proof.
  intros Hw Hl. revert n. induction Hl as [|c l Hc _ IH]; intros n; cbn [writeFrames]; [eauto|].
  destruct (call_roundtrips c Hc) as (b & -> & _). cbn [obind]. rewrite Hw. destruct (IH (S n)) as [bs ->]. cbn [obind]. eauto.
Qed.
Lemma writeFrames_settings wrErr n ss l : (forall n, wrErr n = None) ->
  Forall setting_ok ss -> (length ss <= 5)%nat -> Forall call_ok l ->
  exists b bs, writeFrames wrErr n (CallSettings ss :: l) = Ret (b ++ bs) /\
    wire b (SettingsFrame (mkFH true FrameSettings 0 (6 * len ss) 0) (ss ≫= setting_bytes)) /\
    writeFrames wrErr (S n) l = Ret bs.
Proof.
  intros Hw Hss Hn Hl. cbn [writeFrames].
  destruct (call_roundtrips (CallSettings ss)) as (b & Hb & Hwire); [split; [done|unfold len; lia]|].
  rewrite Hb. cbn [obind]. rewrite Hw. destruct (writeFrames_ok wrErr (S n) l Hw Hl) as [bs ->].
  cbn [obind]. by exists b, bs.
Qed.

(** A new framer reads a SETTINGS frame. *)
Lemma newFramer_reads chunkCap b fh p rest e limit maxFrame :
  (forall n, n <= chunkCap n) -> wire b (SettingsFrame fh p) -> Type_ fh = FrameSettings ->
  2 ^ 14 <= maxFrame -> Length fh <= 2 ^ 14 ->
  exists fr fr', newFramer (mkReader (b ++ rest) e) limit maxFrame = Some fr /\
    ReadFrame chunkCap fr = (fr', Ret (Plain (SettingsFrame fh p))) /\ rdata (fr_r fr') = rest.
Proof.
  intros Hc Hw Ht Hm Hl. unfold newFramer. destruct (NewDecoder http2InitHeaderTableSize) as [d|] eqn:Ed; [|by vm_compute in Ed].
  cbn [mbind option_bind]. eexists _, _. split; [done|]. unfold ReadFrame. cbn [ReadFrameN].
  rewrite (readOrdered_wire chunkCap _ b (SettingsFrame fh p) rest Hc Hw).
  - unfold checkFrameOrder. cbn [AllowIllegalReads set_r set_lastFrame set_errDetail SetMaxReadFrameSize NewFramer lastHeaderStream Header].
    rewrite Ht. cbn. done.
  - done.
  - cbn [Header maxReadSize SetMaxReadFrameSize]. destruct (Z.gtb_spec maxFrame maxFrameSize); [unfold maxFrameSize|]; lia.
Qed.

(** The framers a connection is made with are fit for any input ([ReadFrame_total]
    and the theorems like it hold of them). *)
Lemma newFramer_wf r limit maxFrame fr :
  newFramer r limit maxFrame = Some fr -> 0 <= limit < 2 ^ 30 -> len (rdata r) < 2 ^ 61 -> fr_wf fr.
Proof.
  unfold newFramer. destruct (NewDecoder http2InitHeaderTableSize) as [d|] eqn:Ed; [|done]. cbn [mbind option_bind].
  intros [= <-] Hl Hr.
  assert (Hlen : forall fr', FrameRead.MaxHeaderListSize fr' = limit -> 0 < maxHeaderStringLen fr' < 2 ^ 30).
  { intros fr' Hf. unfold maxHeaderStringLen, maxHeaderListSize, u32, i64. rewrite Hf.
    destruct (Z.eqb_spec limit 0); [by vm_compute|]. rewrite !(Z.mod_small (limit + _)) by lia.
    rewrite Z.mod_small by lia. destruct (Z.eqb_spec (limit + 2 ^ 63 - 2 ^ 63) limit); lia. }
  split; [by intros []|by apply Hlen|]. intros d' [= <-].
  unfold dec_ready. match goal with |- context [maxHeaderStringLen ?f] => specialize (Hlen f eq_refl); generalize dependent (maxHeaderStringLen f) end.
  intros n Hn.
  assert (d = mkDecoder (mkDyn table_init 0 4096 4096) true 0 [] true) as -> by (vm_compute in Ed; by injection Ed as <-).
  split_and!.
  - split; cbn; [split; cbn; [apply table_init_wf|done|lia]|constructor|lia|lia].
  - cbn [saveBuf]. rewrite len_nil. lia.
  - match goal with |- pot ?d + len ?l < _ => change (pot d) with 0; change l with (rdata r) end. lia.
Qed.

(** A peer that does not speak HTTP/2 is turned away before anything is sent. *)
Lemma bogus_greeting {Q : Type} `{!Queue Q cbItem} rangeActive chunkCap wrErr c ev r now :
  len clientPreface <= len (rdata r) -> take (Z.to_nat (len clientPreface)) (rdata r) <> clientPreface ->
  NewServerConnection (Q := Q) rangeActive chunkCap wrErr c ev r now
  = ServerErr (BogusGreeting (take (Z.to_nat (len clientPreface)) (rdata r))) None.
Proof.
  intros Hl Hne. unfold NewServerConnection, ReadFull. destruct (Z.leb_spec (len clientPreface) (len (rdata r))); [|lia].
  by rewrite bool_decide_true.
Qed.

(** ** What the settings do *)
Section Apply.
Context {Q : Type} `{!Queue Q cbItem}.
Implicit Types t : @H2Transport Q.

Lemma wp_enqueue f t items (P : bool * option tErr -> _ -> Prop) :
  t_cbLocked t = false -> cb_wf (t_controlBuf t) items -> err (t_controlBuf t) = false ->
  wp f t (fun bi t1 => bi.1 = true /\ t_controlBuf t1 = t_controlBuf t /\
    forall c, cb_wf c (items ++ [bi.2]) -> P (true, None) (set_controlBuf c t1)) ->
  wp (executeAndPut f) t P.
Proof.
  intros Hl Hwf He Hf. unfold executeAndPut, executeAndPutWith. do 2 apply wp_bind.
  unfold wp, gets at 1. rewrite Hl. unfold mbind at 1, M_bind at 1, gets. rewrite He. unfold wp in Hf.
  unfold mbind, M_bind. destruct (f t) as [t1 [b it]| |]; [|done..]. simpl in *. destruct Hf as (-> & Hc & HP).
  destruct (executeAndPut_ok true it (t_controlBuf t) items Hwf) as (c' & r & w & E & Hwf' & _).
  rewrite He in Hwf'. rewrite E. simpl. apply HP. destruct w; [|done]. destruct Hwf'. split; done.
Qed.

(** The last limit on header lists counts. *)
Lemma wp_applyLimits l t (P : () -> _ -> Prop) :
  P tt (match last l with Some v => set_maxSendHeaderListSize (Some v) t | None => t end) -> wp (applyLimits l) t P.
Proof.
  revert t. induction l as [|v l IH]; intros t HP; [done|]. unfold applyLimits. cbn [forM]. wps. apply IH.
  rewrite last_cons in HP. by destruct (last l).
Qed.

(** What is left of the settings of the peer for the writer. *)
Definition clientLeft (c : H2Config) : list Setting :=
  if large (InitialWindowSize c) then [mkSetting SettingInitialWindowSize (u32 (InitialWindowSize c))] else [].
Definition serverLeft (c : H2Config) : list Setting :=
  (if negb (serverWindow c =? defaultWindowSize) then [mkSetting SettingInitialWindowSize (u32 (serverWindow c))] else [])
  ++ (match HeaderTableSize c with Some n => [mkSetting SettingHeaderTableSize n] | None => [] end).

Lemma clientSettings_read c fs : 0 < fs ->
  foldl (readSetting true) (mkSR None [] [] fs) (clientSettings c) =
  mkSR None (clientLeft c) [default 10485760 (Transport.MaxHeaderListSize c)]
    (if MaxFrameSize c =? 0 then fs else Z.min fs (MaxFrameSize c)).
Proof.
  intros Hfs. unfold clientSettings, clientLeft. destruct (large (InitialWindowSize c)), (Z.eqb_spec (MaxFrameSize c) 0); cbn; try done.
  all: unfold readSetting; cbn; f_equal; destruct (Z.gtb_spec fs 0); [|lia]; cbn; destruct (Z.gtb_spec fs (MaxFrameSize c)); lia.
Qed.
Lemma serverSettings_read c fs :
  foldl (readSetting false) (mkSR None [] [] fs) (serverSettings c) =
  mkSR (Some (serverMaxStreams c)) (serverLeft c) (option_list (Transport.MaxHeaderListSize c)) (Z.min fs (configFrameSize c)).
Proof.
  unfold serverSettings, serverLeft.
  assert (Hmin : (if fs >? configFrameSize c then configFrameSize c else fs) = Z.min fs (configFrameSize c))
    by (destruct (Z.gtb_spec fs (configFrameSize c)); lia).
  destruct (serverWindow c =? defaultWindowSize), (Transport.MaxHeaderListSize c), (HeaderTableSize c); cbn; by rewrite Hmin.
Qed.

(** A connection with nothing queued. *)
Record idle_conn t : Prop := {
  ic_lock : t_cbLocked t = false;
  ic_cb : cb_wf (t_controlBuf t) [];
  ic_err : err (t_controlBuf t) = false;
  ic_ev : ev_wf (t_events t)
}.

Lemma wp_readSettings server l t (P : settingsRead -> _ -> Prop) : Forall setting_ok l ->
  (let r := foldl (readSetting server) (mkSR None [] [] (t_FrameSize t)) l in P r (set_FrameSize (sr_FrameSize r) t)) ->
  wp (readSettings server (l ≫= setting_bytes)) t P.
Proof. intros Hl HP. unfold readSettings. rewrite (settings_ok l Hl). wps. by apply (wp_lift _ l). Qed.

Lemma server_applies c fh t :
  config_ok c -> idle_conn t -> 0 < t_FrameSize t -> Has (Flags fh) FlagSettingsAck = false ->
  wp (handleSettingsServer fh (clientSettings c ≫= setting_bytes)) t (fun _ t' =>
    cb_wf (t_controlBuf t') [ItInSettings (clientLeft c)] /\
    t_maxSendHeaderListSize t' = Some (default 10485760 (Transport.MaxHeaderListSize c)) /\
    t_FrameSize t' = (if MaxFrameSize c =? 0 then t_FrameSize t else Z.min (t_FrameSize t) (MaxFrameSize c)) /\
    t_closed t' = t_closed t).
Proof.
  intros Hc [Hl Hcb He Hev] Hfs Hack. unfold handleSettingsServer. rewrite Hack. apply wp_bind.
  apply wp_readSettings; [by apply clientSettings_ok|]. rewrite clientSettings_read by done. cbn [sr_FrameSize].
  apply wp_bind. apply (wp_enqueue _ _ []); [done..|]. wps. apply wp_applyLimits. cbn [sr_limits last]. wps.
  split; [done|]. split; [done|]. intros cb Hcb'. apply wp_fire; [done|by vm_compute|]. intros lg. by split_and!.
Qed.

Lemma client_applies c fh t :
  config_ok c -> idle_conn t -> Has (Flags fh) FlagSettingsAck = false -> t_waitingStreams t = 0 ->
  wp (handleSettingsClient fh (serverSettings c ≫= setting_bytes) true) t (fun _ t' =>
    cb_wf (t_controlBuf t') [ItInSettings (serverLeft c)] /\
    t_maxConcurrentStreams t' = serverMaxStreams c /\
    t_streamQuota t' = t_streamQuota t + (serverMaxStreams c - t_maxConcurrentStreams t) /\
    t_maxSendHeaderListSize t' = (match Transport.MaxHeaderListSize c with Some n => Some n | None => t_maxSendHeaderListSize t end) /\
    t_FrameSize t' = Z.min (t_FrameSize t) (configFrameSize c)).
Proof.
  intros Hc [Hl Hcb He Hev] Hack Hw. unfold handleSettingsClient. rewrite Hack. apply wp_bind.
  apply wp_readSettings; [by apply serverSettings_ok|]. rewrite serverSettings_read. cbn [sr_FrameSize sr_maxStreams].
  apply wp_bind. apply (wp_enqueue _ _ []); [done..|]. wps. apply wp_applyLimits. cbn [sr_limits].
  unfold updateStreamQuota. destruct (Transport.MaxHeaderListSize c); cbn [option_list last]; wps; cbn [t_waitingStreams set_streamQuota];
    (apply wp_when; [cbn; rewrite Hw, andb_false_r; done|intros _]); wps; (split; [done|]; split; [done|]; intros cb Hcb');
    (apply wp_fire; [done|by vm_compute|]); intros lg; by split_and!.
Qed.
End Apply.

(** ** The theorem *)

Lemma newServer_some {Q : Type} `{!Queue Q cbItem} c ev now : config_ok c -> ev_wf ev ->
  exists t : @H2Transport Q, newServer c ev false now = Some t /\ idle_conn t /\ t_FrameSize t = configFrameSize c /\ t_closed t = false.
Proof.
  intros Hc Hev. unfold newServer. rewrite Add_self by done. cbn [mbind option_bind]. eexists. split; [done|].
  split; [|done]. split; [done|apply newControlBuffer_wf|done|done].
Qed.

(** What a side of the connection agreed to: the settings left to its writer and
    the sizes it uses. *)
Definition server_agreed {Q : Type} `{!Queue Q cbItem} (cc sc : H2Config) (t : @H2Transport Q) : Prop :=
  cb_wf (t_controlBuf t) [ItInSettings (clientLeft cc)] /\
  t_maxSendHeaderListSize t = Some (default 10485760 (Transport.MaxHeaderListSize cc)) /\
  t_FrameSize t = (if MaxFrameSize cc =? 0 then configFrameSize sc else Z.min (configFrameSize sc) (MaxFrameSize cc)) /\
  t_closed t = false.
Definition client_agreed {Q : Type} `{!Queue Q cbItem} (sc : H2Config) (t : @H2Transport Q) : Prop :=
  cb_wf (t_controlBuf t) [ItInSettings (serverLeft sc)] /\
  t_maxConcurrentStreams t = serverMaxStreams sc /\ t_streamQuota t = serverMaxStreams sc /\
  t_maxSendHeaderListSize t = Transport.MaxHeaderListSize sc /\
  t_FrameSize t = http2MaxFrameLen.

Section Agree.
Context {Q : Type} `{!Queue Q cbItem}.
Context (rangeActive : gmap Z loc -> list (Z * loc)) (chunkCap : Z -> Z) (wrErr : nat -> option frameErr).
Context (chunkCap_enough : forall n, n <= chunkCap n) (writes : forall n, wrErr n = None).
Context (cc sc : H2Config) (evc evs : Events) (now : Z).
Context (Hcc : config_ok cc) (Hsc : config_ok sc) (Hevc : ev_wf evc) (Hevs : ev_wf evs).
Abbreviation tc0 := (newClient (Q := Q) cc evc now).

Lemma StartConn_ok :
  exists b up, StartConn rangeActive wrErr cc tc0 = Started (clientPreface ++ b ++ up) tc0 /\
    wire b (SettingsFrame (mkFH true FrameSettings 0 (6 * len (clientSettings cc)) 0) (clientSettings cc ≫= setting_bytes)) /\
    writeFrames wrErr 2 (clientUpdate cc) = Ret up.
Proof.
  unfold StartConn. rewrite writes, startConn_eq. destruct (clientSettings_ok cc Hcc) as [Hs Hn].
  destruct (writeFrames_settings wrErr 1 (clientSettings cc) (clientUpdate cc) writes Hs ltac:(lia) (clientUpdate_ok cc Hcc))
    as (b & up & -> & Hw & Hu). rewrite writes. by exists b, up.
Qed.

Lemma NewServerConnection_ok b up rest e :
  wire b (SettingsFrame (mkFH true FrameSettings 0 (6 * len (clientSettings cc)) 0) (clientSettings cc ≫= setting_bytes)) ->
  exists bs down fr ts,
    NewServerConnection rangeActive chunkCap wrErr sc evs (mkReader (clientPreface ++ (b ++ up) ++ rest) e) now
      = ServerUp (bs ++ down) fr ts /\
    rdata (fr_r fr) = up ++ rest /\ server_agreed cc sc ts /\
    wire bs (SettingsFrame (mkFH true FrameSettings 0 (6 * len (serverSettings sc)) 0) (serverSettings sc ≫= setting_bytes)) /\
    writeFrames wrErr 1 (serverUpdate sc) = Ret down.
Proof.
  intros Hw. unfold NewServerConnection. rewrite ReadFull_app, bool_decide_false by tauto.
  destruct (clientSettings_ok cc Hcc) as [_ Hnc]. destruct (serverSettings_ok sc Hsc) as [Hs Hn].
  pose proof (configFrameSize_range sc Hsc) as Hf. rewrite <- app_assoc.
  destruct (newFramer_reads chunkCap b _ _ (up ++ rest) e (default defaultServerMaxHeaderListSize (Transport.MaxHeaderListSize sc))
    (configFrameSize sc) chunkCap_enough Hw eq_refl) as (fr & fr' & -> & HR & Hrest); [lia|cbn [Length]; unfold len; lia|].
  rewrite newServer_eq.
  destruct (writeFrames_settings wrErr 0 (serverSettings sc) (serverUpdate sc) writes Hs ltac:(lia) (serverUpdate_ok sc Hsc))
    as (bs & down & -> & Hws & Hd).
  destruct (newServer_some (Q := Q) sc evs now Hsc Hevs) as (ts & -> & Hi & Hfs & Hcl). rewrite HR. cbn [firstSettings].
  destruct (wp_elim (modify (set_LastRead now);; handleSettingsServer (mkFH true FrameSettings 0 (6 * len (clientSettings cc)) 0)
    (clientSettings cc ≫= setting_bytes)) ts (fun _ => server_agreed cc sc)) as (t' & [] & -> & Ha).
  { wps. eapply wp_weaken; [apply (server_applies cc _ (set_LastRead now ts) Hcc)|].
    - by destruct Hi; split.
    - cbn. lia.
    - done.
    - intros ? t' (H1 & H2 & H3 & H4). split_and!; [done|done| |by rewrite H4]. rewrite H3. cbn. by rewrite Hfs. }
  by exists bs, down, fr', t'.
Qed.

Lemma client_first bs down rest e :
  wire bs (SettingsFrame (mkFH true FrameSettings 0 (6 * len (serverSettings sc)) 0) (serverSettings sc ≫= setting_bytes)) ->
  exists fr fr' sf tc, clientFramer cc (mkReader ((bs ++ down) ++ rest) e) = Some fr /\
    ReadFrame chunkCap fr = (fr', Ret (Plain sf)) /\ rdata (fr_r fr') = down ++ rest /\
    reader_first rangeActive (Ret (Plain sf)) now tc0 = Done tc true /\ client_agreed sc tc.
Proof.
  intros Hw. destruct (serverSettings_ok sc Hsc) as [Hs Hn]. pose proof (configFrameSize_range cc Hcc) as Hf.
  rewrite <- app_assoc. unfold clientFramer.
  destruct (newFramer_reads chunkCap bs _ _ (down ++ rest) e (default defaultClientMaxHeaderListSize (Transport.MaxHeaderListSize cc))
    (configFrameSize cc) chunkCap_enough Hw eq_refl) as (fr & fr' & -> & HR & Hrest); [lia|cbn [Length]; unfold len; lia|].
  destruct (wp_elim (reader_first rangeActive (Ret (Plain (SettingsFrame (mkFH true FrameSettings 0 (6 * len (serverSettings sc)) 0)
    (serverSettings sc ≫= setting_bytes)))) now) tc0 (fun go t => go = true /\ client_agreed sc t)) as (tc & go & E & -> & Ha).
  { unfold reader_first. wps. eapply wp_weaken; [apply (client_applies sc _ (set_LastRead now tc0) Hsc)|].
    - split; [done|apply newControlBuffer_wf|done|done].
    - done.
    - done.
    - intros ? t' (H1 & H2 & H3 & H4 & H5). wps. split; [done|]. split_and!; [done|done| | |].
      + rewrite H3. cbn. unfold defaultMaxStreamsClient. lia.
      + rewrite H4. cbn. by destruct (Transport.MaxHeaderListSize sc).
      + rewrite H5. cbn [t_FrameSize set_LastRead newClient]. pose proof (configFrameSize_range sc Hsc). unfold http2MaxFrameLen. lia. }
  by exists fr, fr', (SettingsFrame (mkFH true FrameSettings 0 (6 * len (serverSettings sc)) 0) (serverSettings sc ≫= setting_bytes)), tc.
Qed.
End Agree.

(** C9.  A client and a server with any legal configurations agree.  When the
    connection carries their bytes, [StartConn] succeeds; [NewServerConnection]
    accepts what it wrote, cut as it may be from what follows, and holds the
    client's limits; and the bytes the server wrote are a first frame that the
    client's reader accepts, after which the client may open as many streams as
    the server allows.  What each side sent beyond the settings is left to be
    read. *)
Theorem handshake_agrees {Q : Type} `{!Queue Q cbItem} rangeActive chunkCap wrErr cc sc evc evs now :
  (forall n, n <= chunkCap n) -> (forall n, wrErr n = None) -> config_ok cc -> config_ok sc -> ev_wf evc -> ev_wf evs ->
  exists hello up, StartConn rangeActive wrErr cc (newClient (Q := Q) cc evc now)
      = Started (clientPreface ++ hello ++ up) (newClient cc evc now) /\
    writeFrames wrErr 2 (clientUpdate cc) = Ret up /\
    forall rest e, exists bs down fr ts,
      NewServerConnection rangeActive chunkCap wrErr sc evs (mkReader (clientPreface ++ (hello ++ up) ++ rest) e) now
        = ServerUp (bs ++ down) fr ts /\
      rdata (fr_r fr) = up ++ rest /\ server_agreed (Q := Q) cc sc ts /\ writeFrames wrErr 1 (serverUpdate sc) = Ret down /\
      forall rest e, exists frc frc' sf tc, clientFramer cc (mkReader ((bs ++ down) ++ rest) e) = Some frc /\
        ReadFrame chunkCap frc = (frc', Ret (Plain sf)) /\ rdata (fr_r frc') = down ++ rest /\
        reader_first rangeActive (Ret (Plain sf)) now (newClient cc evc now) = Done tc true /\ client_agreed (Q := Q) sc tc.
Proof.
  intros Hk Hw Hcc Hsc Hevc Hevs.
  destruct (StartConn_ok (Q := Q) rangeActive wrErr Hw cc evc now Hcc) as (b & up & HS & Hb & Hup).
  exists b, up. split; [done|]. split; [done|]. intros rest e.
  destruct (NewServerConnection_ok (Q := Q) rangeActive chunkCap wrErr Hk Hw cc sc evs now Hcc Hsc Hevs b up rest e Hb)
    as (bs & down & fr & ts & HN & Hr & Ha & Hbs & Hd).
  exists bs, down, fr, ts. split_and!; [done..|]. intros rest' e'.
  by apply (client_first rangeActive chunkCap Hk cc sc evc now Hcc Hsc Hevc).
Qed.

Lemma handshake_agrees_witness :
  exists hello up, StartConn (fun m => map_to_list m) (fun _ => None) (mkConfig 0 100000 0 None 0 None 0 false)
      (newClient (Q := itemList cbItem) (mkConfig 0 100000 0 None 0 None 0 false) no_events 0)
    = Started (clientPreface ++ hello ++ up) (newClient (mkConfig 0 100000 0 None 0 None 0 false) no_events 0).
Proof.
  destruct (handshake_agrees (Q := itemList cbItem) (fun m => map_to_list m) (fun n => n) (fun _ => None)
    (mkConfig 0 100000 0 None 0 None 0 false) (mkConfig 1000000 0 32768 (Some 8192) 250 None 0 false) no_events no_events 0)
    as (hello & up & H & _).
  - intros n. reflexivity.
  - reflexivity.
  - split; unfold is_i32, is_u32, opt_u32; cbn; try lia; by intros.
  - split; unfold is_i32, is_u32, opt_u32; cbn; try lia; intros v Hv; [injection Hv as <-; by vm_compute|done].
  - apply no_events_wf.
  - apply no_events_wf.
  - exists hello, up. exact H.
Defined.
