(* ===== verification/Ugate.v ===== *)
(** * The gateway's use of the transport: ugate/h2transport.go

    Which connection a request takes ([FindMux]), how one is dialed
    ([dialH2ClientConn]) with the channel its event handlers send on, the reverse
    connection ([DialH2R]) and the handler of an accepted stream
    ([handleH2Stream]).  The gateway itself, TLS, dialing and proxying are other
    modules: they are parameters, and of their records only the fields used here
    are kept.  Of package net, [SplitHostPort] and [JoinHostPort] are modelled. *)
From S2P Require Import Loopy Prelude HpackTables HpackCodec Frame FrameRead FlowControl Lists ControlBuf.
From S2P Require Import Timeout Messages Events Bdp Transport TransportInv TransportSpec Serve Handshake.

(** ** Addresses: package net *)
Definition colon : Z := 58.
Definition lbracket : Z := 91.
Definition rbracket : Z := 93.

Definition IndexByte (s : list Z) (c : Z) : option nat := fst <$> list_find (fun b => b = c) s.
Fixpoint lastByte (s : list Z) (c : Z) : option nat :=
  match s with
  | [] => None
  | b :: s => match lastByte s c with
              | Some i => Some (S i)
              | None => if b =? c then Some O else None
              end
  end.

(** The host and the port; an error is [None]. *)
Definition SplitHostPort (s : list Z) : option (list Z * list Z) :=
  i ← lastByte s colon;
  '(host, j, k) ←
    (if bool_decide (s !! 0%nat = Some lbracket) then
       e ← IndexByte s rbracket;
       if (S e =? length s)%nat then None else
       if (S e =? i)%nat then Some (take (e - 1) (drop 1 s), 1%nat, S e) else None
     else
       let host := take i s in
       match IndexByte host colon with Some _ => None | None => Some (host, O, O) end);
  match IndexByte (drop j s) lbracket with
  | Some _ => None
  | None =>
      match IndexByte (drop k s) rbracket with
      | Some _ => None
      | None => Some (host, drop (S i) s)
      end
  end.

(** [host, _, _ := SplitHostPort(s)]: both are empty on an error. *)
Definition hostOf (s : list Z) : list Z := default [] (fst <$> SplitHostPort s).
Definition portOf (s : list Z) : list Z := default [] (snd <$> SplitHostPort s).

Definition JoinHostPort (host port : list Z) : list Z :=
  match IndexByte host colon with
  | Some _ => [lbracket] ++ host ++ [rbracket; colon] ++ port
  | None => host ++ [colon] ++ port
  end.

Example split_v4 : SplitHostPort (str "10.0.0.1:8080") = Some (str "10.0.0.1", str "8080").
Proof. reflexivity. Qed.
Example split_v6 : SplitHostPort (str "[::1]:80") = Some (str "::1", str "80").
Proof. reflexivity. Qed.
Example split_many : SplitHostPort (str "::1:80") = None.
Proof. reflexivity. Qed.

Lemma IndexByte_None s c : IndexByte s c = None <-> c ∉ s.
Proof.
  unfold IndexByte. destruct (list_find _ s) as [[i b]|] eqn:E; simpl.
  - apply list_find_Some in E as (Hi & -> & _). split; [done|]. intros []. by eapply list_elem_of_lookup_2.
  - apply list_find_None in E. split; [|done]. intros _ Hin. rewrite Forall_forall in E. by apply (E c).
Qed.
Lemma IndexByte_app a c b : c ∉ a -> IndexByte (a ++ c :: b) c = Some (length a).
Proof.
  intros Ha. unfold IndexByte. rewrite list_find_app_r; [|apply list_find_None, Forall_forall; intros x ? ->; done].
  simpl. by rewrite decide_True by done.
Qed.
Lemma lastByte_None s c : c ∉ s -> lastByte s c = None.
Proof.
  induction s as [|b s IH]; [done|]. intros Hc. simpl. rewrite IH by set_solver.
  destruct (Z.eqb_spec b c); [set_solver|done].
Qed.
Lemma lastByte_app a c b : c ∉ b -> lastByte (a ++ c :: b) c = Some (length a).
Proof.
  intros Hb. induction a as [|x a IH]; simpl; [by rewrite lastByte_None, Z.eqb_refl by done|]. by rewrite IH.
Qed.

Definition no_brackets (s : list Z) : Prop := (lbracket ∉ s) /\ (rbracket ∉ s).

(** An address that was joined is split into the same host and port. *)
Lemma Split_Join host port :
  no_brackets host -> no_brackets port -> colon ∉ port -> SplitHostPort (JoinHostPort host port) = Some (host, port).
Proof.
  intros [Hl Hr] [Hpl Hpr] Hc. unfold JoinHostPort. destruct (IndexByte host colon) as [n|] eqn:E.
  - unfold SplitHostPort.
    assert (Hshape : [lbracket] ++ host ++ [rbracket; colon] ++ port = (lbracket :: host ++ [rbracket]) ++ colon :: port)
      by (simpl; by rewrite <- app_assoc).
    rewrite Hshape, lastByte_app by done. cbn [mbind option_bind]. rewrite bool_decide_true by done.
    assert (Hshape2 : (lbracket :: host ++ [rbracket]) ++ colon :: port = (lbracket :: host) ++ rbracket :: colon :: port)
      by (simpl; by rewrite <- app_assoc).
    rewrite Hshape2, IndexByte_app by (apply not_elem_of_cons; split; [done|done]). cbn [mbind option_bind].
    assert (Hlen : length (lbracket :: host ++ [rbracket]) = S (S (length host))) by (simpl; rewrite length_app; simpl; lia).
    rewrite Hlen. cbn [length app]. rewrite length_app. cbn [length].
    rewrite (proj2 (Nat.eqb_neq _ _)) by lia. rewrite (proj2 (Nat.eqb_eq _ _)) by lia. cbn [mbind option_bind drop].
    rewrite !drop_0.
    assert (IndexByte (host ++ rbracket :: colon :: port) lbracket = None) as ->.
    { apply IndexByte_None. rewrite elem_of_app, !elem_of_cons. by intros [?|[?|[?|?]]]. }
    rewrite Nat.sub_succ, Nat.sub_0_r, take_app_length.
    assert (Hd : forall m x y, drop (length host + m) (host ++ x :: y) = drop m (x :: y)).
    { intros. rewrite drop_app_ge by lia. f_equal. lia. }
    replace (S (length host)) with (length host + 1)%nat by lia. rewrite (Hd 1%nat). cbn [drop].
    assert (IndexByte (colon :: port) rbracket = None) as ->.
    { apply IndexByte_None. rewrite elem_of_cons. by intros [?|?]. }
    replace (S (length host + 1)) with (length host + 2)%nat by lia. by rewrite (Hd 2%nat).
  - pose proof (proj1 (IndexByte_None _ _) E) as Hh. unfold SplitHostPort. cbn [app].
    rewrite lastByte_app by done. cbn [mbind option_bind]. rewrite bool_decide_false.
    2:{ destruct host as [|b host]; simpl; [done|]. intros [= ->]. set_solver. }
    rewrite take_app_length, E. cbn [mbind option_bind].
    rewrite !drop_0.
    assert (Hno : forall c, c ∉ host -> c ∉ port -> c <> colon -> IndexByte (host ++ colon :: port) c = None).
    { intros c ? ? ?. apply IndexByte_None. rewrite elem_of_app, elem_of_cons. by intros [?|[?|?]]. }
    rewrite !Hno by done.
    do 2 f_equal. change (colon :: port) with ([colon] ++ port). rewrite app_assoc.
    replace (S (length host)) with (length (host ++ [colon])) by (rewrite length_app; simpl; lia). by rewrite drop_app_length.
Qed.

(** ** Clusters and connections *)
Record Endpoint := mkEndpoint { HBoneAddress : list Z; Address : list Z }.
Definition noEndpoint : Endpoint := mkEndpoint [] [].

(** [RoundTripper]: a connection of this module, by its name, or something else. *)
Inductive roundTripper := RtH2 (hc : loc) | RtOther.
Record EndpointCon := mkEC { ec_Endpoint : Endpoint; ec_RoundTripper : option roundTripper }.

Record MeshCluster := mkCluster {
  c_Addr : list Z;
  c_InitialWindowSize : Z;       (** int32 *)
  c_InitialConnWindowSize : Z;   (** int32 *)
  c_MaxFrameSize : Z;            (** uint32 *)
  c_Endpoints : list Endpoint;
  c_EndpointCon : list EndpointCon
}.
Definition set_Endpoints (c : MeshCluster) (l : list Endpoint) : MeshCluster :=
  mkCluster (c_Addr c) (c_InitialWindowSize c) (c_InitialConnWindowSize c) (c_MaxFrameSize c) l (c_EndpointCon c).
Definition set_EndpointCon (c : MeshCluster) (l : list EndpointCon) : MeshCluster :=
  mkCluster (c_Addr c) (c_InitialWindowSize c) (c_InitialConnWindowSize c) (c_MaxFrameSize c) (c_Endpoints c) l.

(** The address [dialH2ClientConn] dials. *)
Definition dialAddr (c : MeshCluster) (ep : Endpoint) : list Z :=
  let addr := HBoneAddress ep in
  let addr := if bool_decide (addr = []) && bool_decide (Address ep <> [])
              then JoinHostPort (hostOf (Address ep)) (str "15008") else addr in
  if bool_decide (addr = []) then c_Addr c else addr.

(** The sizes it fills in when they are zero. *)
Definition dialDefaults (c : MeshCluster) : MeshCluster :=
  let w := if c_InitialWindowSize c =? 0 then 4194304 else c_InitialWindowSize c in
  let cw := if c_InitialConnWindowSize c =? 0 then i32 (4 * w) else c_InitialConnWindowSize c in
  let fs := if c_MaxFrameSize c =? 0 then 262144 else c_MaxFrameSize c in
  mkCluster (c_Addr c) w cw fs (c_Endpoints c) (c_EndpointCon c).

(** The configuration of the connection: the windows are not handed on. *)
Definition dialConfig (c : MeshCluster) : H2Config := mkConfig 0 0 (c_MaxFrameSize c) None 0 None 0 false.
(** That of [DialH2R]. *)
Definition reverseConfig (c : MeshCluster) : H2Config :=
  mkConfig (c_InitialConnWindowSize c) (c_InitialWindowSize c) (c_MaxFrameSize c) None 0 None 0 false.

(** The handlers of [dialH2ClientConn], by name, and their registration. *)
Definition cb_settings : callback := -1.
Definition cb_goaway : callback := -2.
Definition cb_connclose : callback := -3.
Definition dialHandlers (shared : Events) : option Events :=
  e ← OnEvent no_events Event_Settings (Some (EventHandlerFunc cb_settings));
  e ← OnEvent e Event_GoAway (Some (EventHandlerFunc cb_goaway));
  e ← OnEvent e Event_ConnClose (Some (EventHandlerFunc cb_connclose));
  Add e shared.

(** *** Two goroutines and a channel

    What the handlers and the dialing goroutine do with [okch], which holds one
    value, and with [ep.RoundTripper], as one step each. *)
Inductive act :=
| ASend (v : Z)          (** [okch <- v] *)
| AReceive               (** [<-okch] *)
| AClear                 (** [ep.RoundTripper = nil] *)
| ASet.                  (** [ep.RoundTripper = hc] *)

Definition handlerActs (f : callback) : list act :=
  if f =? cb_settings then [ASend 1] else
  if f =? cb_goaway then [AClear] else
  if f =? cb_connclose then [ASend 0; AClear] else [].

(** [fired] are the handlers called by [StartConn] itself, when it fails: it
    closes the connection. *)
Definition dialerActs (startErr : bool) (fired : list callback) : list act :=
  (fired ≫= handlerActs) ++ (if startErr then [] else [AReceive; ASet]).

Record dialing := mkDialing { okch : list Z; roundTrip : bool; dialer : list act; closer : list act }.

Definition doAct (a : act) (d : dialing) : option (list Z * bool) :=
  match a with
  | ASend v => if (length (okch d) <? 1)%nat then Some (okch d ++ [v], roundTrip d) else None
  | AReceive => match okch d with _ :: ch => Some (ch, roundTrip d) | [] => None end
  | AClear => Some (okch d, false)
  | ASet => Some (okch d, true)
  end.

Inductive dial_step : dialing -> dialing -> Prop :=
| step_dialer d a l ch rt : dialer d = a :: l -> doAct a d = Some (ch, rt) -> dial_step d (mkDialing ch rt l (closer d))
| step_closer d a l ch rt : closer d = a :: l -> doAct a d = Some (ch, rt) -> dial_step d (mkDialing ch rt (dialer d) l).
Definition dial_reach : dialing -> dialing -> Prop := rtc dial_step.

(** [StartConn] has started the connection; [fs] are the handlers that the
    connection's goroutine calls, in order, until it ends. *)
Definition dialStart (startErr : bool) (own fs : list callback) : dialing :=
  mkDialing [] false (dialerActs startErr own) (fs ≫= handlerActs).

(** *** How often the channel is used *)
Definition is_send (a : act) : bool := match a with ASend _ => true | _ => false end.
Definition is_receive (a : act) : bool := match a with AReceive => true | _ => false end.
Fixpoint count_acts (p : act -> bool) (l : list act) : nat :=
  match l with [] => O | a :: l => (if p a then S (count_acts p l) else count_acts p l) end.
Abbreviation sends := (count_acts is_send).
Abbreviation receives := (count_acts is_receive).

Lemma count_acts_app p a b : count_acts p (a ++ b) = (count_acts p a + count_acts p b)%nat.
Proof. induction a as [|x a IH]; simpl; [done|]. destruct (p x); rewrite IH; done. Qed.

(** The values in the channel: sent and not received. *)
Definition channel_ok (n : Z) (d : dialing) : Prop :=
  (length (okch d) <= 1)%nat /\
  Z.of_nat (length (okch d)) + Z.of_nat (sends (dialer d) + sends (closer d))
    - Z.of_nat (receives (dialer d) + receives (closer d)) = n.

Lemma doAct_channel a d ch rt : doAct a d = Some (ch, rt) ->
  (length (okch d) <= 1)%nat -> (length ch <= 1)%nat /\
  (length ch + (if is_receive a then 1 else 0) = length (okch d) + (if is_send a then 1 else 0))%nat.
Proof.
  destruct a; cbn [doAct is_send is_receive]; intros H Hl.
  - destruct (Nat.ltb_spec (length (okch d)) 1); [|done]. injection H as <- <-. rewrite length_app. simpl. lia.
  - destruct (okch d) as [|x ch']; [done|]. injection H as <- <-. simpl in *. lia.
  - injection H as <- <-. lia.
  - injection H as <- <-. lia.
Qed.
Lemma dial_step_channel n d d' : channel_ok n d -> dial_step d d' -> channel_ok n d'.
Proof.
  intros [Hl Hn] Hs. destruct Hs as [d a l ch rt Hd Ha|d a l ch rt Hd Ha];
    destruct (doAct_channel a d ch rt Ha Hl) as [Hl' Hc]; split; cbn [okch dialer closer]; try done;
    rewrite Hd in Hn; cbn [count_acts] in Hn; destruct a; cbn [is_send is_receive] in *; lia.
Qed.
Lemma dial_reach_channel n d d' : channel_ok n d -> dial_reach d d' -> channel_ok n d'.
Proof. intros Hc Hr. induction Hr; [done|]. eauto using dial_step_channel. Qed.

(** What is left to do is the end of what there was to do. *)
Lemma dial_reach_suffix d d' : dial_reach d d' -> dialer d' `suffix_of` dialer d /\ closer d' `suffix_of` closer d.
Proof.
  induction 1 as [|d1 d2 d3 Hs _ [IH1 IH2]]; [done|].
  destruct Hs as [d a l ch rt Hd|d a l ch rt Hd]; cbn [dialer closer] in *; split; try done; rewrite Hd.
  - by apply suffix_cons_r.
  - by apply suffix_cons_r.
Qed.
Lemma suffix_count p a b : a `suffix_of` b -> (count_acts p a <= count_acts p b)%nat.
Proof. intros [l ->]. rewrite count_acts_app. lia. Qed.

Definition actsLeft (d : dialing) : nat := length (dialer d) + length (closer d).
Lemma dial_step_less d d' : dial_step d d' -> (actsLeft d' < actsLeft d)%nat.
Proof. intros [? ? ? ? ? H|? ? ? ? ? H]; unfold actsLeft; cbn [dialer closer]; rewrite H; simpl; lia. Qed.

(** Every run ends. *)
Lemma dial_wf : well_founded (fun d' d => dial_step d d').
Proof.
  enough (H : forall n d, (actsLeft d < n)%nat -> Acc (fun d' d => dial_step d d') d) by (intros d; by apply (H (S (actsLeft d))); lia).
  induction n as [|n IH]; intros d Hd; [lia|]. constructor. intros d' Hs. apply IH.
  apply dial_step_less in Hs. lia.
Qed.

(** No goroutine can go on. *)
Definition dial_stuck (d : dialing) : Prop := forall d', ~ dial_step d d'.

Lemma handlerActs_receives f : receives (handlerActs f) = O.
Proof. unfold handlerActs. by repeat case_if. Qed.
Lemma handlers_receives fs : receives (fs ≫= handlerActs) = O.
Proof. induction fs as [|f fs IH]; [done|]. cbn [mbind list_bind]. by rewrite count_acts_app, handlerActs_receives, IH. Qed.
Lemma receives_no_receive l a : receives l = O -> a ∈ l -> a <> AReceive.
Proof.
  induction l as [|x l IH]; [by rewrite elem_of_nil|]. cbn [count_acts]. rewrite elem_of_cons.
  intros H [->|Hin] ->; [done|]. apply IH; [by destruct x|done|done].
Qed.

Section Dial.
Context (fs : list callback).
Abbreviation used := (sends (fs ≫= handlerActs)).

(** A dial whose [StartConn] succeeded. *)
Lemma dialing_ok d : dial_reach (dialStart false [] fs) d ->
  channel_ok (Z.of_nat used - 1) d /\ dialer d ∈ [[AReceive; ASet]; [ASet]; []] /\
  (forall a, a ∈ closer d -> a <> AReceive) /\ receives (closer d) = O.
Proof.
  intros Hr. destruct (dial_reach_suffix _ _ Hr) as [Hd [pre Hc]]. cbn [dialStart dialer closer dialerActs] in *.
  assert (Hz : receives (closer d) = O).
  { pose proof (handlers_receives fs) as H. rewrite Hc, count_acts_app in H. lia. }
  split_and!; [| |by intros a; apply receives_no_receive|done].
  - eapply dial_reach_channel; [|exact Hr]. split; [simpl; lia|].
    cbn [dialStart dialer closer dialerActs okch]. rewrite handlers_receives. simpl. lia.
  - destruct Hd as [[|? [|? [|? ?]]] Hd]; simpl in Hd; [rewrite <- Hd|injection Hd as _ <-|injection Hd as _ _ <-|];
      [set_solver..|]. injection Hd as _ _ Hd. by destruct l.
Qed.

(** A send that finds room, and any other act of a handler, can be done. *)
Lemma handler_can a d : a <> AReceive -> (is_send a = true -> okch d = []) -> exists r, doAct a d = Some r.
Proof. destruct a; simpl; intros H1 H2; [rewrite H2 by done; eauto|done|eauto|eauto]. Qed.

Lemma dial_stuck_returned d :
  dial_reach (dialStart false [] fs) d -> dial_stuck d -> (1 <= used)%nat -> dialer d = [].
Proof.
  intros Hr Hst Hk. destruct (dialing_ok d Hr) as ([Hl Hn] & Hd & Hc & Hz).
  rewrite !elem_of_cons in Hd. destruct Hd as [Hd|[Hd|[Hd|Hd%elem_of_nil]]]; [|exfalso|done|done].
  2:{ eapply Hst. by eapply step_dialer. }
  exfalso. destruct (okch d) as [|v ch] eqn:Ech.
  - rewrite Hd, Hz in Hn. simpl in Hn. destruct (closer d) as [|a l] eqn:El; [simpl in Hn; lia|].
    destruct (handler_can a d) as [[ch rt] Ha]; [apply Hc; set_solver|done|].
    eapply Hst. by eapply step_closer.
  - eapply Hst. eapply step_dialer; [done|]. simpl. by rewrite Ech.
Qed.

Lemma dial_stuck_closed d :
  dial_reach (dialStart false [] fs) d -> dial_stuck d -> (used <= 2)%nat -> closer d = [].
Proof.
  intros Hr Hst Hk. destruct (dialing_ok d Hr) as ([Hl Hn] & Hd & Hc & Hz).
  destruct (closer d) as [|a l] eqn:El; [done|]. exfalso.
  assert (Hfull : is_send a = true -> okch d <> []).
  { intros Hs He. destruct (handler_can a d) as [[ch rt] Ha]; [apply Hc; set_solver|done|].
    eapply Hst. by eapply step_closer. }
  destruct (is_send a) eqn:Es.
  - specialize (Hfull eq_refl). assert (dialer d = []) as Hnil.
    { apply (dial_stuck_returned d Hr Hst). destruct (okch d); [done|]. rewrite !elem_of_cons in Hd.
      destruct Hd as [Hd|[Hd|[Hd|Hd%elem_of_nil]]]; [| | |done]; rewrite Hd, ?Hz in Hn; simpl in Hn; rewrite Es in Hn; lia. }
    rewrite Hnil, Hz in Hn. cbn [count_acts] in Hn. rewrite Es in Hn. destruct (okch d); [done|]. simpl in Hn. lia.
  - destruct (handler_can a d) as [[ch rt] Ha]; [apply Hc; set_solver|by rewrite Es|].
    eapply Hst. by eapply step_closer.
Qed.

Lemma dial_closer_hangs d : dial_reach (dialStart false [] fs) d -> (3 <= used)%nat -> closer d <> [].
Proof.
  intros Hr Hk Hnil. destruct (dialing_ok d Hr) as ([Hl Hn] & Hd & _ & _). rewrite Hnil in Hn. cbn [count_acts] in Hn.
  rewrite !elem_of_cons in Hd. destruct Hd as [Hd|[Hd|[Hd|Hd%elem_of_nil]]]; [| | |done]; rewrite Hd in Hn; simpl in Hn; lia.
Qed.

(** When [StartConn] fails it has closed the connection; nobody reads the channel. *)
Lemma dial_failed_hangs own d :
  dial_reach (dialStart true own fs) d -> (2 <= sends (own ≫= handlerActs))%nat -> dialer d <> [].
Proof.
  intros Hr Hk Hnil. destruct (dial_reach_suffix _ _ Hr) as [_ Hc].
  assert (Hn : channel_ok (Z.of_nat (sends (own ≫= handlerActs) + used)) d).
  { eapply dial_reach_channel; [|exact Hr]. split; [simpl; lia|].
    unfold dialStart, dialerActs. cbn [dialer closer okch]. rewrite app_nil_r, !handlers_receives. simpl. lia. }
  destruct Hn as [Hl Hn]. rewrite Hnil in Hn. cbn [count_acts] in Hn.
  apply (suffix_count is_send) in Hc. cbn [dialStart closer] in Hc. lia.
Qed.
End Dial.

(** *** The handlers the connection calls *)
Definition called (l : list tEvent) : list callback :=
  omap (fun e => match e with EvHandler _ f _ => Some f | _ => None end) l.

Section Reader.
Context {Q : Type} `{!Queue Q cbItem}.
Context (rangeActive : gmap Z loc -> list (Z * loc)).
Implicit Types t : @H2Transport Q.

(** [reader]: the first frame, then one after the other until it returns; whether
    it goes on. *)
Fixpoint readerLoop (l : list (readOutcome * option reason)) (now : Z) : M bool :=
  match l with
  | [] => mret true
  | (o, detail) :: l => go ← reader_step (Q := Q) rangeActive o detail now; if (go : bool) then readerLoop l now else mret false
  end.
Definition reader (o : readOutcome) (l : list (readOutcome * option reason)) (now : Z) : M bool :=
  go ← reader_first rangeActive o now; if (go : bool) then readerLoop l now else mret false.

(** The handlers sent on the channel [n] times at least. *)
Definition fired (ev : Events) (n : nat) t : Prop :=
  t_events t = ev /\ (n <= sends (called (t_log t) ≫= handlerActs))%nat.

Lemma fired_log ev n B e : Keeps (fired ev n) B (log (Q := Q) e).
Proof.
  apply keeps_log. intros t [He Hn]. split; [done|]. cbn [t_log set_log]. unfold called in *. rewrite omap_app.
  rewrite bind_app, count_acts_app. lia.
Qed.
End Reader.
#[export] Hint Extern 1 (Keeps (fired _ _) _ (log _)) => apply fired_log : keeps.

Section ReaderRun.
Context {Q : Type} `{!Queue Q cbItem}.
Context (rangeActive : gmap Z loc -> list (Z * loc)).
Implicit Types t : @H2Transport Q.

Lemma fired_closeStream ev n p e rst code : Keeps (fired ev n) (fun _ => True) (closeStream (Q := Q) p e rst code).
Proof. unfold closeStream. keeps_ops. Qed.
Hint Resolve fired_closeStream : keeps.
Lemma fired_finish ev n : Keeps (fired ev n) (fun _ => True) (finish (Q := Q)).
Proof. unfold finish, cleanup. keeps_ops. Qed.
Hint Resolve fired_finish : keeps.

(** A handler that sends is called by every event it is registered for. *)
Lemma fired_MuxEvent ev n e fs :
  fire ev e = Some fs -> (1 <= sends (fs ≫= handlerActs))%nat ->
  Triple (fired ev n) (MuxEvent (Q := Q) e) (fun _ => fired ev (S n)) (fun _ => True).
Proof.
  intros Hf Hs t [He Hn]. unfold MuxEvent, fireAll, mbind, M_bind, gets. rewrite He, Hf. cbn [lift mret].
  enough (Hall : forall fs t, exists t', forM fs (fun f => log (EvHandler e f None)) t = Done t' tt /\
    t_events t' = t_events t /\ called (t_log t') = called (t_log t) ++ fs).
  { unfold mret, M_ret. destruct (Hall fs t) as (t' & -> & He' & Hc). split; [congruence|].
    rewrite Hc, bind_app, count_acts_app. lia. }
  clear. induction fs as [|f fs IH]; intros t; [exists t; by rewrite app_nil_r|].
  cbn [forM]. unfold mbind, M_bind. unfold log at 1. destruct (IH (set_log (t_log t ++ [EvHandler e f None]) t)) as (t' & -> & He & Hc).
  exists t'. split; [done|]. split; [done|]. rewrite Hc. cbn [t_log set_log]. unfold called. rewrite omap_app. simpl.
  by rewrite <- app_assoc.
Qed.

Lemma fired_less ev n m t : (m <= n)%nat -> fired ev n t -> fired ev m t.
Proof. intros H [? ?]. split; [done|lia]. Qed.

(** The handlers of a dialed connection are registered: each of the two events
    sends. *)
Context (ev : Events) (fss fsc : list callback).
Hypothesis fire_settings : fire ev Event_Settings = Some fss.
Hypothesis fire_connclose : fire ev Event_ConnClose = Some fsc.
Hypothesis settings_sends : (1 <= sends (fss ≫= handlerActs))%nat.
Hypothesis connclose_sends : (1 <= sends (fsc ≫= handlerActs))%nat.

(** After the settings one value was sent, and two more when the connection was
    closed. *)
Definition lifetime t : Prop := fired ev 1 t /\ (t_closed t = true -> fired ev 3 t).

Lemma lifetime_Close e :
  Triple lifetime (Close (Q := Q) rangeActive e) (fun _ => fired ev 3) (fun _ => True).
Proof.
  intros t [H1 Hc]. unfold Close, mbind at 1, M_bind at 1, gets at 1. destruct (t_closed t); [by apply Hc|].
  revert t H1 Hc. enough (Hk : Triple (fired ev 1)
    (modify (set_closed true);; modify (fun t => match t_Error t with None => set_Error e t | Some _ => t end);;
     MuxEvent Event_ConnClose;;
     streams ← gets t_activeStreams; modify (set_activeStreams None);;
     dormant ← gets t_kpDormant; when dormant (log EvSignal);; finish;;
     done ← gets t_done; c ← lift (closeChan done); modify (set_done c);; log EvConnClose;;
     forM (rangeActive (default ∅ streams)) (fun ip => closeStream ip.2 (Some ErrClosing) false 0);;
     MuxEvent Event_ConnClose) (fun _ => fired ev 3) (fun _ => True)) by (intros t H1 _; by apply Hk).
  apply triple_seq; [keeps|intros ?]. apply triple_seq; [keeps_modify_cases|intros ?].
  eapply triple_bind; [by apply (fired_MuxEvent _ _ _ fsc)|intros ?].
  apply triple_seq; [keeps|intros streams]. do 2 (apply triple_seq; [keeps|intros ?]).
  do 3 (apply triple_seq; [keeps|intros ?]). 
  apply triple_seq; [keeps|intros c]. do 3 (apply triple_seq; [keeps|intros ?]).
  by apply (fired_MuxEvent _ _ _ fsc).
Qed.

Lemma fired_lifetime t : fired ev 3 t -> lifetime t.
Proof. intros H. split; [by eapply fired_less; [|exact H]; lia|done]. Qed.
Lemma keeps_lifetime_Close e : Keeps lifetime (fun _ => True) (Close (Q := Q) rangeActive e).
Proof. eapply triple_weaken; [apply lifetime_Close|done|intros ? ?; apply fired_lifetime|done]. Qed.
Lemma keeps_lifetime_log B e : Keeps lifetime B (log (Q := Q) e).
Proof.
  intros t [H1 H3]. pose proof (fired_log ev 1 (fun _ => True) e t H1) as L1. split; [exact L1|]. intros Hc.
  exact (fired_log ev 3 (fun _ => True) e t (H3 Hc)).
Qed.
Hint Resolve keeps_lifetime_Close keeps_lifetime_log : keeps.
Lemma lifetime_closeStream p e rst code : Keeps lifetime (fun _ => True) (closeStream (Q := Q) p e rst code).
Proof. unfold closeStream. keeps_ops. Qed.
Hint Resolve lifetime_closeStream : keeps.

Lemma lifetime_reader_step o detail now : Keeps lifetime (fun _ => True) (reader_step (Q := Q) rangeActive o detail now).
Proof. unfold reader_step. keeps_ops. Qed.

(** The reader ends only through [Close]. *)
Definition ended_after (go : bool) t : Prop := lifetime t /\ (go = false -> fired ev 3 t).
Lemma turn_goes_on (m : M (Q := Q) ()) : Keeps lifetime (fun _ => True) m -> Triple lifetime (m;; mret true) ended_after (fun _ => True).
Proof. intros Hm. apply triple_seq; [done|]. intros _ t Ht. by split. Qed.
Lemma closes e : Triple lifetime (Close (Q := Q) rangeActive e;; mret false) ended_after (fun _ => True).
Proof.
  eapply triple_bind; [apply lifetime_Close|]. intros ? t Ht. split; [by apply fired_lifetime|done].
Qed.
Lemma lifetime_reader_step_ends o detail now :
  Triple lifetime (reader_step (Q := Q) rangeActive o detail now) ended_after (fun _ => True).
Proof.
  unfold reader_step. apply triple_seq; [keeps|intros ?]. destruct o as [[f|mh]|e|].
  - apply turn_goes_on. destruct f; keeps_ops.
  - apply turn_goes_on. keeps_ops.
  - destruct e; try apply closes. apply triple_seq; [keeps_ops|intros ?]. apply turn_goes_on. keeps_ops.
  - intros t Ht. done.
Qed.
Lemma lifetime_readerLoop l now : Triple lifetime (readerLoop (Q := Q) rangeActive l now) ended_after (fun _ => True).
Proof.
  induction l as [|[o detail] l IH]; cbn [readerLoop]; [intros t Ht; by split|].
  eapply triple_bind; [apply lifetime_reader_step_ends|]. intros [|] t [Ht Hgo]; [by apply IH|]. by split.
Qed.

(** The settings the connection starts with. *)
Definition opened_with t : Prop := t_events t = ev /\ t_closed t = false.
Lemma opened_MuxEvent e : Keeps opened_with (fun _ => True) (MuxEvent (Q := Q) e).
Proof. keeps_ops. Qed.
Lemma settings_lifetime : Triple opened_with (MuxEvent (Q := Q) Event_Settings) (fun _ => lifetime) (fun _ => True).
Proof.
  intros t Ht. pose proof (opened_MuxEvent Event_Settings t Ht) as Ho. destruct Ht as [He Hc].
  assert (H0 : fired ev 0 t) by (split; [done|lia]).
  pose proof (fired_MuxEvent ev 0 Event_Settings fss fire_settings settings_sends t H0) as Hf.
  destruct (MuxEvent Event_Settings t) as [t' a| |]; [|done..]. split; [done|]. by rewrite (proj2 Ho).
Qed.
Lemma lifetime_reader_first fh p now :
  Has (Flags fh) FlagSettingsAck = false ->
  Triple opened_with (reader_first (Q := Q) rangeActive (Ret (Plain (SettingsFrame fh p))) now)
    (fun go t => go = true /\ lifetime t) (fun _ => True).
Proof.
  intros Hack. unfold reader_first, handleSettingsClient. rewrite Hack.
  apply triple_seq; [keeps|intros ?]. eapply (triple_bind _ _ (fun _ => lifetime)); [|by intros ? t Ht].
  apply triple_seq; [keeps_ops|intros r]. apply triple_seq; [keeps_ops|intros ?]. apply settings_lifetime.
Qed.
Lemma reader_lifetime fh p l now :
  Has (Flags fh) FlagSettingsAck = false ->
  Triple opened_with (reader (Q := Q) rangeActive (Ret (Plain (SettingsFrame fh p))) l now)
    (fun go t => go = false -> fired ev 3 t) (fun _ => True).
Proof.
  intros Hack. unfold reader. eapply triple_bind; [by apply lifetime_reader_first|].
  intros go t [-> Ht].
  pose proof (lifetime_readerLoop l now t Ht) as H. destruct (readerLoop _ l now t); [by apply H|done|done].
Qed.
End ReaderRun.

(** *** The handlers of a dialed connection *)
Lemma calls_sends e t f : calls e t f -> (1 <= sends (handlerActs f))%nat ->
  exists fs, fire e t = Some fs /\ (1 <= sends (fs ≫= handlerActs))%nat.
Proof.
  intros (fs & Hf & Hin) Hs. exists fs. split; [done|]. apply list_elem_of_split in Hin as (l1 & l2 & ->).
  rewrite bind_app. cbn [mbind list_bind]. rewrite !count_acts_app. lia.
Qed.

Lemma dialHandlers_calls shared ev : dialHandlers shared = Some ev ->
  calls ev Event_Settings cb_settings /\ calls ev Event_ConnClose cb_connclose.
Proof.
  unfold dialHandlers. intros H.
  destruct (OnEvent no_events Event_Settings _) as [e1|] eqn:E1; [|done]. cbn [mbind option_bind] in H.
  destruct (OnEvent e1 Event_GoAway _) as [e2|] eqn:E2; [|done]. cbn [mbind option_bind] in H.
  destruct (OnEvent e2 Event_ConnClose _) as [e3|] eqn:E3; [|done]. cbn [mbind option_bind] in H.
  injection E1 as <-. injection E2 as <-. injection E3 as <-.
  split; eapply Add_calls; try exact H; (eexists; split; [reflexivity|]; set_solver).
Qed.

(** *** Dialing

    What the modules below decide: the error of [ep.Dial] for an address, whether
    the connection it made is one of TLS, the error of [StartConn], and how the
    wait for [okch] ended: [None] when nothing was sent, else whether
    [ep.RoundTripper] is the connection afterwards (a state of [dial_reach]). *)
Record dialEnv := mkDialEnv {
  de_Dial : list Z -> option Z;
  de_tls : bool;
  de_startErr : option Z;
  de_after : option bool
}.
Inductive dialResult :=
| DialReturns (ep : EndpointCon) (err : option Z)
| DialPanics
| DialWaits.

Definition set_RoundTripper (ep : EndpointCon) (rt : option roundTripper) : EndpointCon := mkEC (ec_Endpoint ep) rt.

(** A [StartConn] that fails closes the connection, whose handlers then wait
    for [okch] ([dial_failed_hangs]). *)
Definition dialH2ClientConn (env : dialEnv) (hc : loc) (c : MeshCluster) (ep : EndpointCon) : MeshCluster * dialResult :=
  let addr := dialAddr c (ec_Endpoint ep) in
  let c := dialDefaults c in
  (c, match de_Dial env addr with
      | Some e => DialReturns ep (Some e)
      | None =>
          if negb (de_tls env) then DialPanics else
          match de_startErr env with
          | Some _ => DialWaits
          | None =>
              match de_after env with
              | None => DialWaits
              | Some kept => DialReturns (set_RoundTripper ep (if kept then Some (RtH2 hc) else None)) None
              end
          end
      end).

Section FindMux.
Context {Q : Type} `{!Queue Q cbItem}.
Implicit Types t : @H2Transport Q.

Definition CanTakeNewRequest t : bool := negb (t_closing t).

(** The endpoint and the connection record a cluster without one gets. *)
Definition addEndpointCon (c : MeshCluster) : MeshCluster :=
  match c_EndpointCon c with
  | [] =>
      let '(c, endp) := match c_Endpoints c with
                        | endp :: _ => (c, endp)
                        | [] => (set_Endpoints c [noEndpoint], noEndpoint)
                        end in
      set_EndpointCon c [mkEC endp None]
  | _ => c
  end.

(** A connection that takes no new requests is dropped; [conns] are those there
    are. *)
Definition dropUnusable (conns : gmap loc (@H2Transport Q)) (ep : EndpointCon) : EndpointCon :=
  match ec_RoundTripper ep with
  | Some (RtH2 h) =>
      match conns !! h with
      | Some t => if CanTakeNewRequest t then ep else set_RoundTripper ep None
      | None => ep
      end
  | _ => ep
  end.

(** [hc] is the name of the connection if one is made.  [None] is an index out of
    range. *)
Definition FindMux (env : dialEnv) (conns : gmap loc (@H2Transport Q)) (hc : loc) (c : MeshCluster)
    : option (MeshCluster * dialResult) :=
  let c := addEndpointCon c in
  ep ← c_EndpointCon c !! 0%nat;
  let ep := dropUnusable conns ep in
  let store c ep := set_EndpointCon c (<[0%nat := ep]> (c_EndpointCon c)) in
  match ec_RoundTripper ep with
  | Some _ => Some (store c ep, DialReturns ep None)
  | None =>
      let '(c, r) := dialH2ClientConn env hc c ep in
      Some (match r with DialReturns ep' _ => store c ep' | _ => store c ep end, r)
  end.

(** [FindMux] does not go out of range; a connection that takes requests is used
    as it is, without dialing; in every other case one is dialed, for the first
    endpoint, and an error of the dial leaves no connection behind. *)
Lemma FindMux_spec env conns hc c :
  exists c' r, FindMux env conns hc c = Some (c', r) /\ c_EndpointCon c' <> [] /\
    (forall ep, c_EndpointCon c !! 0%nat = Some ep ->
       match ec_RoundTripper ep with
       | Some (RtH2 h) => exists t, conns !! h = Some t /\ CanTakeNewRequest t = true
       | Some RtOther => True
       | None => False
       end -> c' = c /\ r = DialReturns ep None) /\
    (c_EndpointCon c = [] -> forall e,
       de_Dial env (dialAddr c (default noEndpoint (c_Endpoints c !! 0%nat))) = Some e ->
       exists ep, r = DialReturns ep (Some e) /\ ec_RoundTripper ep = None /\ c_EndpointCon c' = [ep]).
Proof.
  unfold FindMux, addEndpointCon. destruct c as [addr w cw fs eps [|ep cons]]; cbn [c_EndpointCon c_Endpoints].
  - destruct eps as [|endp eps]; cbn; (eexists _, _; split; [reflexivity|]); split_and!; try done.
    + by repeat case_match.
    + intros _ e He. unfold dialAddr in *. cbn in *. rewrite He. eauto.
    + by repeat case_match.
    + intros _ e He. unfold dialAddr in *. cbn in *. rewrite He. eauto.
  - cbn [lookup list_lookup mbind option_bind]. destruct (ec_RoundTripper (dropUnusable conns ep)) as [rt|] eqn:E.
    + eexists _, _. split; [reflexivity|]. split; [done|]. split; [|done]. intros ? [= <-] Hu.
      assert (dropUnusable conns ep = ep) as ->; [|done]. unfold dropUnusable in *.
      destruct (ec_RoundTripper ep) as [[h|]|]; [|done|done]. destruct Hu as (t & -> & ->). done.
    + destruct (dialH2ClientConn env hc _ _) as [c1 r] eqn:Ed. eexists _, _. split; [reflexivity|].
      assert (Hcons : c_EndpointCon c1 = ep :: cons) by (by injection Ed as <- _).
      split; [destruct r; cbn [set_EndpointCon c_EndpointCon]; by rewrite Hcons|]. split; [|done]. intros ? [= <-] Hu. exfalso. unfold dropUnusable in E.
      destruct (ec_RoundTripper ep) as [[h|]|] eqn:Er; [|congruence|done].
      destruct Hu as (t & Ht & Hc). rewrite Ht, Hc, Er in E. done.
Qed.
End FindMux.

(** ** The reverse connection: [DialH2R] *)
Definition h2rBackoff : Z := 50 * Millisecond.

(** The loop of the goroutine: the connection it has ([None] is nil), the backoff,
    the connections it gave to [StartConn] and the times it slept. *)
Record h2rState := mkH2R { h2r_tc : option loc; h2r_backoff : Z; h2r_started : list (option loc); h2r_slept : list Z }.
Definition h2rStart (tc : loc) : h2rState := mkH2R (Some tc) h2rBackoff [] [].

(** A turn; [canceled] is [ctx.Err() != nil], [dial] what [hc.Dial] returns: the
    connection, and whether there was an error.  [StartConn] does not wait for the
    connection to end, and its error is dropped; the loop around the dial runs
    once.  [None] when the goroutine returns. *)
Definition h2rTurn (st : h2rState) (canceled : bool) (dial : option loc * bool) : option h2rState :=
  let started := h2r_started st ++ [h2r_tc st] in
  if canceled then None else
  let '(tc, failed) := dial in
  let '(slept, backoff) := if failed : bool then (h2r_slept st ++ [h2r_backoff st], i64 (h2r_backoff st * 2))
                           else (h2r_slept st, h2r_backoff st) in
  let backoff := h2rBackoff in
  Some (mkH2R tc backoff started slept).

Fixpoint h2rRun (st : h2rState) (l : list (option loc * bool)) : option h2rState :=
  match l with [] => Some st | d :: l => st ← h2rTurn st false d; h2rRun st l end.

(** The backoff never grows, and what a dial returned is used also when it failed:
    [n] turns start the connection they began with and those of the first [n - 1]
    dials, and sleep 50 ms for each failure. *)
Lemma h2r_turns l : forall st, h2r_backoff st = h2rBackoff ->
  exists st', h2rRun st l = Some st' /\ h2r_backoff st' = h2rBackoff /\
    h2r_tc st' = default (h2r_tc st) (last l.*1) /\
    h2r_started st' = h2r_started st ++ take (length l) (h2r_tc st :: l.*1) /\
    h2r_slept st' = h2r_slept st ++ replicate (length (filter (fun d => d.2 = true) l)) h2rBackoff.
Proof.
  induction l as [|[tc failed] l IH]; intros st Hb.
  { exists st. cbn. rewrite !app_nil_r. done. }
  cbn [h2rRun h2rTurn mbind option_bind].
  destruct (IH (mkH2R tc h2rBackoff (h2r_started st ++ [h2r_tc st])
    (h2r_slept st ++ if failed then [h2rBackoff] else []))) as (st' & E & H1 & H2 & H3 & H4); [done|].
  cbn [h2r_tc h2r_started h2r_slept] in *. exists st'.
  split_and!.
  - unfold h2rTurn. rewrite Hb. destruct failed; cbn [mbind option_bind]; [done|by rewrite app_nil_r in E].
  - done.
  - rewrite H2. cbn [fmap list_fmap fst]. rewrite last_cons. by destruct (last l.*1).
  - rewrite H3, <- app_assoc. done.
  - rewrite H4, filter_cons, <- app_assoc. f_equal. cbn [snd]. by destruct failed.
Qed.

(** ** Accepted streams: [handleH2Stream] *)
Section Handle.
Context {Q : Type} `{!Queue Q cbItem}.
Context (rangeHeader : httpHeader -> list (list Z)).

(** What is decided elsewhere: the error of [net.Dial] for an address, that of the
    handshake inside the stream, the pattern of the mux that matches a request, and
    what the handlers do with the stream.  [ServeHTTP] recovers when one of them
    panics: a handler ends here where it panics. *)
Context (netDial : list Z -> option Z) (handshakeErr : option Z) (pattern : Request -> list Z)
        (muxServe proxyServe : loc -> Request -> @M Q ()).

Inductive gwAction :=
| GwInnerTLSFailed
| GwTCPProxy (addr : list Z)      (** [HandleTCPProxy] over the inner TLS connection *)
| GwDialFailed (addr : list Z)
| GwProxy (addr : list Z)         (** [ugate.Proxy] *)
| GwServed.

(** The 200 that opens a tunnel. *)
Definition respondOK (p : loc) : M () :=
  updS p (fun s => with_Response s (mkResponse (str "200") (rs_StatusCode (s_Response s))
            (Header_Add (rs_Header (s_Response s)) (str "x-status") (str "200")) (rs_Trailer (s_Response s))));;
  _ ← WriteHeader rangeHeader p; mret tt.

Definition Header_Del (h : httpHeader) (k : list Z) : httpHeader := delete (CanonicalHeaderKey k) h.

(** [HBoneAcceptedConn.ServeHTTP] *)
Definition ServeHTTP (p : loc) : M () :=
  s ← getS p;
  let r := s_Request s in
  if bool_decide (pattern r <> []) then muxServe p r else
  let r := mkRequest (rq_Method r) (rq_Host r) (rq_URL r) (Header_Del (rq_Header r) (str "x-forwarded-client-cert")) in
  updS p (fun s => with_Request s r);;
  proxyServe p r.

Definition handleH2Stream (p : loc) : M gwAction :=
  s ← getS p;
  let r := s_Request s in
  let tunMode := Header_Get (rq_Header r) (str "x-tun") in
  if bool_decide (rq_Method r = str "POST") && bool_decide (tunMode <> []) then
    respondOK p;;
    match handshakeErr with
    | Some _ => CloseBoth rangeHeader p;; mret GwInnerTLSFailed
    | None => mret (GwTCPProxy (str "localhost:" ++ portOf tunMode))
    end
  else
  let hbSvc := Header_Get (rq_Header r) (str "x-service") in
  if bool_decide (rq_Method r = str "CONNECT") || bool_decide (rq_Method r = str "POST") && bool_decide (hbSvc <> []) then
    let hostPort := str "localhost:" ++ portOf (rq_Host r) in
    match netDial hostPort with
    | Some _ => mret (GwDialFailed hostPort)
    | None => respondOK p;; mret (GwProxy hostPort)
    end
  else
    ServeHTTP p;;
    _ ← CloseWrite rangeHeader p;
    CloseBoth rangeHeader p;;
    mret GwServed.
End Handle.

(** *** What becomes of the stream *)
Section Ended.
Context {Q : Type} `{!Queue Q cbItem}.
Implicit Types t : @H2Transport Q.

(** A flag of a stream that is set. *)
Definition flag_at (g : H2Stream -> bool) (p : loc) t : Prop := exists s, t_strs t !! p = Some s /\ g s = true.

Lemma flag_updS g p q f B : (forall s, g (f s) = g s) -> Keeps (flag_at g p) B (updS q f).
Proof.
  intros Hf. apply keeps_updS. intros t s Hs (s' & Hp & Hd). unfold flag_at. cbn [t_strs set_strs].
  destruct (decide (q = p)) as [->|Hne].
  - exists (f s). rewrite lookup_insert_eq, Hf. split; [done|]. congruence.
  - exists s'. by rewrite lookup_insert_ne.
Qed.
Hint Extern 1 (Keeps (flag_at _ _) _ (updS _ _)) => apply flag_updS; intros ?; reflexivity : keeps.

Lemma triple_getS {A} (I : @H2Transport Q -> Prop) p (k : H2Stream -> M A) K B :
  (forall s, Triple (fun t => I t /\ t_strs t !! p = Some s) (k s) K B) -> Triple I (getS p ≫= k) K B.
Proof.
  intros Hk t Ht. unfold mbind, M_bind, getS. destruct (t_strs t !! p) as [s|] eqn:E; [|done]. by apply Hk.
Qed.
Lemma flag_now g p I f B : (forall s, g (f s) = true) -> Triple I (updS (Q := Q) p f) (fun _ => flag_at g p) B.
Proof.
  intros Hf. unfold updS. apply triple_getS. intros s t [_ Hs]. exists (f s). cbn [t_strs set_strs].
  by rewrite lookup_insert_eq.
Qed.
(** Whatever an operation does. *)
Lemma triple_any {A} I (m : @M Q A) : Triple I m (fun _ _ => True) (fun _ => True).
Proof. intros t _. by destruct (m t). Qed.

Lemma closeStream_ended I p e rst code :
  Triple I (closeStream (Q := Q) p e rst code) (fun _ => flag_at s_streamDone p) (fun _ => True).
Proof.
  unfold closeStream. apply triple_getS. intros s. destruct (s_streamDone s) eqn:Ed.
  { intros t [_ Ht]. destruct (s_done s); [done|done|]. by exists s. }
  eapply triple_bind; [by apply (flag_now s_streamDone)|intros ?]. apply triple_keeps. keeps_ops.
Qed.
Lemma CloseBoth_ended rangeHeader I p :
  Triple I (CloseBoth (Q := Q) rangeHeader p) (fun _ => flag_at s_streamDone p) (fun _ => True).
Proof.
  unfold CloseBoth. eapply triple_bind; [apply triple_any|intros s].
  eapply triple_bind; [apply triple_any|intros ?]. eapply triple_bind; [apply closeStream_ended|intros ?].
  apply triple_keeps. keeps_ops.
Qed.
Lemma sent_closeStream p q e rst code : Keeps (flag_at s_headerSent p) (fun _ => True) (closeStream (Q := Q) q e rst code).
Proof. keeps_ops. Qed.
Hint Resolve sent_closeStream : keeps.
Lemma WriteHeader_sent rangeHeader I p :
  Triple I (WriteHeader (Q := Q) rangeHeader p) (fun _ => flag_at s_headerSent p) (fun _ => True).
Proof.
  unfold WriteHeader. eapply triple_bind; [apply triple_any|intros s].
  eapply triple_bind; [by apply (flag_now s_headerSent)|intros ?]. apply triple_keeps.
  unfold streamContextErr, writeResponseHeaders, fitsHeaderList. keeps_ops.
Qed.

(** The gateway's handler of a stream: which requests are tunnels, and that a
    tunnel is answered before its bytes are proxied and any other stream is closed
    after it was served.  A tunnel whose target cannot be dialed leaves the
    connection as it was: no response, no RST_STREAM. *)
Context (rangeHeader : httpHeader -> list (list Z)) (netDial : list Z -> option Z) (handshakeErr : option Z)
  (pattern : Request -> list Z) (muxServe proxyServe : loc -> Request -> @M Q ()).
Abbreviation handle := (handleH2Stream rangeHeader netDial handshakeErr pattern muxServe proxyServe).

Definition is_tun (r : Request) : bool :=
  bool_decide (rq_Method r = str "POST") && bool_decide (Header_Get (rq_Header r) (str "x-tun") <> []).
Definition is_tunnel (r : Request) : bool :=
  bool_decide (rq_Method r = str "CONNECT")
  || bool_decide (rq_Method r = str "POST") && bool_decide (Header_Get (rq_Header r) (str "x-service") <> []).
Definition target (r : Request) : list Z := str "localhost:" ++ portOf (rq_Host r).

Lemma handleH2Stream_refused t p s e :
  t_strs t !! p = Some s -> is_tun (s_Request s) = false -> is_tunnel (s_Request s) = true ->
  netDial (target (s_Request s)) = Some e ->
  handle p t = Done t (GwDialFailed (target (s_Request s))).
Proof.
  intros Hs H1 H2 Hd. unfold handleH2Stream, mbind, M_bind, getS. rewrite Hs. unfold is_tun, is_tunnel, target in *.
  cbv zeta. rewrite H1, H2, Hd. done.
Qed.

Lemma handleH2Stream_outcome I p :
  Triple I (handle p)
    (fun a t => match a with
                | GwServed | GwInnerTLSFailed => flag_at s_streamDone p t
                | GwProxy _ | GwTCPProxy _ => flag_at s_headerSent p t
                | GwDialFailed _ => True
                end) (fun _ => True).
Proof.
  assert (Hok : forall J : @H2Transport Q -> Prop, Triple J (respondOK rangeHeader p) (fun _ => flag_at s_headerSent p) (fun _ => True)).
  { intros J. unfold respondOK. eapply triple_bind; [apply triple_any|intros ?].
    eapply triple_bind; [apply WriteHeader_sent|intros ?]. apply keeps_ret. }
  unfold handleH2Stream. eapply triple_bind; [apply triple_any|intros s]. cbv zeta.
  case_match.
  - eapply triple_bind; [apply Hok|intros ?]. destruct handshakeErr.
    + eapply triple_bind; [apply CloseBoth_ended|intros ?]. by intros t Ht.
    + by intros t Ht.
  - case_match.
    + destruct (netDial _); [by intros t Ht|]. eapply triple_bind; [apply Hok|intros ?]. by intros t Ht.
    + eapply triple_bind; [apply triple_any|intros ?]. eapply triple_bind; [apply triple_any|intros ?].
      eapply triple_bind; [apply CloseBoth_ended|intros ?]. by intros t Ht.
Qed.
End Ended.

(** ** A connection that was closed is still taken

    [Close] does not set [closing], which is what [CanTakeNewRequest] looks at. *)
Section Stale.
Context {Q : Type} `{!Queue Q cbItem}.
Context (rangeActive : gmap Z loc -> list (Z * loc)).

Lemma Close_keeps_closing b e : Keeps (fun t => t_closing t = b) (fun _ => True) (Close (Q := Q) rangeActive e).
Proof. unfold Close, finish, cleanup. keeps_ops. Qed.

Lemma FindMux_stale env (t t' : @H2Transport Q) e h hc c ep :
  CanTakeNewRequest t = true -> Close rangeActive e t = Done t' tt ->
  c_EndpointCon c !! 0%nat = Some ep -> ec_RoundTripper ep = Some (RtH2 h) ->
  FindMux env {[ h := t' ]} hc c = Some (c, DialReturns ep None).
Proof.
  intros Ht Hc Hep Hrt. pose proof (Close_keeps_closing (t_closing t) e t eq_refl) as Hk. rewrite Hc in Hk.
  destruct (FindMux_spec env {[h := t']} hc c) as (c' & r & -> & _ & Huse & _).
  destruct (Huse ep Hep) as [-> ->]; [|done]. rewrite Hrt. exists t'. rewrite lookup_singleton_eq.
  split; [done|]. unfold CanTakeNewRequest in *. by rewrite Hk.
Qed.
End Stale.

(** A dial may succeed and leave a connection that is closed: it was closed
    before its settings came. *)
Lemma dial_closed_connection :
  exists d, dial_reach (dialStart false [] [cb_connclose; cb_connclose]) d /\ dial_stuck d /\
    dialer d = [] /\ closer d = [] /\ roundTrip d = true.
Proof.
  exists (mkDialing [0] true [] []). split; [|split; [intros d' Hs; by inversion Hs|done]].
  eapply rtc_l; [by eapply step_closer|]. eapply rtc_l; [by eapply step_closer|].
  eapply rtc_l; [by eapply step_dialer|]. eapply rtc_l; [by eapply step_closer|].
  eapply rtc_l; [by eapply step_closer|]. eapply rtc_l; [by eapply step_dialer|]. apply rtc_refl.
Qed.

(** ** The theorems *)




(** ** Accepted connections: [BlockingServerConn] *)
Section Accept.
Context {Q : Type} `{!Queue Q cbItem}.
Context (rangeActive : gmap Z loc -> list (Z * loc)) (chunkCap : Z -> Z).
Context (frErr : nat -> option frameErr) (wrErr : writeCall -> option tErr).

Definition serverConfig : H2Config := mkConfig 0 0 0 None 0 None 0 false.

(** The connection was refused, and closed, or its frames were read. *)
Inductive acceptResult :=
| AcceptRefused (e : serverErr)
| AcceptServed (r : @result Q (option Framer))
| AcceptWaits
| AcceptPanics.

Definition BlockingServerConn (fuel : nat) (env : nat -> list loopyOp * Z) (ev : Events) (r : Frame.reader) (now : Z)
    : acceptResult :=
  match NewServerConnection rangeActive chunkCap frErr serverConfig ev r now with
  | ServerErr _ (Some (Blocks _ _)) => AcceptWaits
  | ServerErr _ (Some Crashes) => AcceptPanics
  | ServerErr e _ => AcceptRefused e
  | ServerWaits => AcceptWaits
  | ServerPanics => AcceptPanics
  | ServerUp _ fr t =>
      AcceptServed ((modify (set_hasHandle true);; modify (set_hasTraceCtx true);; MuxEvent Event_Connect_Done;;
                     HandleStreams rangeActive chunkCap wrErr fuel env fr) t)
  end.

Context (rangeActive_empty : rangeActive ∅ = []) (chunkCap_enough : forall n, n <= chunkCap n).

(** Whatever a peer sends first, the server is up and has no streams, or it has
    turned the peer away. *)
Lemma server_starts ev r now : ev_wf ev -> len (rdata r) < 2 ^ 61 ->
  match NewServerConnection (Q := Q) rangeActive chunkCap frErr serverConfig ev r now with
  | ServerUp _ fr t => quiet t /\ fr_wf fr /\ (left fr < length (rdata r))%nat
  | ServerErr _ None => True
  | ServerErr _ (Some c) => exists t', c = Done t' ()
  | ServerWaits | ServerPanics => False
  end.
Proof.
  intros Hev Hr. unfold NewServerConnection.
  destruct (ReadFull_spec r (len clientPreface)) as (r1 & o & -> & Hnp & Hl1 & Hio & Hret).
  destruct o as [b|e|]; [|destruct e as [| | | | | | | | | |[]]; done|done]. destruct (Hret b eq_refl) as [_ Hl].
  case_bool_decide; [done|]. destruct (newFramer _ _ _) as [fr|] eqn:Ef; [|by vm_compute in Ef].
  assert (Hfl : left fr = length (rdata r1)).
  { unfold newFramer in Ef. destruct (NewDecoder _); [|done]. cbn [mbind option_bind] in Ef. by injection Ef as <-. }
  apply newFramer_wf in Ef; [|by vm_compute|unfold len in *; lia].
  set (wr := writeFrames frErr 0 _). assert (Hwr : wr <> Panic).
  { subst wr. vm_compute (newServer_writes _). repeat (cbn [writeFrames]; match goal with |- context [write ?a ?b] => set (x := write a b); vm_compute in x; subst x end;
      cbn [obind]; destruct (frErr _); [done|]); done. }
  destruct wr as [written| |]; [|done|done]. unfold newServer. rewrite Add_self by done. cbn [mbind option_bind].
  set (t := mkTransport _ _ _ _ _ _ _ _ _ _ _ _ _ _ _ _ _ _ _ _ _ _ _ _ _ _ _ _ _ _ _ _ _ _ _ _ _ _ _ _ _ _ _).
  assert (Hq : quiet t) by (by apply new_quiet). clearbody t.
  destruct (ReadFrame_safe chunkCap chunkCap_enough fr Ef) as (fr1 & o & -> & Hnp1 & Hwf1 & Hlen). unfold firstSettings.
  assert (Hc : forall e, exists t', Close rangeActive e t = Done t' ()).
  { intros e. destruct (wp_elim _ _ _ (quiet_Close rangeActive rangeActive_empty e t Hq)) as (t' & [] & E & _). eauto. }
  destruct o as [[f|mh]|e|]; [|apply Hc|apply Hc|done]. destruct f; try apply Hc.
  match goal with |- context [?m t] => destruct (wp_elim m t (fun _ => quiet)) as (t' & [] & -> & Hq') end.
  { wps. apply quiet_handleSettingsServer. by apply (quiet_closed t); auto. }
  split_and!; [done|done|]. unfold left in *. unfold len in Hl. change (Z.to_nat (Z.of_nat (length clientPreface))) with 24%nat in Hl. lia.
Qed.

(** A connection on which no request comes is served until it ends. *)
Lemma BlockingServerConn_ends fuel env ev r now : ev_wf ev -> len (rdata r) < 2 ^ 61 -> (length (rdata r) <= fuel)%nat ->
  (forall w fr t, NewServerConnection (Q := Q) rangeActive chunkCap frErr serverConfig ev r now = ServerUp w fr t ->
     Forall (fun o => is_request true o = false) (reads chunkCap fuel fr)) ->
  match BlockingServerConn fuel env ev r now with
  | AcceptRefused _ => True
  | AcceptServed r => loop_ended r
  | AcceptWaits | AcceptPanics => False
  end.
Proof.
  intros Hev Hr Hf Hno. unfold BlockingServerConn. pose proof (server_starts ev r now Hev Hr) as Hs.
  destruct (NewServerConnection _ _ _ _ _ _ _) as [w fr t|e [c|]| |]; [| |done..].
  - destruct Hs as (Hq & Hwf & Hl). specialize (Hno w fr t eq_refl). unfold modify, mbind at 1, M_bind at 1, mbind at 1, M_bind at 1.
    set (t1 := set_hasTraceCtx _ _). assert (Hq1 : quiet t1) by (by apply (quiet_closed t); auto).
    destruct (wp_elim _ _ _ (quiet_fire Event_Connect_Done None ltac:(by vm_compute) t1 Hq1)) as (t2 & [] & E & Hq2).
    unfold mbind, M_bind, MuxEvent. rewrite E. apply (readLoop_quiet wrErr chunkCap chunkCap_enough true);
      [|done|done|lia|done]. intros. by apply serve_turn.
  - by destruct Hs as [t' ->].
Qed.
End Accept.
