(* ===== verification/EndToEnd.v ===== *)
(** * From one endpoint to the other

    The components composed along the path of the data: the DATA frames that a
    loopy writer has written ([Loopy]), as bytes on a connection ([Frame]), read
    by the framer of the peer ([FrameRead]) and handed by its reader to the
    streams ([Transport]). *)
From S2P Require Import Loopy LoopyRun Prelude HpackTables Frame FrameRead FlowControl Lists ControlBuf.
From S2P Require Import Timeout Messages Events Bdp Transport TransportInv TransportSpec.

(** ** On the wire *)
Abbreviation chunk := (Z * bool * list Z)%type.
Definition chunk_ok (c : chunk) : Prop := sid_ok c.1.1 /\ bytes_ok c.2 /\ len c.2 <= http2MaxFrameLen.
Definition chunk_bytes (c : chunk) : list Z :=
  match write false (CallData c.1.1 c.1.2 c.2 None) with Ret b => b | _ => [] end.
Definition wire_bytes (cs : list chunk) : list Z := cs ≫= chunk_bytes.

Lemma chunk_wire c : chunk_ok c -> wire (chunk_bytes c) (DataFrame (dataHeader c.1.1 (len c.2) c.1.2) c.2).
Proof.
  destruct c as [[sid es] d]. intros (Hs & Hd & Hl). unfold chunk_bytes. cbn [fst snd] in *. unfold http2MaxFrameLen in Hl.
  destruct (call_roundtrips (CallData sid es d None)) as (b & -> & Hw).
  { split; [done|]. split; [done|]. split; [lia|done]. }
  cbn [call_frame] in Hw. rewrite Z.add_0_r, Z.lor_0_r in Hw. by destruct es.
Qed.

(** A framer that is not inside a header block. *)
Record fr_ready (fr : Framer) : Prop := {
  fd_reads : AllowIllegalReads fr = false;
  fd_block : lastHeaderStream fr = 0;
  fd_size : http2MaxFrameLen <= maxReadSize fr
}.

Section Reading.
Context (chunkCap : Z -> Z).
Hypothesis chunkCap_enough : forall n, n <= chunkCap n.

Lemma read_chunk fr c rest :
  fr_ready fr -> chunk_ok c -> rdata (fr_r fr) = chunk_bytes c ++ rest ->
  exists fr', ReadFrame chunkCap fr = (fr', Ret (Plain (DataFrame (dataHeader c.1.1 (len c.2) c.1.2) c.2))) /\
    fr_ready fr' /\ rdata (fr_r fr') = rest.
Proof.
  intros [Hi Hb Hm] Hc Hr. pose proof (chunk_wire c Hc) as Hw. destruct Hc as (_ & _ & Hlen).
  unfold ReadFrame. cbn [ReadFrameN].
  rewrite (readOrdered_wire chunkCap fr _ _ rest chunkCap_enough Hw Hr) by (cbn [Header dataHeader Length]; lia).
  unfold checkFrameOrder. cbn [AllowIllegalReads lastHeaderStream set_r set_lastFrame set_errDetail]. rewrite Hi, Hb.
  cbn [Header dataHeader Type_ negb obind]. eexists. split; [reflexivity|]. split; [by split|done].
Qed.
End Reading.

(** ** At the sender *)
Section Sender.
Context {W : Type} (wr : W -> list Z -> W * option ioErr).
Context (rangeOrder : gmap Z loc -> list loc).
Hypothesis rangeOrder_all : forall m, rangeOrder m ≡ₚ (map_to_list m).*2.

(** Steps of the writer while stream [id] is established at [p], with the bytes
    given to it. *)
Inductive lp_serves (id : Z) (p : loc) (l0 : loopyWriter W) : list Z -> loopyWriter W -> Prop :=
| serves_none : lp_serves id p l0 [] l0
| serves_step given l lab l' :
    lp_serves id p l0 given l -> estdStreams l !! id = Some p -> lp_step wr rangeOrder l lab l' ->
    lp_serves id p l0 (given ++ fed_by l lab p) l'.

Lemma serves_delivery l0 c fair id p s0 given l :
  lp_reach wr rangeOrder l0 c fair ->
  streams l0 !! p = Some s0 -> pending s0 = [] -> sent_on id (datas (Loopy.log l0)) = [] ->
  lp_serves id p l0 given l ->
  exists s, streams l !! p = Some s /\ sent_on id (datas (Loopy.log l)) ++ pending s = given.
Proof.
  intros Hr Hs0 Hp0 Hn0 Hsv.
  cut (lp_wf_but None l /\ exists s, streams l !! p = Some s /\ sent_on id (datas (Loopy.log l)) ++ pending s = given); [naive_solver|].
  induction Hsv as [|given l lab l' Hsv (Hwf & s & Hs & IH) Hest Hstep].
  { split; [by eapply reach_wf|]. exists s0. by rewrite Hp0, Hn0. }
  split; [by eapply step_cases|].
  destruct (step_delivery wr rangeOrder rangeOrder_all l lab l' id p s Hwf Hstep Hest Hs) as (s' & Hs' & E).
  exists s'. rewrite E, app_assoc, IH. done.
Qed.
End Sender.

(** ** At the receiver *)
Section Receiver.
Context {Q : Type} `{!Queue Q cbItem}.
Context {W : Type} (wr : W -> list Z -> W * option ioErr).
Context (rangeOrder : gmap Z loc -> list loc).
Hypothesis rangeOrder_all : forall m, rangeOrder m ≡ₚ (map_to_list m).*2.
Context (rangeActive : gmap Z loc -> list (Z * loc)).
Implicit Types t : @H2Transport Q.

(** A stream whose read side was not shut down, with its window and what is in its
    receive buffer. *)
Record readable (s : H2Stream) (f : inFlow) (l : list recvMsg) : Prop := {
  rd_open : s_readClosed s <> 2;
  rd_OnData : s_OnData s = None;
  rd_list : s_inFrameList s = Some l;
  rd_flow : s_inFlow s = Some f;
  rd_ok : flow_ok f
}.

(** The messages of a chunk, and the stream after it. *)
Definition chunk_msgs (s : H2Stream) (es : bool) (d : list Z) : list recvMsg :=
  (if bool_decide (d = []) then [] else [MData d]) ++
  (if es && (s_readClosed s =? 0) then [MErr (Some ErrEOF)] else []).
Definition after_chunk (s : H2Stream) (f : inFlow) (l : list recvMsg) (es : bool) (d : list Z) : H2Stream :=
  let s := if bool_decide (d = []) then s else received s f l d in
  if es then read_closed s 1 (Some ErrEOF) else s.

Lemma after_readable s f l f' es d :
  readable s f l -> flow_ok f' -> (d = [] -> f' = f) -> readable (after_chunk s f' l es d) f' (l ++ chunk_msgs s es d).
Proof.
  intros [Ho Hd Hl Hf Hok] Hf' Hsame. unfold after_chunk, chunk_msgs. destruct (bool_decide_reflect (d = [])) as [->|Hne].
  - specialize (Hsame eq_refl) as ->. destruct es; [|by rewrite app_nil_r]. unfold read_closed.
    destruct (Z.eqb_spec (s_readClosed s) 0); split; simpl; try done; by rewrite ?app_nil_r, ?Hl.
  - destruct es; [|by split]. unfold read_closed. simpl.
    destruct (Z.eqb_spec (s_readClosed s) 0); split; simpl; try done. by rewrite <- app_assoc.
Qed.

(** A DATA frame for such a stream. *)
Lemma receive_chunk t m id p s f l f' es d detail now :
  cb_ok t -> t_activeStreams t = Some m -> m !! id = Some p -> t_strs t !! p = Some s -> readable s f l ->
  (d = [] -> f' = f) -> (d <> [] -> inFlow_onData f (len d) = (f', None)) ->
  wp (reader_step rangeActive (Ret (Plain (DataFrame (dataHeader id (len d) es) d))) detail now) t
    (fun b t' => b = true /\ streams_become t (<[p := after_chunk s f' l es d]> (t_strs t)) t').
Proof.
  intros Hok Ha Hid Hs [Ho Hd Hl Hf _] Hnil Hflow. unfold reader_step, handleData. wps.
  apply wp_connData; [done|]. intros t1 H1. assert (H2 : streams_become t (t_strs t) t1) by (destruct H1; by split). clear H1.
  assert (Hs1 : t_strs t1 !! p = Some s) by (by rewrite (sb_strs _ _ _ H2)).
  assert (Hend : forall s', streams_become t (<[p := s']> (t_strs t)) (at_p t1 p s')).
  { intros s'. destruct H2 as [E ?]. split; try done. simpl. by rewrite E. }
  unfold streamData, getStream. wps. rewrite (sb_active _ _ _ H2), Ha. simpl. rewrite Hid.
  rewrite <- (at_p_id t1 p s) by done. apply wp_bind, wp_getS_at. destruct (Z.eqb_spec (s_readClosed s) 2); [done|].
  assert (Hes : forall s', wp (when (Has (if es then FlagDataEndStream else 0) FlagDataEndStream) (setReadClosed p 1 (Some ErrEOF)))
    (at_p t1 p s') (fun _ t' => streams_become t (<[p := if es then read_closed s' 1 (Some ErrEOF) else s']> (t_strs t)) t')).
  { intros s'. destruct es; simpl; [by apply wp_setReadClosed_at|by apply wp_ret]. }
  unfold after_chunk. destruct (bool_decide_reflect (d = [])) as [->|Hne].
  - simpl. wps. eapply wp_weaken; [apply Hes|]. intros. by wps.
  - assert ((len d >? 0) = true) as -> by (destruct d; [done|]; rewrite len_cons; pose proof (len_nonneg d); lia).
    rewrite Hf. apply wp_bind, wp_bind. apply (wp_lift _ f); [done|]. rewrite (Hflow Hne).
    apply wp_bind, wp_updS_at. apply wp_bind.
    assert (Has (if es then FlagDataEndStream else 0) FlagDataPadded = false) as -> by (by destruct es). simpl when. wps.
    unfold deliver. apply wp_bind, wp_getS_at. simpl. rewrite Hd.
    rewrite bool_decide_false by done. apply wp_bind, wp_updS_at, wp_bind, wp_updS_at, wp_bind, wp_getS_at. simpl.
    rewrite Hl. apply wp_bind, (wp_lift _ l); [done|]. apply wp_updS_at. wps. simpl.
    eapply wp_weaken; [apply Hes|]. intros. by wps.
Qed.

(** The reader for [n] frames. *)
Context (chunkCap : Z -> Z).
Hypothesis chunkCap_enough : forall n, n <= chunkCap n.
Fixpoint read_loop (n : nat) (fr : Framer) (now : Z) : @M Q Framer :=
  match n with
  | O => mret fr
  | S n =>
      let '(fr, o) := ReadFrame chunkCap fr in
      more ← reader_step rangeActive o (errDetail fr) now;
      if (more : bool) then read_loop n fr now else mret fr
  end.

(** The streams the chunks are for, each with a window for all of its bytes. *)
Record awaits t (m : gmap Z loc) (cs : list chunk) : Prop := {
  aw_cb : cb_ok t;
  aw_active : t_activeStreams t = Some m;
  aw_inj : forall i j p, m !! i = Some p -> m !! j = Some p -> i = j;
  aw_streams : forall id, id ∈ cs.*1.*1 -> exists p s f l, m !! id = Some p /\ t_strs t !! p = Some s /\
    readable s f l /\ len (sent_on id cs) <= window f
}.

(** The bytes of what is in a receive buffer. *)
Definition msg_bytes (ms : list recvMsg) : list Z := ms ≫= fun r => match r with MData d => d | MErr _ => [] end.

(** What the buffers of the streams have gained. *)
Definition gained (m : gmap Z loc) (strs strs' : gmap loc H2Stream) (id : Z) (bytes : list Z) : Prop :=
  forall p s l, m !! id = Some p -> strs !! p = Some s -> s_inFrameList s = Some l ->
    exists s' ms, strs' !! p = Some s' /\ s_inFrameList s' = Some (l ++ ms) /\ msg_bytes ms = bytes.

Lemma chunk_msgs_bytes s es d : msg_bytes (chunk_msgs s es d) = d.
Proof.
  unfold chunk_msgs, msg_bytes. destruct (bool_decide_reflect (d = [])) as [->|]; destruct (es && _); simpl; by rewrite ?app_nil_r.
Qed.

Lemma sent_on_cons id c cs : sent_on id (c :: cs) = (if c.1.1 =? id then c.2 else []) ++ sent_on id cs.
Proof. done. Qed.

Lemma receive_all m cs now : forall t fr,
  awaits t m cs -> Forall chunk_ok cs -> fr_ready fr -> rdata (fr_r fr) = wire_bytes cs ->
  wp (read_loop (length cs) fr now) t (fun fr' t' => rdata (fr_r fr') = [] /\ t_activeStreams t' = Some m /\
    forall id, gained m (t_strs t) (t_strs t') id (sent_on id cs)).
Proof.
  induction cs as [|[[id es] d] cs IH]; intros t fr Haw Hcs Hfr Hrd; cbn [read_loop length].
  { apply wp_ret. split; [done|]. split; [apply Haw|]. intros id p s l Hp Hs Hl. exists s, [].
    by rewrite app_nil_r. }
  apply Forall_cons in Hcs as [Hc Hcs].
  destruct (read_chunk chunkCap chunkCap_enough fr (id, es, d) (wire_bytes cs) Hfr Hc Hrd) as (fr1 & -> & Hfr1 & Hrd1).
  cbn [fst snd]. destruct Haw as [Hok Ha Hinj Hst].
  destruct (Hst id) as (p & s & f & l & Hid & Hs & Hread & Hwin); [set_solver|].
  rewrite sent_on_cons in Hwin. cbn [fst snd] in Hwin. rewrite Z.eqb_refl, len_app in Hwin. pose proof (len_nonneg (sent_on id cs)).
  destruct (onData_admits f (len d) (rd_ok _ _ _ Hread)) as (f1 & Hon & Hf1 & Hw1); [pose proof (len_nonneg d); lia|].
  set (f' := if bool_decide (d = []) then f else f1).
  assert (Hf' : flow_ok f' /\ window f' = window f - len d /\ (d = [] -> f' = f) /\ (d <> [] -> f' = f1)).
  { subst f'. destruct (bool_decide_reflect (d = [])) as [->|]; [|done]. split; [apply Hread|]. split; [unfold len; simpl; lia|done]. }
  destruct Hf' as (Hfok & Hfw & Hfnil & Hfne). apply wp_bind.
  eapply wp_weaken; [apply (receive_chunk t m id p s f l f' es d); try done|].
  { intros Hne. by rewrite Hfne. }
  intros b t1 [-> H1]. set (s1 := after_chunk s f' l es d) in *.
  assert (Hs1 : t_strs t1 !! p = Some s1) by (rewrite (sb_strs _ _ _ H1); apply lookup_insert_eq).
  assert (Hoth : forall i q, m !! i = Some q -> i <> id -> t_strs t1 !! q = t_strs t !! q).
  { intros i q Hi Hne. rewrite (sb_strs _ _ _ H1), lookup_insert_ne; [done|]. intros <-. by apply Hne, (Hinj i id p). }
  assert (Hread1 : readable s1 f' (l ++ chunk_msgs s es d)) by (by apply (after_readable s f)).
  eapply wp_weaken; [apply (IH t1 fr1)|]; [|done|done|done|].
  - split; [apply H1|by rewrite (sb_active _ _ _ H1)|done|]. intros i Hi. destruct (decide (i = id)) as [->|Hne].
    + exists p, s1, f', (l ++ chunk_msgs s es d). split_and!; [done|done|done|]. lia.
    + destruct (Hst i) as (q & sq & fq & lq & Hq & Hsq & Hrq & Hwq); [set_solver|]. exists q, sq, fq, lq.
      rewrite (Hoth i q) by done. split_and!; [done|done|done|]. rewrite sent_on_cons in Hwq. cbn [fst snd] in Hwq.
      destruct (Z.eqb_spec id i); [by subst|done].
  - intros fr2 t2 (Hr2 & Ha2 & Hg). split; [done|]. split; [done|]. intros i q sq lq Hq Hsq Hlq. rewrite sent_on_cons. cbn [fst snd].
    destruct (Z.eqb_spec id i) as [<-|Hne].
    + simplify_eq. destruct (Hg id p s1 (l ++ chunk_msgs s es d) Hid Hs1 (rd_list _ _ _ Hread1)) as (s2 & ms & Hs2 & Hl2 & Hb2).
      rewrite (rd_list _ _ _ Hread) in Hlq. simplify_eq. exists s2, (chunk_msgs s es d ++ ms). rewrite Hl2, app_assoc.
      split; [done|]. split; [done|]. unfold msg_bytes in *. rewrite bind_app, Hb2. f_equal. apply chunk_msgs_bytes.
    + apply (Hg i q sq lq); [done| |done]. by rewrite (Hoth i q).
Qed.

(** C8.  What one endpoint sends the other receives: while a loopy writer serves a
    stream, [given] is what callers put into the control buffer for it.  Take the
    DATA frames the writer has written, for this and for other streams, put them on
    a connection as bytes, and let the reader of the peer read them: it gets
    through all of them, without a panic, an error or a wait; and then what the
    receive buffer of the stream has gained, followed by what is still queued at
    the sender, is exactly [given] - provided the frames are legal and the windows
    at the peer are large enough. *)
Theorem end_to_end l0 c fair id p s0 given l t m now e q sq lq :
  lp_reach wr rangeOrder l0 c fair ->
  streams l0 !! p = Some s0 -> pending s0 = [] -> sent_on id (datas (Loopy.log l0)) = [] ->
  lp_serves wr rangeOrder id p l0 given l ->
  let cs := datas (Loopy.log l) in
  Forall chunk_ok cs -> awaits t m cs ->
  m !! id = Some q -> t_strs t !! q = Some sq -> s_inFrameList sq = Some lq ->
  exists t' fr' sq' ms s, read_loop (length cs) (NewFramer (mkReader (wire_bytes cs) e)) now t = Done t' fr' /\
    rdata (fr_r fr') = [] /\
    t_strs t' !! q = Some sq' /\ s_inFrameList sq' = Some (lq ++ ms) /\
    streams l !! p = Some s /\ msg_bytes ms ++ pending s = given.
Proof.
  intros Hr Hs0 Hp0 Hn0 Hsv cs Hcs Haw Hq Hsq Hlq.
  destruct (wp_elim _ _ _ (receive_all m cs now t (NewFramer (mkReader (wire_bytes cs) e)) Haw Hcs ltac:(by split) eq_refl))
    as (t' & fr' & E & Hrd & _ & Hg).
  destruct (Hg id q sq lq Hq Hsq Hlq) as (sq' & ms & Hsq' & Hl' & Hb).
  destruct (serves_delivery wr rangeOrder rangeOrder_all l0 c fair id p s0 given l Hr Hs0 Hp0 Hn0 Hsv) as (s & Hs & Hd).
  exists t', fr', sq', ms, s. rewrite Hb. done.
Qed.
End Receiver.

(** The run of [LoopyRun.Demo] - a stream, twelve bytes, one turn with frames of
    five bytes - read by the client of [SpecSample]. *)
Lemma reach2 : lp_reach Demo.wr Demo.rangeOrder Demo.l2 0 true.
Proof.
  apply (LoopyRun.reach_step _ _ Demo.l1 0 true (Handled (ItRegister 1 1%nat)) Demo.l2); [apply Demo.reach1|].
  apply (st_handle _ _ _ Demo.initStream Demo.ssGoAway); [split; [by eexists; vm_compute|by vm_compute]|by vm_compute|by vm_compute].
Qed.

Lemma end_to_end_witness :
  exists t' fr' sq' ms s,
    read_loop Sample.range (fun n => n) 1 (NewFramer (mkReader (wire_bytes [(1, false, str "hello")]) EOF)) 0 SpecSample.opened
      = Done t' fr' /\
    rdata (fr_r fr') = [] /\ t_strs t' !! 0%nat = Some sq' /\ s_inFrameList sq' = Some ([] ++ ms) /\
    streams Demo.l4 !! 0%nat = Some s /\ msg_bytes ms ++ pending s = str "hello tunnel".
Proof.
  apply (end_to_end Demo.wr Demo.rangeOrder Demo.rangeOrder_all Sample.range (fun n => n)
           (fun n => Z.le_refl n) Demo.l2 0 true 1 0%nat (mkOS 1 Loopy.empty [] 0 1%nat) (str "hello tunnel") Demo.l4
           SpecSample.opened SpecSample.active 0 EOF 0%nat SpecSample.stream [] reach2).
  - vm_compute. reflexivity.
  - reflexivity.
  - vm_compute. reflexivity.
  - change (str "hello tunnel") with (([] ++ fed_by Demo.l2 (Handled Demo.item) 0%nat) ++ fed_by Demo.l3 Turn 0%nat).
    eapply serves_step; [eapply serves_step; [apply serves_none| |]| |].
    + vm_compute. reflexivity.
    + apply (st_handle _ _ _ Demo.initStream Demo.ssGoAway); by vm_compute.
    + vm_compute. reflexivity.
    + apply Demo.step4.
  - apply Forall_singleton. split; [by vm_compute|]. split; [repeat constructor; by vm_compute|by vm_compute].
  - split; [apply sample_cb_ok|vm_compute; reflexivity| |].
    + intros i j p. unfold SpecSample.active. rewrite !lookup_singleton_Some. intros [<- _] [<- _]. done.
    + intros id Hid. assert (id = 1) as -> by (vm_compute in Hid; set_solver).
      exists 0%nat, SpecSample.stream, SpecSample.flow, []. split; [vm_compute; reflexivity|]. split; [vm_compute; reflexivity|].
      split; [|by vm_compute]. by split; vm_compute.
  - vm_compute. reflexivity.
  - vm_compute. reflexivity.
  - vm_compute. reflexivity.
Defined.
