(* ===== verification/HeaderPath.v ===== *)
(** * Header blocks from one endpoint to the other

    The components composed along the path of the headers: a list of fields that
    the loopy writer encodes and cuts into a HEADERS frame and CONTINUATION frames
    ([Loopy], [HpackCodec]), as bytes on a connection ([Frame]), put together again
    and decoded by the framer of the peer ([FrameRead], [HpackPieces]). *)
From S2P Require Import Loopy Prelude HpackTables HpackCodec HpackBlocks HpackPieces Frame FrameRead.

(** ** On the wire *)
Definition call_bytes (c : writeCall) : list Z := match write false c with Ret b => b | _ => [] end.

(** A frame of a header block. *)
Definition block_call (sid : Z) (es first endHeaders : bool) (frag : list Z) : writeCall :=
  if first then CallHeaders (mkHFP sid frag es endHeaders 0 PriorityParam_zero)
  else CallContinuation sid endHeaders frag.
Definition block_header (sid : Z) (es first endHeaders : bool) (n : Z) : FrameHeader :=
  if first then fh FrameHeaders (Z.lor (flag es FlagHeadersEndStream) (flag endHeaders FlagHeadersEndHeaders)) n sid
  else fh FrameContinuation (flag endHeaders FlagContinuationEndHeaders) n sid.
Definition block_frame (sid : Z) (es first endHeaders : bool) (frag : list Z) : Frame :=
  let h := block_header sid es first endHeaders (len frag) in
  if first then HeadersFrame h PriorityParam_zero frag else ContinuationFrame h frag.

(** The frames that carry a block, cut into pieces of [m] bytes at most. *)
Inductive cut (m sid : Z) (es : bool) : bool -> list Z -> list writeCall -> Prop :=
| cut_last first b : len b <= m -> cut m sid es first b [block_call sid es first true b]
| cut_more first frag b cs :
    len frag <= m -> cut m sid es false b cs ->
    cut m sid es first (frag ++ b) (block_call sid es first false frag :: cs).

Lemma piece_wire m sid es first eh frag :
  sid_ok sid -> bytes_ok frag -> len frag <= m -> m + 262 < 2 ^ 24 ->
  wire (call_bytes (block_call sid es first eh frag)) (block_frame sid es first eh frag).
Proof.
  intros Hs Hf Hl Hm. destruct (call_roundtrips (block_call sid es first eh frag)) as (b & Hb & Hw).
  { destruct first; cbn [block_call call_ok hp_StreamID hp_BlockFragment hp_PadLength hp_Priority]; split_and!; try done; lia. }
  unfold call_bytes. rewrite Hb. destruct first; [|exact Hw]. unfold block_call in Hw. cbn [call_frame] in Hw. simpl in Hw.
  rewrite !Z.add_0_r, Z.lor_0_r in Hw. exact Hw.
Qed.

Lemma wire_nonempty b f : wire b f -> (0 < length b)%nat.
Proof.
  intros Hw. destruct b; [|simpl; lia]. destruct (wire_header _ _ Hw) as (p & _ & _ & H). by specialize (H [] EOF).
Qed.

(** ** At the sender *)
Section Sender.
Context {W : Type} (wr : W -> list Z -> W * option ioErr).

Lemma writeBlock_cut fuel : forall l sid es first b l',
  0 < lmaxFrameSize l -> writeBlock wr fuel l sid es first b = Some (l', None) ->
  exists cs, cut (lmaxFrameSize l) sid es first b cs /\ Loopy.log l' = Loopy.log l ++ (EvFrame <$> cs) /\ hEnc l' = hEnc l.
Proof.
  induction fuel as [|fuel IH]; intros l sid es first b l' Hm; [done|]. cbn [writeBlock].
  assert (Hw : forall c l1, fr_write wr l c = Some (l1, None) ->
    Loopy.log l1 = Loopy.log l ++ [EvFrame c] /\ lmaxFrameSize l1 = lmaxFrameSize l /\ hEnc l1 = hEnc l).
  { intros c l1. unfold fr_write. destruct (write false c) as [w| |]; [|done|done]. destruct (wr (lw l) w) as [w' [?|]]; [done|].
    by intros [= <-]. }
  destruct (Z.gtb_spec (len b) (lmaxFrameSize l)) as [Hgt|Hle]; fold (block_call sid es first false) (block_call sid es first true);
    unfold rbind; intros ([l1 [e1|]] & H1 & H2)%bind_Some; try done; apply Hw in H1 as (Hlog & Hmx & He).
  - destruct (IH l1 sid es false _ l' ltac:(lia) H2) as (cs & Hc & Hl2 & He2). rewrite Hmx in Hc. eexists (_ :: cs). split_and!.
    + rewrite <- (take_drop (Z.to_nat (lmaxFrameSize l)) b) at 1. apply cut_more; [|exact Hc]. unfold len. rewrite length_take. lia.
    + rewrite Hl2, Hlog, <- app_assoc. done.
    + congruence.
  - injection H2 as <-. eexists. split; [by apply cut_last|]. split; [|done]. rewrite Hlog, take_ge by (unfold len; lia). done.
Qed.
End Sender.

(** ** At the framer of the peer *)
Section Receiver.
Context (chunkCap : Z -> Z).
Hypothesis chunkCap_enough : forall n, n <= chunkCap n.

(** A framer that expects a frame of stream [sid]'s block, or, for 0, none. *)
Record expects (sid m : Z) (fr : Framer) : Prop := {
  ex_reads : AllowIllegalReads fr = false;
  ex_block : lastHeaderStream fr = sid;
  ex_size : m <= maxReadSize fr
}.

Lemma read_piece m sid (es first eh : bool) frag fr rest :
  sid_ok sid -> bytes_ok frag -> len frag <= m -> m + 262 < 2 ^ 24 ->
  expects (if first then 0 else sid) m fr -> rdata (fr_r fr) = call_bytes (block_call sid es first eh frag) ++ rest ->
  exists fr', readOrdered chunkCap fr = (fr', Ret (block_frame sid es first eh frag)) /\
    expects (if eh then 0 else sid) m fr' /\ rdata (fr_r fr') = rest /\ same_conf fr fr'.
Proof.
  intros Hs Hf Hl Hm [Hi Hb Hr] Hd. pose proof (piece_wire m sid es first eh frag Hs Hf Hl Hm) as Hw.
  rewrite (readOrdered_wire chunkCap fr _ _ rest chunkCap_enough Hw Hd) by (destruct first; simpl; lia).
  unfold checkFrameOrder. cbn [AllowIllegalReads lastHeaderStream set_r set_lastFrame set_errDetail].
  destruct (sid_pos sid Hs) as [_ Hz]. rewrite Hi, Hb.
  destruct first; cbn [block_frame block_header Header fh Type_ StreamID Flags]; rewrite ?Hz, ?Z.eqb_refl; cbn -[Has];
    (eexists; split; [reflexivity|]); (split; [split; [done| |done]|done]); by destruct es, eh.
Qed.

(** The framer inside a block. *)
Record within (fr fr' : Framer) : Prop := {
  wi_size : maxReadSize fr' = maxReadSize fr;
  wi_reads : AllowIllegalReads fr' = AllowIllegalReads fr;
  wi_limit : MaxHeaderListSize fr' = MaxHeaderListSize fr
}.
Lemma within_conf fr fr' : same_conf fr fr' -> within fr fr'.
Proof. intros (? & ? & _ & ?). by split. Qed.
#[local] Hint Resolve within_conf : core.
Lemma within_trans fr1 fr2 fr3 : within fr1 fr2 -> within fr2 fr3 -> within fr1 fr3.
Proof. intros [] []. split; congruence. Qed.

(** One turn of the loop, before the next frame. *)
Lemma metaLoop_turn fuel fr d st frag b d2 st2 :
  ReadMetaHeaders fr = Some d ->
    len (saveBuf d) + len frag + len b <= 2 * (maxStrLen d + 8) ->
    dec_Write metaEmit d st (frag ++ b) = Some (d2, st2, None) ->
    exists d1 st1, dec_Write metaEmit d1 st1 b = Some (d2, st2, None) /\
      len (saveBuf d1) + len b <= 2 * (maxStrLen d1 + 8) /\
      metaLoop (ReadFrameN chunkCap 1) (S fuel) fr st frag false =
        let '(fr, r) := ReadFrameN chunkCap 1 (set_dec fr d1) in
        match r with
        | Ret (Plain (ContinuationFrame fh frag)) =>
            if negb (valid fh) then (fr, Panic)
            else metaLoop (ReadFrameN chunkCap 1) fuel fr st1 frag (Has (Flags fh) FlagContinuationEndHeaders)
        | Ret _ => (fr, Panic)
        | Fail e => (fr, Fail e)
        | Panic => (fr, Panic)
        end.
Proof.
  intros Hd Hl Hw. pose proof (len_nonneg b).
    destruct (Write_prefix metaEmit d st frag b d2 st2 Hw) as (d1 & st1 & H1 & Hmx & Hsv); [right; lia|].
    exists d1, st1. rewrite <- (Write_app metaEmit _ _ _ b _ _ H1). split; [done|]. split; [rewrite Hmx; lia|].
    cbn [metaLoop]. by rewrite Hd, H1.
Qed.

Lemma metaLoop_cut m sid es first b cs : cut m sid es first b cs -> first = false ->
  forall fuel fr d st frag rest d2 st2,
  sid_ok sid -> m + 262 < 2 ^ 24 -> bytes_ok b -> expects sid m fr ->
  rdata (fr_r fr) = (cs ≫= call_bytes) ++ rest -> (length cs <= fuel)%nat -> ReadMetaHeaders fr = Some d ->
  len (saveBuf d) + len frag + len b <= 2 * (maxStrLen d + 8) ->
  dec_Write metaEmit d st (frag ++ b) = Some (d2, st2, None) ->
  exists fr', metaLoop (ReadFrameN chunkCap 1) fuel fr st frag false = (fr', Ret st2) /\
    ReadMetaHeaders fr' = Some d2 /\ expects 0 m fr' /\ rdata (fr_r fr') = rest /\ within fr fr'.
Proof.
  intros Hcut. induction Hcut as [first b Hlen|first piece b cs Hlen Hc IH]; intros ->;
    intros [|fuel] fr d st frag rest d2 st2 Hs Hm Hb Hex Hrd Hfuel Hd Hl Hw; try (simpl in Hfuel; lia);
    destruct (metaLoop_turn fuel fr d st frag _ d2 st2 Hd Hl Hw) as (d1 & st1 & Hw1 & Hl1 & ->).
  - cbn [mbind list_bind] in Hrd. rewrite app_nil_r in Hrd.
    destruct (read_piece m sid es false true b (set_dec fr d1) rest) as (fr' & E & Hex' & Hrd' & Hsc); try done.
    { by destruct Hex. }
    cbn [ReadFrameN]. rewrite E. cbn [block_frame]. cbn [block_header fh valid negb Flags].
    change (Has _ _) with true. destruct Hsc as (H1 & H2 & H3 & H4).
    destruct fuel; cbn [metaLoop]; rewrite H3; cbn [ReadMetaHeaders set_dec]; rewrite Hw1;
      eexists; (split; [reflexivity|]); (split; [done|]); (split; [by destruct Hex'|]); done.
  - apply bytes_ok_app in Hb as [Hbp Hb]. cbn [mbind list_bind] in Hrd. rewrite <- app_assoc in Hrd.
    destruct (read_piece m sid es false false piece (set_dec fr d1) ((cs ≫= call_bytes) ++ rest)) as (fr' & E & Hex' & Hrd' & Hsc); try done.
    { by destruct Hex. }
    cbn [ReadFrameN]. rewrite E. cbn [block_frame]. cbn [block_header fh valid negb Flags].
    change (Has _ _) with false. destruct (IH eq_refl fuel fr' d1 st1 piece rest d2 st2) as (fr2 & E2 & ? & ? & ? & Hwi); try done.
    { simpl in Hfuel. lia. }
    { destruct Hsc as (_ & _ & -> & _). done. }
    { rewrite len_app in Hl1. lia. }
    exists fr2. split_and!; try done. eapply within_trans; [|exact Hwi]. by apply within_conf in Hsc as [? ? ?].
Qed.

(** ** The fields of the block *)

(** A list that a peer with this limit accepts: pseudo-headers first, names in
    lower case, no more than the limit. *)
Record list_ok (limit : Z) (fs : list HeaderField) : Prop := {
  lo_some : fs <> [];
  lo_bytes : Forall (fun f => bytes_ok (Name f) /\ bytes_ok (Value f)) fs;
  lo_order : exists ps rs, fs = ps ++ rs /\ Forall (fun f => IsPseudo f = true) ps /\
    Forall (fun f => IsPseudo f = false /\ validWireHeaderFieldName (Name f) = true) rs;
  lo_pseudos : checkPseudos fs = None;
  lo_size : list_size fs <= limit
}.

Lemma list_size_cons f fs : list_size (f :: fs) = len (Name f) + len (Value f) + 32 + list_size fs.
Proof. done. Qed.
Lemma list_size_nonneg fs : 0 <= list_size fs.
Proof. induction fs as [|f fs IH]; [done|]. rewrite list_size_cons. pose proof (len_nonneg (Name f)). pose proof (len_nonneg (Value f)). lia. Qed.

(** The size of a field, when it is within a limit. *)
Lemma list_size_head f fs r : list_size (f :: fs) <= r -> r < 2 ^ 32 ->
  Size f = len (Name f) + len (Value f) + 32 /\ 32 <= Size f <= r /\ list_size fs <= r - Size f.
Proof.
  rewrite list_size_cons. intros. pose proof (list_size_nonneg fs). pose proof (len_nonneg (Name f)). pose proof (len_nonneg (Value f)).
  unfold Size. rewrite u32_small by lia. lia.
Qed.

Lemma list_size_elem f fs : f ∈ fs -> len (Name f) + len (Value f) + 32 <= list_size fs.
Proof.
  induction 1 as [f fs|f g fs Hf IH]; rewrite list_size_cons; [pose proof (list_size_nonneg fs); lia|].
  pose proof (len_nonneg (Name g)). pose proof (len_nonneg (Value g)). lia.
Qed.

Lemma list_fits limit fs d : list_ok limit fs -> limit < 2 ^ 30 -> maxStrLen d = limit -> Forall (fits d) fs.
Proof.
  intros [_ Hb _ _ Hs] Hl Hd. apply Forall_forall. intros f Hf. pose proof (list_size_elem f fs Hf).
  rewrite Forall_forall in Hb. destruct (Hb f Hf) as [Hn Hv]. pose proof (len_nonneg (Name f)). pose proof (len_nonneg (Value f)).
  unfold fits, field_ok, str_fits, Size. rewrite u32_small by lia. split_and!; try done; try lia; right; lia.
Qed.

Lemma meta_step f r saw acc :
  (IsPseudo f = true -> saw = false) -> (IsPseudo f = false -> validWireHeaderFieldName (Name f) = true) ->
  Size f <= r < 2 ^ 32 -> 0 <= Size f ->
  metaEmit f (mkMS r saw None false acc) true = (mkMS (r - Size f) (saw || negb (IsPseudo f)) None false (acc ++ [f]), true).
Proof.
  intros Hp Hr Hs H0. unfold metaEmit. rewrite hasColon_IsPseudo. cbn [sawRegular remainSize invalid ms_Truncated ms_Fields].
  destruct (IsPseudo f).
  - rewrite (Hp eq_refl). cbn [invalid remainSize sawRegular ms_Truncated ms_Fields].
    destruct (Z.gtb_spec (Size f) r); [lia|]. by rewrite u32_small by lia.
  - rewrite (Hr eq_refl), orb_true_r. cbn [invalid remainSize sawRegular ms_Truncated ms_Fields].
    destruct (Z.gtb_spec (Size f) r); [lia|]. by rewrite u32_small by lia.
Qed.

Lemma meta_all ps : forall rs r saw acc,
  (ps <> [] -> saw = false) -> Forall (fun f => IsPseudo f = true) ps ->
  Forall (fun f => IsPseudo f = false /\ validWireHeaderFieldName (Name f) = true) rs ->
  list_size (ps ++ rs) <= r -> r < 2 ^ 32 ->
  exists r' saw', emit_all metaEmit (mkMS r saw None false acc) true (ps ++ rs) = (mkMS r' saw' None false (acc ++ ps ++ rs), true).
Proof.
  assert (Hcons : forall f fs st, emit_all metaEmit st true (f :: fs) =
    let '(st', en) := metaEmit f st true in emit_all metaEmit st' en fs).
  { intros f fs st. unfold emit_all. cbn [foldl]. by destruct (metaEmit f st true). }
  induction ps as [|f ps IHp].
  - induction rs as [|f rs IHr]; intros r saw acc _ Hps Hrs Hl Hr; [exists r, saw; cbn [app]; by rewrite app_nil_r|].
    apply Forall_cons in Hrs as [[Hf Hv] Hrs]. cbn [app] in *. destruct (list_size_head _ _ _ Hl Hr) as (_ & ? & ?).
    rewrite Hcons, meta_step by (congruence || lia || done).
    destruct (IHr (r - Size f) (saw || negb (IsPseudo f)) (acc ++ [f])) as (r' & saw' & ->); [done..|lia|].
    exists r', saw'. by rewrite <- app_assoc.
  - intros rs r saw acc Hsaw Hps Hrs Hl Hr. specialize (Hsaw ltac:(done)) as ->. apply Forall_cons in Hps as [Hf Hps].
    cbn [app] in *. destruct (list_size_head _ _ _ Hl Hr) as (_ & ? & ?).
    rewrite Hcons, meta_step by (congruence || lia || done). rewrite Hf. cbn [orb negb].
    destruct (IHp rs (r - Size f) false (acc ++ [f])) as (r' & saw' & ->); [done..|lia|].
    exists r', saw'. by rewrite <- app_assoc.
Qed.
(** An encoder and the decoder of a framer, between two blocks; [n] more fields fit
    into the counters of their tables. *)
Record tables_agree (e : Encoder) (d : Decoder) (n : Z) : Prop := {
  ta_synced : synced e d;
  ta_update : update_ok e d;
  ta_save : saveBuf d = [];
  ta_first : firstField d = true;
  ta_enc : room (eDynTab e) n;
  ta_dec : room (dDynTab d) n
}.

Lemma cut_length m sid es first b cs : cut m sid es first b cs -> sid_ok sid -> m + 262 < 2 ^ 24 -> bytes_ok b ->
  (length cs <= length (cs ≫= call_bytes))%nat.
Proof.
  intros Hc Hs Hm. induction Hc as [first b Hl|first frag b cs Hl Hc IH]; intros Hb; cbn [mbind list_bind length]; rewrite length_app.
  - pose proof (wire_nonempty _ _ (piece_wire m sid es first true b Hs Hb Hl Hm)). lia.
  - apply bytes_ok_app in Hb as [Hb1 Hb2]. specialize (IH Hb2).
    pose proof (wire_nonempty _ _ (piece_wire m sid es first false frag Hs Hb1 Hl Hm)). lia.
Qed.

(** The fields, decoded by [readMetaFrame]'s callback. *)
Lemma block_decoded e d n limit fs :
  tables_agree e d (len fs + n) -> 0 <= n -> list_ok limit fs -> 0 < limit < 2 ^ 30 ->
  exists e' b d2 st, encodeFields e fs = Some (e', b) /\ bytes_ok b /\ len b <= 2 * (limit + 8) /\
    dec_Write metaEmit (SetMaxStringLength (SetEmitEnabled d true) limit) (mkMS limit false None false []) b = Some (d2, st, None) /\
    invalid st = None /\ ms_Truncated st = false /\ ms_Fields st = fs /\ saveBuf d2 = [] /\
    tables_agree e' (set_firstField d2 true) n.
Proof.
  intros [Hsy Hup Hsv Hff Hre Hrd] Hn Hok Hl. set (d0 := SetMaxStringLength (SetEmitEnabled d true) limit).
  pose proof (list_fits limit fs d0 Hok ltac:(lia) eq_refl) as Hfit.
  destruct (block_written metaEmit e d0 fs) as (e' & b & dt & Henc & _ & Hu & Hs' & Hl1 & Hl2 & Hw); try done.
  { by eapply synced_dec; [|exact Hsy]. } { apply Hok. } 1-2: unfold room in *; simpl; lia. { simpl; lia. }
  destruct Hok as [Hne _ (ps & rs & -> & Hps & Hrs) _ Hsz].
  destruct (meta_all ps rs limit false [] ltac:(done) Hps Hrs Hsz ltac:(lia)) as (r' & saw' & Hall).
  destruct (encodeFields_len (ps ++ rs) e e' b) as [Hb Hbl]; [|done|].
  { eapply Forall_impl; [exact Hfit|]. by intros f []. }
  exists e', b, (flags (set_dynTab d0 dt) false true), (mkMS r' saw' None false (ps ++ rs)). split; [done|]. split; [done|]. split.
  { destruct (ps ++ rs) as [|f fs]; [done|]. rewrite list_size_cons in Hsz, Hbl. pose proof (list_size_nonneg fs).
    pose proof (len_nonneg (Name f)). pose proof (len_nonneg (Value f)). destruct (tableSizeUpdate e); lia. }
  rewrite Hw. cbn [emitEnabled SetMaxStringLength SetEmitEnabled d0]. rewrite Hall. split_and!; try done.
  split; [by eapply synced_dec; [|exact Hs']|by intros H; rewrite Hu in H|done|done|by eapply leaves_room_room|].
  unfold room in *. simpl in *. lia.
Qed.

(** [readMetaFrame] around its loop, when the fields are accepted. *)
Lemma readMeta_accepts rec fr fr1 h prio frag d d2 st :
  AllowIllegalReads fr = false -> ReadMetaHeaders fr = Some d -> valid h = true ->
  metaLoop rec (S (length (rdata (fr_r fr)))) (set_dec fr (SetMaxStringLength (SetEmitEnabled d true) (maxHeaderStringLen fr)))
    (mkMS (maxHeaderListSize fr) false None false []) frag (Has (Flags h) FlagHeadersEndHeaders) = (fr1, Ret st) ->
  ReadMetaHeaders fr1 = Some d2 -> saveBuf d2 = [] -> invalid st = None -> checkPseudos (ms_Fields st) = None ->
  readMetaFrame rec fr h prio frag =
    (set_dec fr1 (set_firstField d2 true), Ret (Meta (mkMeta (set_valid h false) prio (ms_Fields st) (ms_Truncated st)))).
Proof.
  intros Hi Hd Hv Hloop Hd2 Hsv Hiv Hps. unfold readMetaFrame. rewrite Hi, Hd, Hv. cbn [negb]. rewrite Hloop, Hd2.
  unfold dec_Close. rewrite Hsv, Hiv, Hps. done.
Qed.

(** The next thing read is a header list, the bytes after it are left, and the
    encoder is in step with the decoder again. *)
Definition reads_list (m sid : Z) (es : bool) (fs : list HeaderField) (e' : Encoder) (n : Z) (rest : list Z) (fr : Framer) : Prop :=
  exists fr' h d', ReadFrame chunkCap fr = (fr', Ret (Meta (mkMeta h PriorityParam_zero fs false))) /\
    StreamID h = sid /\ Has (Flags h) FlagHeadersEndStream = es /\
    expects 0 m fr' /\ within fr fr' /\ rdata (fr_r fr') = rest /\ ReadMetaHeaders fr' = Some d' /\ tables_agree e' d' n.

Lemma reads_list_intro m sid es (eh : bool) frag fr fr0 fr1 d d2 st e' n rest :
  AllowIllegalReads fr = false -> ReadMetaHeaders fr = Some d -> maxHeaderStringLen fr = maxHeaderListSize fr ->
  readOrdered chunkCap fr = (fr0, Ret (block_frame sid es true eh frag)) -> same_conf fr fr0 ->
  metaLoop (ReadFrameN chunkCap 1) (S (length (rdata (fr_r fr0))))
    (set_dec fr0 (SetMaxStringLength (SetEmitEnabled d true) (maxHeaderListSize fr)))
    (mkMS (maxHeaderListSize fr) false None false []) frag eh = (fr1, Ret st) ->
  ReadMetaHeaders fr1 = Some d2 -> saveBuf d2 = [] -> tables_agree e' (set_firstField d2 true) n ->
  invalid st = None -> ms_Truncated st = false -> checkPseudos (ms_Fields st) = None ->
  expects 0 m fr1 -> within fr fr1 -> rdata (fr_r fr1) = rest ->
  reads_list m sid es (ms_Fields st) e' n rest fr.
Proof.
  intros Hi Hd Hstr E (H1 & H2 & H3 & H4) Hloop Hd2 Hsv Hin Hiv Htr Hps Hex Hwi Hr. eexists _, _, _. split.
  - unfold ReadFrame. set (rec := ReadFrameN chunkCap 1) in *. cbn [ReadFrameN]. fold rec. rewrite E. cbn [block_frame].
    rewrite H3, Hd. assert (HL : maxHeaderListSize fr0 = maxHeaderListSize fr) by (unfold maxHeaderListSize; by rewrite H4).
    assert (HS : maxHeaderStringLen fr0 = maxHeaderListSize fr) by (unfold maxHeaderStringLen; rewrite HL; exact Hstr).
    rewrite (readMeta_accepts rec fr0 fr1 _ _ frag d d2 st), Htr; try done; [congruence|congruence|].
    rewrite HL, HS. replace (Has _ _) with eh by (by destruct es, eh). exact Hloop.
  - split_and!; try done; try (by destruct es, eh); [by destruct Hex|by destruct Hwi].
Qed.

(** The frames of the block, followed by anything, are read as its fields. *)
Lemma block_read m sid es e d n fr fs :
  sid_ok sid -> m + 262 < 2 ^ 24 -> expects 0 m fr -> ReadMetaHeaders fr = Some d -> tables_agree e d (len fs + n) -> 0 <= n ->
  list_ok (maxHeaderListSize fr) fs -> maxHeaderListSize fr < 2 ^ 30 ->
  exists e' b, encodeFields e fs = Some (e', b) /\
    forall cs rest, cut m sid es true b cs -> rdata (fr_r fr) = (cs ≫= call_bytes) ++ rest ->
    reads_list m sid es fs e' n rest fr.
Proof.
  intros Hs Hm Hex Hd Hin Hn Hok Hlim.
  assert (Hpos : 0 < maxHeaderListSize fr).
  { destruct Hok as [Hne _ _ _ Hsz]. destruct fs as [|f fs]; [done|]. rewrite list_size_cons in Hsz. pose proof (list_size_nonneg fs).
    pose proof (len_nonneg (Name f)). pose proof (len_nonneg (Value f)). lia. }
  assert (Hstr : maxHeaderStringLen fr = maxHeaderListSize fr).
  { unfold maxHeaderStringLen. rewrite i64_small, u32_small, Z.eqb_refl by lia. done. }
  destruct (block_decoded e d n _ fs Hin Hn Hok ltac:(done)) as (e' & b & d2 & st & Henc & Hb & Hbl & Hw & Hiv & Htr & Hfs & Hsv & Hin').
  exists e', b. split; [done|]. intros cs rest Hc Hdata. pose proof (lo_pseudos _ _ Hok) as Hps. rewrite <- Hfs in Hps |- *.
  inversion Hc as [? ? Hl|? frag b' cs' Hl Hc']; subst; cbn [mbind list_bind] in Hdata.
  - rewrite app_nil_r in Hdata. destruct (read_piece m sid es true true b fr rest) as (fr0 & E & Hex0 & Hr0 & Hsc); try done.
    eapply reads_list_intro; [apply Hex|exact Hd|exact Hstr|exact E|done| |..]; [cbn [metaLoop ReadMetaHeaders set_dec]; rewrite Hw; reflexivity|done..| | |done].
    + by destruct Hex0.
    + by destruct Hsc as (? & ? & ? & ?).
  - rewrite <- app_assoc in Hdata. apply bytes_ok_app in Hb as [Hb1 Hb2].
    destruct (read_piece m sid es true false frag fr ((cs' ≫= call_bytes) ++ rest)) as (fr0 & E & Hex0 & Hr0 & Hsc); try done.
    pose proof (cut_length _ _ _ _ _ _ Hc' Hs Hm Hb2). rewrite len_app in Hbl.
    destruct (metaLoop_cut m sid es false b' cs' Hc' eq_refl (S (length (rdata (fr_r fr0))))
      (set_dec fr0 (SetMaxStringLength (SetEmitEnabled d true) (maxHeaderListSize fr)))
      (SetMaxStringLength (SetEmitEnabled d true) (maxHeaderListSize fr))
      (mkMS (maxHeaderListSize fr) false None false []) frag rest d2 st) as (fr1 & E1 & Hd1 & Hex1 & Hr1 & Hwi1); try done.
    + by destruct Hex0.
    + rewrite Hr0, length_app. lia.
    + cbn [saveBuf SetMaxStringLength SetEmitEnabled maxStrLen]. rewrite (ta_save _ _ _ Hin), len_nil. lia.
    + eapply reads_list_intro; [apply Hex|exact Hd|exact Hstr|exact E|done|exact E1|done..| |done].
      eapply within_trans; [by apply within_conf|]. by destruct Hwi1.
Qed.
End Receiver.

(** ** From the writer to the framer *)
Section Path.
Context {W : Type} (wr : W -> list Z -> W * option ioErr).
Context (chunkCap : Z -> Z).
Hypothesis chunkCap_enough : forall n, n <= chunkCap n.

(** A writer and the framer of its peer, between two blocks. *)
Record connected (l : loopyWriter W) (fr : Framer) (n : Z) : Prop := {
  cn_frame : 0 < lmaxFrameSize l /\ lmaxFrameSize l + 262 < 2 ^ 24;
  cn_reads : expects 0 (lmaxFrameSize l) fr;
  cn_limit : maxHeaderListSize fr < 2 ^ 30;
  cn_dec : exists d, ReadMetaHeaders fr = Some d /\ tables_agree (hEnc l) d n
}.

(** The framer with these bytes before it. *)
Definition given (fr : Framer) (b : list Z) : Framer := set_r fr (mkReader b (rerr (fr_r fr))).

(** A header list that was written is read, and the two are ready for the next. *)
Lemma headers_arrive l fr sid es fs n f :
  connected l fr (len fs + n) -> 0 <= n -> sid_ok sid -> list_ok (maxHeaderListSize fr) fs ->
  exists l' e, writeHeader wr l sid es fs f = Some (l', e) /\ (e = None ->
    exists cs, Loopy.log l' = Loopy.log (call l f) ++ (EvFrame <$> cs) /\
    forall rest, exists fr' h, ReadFrame chunkCap (given fr ((cs ≫= call_bytes) ++ rest)) =
        (fr', Ret (Meta (mkMeta h PriorityParam_zero fs false))) /\
      StreamID h = sid /\ Has (Flags h) FlagHeadersEndStream = es /\
      rdata (fr_r fr') = rest /\ connected l' fr' n /\ maxHeaderListSize fr' = maxHeaderListSize fr).
Proof.
  intros [[Hm0 Hm1] Hex Hlim (d & Hd & Hin)] Hn Hs Hok. unfold writeHeader.
  destruct (call_ok_sched l f) as (Hc & He & _). rewrite He.
  assert (Hmx : lmaxFrameSize (call l f) = lmaxFrameSize l) by (by destruct f).
  assert (Hread : forall b, exists e' bl, encodeFields (hEnc l) fs = Some (e', bl) /\
    forall cs rest, cut (lmaxFrameSize l) sid es true bl cs -> b = (cs ≫= call_bytes) ++ rest ->
    reads_list chunkCap (lmaxFrameSize l) sid es fs e' n rest (given fr b)).
  { intros b. apply (block_read chunkCap chunkCap_enough (lmaxFrameSize l) sid es (hEnc l) d n (given fr b) fs); try done. by destruct Hex. }
  destruct (Hread []) as (e' & bl & Henc & _). rewrite Henc. cbn [mbind option_bind].
  assert (Hm2 : 0 < lmaxFrameSize (set_hEnc (call l f) e')) by (cbn [lmaxFrameSize set_hEnc]; by rewrite Hmx).
  destruct (writeBlock_ok wr (S (length bl)) (set_hEnc (call l f) e') sid es true bl Hm2) as (l' & e & Hw & Hsc & He' & _); [lia|].
  exists l', e. split; [done|]. intros ->.
  destruct (writeBlock_cut wr _ _ _ _ _ _ _ Hm2 Hw) as (cs & Hcut & Hlog & _).
  assert (Hmx' : lmaxFrameSize l' = lmaxFrameSize l).
  { destruct Hsc as (_ & _ & _ & _ & _ & _ & _ & -> & _). exact Hmx. }
  cbn [lmaxFrameSize set_hEnc Loopy.log hEnc] in *. rewrite Hmx in Hcut. exists cs. split; [done|]. intros rest.
  destruct (Hread ((cs ≫= call_bytes) ++ rest)) as (e2 & bl2 & Henc2 & H). rewrite Henc in Henc2. injection Henc2 as <- <-.
  destruct (H cs rest Hcut eq_refl) as (fr' & h & d' & E & Hid & Hes & Hex' & Hwi & Hrest & Hd' & Hin').
  assert (HL : maxHeaderListSize fr' = maxHeaderListSize fr).
  { unfold maxHeaderListSize. by rewrite (wi_limit _ _ Hwi). }
  exists fr', h. split_and!; try done. split; [by rewrite Hmx'|by rewrite Hmx'|by rewrite HL|]. exists d'. by rewrite He'.
Qed.
End Path.
