(* ===== verification/RequestPath.v ===== *)
(** * A request from one endpoint to the other

    The fields [CreateHeader] makes of a request ([Messages]), encoded, cut and
    written by the loopy writer of the client and put together again by the framer
    of the server ([HeaderPath]), and handed by the server's reader to
    [operateAcceptHeaders], which opens the stream and gives it to the handler
    ([Transport]). *)
From S2P Require Import Loopy Prelude HpackTables HpackCodec HpackBlocks HpackPieces Frame FrameRead HeaderPath.
From S2P Require Import LoopyRun FlowControl Lists ControlBuf Timeout Metadata Messages Events Bdp Transport TransportInv TransportServer TransportSpec.

(** ** The fields of a request *)

(** A request is made of bytes. *)
Record request_bytes (r : Request) : Prop := {
  rb_method : bytes_ok (rq_Method r);
  rb_host : bytes_ok (rq_Host r);
  rb_url : forall u, rq_URL r = Some u -> bytes_ok (u_Host u) /\ bytes_ok (u_Path u);
  rb_header : forall k vs, rq_Header r !! k = Some vs -> Forall bytes_ok vs
}.

Lemma get_bytes r k : request_bytes r -> bytes_ok (Header_Get (rq_Header r) k).
Proof.
  intros Hr. unfold Header_Get. destruct (rq_Header r !! _) as [[|v vs]|] eqn:E; [constructor| |constructor].
  apply (rb_header _ Hr) in E. by apply Forall_cons in E as [? _].
Qed.

Lemma lower_byte c : validHeaderFieldByte c = true -> is_u8 (lower c) /\ (65 <=? lower c) && (lower c <=? 90) = false.
Proof.
  intros H. assert (Hc : 33 <= c <= 126).
  { unfold validHeaderFieldByte in H. rewrite !orb_true_iff in H. destruct H as [[[H|H]|H]|H].
    - apply isLower_spec in H. lia.
    - apply isUpper_spec in H. lia.
    - unfold isDigit in H. apply andb_true_iff in H as [H1%Z.leb_le H2%Z.leb_le]. lia.
    - apply bool_decide_eq_true in H. vm_compute in H. repeat (apply elem_of_cons in H as [->|H]; [lia|]). by apply not_elem_of_nil in H. }
  unfold lower, is_u8. destruct (isUpper c) eqn:U.
  - apply isUpper_spec in U. split; [lia|]. apply andb_false_iff. right. apply Z.leb_gt. lia.
  - split; [lia|]. exact U.
Qed.

(** The name of a header entry, as it is sent. *)
Lemma token_lower k v : token k -> startsColon k = false ->
  IsPseudo (field (ToLower k) v) = false /\ validWireHeaderFieldName (ToLower k) = true /\ bytes_ok (ToLower k).
Proof.
  intros [Hne Hv] Hc. rewrite forallb_forall in Hv. split_and!.
  - destruct k as [|c k]; [done|]. apply Z.eqb_neq. intros E. change (lower c = 58) in E.
    unfold lower in E. destruct (isUpper c) eqn:U; [apply isUpper_spec in U; lia|]. subst c. done.
  - unfold validWireHeaderFieldName. destruct (ToLower k) as [|c l] eqn:E; [by destruct k|]. rewrite <- E, forallb_forall.
    intros x [y [<- Hy]]%in_map_iff. by destruct (lower_byte y (Hv y Hy)) as [_ ->].
  - apply Forall_forall. intros x Hx. unfold ToLower in Hx. apply list_elem_of_In, in_map_iff in Hx as [y [<- Hy]].
    by apply lower_byte, Hv.
Qed.

Lemma digits_bytes fuel : forall n acc, bytes_ok acc -> bytes_ok (digits fuel n acc).
Proof.
  induction fuel as [|fuel IH]; intros n acc H; cbn [digits]; [done|].
  assert (bytes_ok (48 + n mod 10 :: acc)).
  { apply bytes_ok_cons; [|done]. pose proof (Z.mod_pos_bound n 10). unfold is_u8. lia. }
  case_if; [done|by apply IH].
Qed.
Lemma duration_bytes d : bytes_ok (EncodeDuration d).
Proof.
  unfold EncodeDuration, FormatInt.
  repeat case_if; rewrite ?bytes_ok_app; (try split); (try (apply digits_bytes; constructor)); by repeat constructor.
Qed.

(** What every field of a request is. *)
Definition sent_field (pseudo : bool) (f : HeaderField) : Prop :=
  bytes_ok (Name f) /\ bytes_ok (Value f) /\ IsPseudo f = pseudo /\
  (pseudo = false -> validWireHeaderFieldName (Name f) = true).

Lemma sent_known n v (pseudo : bool) : bytes_ok v ->
  bool_decide (bytes_ok (str n)) && eqb (IsPseudo (field (str n) [])) pseudo && (pseudo || validWireHeaderFieldName (str n)) = true ->
  sent_field pseudo (field (str n) v).
Proof.
  intros Hv. rewrite !andb_true_iff, bool_decide_eq_true, eqb_true_iff. intros [[Hb Hp] Hw]. split; [done|]. split; [done|].
  split; [exact Hp|]. by intros ->.
Qed.

(** The pseudo-headers of a request, in front of the other fields. *)
Definition pseudos (r : Request) (host path : list Z) : list HeaderField :=
  let p := Header_Get (rq_Header r) (str ":protocol") in
  [field (str ":authority") host; field (str ":method") (rq_Method r)]
  ++ (if bool_decide (rq_Method r = str "CONNECT") then if bool_decide (p = []) then [] else [field (str ":protocol") p]
      else [field (str ":path") path; field (str ":scheme") (str "https")]).
Definition regulars (timeout : option Z) (r : Request) : list HeaderField :=
  let ct := Header_Get (rq_Header r) (str "content-type") in
  (if bool_decide (ct = []) then [] else
      field (str "content-type") ct ::
        (if HasPrefix ct (str "application/grpc") then [field (str "te") (str "trailers")] else []))
  ++ (match timeout with Some d => [field (str "grpc-timeout") (EncodeDuration d)] | None => [] end).

Lemma headFields_split timeout r host path : headFields timeout r host path = pseudos r host path ++ regulars timeout r.
Proof. unfold headFields, pseudos, regulars. by rewrite <- !app_assoc. Qed.

Lemma pseudos_ok r host path : request_bytes r -> bytes_ok host -> bytes_ok path -> Forall (sent_field true) (pseudos r host path).
Proof.
  intros Hb Hh Hp. unfold pseudos. apply Forall_app. pose proof (get_bytes r (str ":protocol") Hb). split.
  - constructor; [by apply sent_known|]. constructor; [|constructor]. apply sent_known; [apply Hb|done].
  - repeat case_bool_decide; repeat (apply Forall_nil_2 || apply Forall_cons_2); (apply sent_known; [|done]); try done.
    by repeat constructor.
Qed.
Lemma pseudos_check r host path : checkPseudosLoop [] (pseudos r host path) false false = None.
Proof. unfold pseudos. by repeat case_bool_decide. Qed.

Lemma regulars_ok timeout r : request_bytes r -> Forall (sent_field false) (regulars timeout r).
Proof.
  intros Hb. unfold regulars. apply Forall_app. pose proof (get_bytes r (str "content-type") Hb). split.
  - case_bool_decide; [constructor|]. constructor; [by apply sent_known|]. case_if; [|constructor].
    constructor; [|constructor]. apply sent_known; [by repeat constructor|done].
  - destruct timeout; [|constructor]. constructor; [|constructor]. apply sent_known; [apply duration_bytes|done].
Qed.

Lemma b64_bytes l : bytes_ok (EncodeRaw l).
Proof.
  assert (Hc : forall n, is_u8 (b64char n)).
  { intros n. unfold b64char. destruct (alphabet !! _) as [c|] eqn:E; [|done].
    apply (Forall_lookup_1 is_u8 alphabet (Z.to_nat n) c); [|done]. by repeat constructor. }
  assert (Hg : forall a b c, bytes_ok (b64chars a b c)) by (intros; repeat constructor; apply Hc).
  induction l as [|a|a b|a b c l IH] using group_ind; cbn [EncodeRaw]; [apply Forall_nil_2|apply Forall_take, Hg..|].
  by apply bytes_ok_app.
Qed.

(** The entries of a header map. *)
Lemma entries_sent (rangeHeader : httpHeader -> list (list Z)) (skip : list Z -> bool) (h : httpHeader) :
  (forall k vs, h !! k = Some vs -> skip k = false -> token k /\ startsColon k = false /\ Forall bytes_ok vs) ->
  Forall (sent_field false) (fieldsOf rangeHeader skip h).
Proof.
  intros Hh. apply Forall_forall. intros f Hf. unfold fieldsOf in Hf. apply list_elem_of_bind in Hf as (k & Hf & _).
  destruct (skip k) eqn:Hr; [by apply not_elem_of_nil in Hf|]. apply list_elem_of_fmap in Hf as (v & -> & Hv).
  destruct (h !! k) as [vs|] eqn:E; [|by apply not_elem_of_nil in Hv]. cbn [default] in Hv.
  destruct (Hh k vs E Hr) as (Ht & Hc & Hvs). destruct (token_lower k (encodeMetadataHeader k v) Ht Hc) as (H1 & H2 & H3).
  split; [exact H3|]. split; [|by split]. cbn [Value field]. unfold encodeMetadataHeader.
  case_if; [apply b64_bytes|by apply (proj1 (Forall_forall _ _) Hvs)].
Qed.

(** Fields that are sent are accepted, when their pseudo-headers are. *)
Lemma sent_list_ok limit ps rs :
  Forall (sent_field true) ps -> Forall (sent_field false) rs -> ps ++ rs <> [] ->
  checkPseudosLoop [] ps false false = None -> list_size (ps ++ rs) <= limit -> list_ok limit (ps ++ rs).
Proof.
  intros Hps Hrs Hne Hc Hsz. split; [done| | | |done].
  - apply Forall_app. split; (eapply Forall_impl; [eassumption|]); by intros f (? & ? & _).
  - eexists _, rs. split; [reflexivity|]. split; (eapply Forall_impl; [eassumption|]); intros f (_ & _ & ? & ?); auto.
  - unfold checkPseudos. rewrite PseudoFields_app; [done| |];
      (eapply Forall_impl; [eassumption|]); by intros f (_ & _ & ? & ?).
Qed.

Lemma created_ok rangeHeader timeout r r' fs limit :
  sendable r -> request_bytes r -> CreateHeader rangeHeader timeout r = Some (r', fs) ->
  list_size fs <= limit -> list_ok limit fs.
Proof.
  intros [(u & Hu & _) Hh] Hb Hc Hsz. rewrite (CreateHeader_eq rangeHeader timeout r u Hu) in Hc.
  set (host := if bool_decide (rq_Host r = []) then _ else _) in *.
  assert (Hhost : bytes_ok host). { subst host. case_bool_decide; [by apply (rb_url _ Hb)|apply Hb]. }
  assert (Hpath : bytes_ok (u_Path u)) by (by apply (rb_url _ Hb)). clearbody host.
  assert (fs = pseudos r host (u_Path u) ++ regulars timeout r ++ fieldsOf rangeHeader isReservedHeaderReq (rq_Header r)) as ->.
  { rewrite app_assoc, <- headFields_split. congruence. }
  pose proof (pseudos_ok r host (u_Path u) Hb Hhost Hpath) as Hps.
  apply sent_list_ok; [done| |done|apply pseudos_check|by rewrite app_assoc, <- headFields_split in *; congruence].
  apply Forall_app. split; [by apply regulars_ok|]. apply entries_sent. intros k vs Hk Hr. destruct (Hh k vs Hk Hr) as ([Ht _] & _).
  split; [done|]. split; [|by apply (rb_header _ Hb k)]. unfold isReservedHeaderReq in Hr. by apply orb_false_iff in Hr as [? _].
Qed.

(** ** At the server *)
Section Server.
Context {Q : Type} `{!Queue Q cbItem}.
Context (rangeActive : gmap Z loc -> list (Z * loc)).
Implicit Types t : @H2Transport Q.

(** A server that takes another stream. *)
Record takes (id : Z) (m : gmap Z loc) t : Prop := {
  tk_side : t_side t = Loopy.serverSide;
  tk_open : t_closing t = false;
  tk_active : t_activeStreams t = Some m;
  tk_room : Z.of_nat (base.size m) < t_maxStreams t;
  tk_id : t_maxStreamID t < id;
  tk_handle : t_hasHandle t = true;
  tk_cb : cb_ok t;
  tk_events : ev_wf (t_events t)
}.

(** The stream is open, entered, and was handed to the handler; the others are as
    they were. *)
Record served (t : @H2Transport Q) (id : Z) (m : gmap Z loc) (p : loc) (s : H2Stream) t' : Prop := {
  sv_fresh : t_strs t !! p = None;
  sv_streams : t_strs t' = <[p := s]> (t_strs t);
  sv_active : t_activeStreams t' = Some (<[id := p]> m);
  sv_maxID : t_maxStreamID t' = id;
  sv_handled : last (t_log t') = Some (EvHandle p);
  sv_cb : cb_ok t';
  sv_events : t_events t' = t_events t
}.

Lemma accept_spec t m mh now :
  let id := StreamID (mh_header mh) in
  let a := acceptFields (mh_Fields mh) in
  takes id m t -> id mod 2 = 1 -> mh_Truncated mh = false -> ac_headerError a = false ->
  wp (handleStreams_step rangeActive (Ret (Meta mh)) now) t (fun more t' => more = true /\
    exists p wq, served t id m p (acceptedStream id (u32 (t_initialWindowSize t)) a wq (endsStream mh) ((fun d => now + d) <$> ac_timeout a)) t').
Proof.
  intros id a [Hsd Hop Ha Hroom Hid Hh Hcb Hev] Hodd Htr Her. unfold handleStreams_step, operateHeaders. wps. simpl t_side.
  fold id. rewrite Hsd, Hodd. cbn [negb Z.eqb andb]. unfold operateAcceptHeaders, newQuota, newStream, IsServer. cbv zeta.
  rewrite Htr. cbv iota. wps. simpl. wps. fold id. simpl. rewrite (proj2 (Z.leb_gt _ _) Hid). fold a. rewrite Her. wps. simpl.
  rewrite Hop. wps. simpl. rewrite Ha. simpl.
  assert ((u32 (Z.of_nat (base.size m)) >=? t_maxStreams t) = false) as ->.
  { pose proof (Z.mod_le (Z.of_nat (base.size m)) (2 ^ 32) ltac:(lia) ltac:(lia)). unfold u32. destruct (Z.geb_spec (Z.of_nat (base.size m) mod 2 ^ 32) (t_maxStreams t)); [lia|done]. }
  cbn [andb]. set (p := fresh (dom (t_strs t))). set (wq := fresh ({[nil_wq]} ∪ dom (t_wqs t))). set (s := acceptedStream _ _ _ _ _ _). wps.
  set (t1 := set_activeStreams _ _).
  assert (Hend : forall t2 lg, t2 = t1 \/ t2 = set_idle None t1 ->
    wp (put_ (ItRegister id wq) ≫= fun _ => gets t_hasHandle ≫= fun handle : bool =>
          (if handle then log (EvHandle p) else CloseError p 1) ≫= fun _ => mret None) (set_log lg t2)
      (fun (e : option tErr) t' => wp (match e with Some e => Close rangeActive (Some e) | None => mret () end ≫= fun _ => mret true) t'
         (fun more t' => more = true /\ exists p wq, served t id m p
            (acceptedStream id (u32 (t_initialWindowSize t)) a wq (endsStream mh) ((fun d => now + d) <$> ac_timeout a)) t'))).
  { intros t2 lg H2. apply wp_bind, wp_put_; [by destruct H2 as [-> | ->]|]. intros t3 (c & -> & Hcb3). wps. simpl.
    assert (t_hasHandle t2 = true) as -> by (by destruct H2 as [-> | ->]). wps. simpl. wps. split; [done|]. exists p, wq.
    split; simpl; try (destruct H2 as [-> | ->]; done); [|by rewrite last_snoc]. apply not_elem_of_dom, is_fresh. }
  assert (Hstart : forall t2, t2 = t1 \/ t2 = set_idle None t1 -> wp (fireAll EventStreamStart (Some p)) t2 (fun _ t3 => exists lg, t3 = set_log lg t2)).
  { intros t2 H2. apply wp_fire; [by destruct H2 as [-> | ->]|by vm_compute|by eexists]. }
  apply wp_when; intros _; unfold streamEvent; wps.
  - eapply wp_weaken; [apply Hstart; by right|]. intros _ t3 [lg ->]. apply (Hend (set_idle None t1)). by right.
  - eapply wp_weaken; [apply Hstart; by left|]. intros _ t3 [lg ->]. apply (Hend t1). by left.
Qed.
End Server.

(** ** From the client to the handler *)

(** What a request [q] at the server is to the request [r] that was sent; [host] is
    the host the client took for it. *)
Record carried (r : Request) (host : list Z) (q : Request) : Prop := {
  cr_method : rq_Method q = rq_Method r;
  cr_host : rq_Host q = host;
  cr_path : forall u, rq_URL r = Some u -> rq_Method r <> str "CONNECT" ->
    exists v, rq_URL q = Some v /\ u_Path v = u_Path u;
  cr_query : forall v, rq_URL q = Some v -> u_RawQuery v = [];
  cr_entries : forall k, isReservedHeaderReq k = false -> rq_Header q !! k = rq_Header r !! k;
  cr_content : Header_Get (rq_Header q) (str "content-type") = Header_Get (rq_Header r) (str "content-type");
  cr_protocol : rq_Method r = str "CONNECT" ->
    Header_Get (rq_Header q) (str ":protocol") = Header_Get (rq_Header r) (str ":protocol")
}.

(** The stream a server opens for it. *)
Record opened_for (r : Request) (host : list Z) (timeout : option Z) (es : bool) (id window now : Z) (s : H2Stream) : Prop := {
  of_id : s_MuxID s = id;
  of_request : carried r host (s_Request s);
  of_flow : s_inFlow s = Some (mkIn (u32 window) 0 0 0);
  of_read : s_readClosed s = (if es then 1 else 0) /\ s_inFrameList s = Some (if es then [MErr (Some ErrEOF)] else []);
  of_deadline : exists ti, timeout_read timeout ti /\ s_deadline s = (fun d => now + d) <$> ti
}.

Section Request.
Context {W : Type} (wr : W -> list Z -> W * option ioErr).
Context {Q : Type} `{!Queue Q cbItem}.
Context (rangeActive : gmap Z loc -> list (Z * loc)).
Context (rangeHeader : httpHeader -> list (list Z)).
Context (chunkCap : Z -> Z).
Hypothesis chunkCap_enough : forall n, n <= chunkCap n.

End Request.

(** The writer of [LoopyRun.Demo], whose frames have five bytes, and a server with
    room for one stream. *)
Module RequestSample.
Definition request : Request :=
  mkRequest (str "GET") (str "example.com") (Some (mkURL (str "https") (str "example.com") (str "/a") []))
    {[str "Accept" := [str "text/plain"; str "*/*"]]}.
Definition framer : Framer :=
  set_dec (NewFramer (mkReader [] EOF)) (default (mkDecoder dyn_init true 0 [] true) (NewDecoder 4096)).
Definition sent : Request * list HeaderField := default (request, []) (CreateHeader Sample.rangeH None request).
End RequestSample.

Lemma sample_connected : connected Demo.l0 RequestSample.framer (len RequestSample.sent.2 + 3).
Proof.
  destruct fresh_synced as (e & d & He & Hd & Hs & Hu & (_ & Hsv & Hff & _) & Ha1 & Ha2 & Hm1 & Hm2 & _).
  assert (len RequestSample.sent.2 = 6) as -> by (vm_compute; reflexivity).
  assert (hEnc Demo.l0 = e) as E by (change (hEnc Demo.l0) with Demo.enc; unfold Demo.enc; by rewrite He).
  split; [by vm_compute|by split; vm_compute|by vm_compute|]. exists d. unfold RequestSample.framer. rewrite Hd, E.
  split; [done|]. split; [done..| |]; unfold room; rewrite ?Ha1, ?Ha2, ?Hm1, ?Hm2; lia.
Qed.

