(* ===== verification/ResponsePath.v ===== *)
(** * A response from one endpoint to the other

    The fields [writeResponseHeaders] and [writeTrailer] make of a response
    ([Messages]), written as two header blocks by the loopy writer of the server
    and read by the framer of the client ([HeaderPath]), and handed by the client's
    reader to [operateResponseHeaders], which keeps them in the stream
    ([Transport]). *)
From S2P Require Import Loopy Prelude HpackTables HpackCodec HpackBlocks HpackPieces Frame FrameRead HeaderPath.
From S2P Require Import LoopyRun FlowControl Lists ControlBuf Timeout Metadata Messages Events Bdp Transport.
From S2P Require Import TransportInv TransportServer TransportSpec RequestPath.

(** ** The fields of a response *)
Definition header_bytes (h : httpHeader) : Prop := forall k vs, h !! k = Some vs -> Forall bytes_ok vs.

Lemma entries_md rangeHeader skip h : sendable_headers skip h -> header_bytes h ->
  Forall (sent_field false) (fieldsOf rangeHeader isReservedHeader h).
Proof.
  intros Hh Hb. apply entries_sent. intros k vs Hk _. destruct (Hh k vs Hk) as (Hc & [Ht _] & _).
  split; [done|]. split; [done|]. by apply (Hb k).
Qed.

Lemma response_ok rangeHeader skip r code limit :
  0 <= code < 1000 -> rs_Status r = FormatInt code -> sendable_headers skip (rs_Header r) -> header_bytes (rs_Header r) ->
  list_size (responseFields rangeHeader r) <= limit -> list_ok limit (responseFields rangeHeader r).
Proof.
  intros Hc Hst Hh Hb Hsz. unfold responseFields, appendHeaderFieldsFromMD in *.
  apply sent_list_ok; [| |done|done|done].
  - apply Forall_cons_2; [|apply Forall_nil_2]. apply sent_known; [|done]. case_bool_decide; [by repeat constructor|].
    rewrite Hst. apply digits_bytes. constructor.
  - by eapply entries_md.
Qed.

Lemma trailer_ok rangeHeader skip r limit :
  sendable_headers skip (rs_Trailer r) -> header_bytes (rs_Trailer r) -> trailerFields rangeHeader r <> [] ->
  list_size (trailerFields rangeHeader r) <= limit -> list_ok limit (trailerFields rangeHeader r).
Proof.
  intros Hh Hb Hne Hsz. unfold trailerFields, appendHeaderFieldsFromMD in *.
  apply sent_list_ok; [apply Forall_nil_2| |done|done|done]. by eapply entries_md.
Qed.

(** ** At the client *)
Section Client.
Context {Q : Type} `{!Queue Q cbItem}.
Context (rangeActive : gmap Z loc -> list (Z * loc)).
Implicit Types t : @H2Transport Q.

(** What a header list makes of the stream it is for. *)
Definition with_headers (s : H2Stream) (es : bool) (fs : list HeaderField) : H2Stream :=
  let trailer := s_headerChanClosed s in
  let s := with_Response s (readResponse trailer (s_Response s) fs) in
  let s := if trailer then s else with_headerChan (with_headerChanClosed s true) ClosedChan in
  if es then
    let s := read_closed s 1 (Some ErrEOF) in
    with_inFrameList s ((fun l => l ++ [MErr (Some ErrEOF)]) <$> s_inFrameList s)
  else s.

Lemma response_spec t m p s mh detail now :
  let id := StreamID (mh_header mh) in
  cb_ok t -> t_side t = Loopy.clientSide -> t_activeStreams t = Some m -> m !! id = Some p -> t_strs t !! p = Some s ->
  id mod 2 = 1 -> mh_Truncated mh = false -> (s_headerChanClosed s = true -> endsStream mh = true) ->
  (s_headerChanClosed s = false -> s_headerChan s = OpenChan) ->
  wp (reader_step rangeActive (Ret (Meta mh)) detail now) t (fun more t' => more = true /\
    streams_become t (<[p := with_headers s (endsStream mh) (mh_Fields mh)]> (t_strs t)) t').
Proof.
  intros id Hcb Hsd Ha Hm Hs Hodd Htr Htrail Hch. unfold reader_step, operateClientResponseHeaders, IsServer. wps. simpl t_side. fold id.
  rewrite Hsd, Hodd. simpl. unfold operateResponseHeaders, getStream. wps. simpl. fold id. rewrite Ha. simpl. rewrite Hm.
  set (t1 := set_LastRead now t). assert (H1 : streams_become t (t_strs t) t1) by (by split).
  rewrite <- (at_p_id t1 p s) by done. apply wp_bind, wp_getS_at. cbv zeta.
  assert (s_headerChanClosed s && negb (endsStream mh) = false) as ->.
  { destruct (s_headerChanClosed s); [|done]. by rewrite Htrail. }
  rewrite Htr. cbv iota. apply wp_bind, wp_updS_at, wp_bind.
  set (s1 := with_Response s _). set (s2 := if s_headerChanClosed s then s1 else with_headerChan (with_headerChanClosed s1 true) ClosedChan).
  assert (Hsb : forall s', streams_become t (<[p := s']> (t_strs t)) (at_p t1 p s')) by (by split).
  assert (Hend : wp (when (endsStream mh) (setReadClosed p 1 (Some ErrEOF) ≫= fun _ => queueReadBuf p (MErr (Some ErrEOF)))) (at_p t1 p s2)
    (fun _ t' => wp (mret true) t' (fun more t' => more = true /\
       streams_become t (<[p := with_headers s (endsStream mh) (mh_Fields mh)]> (t_strs t)) t'))).
  { unfold with_headers. fold s1. fold s2. destruct (endsStream mh); simpl; [|wps; by split].
    apply wp_bind, wp_setReadClosed_at. apply wp_updS_at. wps. by split. }
  destruct (s_headerChanClosed s); simpl; [by apply wp_ret|].
  apply wp_bind, wp_updS_at. rewrite (Hch eq_refl). by apply wp_bind, (wp_lift _ ClosedChan), wp_updS_at.
Qed.
End Client.

(** ** From the server to the stream of the client *)

(** A stream of a client that waits for its response. *)
Record waits {Q} (t : @H2Transport Q) (id : Z) (p : loc) (s : H2Stream) : Prop := {
  wa_side : t_side t = Loopy.clientSide;
  wa_active : exists m, t_activeStreams t = Some m /\ m !! id = Some p;
  wa_stream : t_strs t !! p = Some s;
  wa_chan : s_headerChanClosed s = false /\ s_headerChan s = OpenChan;
  wa_new : s_Response s = newResponse;
  wa_odd : id mod 2 = 1
}.

(** What it knows of a response once the trailers came. *)
Record answered (r : Response) (code : Z) (s' : H2Stream) : Prop := {
  an_status : rs_Status (s_Response s') = rs_Status r;
  an_code : rs_StatusCode (s_Response s') = code;
  an_trailer : rs_Trailer (s_Response s') = rs_Trailer r;
  an_header : forall k, rs_Header (s_Response s') !! k = if response_drops (ToLower k) then None else rs_Header r !! k;
  an_woken : s_headerChan s' = ClosedChan /\ s_headerChanClosed s' = true;
  an_ended : s_readClosed s' = 1
}.

Lemma answered_ok rangeHeader r code s :
  ranges rangeHeader -> 0 <= code < 1000 -> rs_Status r = FormatInt code ->
  sendable_headers (fun k => response_drops (ToLower k)) (rs_Header r) -> sendable_headers (fun _ => false) (rs_Trailer r) ->
  s_headerChanClosed s = false -> s_Response s = newResponse ->
  answered r code (with_headers (with_headers s false (responseFields rangeHeader r)) true (trailerFields rangeHeader r)).
Proof.
  intros Hra Hcode Hst Hh Ht Hcc Hnew.
  destruct (response_roundtrip rangeHeader r code Hra Hcode Hst Hh Ht) as (H1 & H2 & _ & H4 & H5).
  unfold with_headers at 2. rewrite Hcc, Hnew. unfold with_headers. cbn [s_headerChanClosed with_headerChan with_headerChanClosed].
  unfold read_closed. split; case_if; done.
Qed.

#[local] Instance EvFrame_inj : Inj eq eq EvFrame.
Proof. by intros ? ? [= ->]. Qed.

Section Response.
Context {W : Type} (wr : W -> list Z -> W * option ioErr).
Context {Q : Type} `{!Queue Q cbItem}.
Context (rangeActive : gmap Z loc -> list (Z * loc)).
Context (rangeHeader : httpHeader -> list (list Z)).
Context (chunkCap : Z -> Z).
Hypothesis chunkCap_enough : forall n, n <= chunkCap n.

(** A header list is written, read and handed to the stream it is for. *)
Definition passed (l : loopyWriter W) fr n id es fs f (t : @H2Transport Q) p s now : Prop :=
  exists l' e, writeHeader wr l id es fs f = Some (l', e) /\ (e = None ->
    exists cs, Loopy.log l' = Loopy.log (call l f) ++ (EvFrame <$> cs) /\
    forall rest, exists fr' mh t', ReadFrame chunkCap (given fr ((cs ≫= call_bytes) ++ rest)) = (fr', Ret (Meta mh)) /\
      fr' = given fr' rest /\ connected l' fr' n /\ maxHeaderListSize fr' = maxHeaderListSize fr /\
      reader_step rangeActive (Ret (Meta mh)) (errDetail fr') now t = Done t' true /\
      streams_become t (<[p := with_headers s es fs]> (t_strs t)) t').

Lemma list_to_stream l fr n id es fs f (t : @H2Transport Q) m p s now :
  connected l fr (len fs + n) -> 0 <= n -> sid_ok id -> list_ok (maxHeaderListSize fr) fs ->
  cb_ok t -> t_side t = Loopy.clientSide -> t_activeStreams t = Some m -> m !! id = Some p -> t_strs t !! p = Some s ->
  id mod 2 = 1 -> (s_headerChanClosed s = true -> es = true) -> (s_headerChanClosed s = false -> s_headerChan s = OpenChan) ->
  passed l fr n id es fs f t p s now.
Proof.
  intros Hl Hn Hs Hok Hcb Hsd Ha Hm Hst Hodd H1 H2.
  destruct (headers_arrive wr chunkCap chunkCap_enough l fr id es fs n f Hl Hn Hs Hok) as (l' & e & Hw & Hret).
  exists l', e. split; [done|]. intros He. destruct (Hret He) as (cs & Hlog & Hread). exists cs. split; [done|]. intros rest.
  destruct (Hread rest) as (fr' & h & E & Hid & Hes & Hrest & Hcn & HL).
  destruct (wp_elim _ _ _ (response_spec rangeActive t m p s (mkMeta h PriorityParam_zero fs false) (errDetail fr') now Hcb Hsd Ha
    ltac:(simpl; by rewrite Hid) Hst ltac:(simpl; by rewrite Hid) eq_refl
    ltac:(change (endsStream _) with (Has (Flags h) FlagHeadersEndStream); by rewrite Hes) H2)) as (t' & more & Ht' & -> & Hsb).
  change (endsStream _) with (Has (Flags h) FlagHeadersEndStream) in Hsb. rewrite Hes in Hsb.
  eexists fr', _, t'. split_and!; [exact E| |done..|exact Ht'|exact Hsb].
  unfold given. rewrite <- Hrest. by destruct fr' as [[] ? ? ? ? ? ? ?].
Qed.

End Response.

(** The writer of [LoopyRun.Demo] as that of a server, whose frames have five bytes,
    and the client of [SpecSample], which waits on stream 1. *)
Module ResponseSample.
Definition response : Response :=
  mkResponse (str "404") 0 {[str "Server" := [str "a"; str "b"]]} {[str "Grpc-Status" := [str "0"]]}.
Definition hs := responseFields Sample.rangeH response.
Definition ts := trailerFields Sample.rangeH response.
End ResponseSample.

